(** * dm-thin: the runtime I/O engine of the thin-provisioning target

    A shallow embedding of [drivers/md/dm-thin.c]: the bio prison, the
    deferred set, the mapping functions run by the worker and the
    fast-path map function, followed by the properties the design
    document states about them.

    Conventions.
    - C objects that are referred to through pointers (bios, cells,
      new_mappings, endio hooks) are identified by an address, a [nat].
    - [unsigned] and [int] values are [Z] with the wrap-around written
      out ([u32], [u64], [s32]).
    - kernel lists keep their order: [list_add] links at the head,
      [bio_list_add] and [bio_list_merge] link at the tail,
      [list_splice_init] moves a whole list in front of another.
    - code run with a spinlock held is one atomic step. *)

From stdpp Require Import base numbers list gmap strings.

Local Open Scope Z_scope.

(** ** Machine integers *)

Definition u32 (z : Z) : Z := z mod 2 ^ 32.
Definition u64 (z : Z) : Z := z mod 2 ^ 64.

(** Conversion of an [unsigned] to [int], as gcc does it. *)
Definition s32 (z : Z) : Z :=
  let u := u32 z in if decide (u < 2 ^ 31) then u else u - 2 ^ 32.

(** ** Tunable constants *)

Definition DEFERRED_SET_SIZE : nat := 64%nat.

(** ** Addresses *)

Definition bio_ptr := nat.
Definition cell_ptr := nat.
Definition mapping_ptr := nat.
Definition hook_ptr := nat.

(** ** The bio prison *)

(** [struct cell_key].  [virtual] is an [int] and [dev] a 64-bit
    [dm_thin_id], aligned to eight bytes: the compiler leaves four
    bytes between the two, which no assignment to a field writes.
    [padding] is what these bytes hold. *)
Record cell_key := Cell_key {
  virtual : Z;
  padding : Z;
  dev : Z;
  block : Z;
}.

#[global] Instance cell_key_eq_dec : EqDecision cell_key.
Proof. solve_decision. Defined.

(** [struct cell].  [cell_addr] is the address of the object, the value
    of every [struct cell *] that points to it; the [list] node is the
    position of the cell in its hash chain and [prison] is fixed. *)
Record cell := Cell {
  cell_addr : cell_ptr;
  key : cell_key;
  count : Z;
  bios : list bio_ptr;
}.

(** [struct bio_prison].  [cell_pool] is the set of addresses the
    mempool has handed out and not got back. *)
Record bio_prison := Bio_prison {
  cell_pool : gset cell_ptr;
  nr_buckets : Z;
  hash_mask : Z;
  cells : list (list cell);
}.

Definition set_cells (f : list (list cell) -> list (list cell))
    (prison : bio_prison) : bio_prison :=
  {| cell_pool := cell_pool prison; nr_buckets := nr_buckets prison;
     hash_mask := hash_mask prison; cells := f (cells prison) |}.

Definition set_cell_pool (f : gset cell_ptr -> gset cell_ptr)
    (prison : bio_prison) : bio_prison :=
  {| cell_pool := f (cell_pool prison); nr_buckets := nr_buckets prison;
     hash_mask := hash_mask prison; cells := cells prison |}.

(** The loop of [calc_nr_buckets]: [while (n < nr_cells) n <<= 1] on a
    [uint32_t]; [None] when the fuel runs out. *)
Fixpoint calc_nr_buckets_loop (fuel : nat) (n nr_cells : Z) : option Z :=
  if decide (n < nr_cells) then
    match fuel with
    | O => None
    | S fuel => calc_nr_buckets_loop fuel (u32 (Z.shiftl n 1)) nr_cells
    end
  else Some n.

Definition calc_nr_buckets (nr_cells : Z) : option Z :=
  let n := 128 in
  let nr_cells := nr_cells / 4 in
  let nr_cells := Z.min nr_cells 8192 in
  calc_nr_buckets_loop 32 n nr_cells.

Definition prison_create (nr_cells : Z) : option bio_prison :=
  match calc_nr_buckets nr_cells with
  | Some nr_buckets =>
      Some {| cell_pool := ∅;
              nr_buckets := nr_buckets;
              hash_mask := u32 (nr_buckets - 1);
              cells := replicate (Z.to_nat nr_buckets) [] |}
  | None => None
  end.

Definition BIG_PRIME : Z := 4294967291.

Definition hash_key (prison : bio_prison) (key : cell_key) : Z :=
  let hash := u64 (block key * BIG_PRIME) in
  u32 (Z.land hash (hash_mask prison)).

(** [prison->cells + hash] *)
Definition bucket (prison : bio_prison) (hash : Z) : list cell :=
  default [] (cells prison !! Z.to_nat hash).

(** [memcmp] of the two keys over [sizeof(cell->key)]: the three
    fields and the padding are compared. *)
Fixpoint __search_bucket (bucket : list cell) (k : cell_key) : option cell :=
  match bucket with
  | [] => None
  | cell :: tmp =>
      if decide (key cell = k) then Some cell else __search_bucket tmp k
  end.

(** A store through a [struct cell *]. *)
Definition cell_store (p : cell_ptr) (f : cell -> cell)
    (table : list (list cell)) : list (list cell) :=
  map (map (fun c => if decide (cell_addr c = p) then f c else c)) table.

(** A load through a [struct cell *]. *)
Definition cell_load (p : cell_ptr) (table : list (list cell)) : option cell :=
  snd <$> list_find (fun c => cell_addr c = p) (mjoin table).

(** [mempool_alloc(prison->cell_pool, GFP_NOIO)]: waits for memory and
    does not fail.  The sequential model picks the first free address. *)
Definition mempool_alloc (prison : bio_prison) : cell_ptr * bio_prison :=
  let cell2 := fresh (cell_pool prison) in
  (cell2, set_cell_pool (fun live => {[cell2]} ∪ live) prison).

Definition mempool_free (cell : cell_ptr) (prison : bio_prison) : bio_prison :=
  set_cell_pool (fun live => live ∖ {[cell]}) prison.

(** Lines 231-242 of [bio_detain], lock held and [cell2] allocated:
    search again, and link [cell2] when the key is still absent; the
    [memcpy] gives the cell the whole key, padding included.
    Returns [cell] and what is left in [cell2]. *)
Definition detain_recheck (prison : bio_prison) (hash : Z) (k : cell_key)
    (cell2 : cell_ptr) : cell_ptr * option cell_ptr * bio_prison :=
  match __search_bucket (bucket prison hash) k with
  | Some cell => (cell_addr cell, Some cell2, prison)
  | None =>
      let cell := {| cell_addr := cell2; key := k; count := 0; bios := [] |} in
      (cell2, None,
       set_cells (fun t => <[Z.to_nat hash := cell :: bucket prison hash]> t)
                 prison)
  end.

(** [cell->count++; bio_list_add(&cell->bios, inmate)] on the cell. *)
Definition add_inmate (inmate : bio_ptr) (c : cell) : cell :=
  {| cell_addr := cell_addr c; key := key c;
     count := u32 (count c + 1); bios := bios c ++ [inmate] |}.

(** Lines 245-246: [r = cell->count++; bio_list_add(&cell->bios, inmate)]. *)
Definition detain_inmate (prison : bio_prison) (cell : cell_ptr)
    (inmate : bio_ptr) : Z * bio_prison :=
  let r := match cell_load cell (cells prison) with
           | Some c => s32 (count c)
           | None => 0
           end in
  (r, set_cells (cell_store cell (add_inmate inmate)) prison).

(** Lines 225-247, the second critical section of [bio_detain]. *)
Definition detain_locked (prison : bio_prison) (hash : Z) (k : cell_key)
    (inmate : bio_ptr) (cell2 : cell_ptr)
    : Z * cell_ptr * option cell_ptr * bio_prison :=
  let '(cell, cell2, prison) := detain_recheck prison hash k cell2 in
  let '(r, prison) := detain_inmate prison cell inmate in
  (r, cell, cell2, prison).

(** Lines 249-250: [if (cell2) mempool_free(cell2, prison->cell_pool)]. *)
Definition detain_free (cell2 : option cell_ptr) (prison : bio_prison)
    : bio_prison :=
  match cell2 with
  | Some cell2 => mempool_free cell2 prison
  | None => prison
  end.

(** [bio_detain], run without interference.  [None] is [BUG_ON]. *)
Definition bio_detain (prison : bio_prison) (k : cell_key) (inmate : bio_ptr)
    : option (Z * cell_ptr * bio_prison) :=
  let hash := hash_key prison k in
  if decide (hash > nr_buckets prison) then None else
  match __search_bucket (bucket prison hash) k with
  | Some cell =>
      let '(r, prison) := detain_inmate prison (cell_addr cell) inmate in
      Some (r, cell_addr cell, prison)
  | None =>
      let '(cell2, prison) := mempool_alloc prison in
      let '(r, cell, cell2, prison) :=
        detain_locked prison hash k inmate cell2 in
      Some (r, cell, detain_free cell2 prison)
  end.

(** [__cell_release]: unlink the cell, give its bios to [inmates] (when
    the pointer is not NULL) and free it. *)
Definition __cell_release (cell : cell_ptr) (inmates : option (list bio_ptr))
    (prison : bio_prison) : option (list bio_ptr) * bio_prison :=
  let cell_bios := match cell_load cell (cells prison) with
                   | Some c => bios c
                   | None => []
                   end in
  let prison :=
    set_cells (map (filter (fun c => cell_addr c ≠ cell))) prison in
  (option_map (fun l => l ++ cell_bios) inmates, mempool_free cell prison).

Definition cell_release (cell : cell_ptr) (bios : list bio_ptr)
    (prison : bio_prison) : list bio_ptr * bio_prison :=
  let '(inmates, prison) := __cell_release cell (Some bios) prison in
  (default bios inmates, prison).

(** [cell_release_singleton]; [None] is one of the two [BUG_ON]s. *)
Definition cell_release_singleton (cell : cell_ptr) (bio : bio_ptr)
    (prison : bio_prison) : option bio_prison :=
  let '(bios, prison) := cell_release cell [] prison in
  match bios with
  | [b] => if decide (b = bio) then Some prison else None
  | _ => None
  end.

(** ** Bios, endio hooks and new mappings *)

(** The three completion functions a bio of this target can carry:
    the one the host installed, and the two hooks of this file. *)
Inductive bio_end_io_t :=
  | host_end_io
  | overwrite_endio_fn
  | shared_read_endio_fn.

#[global] Instance bio_end_io_t_eq_dec : EqDecision bio_end_io_t.
Proof. solve_decision. Defined.

(** [struct thin_c]; there is one pool, so the [pool] field is left out. *)
Record thin_c := Thin_c {
  pool_dev : Z;
  dev_id : Z;
  td : Z;
}.

(** What [dm_get_mapinfo(bio)->ptr] points to. *)
Inductive map_info :=
  | ptr_thin_c (tc : thin_c)
  | ptr_new_mapping (m : mapping_ptr)
  | ptr_endio_hook (h : hook_ptr).

Record bio := Bio {
  bi_rw : Z;
  bi_sector : Z;
  bi_size : Z;
  bi_bdev : Z;
  bi_end_io : bio_end_io_t;
  bi_map_info : map_info;
}.

(** [struct endio_hook]; [entry] is the index of the deferred-set slot. *)
Record endio_hook := Endio_hook {
  h_tc : thin_c;
  h_saved_bi_end_io : bio_end_io_t;
  entry : nat;
}.

(** The state of an intrusive [struct list_head] node: pointing to
    itself ([list_empty] holds), linked on a list, or left with the
    poison pointers of [list_del]. *)
Inductive list_head := LIST_INIT | LIST_LINKED | LIST_POISON.

#[global] Instance list_head_eq_dec : EqDecision list_head.
Proof. solve_decision. Defined.

(** [struct new_mapping]; [m_list] is the [list] node. *)
Record new_mapping := New_mapping {
  m_list : list_head;
  prepared : Z;
  m_tc : thin_c;
  virt_block : Z;
  data_block : Z;
  m_cell : cell_ptr;
  err : Z;
  m_bio : option bio_ptr;
  saved_bi_end_io : bio_end_io_t;
}.

Definition set_m_list (v : list_head) (m : new_mapping) : new_mapping :=
  {| m_list := v; prepared := prepared m; m_tc := m_tc m;
     virt_block := virt_block m; data_block := data_block m;
     m_cell := m_cell m; err := err m; m_bio := m_bio m;
     saved_bi_end_io := saved_bi_end_io m |}.

Definition set_prepared (v : Z) (m : new_mapping) : new_mapping :=
  {| m_list := m_list m; prepared := v; m_tc := m_tc m;
     virt_block := virt_block m; data_block := data_block m;
     m_cell := m_cell m; err := err m; m_bio := m_bio m;
     saved_bi_end_io := saved_bi_end_io m |}.

Definition set_m_bio (v : option bio_ptr) (m : new_mapping) : new_mapping :=
  {| m_list := m_list m; prepared := prepared m; m_tc := m_tc m;
     virt_block := virt_block m; data_block := data_block m;
     m_cell := m_cell m; err := err m; m_bio := v;
     saved_bi_end_io := saved_bi_end_io m |}.

Definition set_saved_bi_end_io (v : bio_end_io_t) (m : new_mapping)
    : new_mapping :=
  {| m_list := m_list m; prepared := prepared m; m_tc := m_tc m;
     virt_block := virt_block m; data_block := data_block m;
     m_cell := m_cell m; err := err m; m_bio := m_bio m;
     saved_bi_end_io := v |}.

Definition set_err (v : Z) (m : new_mapping) : new_mapping :=
  {| m_list := m_list m; prepared := prepared m; m_tc := m_tc m;
     virt_block := virt_block m; data_block := data_block m;
     m_cell := m_cell m; err := v; m_bio := m_bio m;
     saved_bi_end_io := saved_bi_end_io m |}.

(** The memory of the new_mappings, by address. *)
Abbreviation mapping_mem := (gmap mapping_ptr new_mapping).

(** *** Kernel list primitives on new_mapping nodes

    A list is the sequence of the nodes linked on it, first node first;
    the nodes themselves live in the memory of the new_mappings. *)

Definition INIT_LIST_HEAD (node : mapping_ptr) (mem : mapping_mem)
    : mapping_mem :=
  alter (set_m_list LIST_INIT) node mem.

Definition list_empty (node : mapping_ptr) (mem : mapping_mem) : bool :=
  match mem !! node with
  | Some m => bool_decide (m_list m = LIST_INIT)
  | None => false
  end.

Definition list_add (new : mapping_ptr) (head : list mapping_ptr)
    (mem : mapping_mem) : list mapping_ptr * mapping_mem :=
  (new :: head, alter (set_m_list LIST_LINKED) new mem).

Definition list_del (node : mapping_ptr) (mem : mapping_mem) : mapping_mem :=
  alter (set_m_list LIST_POISON) node mem.

(** [list_splice_init(list, head)]: returns the new [list] and [head]. *)
Definition list_splice_init (l head : list mapping_ptr)
    : list mapping_ptr * list mapping_ptr :=
  ([], l ++ head).

(** ** The deferred set *)

Record deferred_entry := Deferred_entry {
  de_count : Z;
  work_items : list mapping_ptr;
}.

Record deferred_set := Deferred_set {
  current_entry : nat;
  sweeper : nat;
  entries : list deferred_entry;
}.

Definition set_entry (i : nat) (f : deferred_entry -> deferred_entry)
    (ds : deferred_set) : deferred_set :=
  {| current_entry := current_entry ds; sweeper := sweeper ds;
     entries := alter f i (entries ds) |}.

Definition set_count (v : Z) (e : deferred_entry) : deferred_entry :=
  {| de_count := v; work_items := work_items e |}.

Definition set_work_items (v : list mapping_ptr) (e : deferred_entry)
    : deferred_entry :=
  {| de_count := de_count e; work_items := v |}.

Definition ds_init : deferred_set :=
  {| current_entry := 0; sweeper := 0;
     entries := replicate DEFERRED_SET_SIZE
                  {| de_count := 0; work_items := [] |} |}.

(** [ds_inc]: the entry is returned as its index; [None] when
    [current_entry] is outside the array. *)
Definition ds_inc (ds : deferred_set) : option (nat * deferred_set) :=
  match entries ds !! current_entry ds with
  | Some e =>
      Some (current_entry ds,
            set_entry (current_entry ds) (set_count (u32 (de_count e + 1))) ds)
  | None => None
  end.

Definition ds_next (index : nat) : nat :=
  ((index + 1) `mod` DEFERRED_SET_SIZE)%nat.

(** The [while] loop of [__sweep]; [None] when the fuel runs out or an
    index is outside the array. *)
Fixpoint __sweep_loop (fuel : nat) (ds : deferred_set)
    (head : list mapping_ptr) : option (deferred_set * list mapping_ptr) :=
  match entries ds !! sweeper ds with
  | None => None
  | Some e =>
      if decide (sweeper ds ≠ current_entry ds ∧ de_count e = 0) then
        match fuel with
        | O => None
        | S fuel =>
            let '(l, head) := list_splice_init (work_items e) head in
            let ds := set_entry (sweeper ds) (set_work_items l) ds in
            let ds := {| current_entry := current_entry ds;
                         sweeper := ds_next (sweeper ds);
                         entries := entries ds |} in
            __sweep_loop fuel ds head
        end
      else Some (ds, head)
  end.

Definition __sweep (ds : deferred_set) (head : list mapping_ptr)
    : option (deferred_set * list mapping_ptr) :=
  match __sweep_loop DEFERRED_SET_SIZE ds head with
  | None => None
  | Some (ds, head) =>
      match entries ds !! sweeper ds with
      | None => None
      | Some e =>
          if decide (sweeper ds = current_entry ds ∧ de_count e = 0) then
            let '(l, head) := list_splice_init (work_items e) head in
            Some (set_entry (sweeper ds) (set_work_items l) ds, head)
          else Some (ds, head)
      end
  end.

(** [ds_dec]; [None] is [BUG_ON(!entry->count)] (or one of the failures
    of [__sweep]). *)
Definition ds_dec (entry : nat) (head : list mapping_ptr) (ds : deferred_set)
    : option (deferred_set * list mapping_ptr) :=
  match entries ds !! entry with
  | None => None
  | Some e =>
      if decide (de_count e = 0) then None
      else __sweep (set_entry entry (set_count (u32 (de_count e - 1))) ds) head
  end.

(** [ds_add_work]: returns 1 if deferred or 0 if no pending items to
    delay the job; [work] is the node of a new_mapping. *)
Definition ds_add_work (ds : deferred_set) (work : mapping_ptr)
    (mem : mapping_mem) : option (Z * deferred_set * mapping_mem) :=
  match entries ds !! current_entry ds with
  | None => None
  | Some e =>
      if decide (sweeper ds = current_entry ds ∧ de_count e = 0) then
        Some (0, ds, mem)
      else
        let '(l, mem) := list_add work (work_items e) mem in
        let ds := set_entry (current_entry ds) (set_work_items l) ds in
        let next_entry := ds_next (current_entry ds) in
        match entries ds !! next_entry with
        | None => None
        | Some n =>
            let ds := if decide (de_count n = 0)
                      then {| current_entry := next_entry;
                              sweeper := sweeper ds; entries := entries ds |}
                      else ds in
            Some (1, ds, mem)
        end
  end.

(** ** What the file takes from the rest of the kernel *)

(** Constants and macros of the kernel headers, which are not part of
    this file: request flags, the return values of a map function, the
    errno values, and [bio_data_dir] and [dm_sector_div_up].
    [uninit_mapping] is what a new_mapping holds when the mempool hands
    it out, and [mapping_alloc_ok] whether a [GFP_ATOMIC] allocation
    succeeds with so many new_mappings in use. *)
Class kernel := {
  REQ_FLUSH : Z;
  REQ_FUA : Z;
  WRITE : Z;
  bio_data_dir : Z -> Z;
  SECTOR_SHIFT : Z;
  DM_MAPIO_SUBMITTED : Z;
  DM_MAPIO_REMAPPED : Z;
  EIO : Z;
  ENOMEM : Z;
  EINVAL : Z;
  ENOSPC : Z;
  ENODATA : Z;
  EWOULDBLOCK : Z;
  dm_sector_div_up : Z -> Z -> Z;
  uninit_mapping : new_mapping;
  mapping_alloc_ok : nat -> bool;
}.

Record dm_thin_lookup_result := Lookup_result {
  lr_block : Z;
  shared : bool;
}.

(** The interface of [dm-thin-metadata.h], over the state [M] of the
    metadata object.  Every function returns its [int] result first. *)
Class thin_metadata (M : Type) := {
  dm_thin_dev_id : Z -> Z;
  dm_thin_find_block : M -> Z -> Z -> Z -> Z * dm_thin_lookup_result * M;
  dm_thin_insert_block : M -> Z -> Z -> Z -> Z * M;
  dm_pool_get_free_block_count : M -> Z * Z;
  dm_pool_alloc_data_block : M -> Z * Z * M;
  dm_pool_commit_metadata : M -> Z * M;
  dm_pool_get_data_dev_size : M -> Z * Z;
  dm_pool_resize_data_dev : M -> Z -> Z * M;
  dm_pool_rebind_metadata_device : M -> Z -> Z * M;
}.

Record dm_io_region := Io_region {
  r_bdev : Z;
  r_sector : Z;
  r_count : Z;
}.

(** The interface of [dm-kcopyd.h], over the state [K] of the client;
    the last argument is the context of the [copy_complete] callback. *)
Class kcopyd (K : Type) := {
  dm_kcopyd_copy : K -> dm_io_region -> dm_io_region -> mapping_ptr -> Z * K;
  dm_kcopyd_zero : K -> dm_io_region -> mapping_ptr -> Z * K;
}.

(** What the code does to the host, in the order it does it. *)
Inductive event :=
  | Ev_generic_make_request (bio : bio_ptr) (bdev sector : Z)
  | Ev_bio_endio (bio : bio_ptr) (error : Z)
  | Ev_queue_work
  | Ev_dm_table_event
  | Ev_dm_kcopyd_copy (from to : dm_io_region) (m : mapping_ptr) (r : Z)
  | Ev_dm_kcopyd_zero (to : dm_io_region) (m : mapping_ptr) (r : Z).

#[global] Instance dm_io_region_eq_dec : EqDecision dm_io_region.
Proof. solve_decision. Defined.

#[global] Instance event_eq_dec : EqDecision event.
Proof. solve_decision. Defined.

(** [struct pool_c] and the part of [struct dm_target] that is read. *)
Record pool_c := Pool_c {
  data_dev : Z;
  metadata_dev : Z;
  pt_low_water_mark : Z;
  pt_zero_new_blocks : bool;
}.

Record dm_target := Dm_target {
  len : Z;
  private : pool_c;
}.

(** ** The pool *)

(** [struct pool], with the two mempools as the memory of the objects
    they handed out, and then the host side: the memory of the bios
    and the trace of the calls made to the host. *)
Record pool {M K : Type} := Pool {
  ti : option dm_target;
  pmd : M;
  sectors_per_block : Z;
  block_shift : Z;
  offset_mask : Z;
  low_water_mark : Z;
  zero_new_blocks : bool;
  prison : bio_prison;
  copier : K;
  deferred_bios : list bio_ptr;
  prepared_mappings : list mapping_ptr;
  low_water_triggered : Z;
  retry_list : list bio_ptr;
  ds : deferred_set;
  next_mapping : option mapping_ptr;
  mapping_pool : mapping_mem;
  endio_hook_pool : gmap hook_ptr endio_hook;
  bio_mem : gmap bio_ptr bio;
  trace : list event;
}.
Arguments pool : clear implicits.
Arguments Pool {M K}.

(** Assignments to the fields of the pool. *)
Section Setters.
Context {M K : Type}.
Implicit Type p : pool M K.

Definition set_ti (v : option dm_target) p : pool M K :=
  {| ti := v;
     pmd := pmd p;
     sectors_per_block := sectors_per_block p;
     block_shift := block_shift p;
     offset_mask := offset_mask p;
     low_water_mark := low_water_mark p;
     zero_new_blocks := zero_new_blocks p;
     prison := prison p;
     copier := copier p;
     deferred_bios := deferred_bios p;
     prepared_mappings := prepared_mappings p;
     low_water_triggered := low_water_triggered p;
     retry_list := retry_list p;
     ds := ds p;
     next_mapping := next_mapping p;
     mapping_pool := mapping_pool p;
     endio_hook_pool := endio_hook_pool p;
     bio_mem := bio_mem p;
     trace := trace p |}.

Definition set_pmd (v : M) p : pool M K :=
  {| ti := ti p;
     pmd := v;
     sectors_per_block := sectors_per_block p;
     block_shift := block_shift p;
     offset_mask := offset_mask p;
     low_water_mark := low_water_mark p;
     zero_new_blocks := zero_new_blocks p;
     prison := prison p;
     copier := copier p;
     deferred_bios := deferred_bios p;
     prepared_mappings := prepared_mappings p;
     low_water_triggered := low_water_triggered p;
     retry_list := retry_list p;
     ds := ds p;
     next_mapping := next_mapping p;
     mapping_pool := mapping_pool p;
     endio_hook_pool := endio_hook_pool p;
     bio_mem := bio_mem p;
     trace := trace p |}.

Definition set_low_water_mark (v : Z) p : pool M K :=
  {| ti := ti p;
     pmd := pmd p;
     sectors_per_block := sectors_per_block p;
     block_shift := block_shift p;
     offset_mask := offset_mask p;
     low_water_mark := v;
     zero_new_blocks := zero_new_blocks p;
     prison := prison p;
     copier := copier p;
     deferred_bios := deferred_bios p;
     prepared_mappings := prepared_mappings p;
     low_water_triggered := low_water_triggered p;
     retry_list := retry_list p;
     ds := ds p;
     next_mapping := next_mapping p;
     mapping_pool := mapping_pool p;
     endio_hook_pool := endio_hook_pool p;
     bio_mem := bio_mem p;
     trace := trace p |}.

Definition set_zero_new_blocks (v : bool) p : pool M K :=
  {| ti := ti p;
     pmd := pmd p;
     sectors_per_block := sectors_per_block p;
     block_shift := block_shift p;
     offset_mask := offset_mask p;
     low_water_mark := low_water_mark p;
     zero_new_blocks := v;
     prison := prison p;
     copier := copier p;
     deferred_bios := deferred_bios p;
     prepared_mappings := prepared_mappings p;
     low_water_triggered := low_water_triggered p;
     retry_list := retry_list p;
     ds := ds p;
     next_mapping := next_mapping p;
     mapping_pool := mapping_pool p;
     endio_hook_pool := endio_hook_pool p;
     bio_mem := bio_mem p;
     trace := trace p |}.

Definition set_prison (v : bio_prison) p : pool M K :=
  {| ti := ti p;
     pmd := pmd p;
     sectors_per_block := sectors_per_block p;
     block_shift := block_shift p;
     offset_mask := offset_mask p;
     low_water_mark := low_water_mark p;
     zero_new_blocks := zero_new_blocks p;
     prison := v;
     copier := copier p;
     deferred_bios := deferred_bios p;
     prepared_mappings := prepared_mappings p;
     low_water_triggered := low_water_triggered p;
     retry_list := retry_list p;
     ds := ds p;
     next_mapping := next_mapping p;
     mapping_pool := mapping_pool p;
     endio_hook_pool := endio_hook_pool p;
     bio_mem := bio_mem p;
     trace := trace p |}.

Definition set_copier (v : K) p : pool M K :=
  {| ti := ti p;
     pmd := pmd p;
     sectors_per_block := sectors_per_block p;
     block_shift := block_shift p;
     offset_mask := offset_mask p;
     low_water_mark := low_water_mark p;
     zero_new_blocks := zero_new_blocks p;
     prison := prison p;
     copier := v;
     deferred_bios := deferred_bios p;
     prepared_mappings := prepared_mappings p;
     low_water_triggered := low_water_triggered p;
     retry_list := retry_list p;
     ds := ds p;
     next_mapping := next_mapping p;
     mapping_pool := mapping_pool p;
     endio_hook_pool := endio_hook_pool p;
     bio_mem := bio_mem p;
     trace := trace p |}.

Definition set_deferred_bios (v : list bio_ptr) p : pool M K :=
  {| ti := ti p;
     pmd := pmd p;
     sectors_per_block := sectors_per_block p;
     block_shift := block_shift p;
     offset_mask := offset_mask p;
     low_water_mark := low_water_mark p;
     zero_new_blocks := zero_new_blocks p;
     prison := prison p;
     copier := copier p;
     deferred_bios := v;
     prepared_mappings := prepared_mappings p;
     low_water_triggered := low_water_triggered p;
     retry_list := retry_list p;
     ds := ds p;
     next_mapping := next_mapping p;
     mapping_pool := mapping_pool p;
     endio_hook_pool := endio_hook_pool p;
     bio_mem := bio_mem p;
     trace := trace p |}.

Definition set_prepared_mappings (v : list mapping_ptr) p : pool M K :=
  {| ti := ti p;
     pmd := pmd p;
     sectors_per_block := sectors_per_block p;
     block_shift := block_shift p;
     offset_mask := offset_mask p;
     low_water_mark := low_water_mark p;
     zero_new_blocks := zero_new_blocks p;
     prison := prison p;
     copier := copier p;
     deferred_bios := deferred_bios p;
     prepared_mappings := v;
     low_water_triggered := low_water_triggered p;
     retry_list := retry_list p;
     ds := ds p;
     next_mapping := next_mapping p;
     mapping_pool := mapping_pool p;
     endio_hook_pool := endio_hook_pool p;
     bio_mem := bio_mem p;
     trace := trace p |}.

Definition set_low_water_triggered (v : Z) p : pool M K :=
  {| ti := ti p;
     pmd := pmd p;
     sectors_per_block := sectors_per_block p;
     block_shift := block_shift p;
     offset_mask := offset_mask p;
     low_water_mark := low_water_mark p;
     zero_new_blocks := zero_new_blocks p;
     prison := prison p;
     copier := copier p;
     deferred_bios := deferred_bios p;
     prepared_mappings := prepared_mappings p;
     low_water_triggered := v;
     retry_list := retry_list p;
     ds := ds p;
     next_mapping := next_mapping p;
     mapping_pool := mapping_pool p;
     endio_hook_pool := endio_hook_pool p;
     bio_mem := bio_mem p;
     trace := trace p |}.

Definition set_retry_list (v : list bio_ptr) p : pool M K :=
  {| ti := ti p;
     pmd := pmd p;
     sectors_per_block := sectors_per_block p;
     block_shift := block_shift p;
     offset_mask := offset_mask p;
     low_water_mark := low_water_mark p;
     zero_new_blocks := zero_new_blocks p;
     prison := prison p;
     copier := copier p;
     deferred_bios := deferred_bios p;
     prepared_mappings := prepared_mappings p;
     low_water_triggered := low_water_triggered p;
     retry_list := v;
     ds := ds p;
     next_mapping := next_mapping p;
     mapping_pool := mapping_pool p;
     endio_hook_pool := endio_hook_pool p;
     bio_mem := bio_mem p;
     trace := trace p |}.

Definition set_ds (v : deferred_set) p : pool M K :=
  {| ti := ti p;
     pmd := pmd p;
     sectors_per_block := sectors_per_block p;
     block_shift := block_shift p;
     offset_mask := offset_mask p;
     low_water_mark := low_water_mark p;
     zero_new_blocks := zero_new_blocks p;
     prison := prison p;
     copier := copier p;
     deferred_bios := deferred_bios p;
     prepared_mappings := prepared_mappings p;
     low_water_triggered := low_water_triggered p;
     retry_list := retry_list p;
     ds := v;
     next_mapping := next_mapping p;
     mapping_pool := mapping_pool p;
     endio_hook_pool := endio_hook_pool p;
     bio_mem := bio_mem p;
     trace := trace p |}.

Definition set_next_mapping (v : option mapping_ptr) p : pool M K :=
  {| ti := ti p;
     pmd := pmd p;
     sectors_per_block := sectors_per_block p;
     block_shift := block_shift p;
     offset_mask := offset_mask p;
     low_water_mark := low_water_mark p;
     zero_new_blocks := zero_new_blocks p;
     prison := prison p;
     copier := copier p;
     deferred_bios := deferred_bios p;
     prepared_mappings := prepared_mappings p;
     low_water_triggered := low_water_triggered p;
     retry_list := retry_list p;
     ds := ds p;
     next_mapping := v;
     mapping_pool := mapping_pool p;
     endio_hook_pool := endio_hook_pool p;
     bio_mem := bio_mem p;
     trace := trace p |}.

Definition set_mapping_pool (v : mapping_mem) p : pool M K :=
  {| ti := ti p;
     pmd := pmd p;
     sectors_per_block := sectors_per_block p;
     block_shift := block_shift p;
     offset_mask := offset_mask p;
     low_water_mark := low_water_mark p;
     zero_new_blocks := zero_new_blocks p;
     prison := prison p;
     copier := copier p;
     deferred_bios := deferred_bios p;
     prepared_mappings := prepared_mappings p;
     low_water_triggered := low_water_triggered p;
     retry_list := retry_list p;
     ds := ds p;
     next_mapping := next_mapping p;
     mapping_pool := v;
     endio_hook_pool := endio_hook_pool p;
     bio_mem := bio_mem p;
     trace := trace p |}.

Definition set_endio_hook_pool (v : gmap hook_ptr endio_hook) p : pool M K :=
  {| ti := ti p;
     pmd := pmd p;
     sectors_per_block := sectors_per_block p;
     block_shift := block_shift p;
     offset_mask := offset_mask p;
     low_water_mark := low_water_mark p;
     zero_new_blocks := zero_new_blocks p;
     prison := prison p;
     copier := copier p;
     deferred_bios := deferred_bios p;
     prepared_mappings := prepared_mappings p;
     low_water_triggered := low_water_triggered p;
     retry_list := retry_list p;
     ds := ds p;
     next_mapping := next_mapping p;
     mapping_pool := mapping_pool p;
     endio_hook_pool := v;
     bio_mem := bio_mem p;
     trace := trace p |}.

Definition set_bio_mem (v : gmap bio_ptr bio) p : pool M K :=
  {| ti := ti p;
     pmd := pmd p;
     sectors_per_block := sectors_per_block p;
     block_shift := block_shift p;
     offset_mask := offset_mask p;
     low_water_mark := low_water_mark p;
     zero_new_blocks := zero_new_blocks p;
     prison := prison p;
     copier := copier p;
     deferred_bios := deferred_bios p;
     prepared_mappings := prepared_mappings p;
     low_water_triggered := low_water_triggered p;
     retry_list := retry_list p;
     ds := ds p;
     next_mapping := next_mapping p;
     mapping_pool := mapping_pool p;
     endio_hook_pool := endio_hook_pool p;
     bio_mem := v;
     trace := trace p |}.

Definition set_trace (v : list event) p : pool M K :=
  {| ti := ti p;
     pmd := pmd p;
     sectors_per_block := sectors_per_block p;
     block_shift := block_shift p;
     offset_mask := offset_mask p;
     low_water_mark := low_water_mark p;
     zero_new_blocks := zero_new_blocks p;
     prison := prison p;
     copier := copier p;
     deferred_bios := deferred_bios p;
     prepared_mappings := prepared_mappings p;
     low_water_triggered := low_water_triggered p;
     retry_list := retry_list p;
     ds := ds p;
     next_mapping := next_mapping p;
     mapping_pool := mapping_pool p;
     endio_hook_pool := endio_hook_pool p;
     bio_mem := bio_mem p;
     trace := v |}.

End Setters.

(** ** The engine *)

Section Engine.
Context `{kernel} {M K : Type} `{!thin_metadata M} `{!kcopyd K}.
Implicit Type p : pool M K.

Definition emit (e : event) p : pool M K := set_trace (trace p ++ [e]) p.

(** Bio lists: [bio_list_add] links at the tail, [bio_list_merge] puts
    the second list behind the first, [bio_list_pop] takes the head. *)
Definition bio_list_add (bl : list bio_ptr) (bio : bio_ptr) : list bio_ptr :=
  bl ++ [bio].

Definition bio_list_merge (bl bl2 : list bio_ptr) : list bio_ptr := bl ++ bl2.

(** Calls to the host. *)
Definition generic_make_request (bio : bio_ptr) p : pool M K :=
  match bio_mem p !! bio with
  | Some b => emit (Ev_generic_make_request bio (bi_bdev b) (bi_sector b)) p
  | None => p
  end.

(** [bio_endio] on a bio that carries the completion function of the
    host: the call completes the bio, an event of the trace.  This is
    the case wherever the file ends a bio but in [remap_and_issue]:
    bios come off the deferred list as the host gave them, a bio that
    [hook_overwrite] has hooked stays in its cell until
    [process_prepared_mapping] has given it its function back, and
    [shared_read_endio] does so before it ends the bio.  For
    [remap_and_issue] see [bio_io_error_hooked]. *)
Definition bio_endio (bio : bio_ptr) (error : Z) p : pool M K :=
  emit (Ev_bio_endio bio error) p.

Definition bio_io_error (bio : bio_ptr) p : pool M K := bio_endio bio (- EIO) p.

(** *** Key building *)

(** [build_data_key] and [build_virtual_key] assign the three fields
    of the caller's [*key], a local variable that was not initialised:
    its padding is left as it was. *)
Definition build_data_key (td b : Z) (key : cell_key) : cell_key :=
  {| virtual := 0; padding := padding key;
     dev := dm_thin_dev_id td; block := b |}.

Definition build_virtual_key (td b : Z) (key : cell_key) : cell_key :=
  {| virtual := 1; padding := padding key;
     dev := dm_thin_dev_id td; block := b |}.

(** *** Prison operations on the pool's prison *)

Definition pool_bio_detain (k : cell_key) (inmate : bio_ptr) p
    : option (Z * cell_ptr * pool M K) :=
  match bio_detain (prison p) k inmate with
  | Some (r, cell, prison') => Some (r, cell, set_prison prison' p)
  | None => None
  end.

Fixpoint cell_error_loop (bios : list bio_ptr) p : pool M K :=
  match bios with
  | [] => p
  | bio :: bios => cell_error_loop bios (bio_io_error bio p)
  end.

Definition cell_error (cell : cell_ptr) p : pool M K :=
  let '(bios, prison') := cell_release cell [] (prison p) in
  cell_error_loop bios (set_prison prison' p).

(** *** Remapping *)

Definition get_bio_block p (bio : bio_ptr) : Z :=
  match bio_mem p !! bio with
  | Some b => Z.shiftr (bi_sector b) (block_shift p)
  | None => 0
  end.

Definition remap (tc : thin_c) (bio : bio_ptr) (block : Z) p : pool M K :=
  set_bio_mem
    (alter (fun b =>
       {| bi_rw := bi_rw b;
          bi_sector := u64 (Z.shiftl block (block_shift p)
                            + Z.land (bi_sector b) (offset_mask p));
          bi_size := bi_size b;
          bi_bdev := pool_dev tc;
          bi_end_io := bi_end_io b;
          bi_map_info := bi_map_info b |}) bio (bio_mem p)) p.

Definition flush_or_fua (bio : bio_ptr) p : bool :=
  match bio_mem p !! bio with
  | Some b => bool_decide (Z.land (bi_rw b) (Z.lor REQ_FLUSH REQ_FUA) ≠ 0)
  | None => false
  end.

Definition wake_worker p : pool M K := emit Ev_queue_work p.

(** *** Bio endio functions *)

Definition __maybe_add_mapping (m : mapping_ptr) p : pool M K :=
  match mapping_pool p !! m with
  | Some mp =>
      if list_empty m (mapping_pool p) && bool_decide (prepared mp ≠ 0) then
        let '(l, mem) := list_add m (prepared_mappings p) (mapping_pool p) in
        wake_worker (set_mapping_pool mem (set_prepared_mappings l p))
      else p
  | None => p
  end.

Definition copy_complete (read_err write_err : Z) (m : mapping_ptr) p
    : pool M K :=
  let e := if decide (read_err ≠ 0 ∨ write_err ≠ 0) then - EIO else 0 in
  let p := set_mapping_pool (alter (set_err e) m (mapping_pool p)) p in
  let p := set_mapping_pool (alter (set_prepared 1) m (mapping_pool p)) p in
  __maybe_add_mapping m p.

Definition overwrite_endio (bio : bio_ptr) (e : Z) p : pool M K :=
  match bi_map_info <$> bio_mem p !! bio with
  | Some (ptr_new_mapping m) =>
      let p := set_mapping_pool (alter (set_err e) m (mapping_pool p)) p in
      let p := set_mapping_pool (alter (set_prepared 1) m (mapping_pool p)) p in
      __maybe_add_mapping m p
  | _ => p
  end.

Definition set_bi_end_io (fn : bio_end_io_t) (b : bio) : bio :=
  {| bi_rw := bi_rw b; bi_sector := bi_sector b; bi_size := bi_size b;
     bi_bdev := bi_bdev b; bi_end_io := fn; bi_map_info := bi_map_info b |}.

Definition set_bi_map_info (v : map_info) (b : bio) : bio :=
  {| bi_rw := bi_rw b; bi_sector := bi_sector b; bi_size := bi_size b;
     bi_bdev := bi_bdev b; bi_end_io := bi_end_io b; bi_map_info := v |}.

(** [shared_read_endio] up to and with [ds_dec]: the bio is completed
    and the drained mappings are on the local list [mappings]. *)
Definition shared_read_endio_dec (bio : bio_ptr) (e : Z) p
    : option (hook_ptr * list mapping_ptr * pool M K) :=
  match bi_map_info <$> bio_mem p !! bio with
  | Some (ptr_endio_hook h) =>
      match endio_hook_pool p !! h with
      | Some hk =>
          let p := set_bio_mem
                     (alter (set_bi_end_io (h_saved_bi_end_io hk)) bio
                            (bio_mem p)) p in
          let p := bio_endio bio e p in
          match ds_dec (entry hk) [] (ds p) with
          | Some (ds', mappings) => Some (h, mappings, set_ds ds' p)
          | None => None
          end
      | None => None
      end
  | _ => None
  end.

(** The loop of [shared_read_endio], with the pool lock held. *)
Fixpoint shared_read_endio_loop (mappings : list mapping_ptr) p : pool M K :=
  match mappings with
  | [] => p
  | m :: tmp =>
      let mem := list_del m (mapping_pool p) in
      let mem := INIT_LIST_HEAD m mem in
      shared_read_endio_loop tmp (__maybe_add_mapping m (set_mapping_pool mem p))
  end.

(** The rest of [shared_read_endio]: the loop, then the hook is freed. *)
Definition shared_read_endio_add (h : hook_ptr) (mappings : list mapping_ptr) p
    : pool M K :=
  let p := shared_read_endio_loop mappings p in
  set_endio_hook_pool (delete h (endio_hook_pool p)) p.

Definition shared_read_endio (bio : bio_ptr) (e : Z) p : option (pool M K) :=
  match shared_read_endio_dec bio e p with
  | Some (h, mappings, p) => Some (shared_read_endio_add h mappings p)
  | None => None
  end.

(** *** Remapping and issuing *)

(** [bio_io_error(bio)] in [remap_and_issue]: the bio can carry a hook
    of this file, and [bio_endio] calls [bio->bi_end_io].  That is
    [overwrite_endio] when [schedule_zero] or [schedule_copy] has
    hooked the bio before issuing it, [shared_read_endio] when
    [process_shared_bio] has, and the function of the host otherwise.
    [None] is what [shared_read_endio] gives. *)
Definition bio_io_error_hooked (bio : bio_ptr) p : option (pool M K) :=
  match bi_end_io <$> bio_mem p !! bio with
  | Some overwrite_endio_fn => Some (overwrite_endio bio (- EIO) p)
  | Some shared_read_endio_fn => shared_read_endio bio (- EIO) p
  | _ => Some (bio_io_error bio p)
  end.

Definition remap_and_issue (tc : thin_c) (bio : bio_ptr) (block : Z) p
    : option (pool M K) :=
  if flush_or_fua bio p then
    let '(r, pmd') := dm_pool_commit_metadata (pmd p) in
    let p := set_pmd pmd' p in
    if decide (r ≠ 0) then bio_io_error_hooked bio p
    else Some (generic_make_request bio (remap tc bio block p))
  else Some (generic_make_request bio (remap tc bio block p)).

(** *** Workqueue *)

Definition io_covers_block p (bio : bio_ptr) : bool :=
  match bio_mem p !! bio with
  | Some b =>
      bool_decide (Z.land (bi_sector b) (offset_mask p) = 0)
      && bool_decide
           (bi_size b = u32 (Z.shiftl (sectors_per_block p) SECTOR_SHIFT))
  | None => false
  end.

(** [ensure_next_mapping]: 0, or [-ENOMEM] when the mempool has nothing. *)
Definition ensure_next_mapping p : Z * pool M K :=
  match next_mapping p with
  | Some _ => (0, p)
  | None =>
      if mapping_alloc_ok (size (mapping_pool p)) then
        let m := fresh (dom (mapping_pool p)) in
        (0, set_next_mapping (Some m)
              (set_mapping_pool (<[m := uninit_mapping]> (mapping_pool p)) p))
      else (- ENOMEM, p)
  end.

(** [get_next_mapping]; [None] is [BUG_ON(!pool->next_mapping)]. *)
Definition get_next_mapping p : option (mapping_ptr * pool M K) :=
  match next_mapping p with
  | Some r => Some (r, set_next_mapping None p)
  | None => None
  end.

(** The assignments at the head of [schedule_copy] and [schedule_zero];
    [saved_bi_end_io] is not assigned. *)
Definition init_mapping (tc : thin_c) (virt data : Z) (cell : cell_ptr)
    (m : new_mapping) : new_mapping :=
  {| m_list := LIST_INIT; prepared := 0; m_tc := tc; virt_block := virt;
     data_block := data; m_cell := cell; err := 0; m_bio := None;
     saved_bi_end_io := saved_bi_end_io m |}.

(** [m->bio = bio; save_and_set_endio(bio, &m->saved_bi_end_io,
    overwrite_endio); dm_get_mapinfo(bio)->ptr = m]. *)
Definition hook_overwrite (m : mapping_ptr) (bio : bio_ptr) p : pool M K :=
  match bio_mem p !! bio with
  | Some b =>
      let p := set_mapping_pool
                 (alter (fun mp => set_saved_bi_end_io (bi_end_io b)
                                     (set_m_bio (Some bio) mp))
                        m (mapping_pool p)) p in
      set_bio_mem
        (alter (fun b => set_bi_map_info (ptr_new_mapping m)
                           (set_bi_end_io overwrite_endio_fn b))
               bio (bio_mem p)) p
  | None => p
  end.

Definition block_region (tc : thin_c) (data : Z) p : dm_io_region :=
  {| r_bdev := pool_dev tc;
     r_sector := u64 (data * sectors_per_block p);
     r_count := sectors_per_block p |}.

(** [None]: [get_next_mapping] hit its [BUG_ON], the deferred set was
    indexed outside its array, or [remap_and_issue] gave [None]. *)
Definition schedule_copy (tc : thin_c) (virt_block data_origin data_dest : Z)
    (cell : cell_ptr) (bio : bio_ptr) p : option (pool M K) :=
  match get_next_mapping p with
  | None => None
  | Some (m, p) =>
      let p := set_mapping_pool
                 (alter (init_mapping tc virt_block data_dest cell) m
                        (mapping_pool p)) p in
      match ds_add_work (ds p) m (mapping_pool p) with
      | None => None
      | Some (_, ds', mem) =>
          let p := set_mapping_pool mem (set_ds ds' p) in
          if io_covers_block p bio then
            remap_and_issue tc bio data_dest (hook_overwrite m bio p)
          else
            let from := block_region tc data_origin p in
            let to := block_region tc data_dest p in
            let '(r, copier') := dm_kcopyd_copy (copier p) from to m in
            let p := emit (Ev_dm_kcopyd_copy from to m r) (set_copier copier' p) in
            if decide (r < 0) then
              Some (cell_error cell
                      (set_mapping_pool (delete m (mapping_pool p)) p))
            else Some p
      end
  end.

Definition schedule_zero (tc : thin_c) (virt_block data_block : Z)
    (cell : cell_ptr) (bio : bio_ptr) p : option (pool M K) :=
  match get_next_mapping p with
  | None => None
  | Some (m, p) =>
      let p := set_mapping_pool
                 (alter (init_mapping tc virt_block data_block cell) m
                        (mapping_pool p)) p in
      if negb (zero_new_blocks p) || io_covers_block p bio then
        remap_and_issue tc bio data_block (hook_overwrite m bio p)
      else
        let to := block_region tc data_block p in
        let '(r, copier') := dm_kcopyd_zero (copier p) to m in
        let p := emit (Ev_dm_kcopyd_zero to m r) (set_copier copier' p) in
        if decide (r < 0) then
          Some (cell_error cell
                  (set_mapping_pool (delete m (mapping_pool p)) p))
        else Some p
  end.

Definition retry_later (bio : bio_ptr) p : pool M K :=
  set_retry_list (bio_list_add (retry_list p) bio) p.

(** [dm_table_event(pool->ti->table)]; [None] when no target is bound. *)
Definition dm_table_event p : option (pool M K) :=
  match ti p with
  | Some _ => Some (emit Ev_dm_table_event p)
  | None => None
  end.

(** [alloc_data_block]: the result and [*result]. *)
Definition alloc_data_block (tc : thin_c) p : option (Z * Z * pool M K) :=
  let '(r, free_blocks) := dm_pool_get_free_block_count (pmd p) in
  if decide (r ≠ 0) then Some (r, 0, p) else
  let triggered :=
    if decide (free_blocks <= low_water_mark p ∧ low_water_triggered p = 0)
    then dm_table_event (set_low_water_triggered 1 p)
    else Some p in
  match triggered with
  | None => None
  | Some p =>
      let '(r, result, pmd') := dm_pool_alloc_data_block (pmd p) in
      Some (r, result, set_pmd pmd' p)
  end.

Fixpoint no_space_loop (bios : list bio_ptr) p : pool M K :=
  match bios with
  | [] => p
  | bio :: bios => no_space_loop bios (retry_later bio p)
  end.

Definition no_space (cell : cell_ptr) p : pool M K :=
  let '(bios, prison') := cell_release cell [] (prison p) in
  no_space_loop bios (set_prison prison' p).

Definition break_sharing (tc : thin_c) (bio : bio_ptr) (block : Z)
    (k : cell_key) (lookup_result : dm_thin_lookup_result) (cell : cell_ptr) p
    : option (pool M K) :=
  match alloc_data_block tc p with
  | None => None
  | Some (r, data_block, p) =>
      if decide (r = 0) then
        schedule_copy tc block (lr_block lookup_result) data_block cell bio p
      else if decide (r = - ENOSPC) then Some (no_space cell p)
      else Some (cell_error cell p)
  end.

(** The read branch of [process_shared_bio]. *)
Definition shared_read (tc : thin_c) (bio : bio_ptr)
    (lookup_result : dm_thin_lookup_result) (cell : cell_ptr) p
    : option (pool M K) :=
  let h := fresh (dom (endio_hook_pool p)) in
  match ds_inc (ds p), bio_mem p !! bio with
  | Some (e, ds'), Some b =>
      let p := set_ds ds' p in
      let hk := {| h_tc := tc; h_saved_bi_end_io := bi_end_io b;
                   entry := e |} in
      let p := set_endio_hook_pool (<[h := hk]> (endio_hook_pool p)) p in
      let p := set_bio_mem
                 (alter (fun b => set_bi_map_info (ptr_endio_hook h)
                                    (set_bi_end_io shared_read_endio_fn b))
                        bio (bio_mem p)) p in
      match cell_release_singleton cell bio (prison p) with
      | Some prison' =>
          remap_and_issue tc bio (lr_block lookup_result)
            (set_prison prison' p)
      | None => None
      end
  | _, _ => None
  end.

(** [process_shared_bio]; [key] is what its local variable of that
    name holds when the function is entered. *)
Definition process_shared_bio (tc : thin_c) (bio : bio_ptr) (block : Z)
    (lookup_result : dm_thin_lookup_result) (key : cell_key) p
    : option (pool M K) :=
  let k := build_data_key (td tc) (lr_block lookup_result) key in
  match pool_bio_detain k bio p with
  | None => None
  | Some (r, cell, p) =>
      if decide (r ≠ 0) then Some p else
      match bio_mem p !! bio with
      | Some b =>
          if decide (bio_data_dir (bi_rw b) = WRITE) then
            break_sharing tc bio block k lookup_result cell p
          else shared_read tc bio lookup_result cell p
      | None => None
      end
  end.

Definition provision_block (tc : thin_c) (bio : bio_ptr) (block : Z)
    (cell : cell_ptr) p : option (pool M K) :=
  match alloc_data_block tc p with
  | None => None
  | Some (r, data_block, p) =>
      if decide (r = 0) then schedule_zero tc block data_block cell bio p
      else if decide (r = - ENOSPC) then Some (no_space cell p)
      else Some (cell_error cell p)
  end.

(** [process_bio]; [key] is what its local variable of that name
    holds when the function is entered, and [key2] what the one of
    [process_shared_bio] will hold. *)
Definition process_bio (tc : thin_c) (bio : bio_ptr) (key key2 : cell_key) p
    : option (pool M K) :=
  let block := get_bio_block p bio in
  let k := build_virtual_key (td tc) block key in
  match pool_bio_detain k bio p with
  | None => None
  | Some (r, cell, p) =>
      if decide (r ≠ 0) then Some p else
      let '(r, lookup_result, pmd') :=
        dm_thin_find_block (pmd p) (td tc) block 1 in
      let p := set_pmd pmd' p in
      if decide (r = 0) then
        match cell_release_singleton cell bio (prison p) with
        | Some prison' =>
            let p := set_prison prison' p in
            if shared lookup_result then
              process_shared_bio tc bio block lookup_result key2 p
            else remap_and_issue tc bio (lr_block lookup_result) p
        | None => None
        end
      else if decide (r = - ENODATA) then provision_block tc bio block cell p
      else Some (bio_io_error bio p)
  end.

(** This sends the bios in the cell back to the deferred_bios list. *)
Definition cell_defer (tc : thin_c) (cell : cell_ptr) (data_block : Z) p
    : pool M K :=
  let '(bios, prison') := cell_release cell (deferred_bios p) (prison p) in
  wake_worker (set_deferred_bios bios (set_prison prison' p)).

Fixpoint cell_defer_except_loop (bios : list bio_ptr) (exception : bio_ptr) p
    : pool M K :=
  match bios with
  | [] => p
  | bio :: bios =>
      cell_defer_except_loop bios exception
        (if decide (bio ≠ exception)
         then set_deferred_bios (bio_list_add (deferred_bios p) bio) p
         else p)
  end.

Definition cell_defer_except (tc : thin_c) (cell : cell_ptr)
    (exception : bio_ptr) p : pool M K :=
  let '(bios, prison') := cell_release cell [] (prison p) in
  wake_worker (cell_defer_except_loop bios exception (set_prison prison' p)).

Definition process_prepared_mapping (m : mapping_ptr) p : pool M K :=
  match mapping_pool p !! m with
  | None => p
  | Some mp =>
      let tc := m_tc mp in
      let bio := m_bio mp in
      let p := match bio with
               | Some bio =>
                   set_bio_mem (alter (set_bi_end_io (saved_bi_end_io mp)) bio
                                      (bio_mem p)) p
               | None => p
               end in
      if decide (err mp ≠ 0) then cell_error (m_cell mp) p else
      let '(r, pmd') :=
        dm_thin_insert_block (pmd p) (td tc) (virt_block mp) (data_block mp) in
      let p := set_pmd pmd' p in
      if decide (r ≠ 0) then cell_error (m_cell mp) p else
      let p := match bio with
               | Some bio => bio_endio bio 0 (cell_defer_except tc (m_cell mp) bio p)
               | None => cell_defer tc (m_cell mp) (data_block mp) p
               end in
      set_mapping_pool (delete m (mapping_pool p)) p
  end.

(** The walk of [process_prepared_mappings] over the local list
    [maps].  It is [list_for_each_entry], not the [_safe] form: once
    [process_prepared_mapping(m)] has returned, [m->list.next] is read
    to go on or to stop.  When that call has freed [m], as it does
    unless it fails the cell, the walk reads freed memory: [None]. *)
Fixpoint process_prepared_loop (maps : list mapping_ptr) p
    : option (pool M K) :=
  match maps with
  | [] => Some p
  | m :: tmp =>
      let p := process_prepared_mapping m p in
      if decide (m ∈ dom (mapping_pool p)) then process_prepared_loop tmp p
      else None
  end.

Definition process_prepared_mappings p : option (pool M K) :=
  let '(l, maps) := list_splice_init (prepared_mappings p) [] in
  let p := set_prepared_mappings l p in
  process_prepared_loop maps p.

(** *** Mapping functions *)

Definition thin_defer_bio (tc : thin_c) (bio : bio_ptr) p : pool M K :=
  wake_worker (set_deferred_bios (bio_list_add (deferred_bios p) bio) p).

(** [thin_bio_map]; [map_context] is the map_info of the bio. *)
Definition thin_bio_map (tc : thin_c) (bio : bio_ptr) p : Z * pool M K :=
  let block := get_bio_block p bio in
  let p := set_bio_mem
             (alter (set_bi_map_info (ptr_thin_c tc)) bio (bio_mem p)) p in
  if flush_or_fua bio p then (DM_MAPIO_SUBMITTED, thin_defer_bio tc bio p) else
  let '(r, result, pmd') := dm_thin_find_block (pmd p) (td tc) block 0 in
  let p := set_pmd pmd' p in
  if decide (r = 0) then
    if shared result then (DM_MAPIO_SUBMITTED, thin_defer_bio tc bio p)
    else (DM_MAPIO_REMAPPED, remap tc bio (lr_block result) p)
  else if decide (r = - ENODATA ∨ r = - EWOULDBLOCK) then
    (DM_MAPIO_SUBMITTED, thin_defer_bio tc bio p)
  else (r, p).

(** *** Binding and resume of the pool target *)

Definition bind_control_target p (t : dm_target) : Z * pool M K :=
  let pt := private t in
  let p := set_ti (Some t) p in
  let p := set_low_water_mark
             (dm_sector_div_up (pt_low_water_mark pt) (sectors_per_block p)) p in
  let p := set_zero_new_blocks (pt_zero_new_blocks pt) p in
  let '(_, pmd') := dm_pool_rebind_metadata_device (pmd p) (metadata_dev pt) in
  (0, set_pmd pmd' p).

Definition __requeue_bios p : pool M K :=
  set_retry_list []
    (set_deferred_bios (bio_list_merge (deferred_bios p) (retry_list p)) p).

(** The end of [pool_preresume], reached when no check failed. *)
Definition pool_preresume_finish p : Z * pool M K :=
  let p := set_low_water_triggered 0 p in
  let p := __requeue_bios p in
  (0, wake_worker p).

Definition pool_preresume (t : dm_target) p : Z * pool M K :=
  let '(r, p) := bind_control_target p t in
  if decide (r ≠ 0) then (r, p) else
  let data_size := Z.shiftr (len t) (block_shift p) in
  let '(r, sb_data_size) := dm_pool_get_data_dev_size (pmd p) in
  if decide (r ≠ 0) then (r, p) else
  if decide (data_size < sb_data_size) then (- EINVAL, p)
  else if decide (data_size > sb_data_size) then
    let '(r, pmd') := dm_pool_resize_data_dev (pmd p) data_size in
    let p := set_pmd pmd' p in
    if decide (r ≠ 0) then (r, p) else
    let '(r, pmd') := dm_pool_commit_metadata (pmd p) in
    let p := set_pmd pmd' p in
    if decide (r ≠ 0) then (r, p) else pool_preresume_finish p
  else pool_preresume_finish p.

End Engine.

(** ** The prison under concurrent callers

    [bio_detain] takes the prison lock, drops it around the allocation
    of a cell and takes it again.  A caller is at one of these points: *)
Inductive detainer :=
  | D_search (k : cell_key) (inmate : bio_ptr)
      (** called, the lock not taken yet *)
  | D_alloc (k : cell_key) (inmate : bio_ptr)
      (** no cell found, the lock dropped, before [mempool_alloc] *)
  | D_recheck (k : cell_key) (inmate : bio_ptr) (cell2 : cell_ptr)
      (** [cell2] allocated, before the lock is taken again *)
  | D_free (r : Z) (cell : cell_ptr) (cell2 : option cell_ptr)
      (** the inmate added and the lock released *)
  | D_return (r : Z) (cell : cell_ptr).

Record prison_state := Prison_state {
  ps_prison : bio_prison;
  ps_callers : list detainer;
}.

(** The cells linked in the hash table, and their addresses. *)
Definition linked (prison : bio_prison) : list cell := mjoin (cells prison).

Definition linked_addrs (prison : bio_prison) : list cell_ptr :=
  cell_addr <$> linked prison.

(** One step: a new call of [bio_detain], a critical section or an
    allocation of a caller, or a [cell_release] of a linked cell. *)
Inductive prison_step : prison_state -> prison_state -> Prop :=
  | step_call prison callers k inmate :
      prison_step (Prison_state prison callers)
                  (Prison_state prison (callers ++ [D_search k inmate]))
  | step_found prison callers i k inmate cell r prison' :
      callers !! i = Some (D_search k inmate) ->
      ¬ hash_key prison k > nr_buckets prison ->
      __search_bucket (bucket prison (hash_key prison k)) k = Some cell ->
      detain_inmate prison (cell_addr cell) inmate = (r, prison') ->
      prison_step (Prison_state prison callers)
                  (Prison_state prison'
                     (<[i := D_free r (cell_addr cell) None]> callers))
  | step_absent prison callers i k inmate :
      callers !! i = Some (D_search k inmate) ->
      ¬ hash_key prison k > nr_buckets prison ->
      __search_bucket (bucket prison (hash_key prison k)) k = None ->
      prison_step (Prison_state prison callers)
                  (Prison_state prison (<[i := D_alloc k inmate]> callers))
  | step_alloc prison callers i k inmate cell2 :
      callers !! i = Some (D_alloc k inmate) ->
      cell2 ∉ cell_pool prison ->
      prison_step (Prison_state prison callers)
                  (Prison_state
                     (set_cell_pool (fun live => {[cell2]} ∪ live) prison)
                     (<[i := D_recheck k inmate cell2]> callers))
  | step_locked prison callers i k inmate cell2 r cell cell2' prison' :
      callers !! i = Some (D_recheck k inmate cell2) ->
      detain_locked prison (hash_key prison k) k inmate cell2
        = (r, cell, cell2', prison') ->
      prison_step (Prison_state prison callers)
                  (Prison_state prison' (<[i := D_free r cell cell2']> callers))
  | step_free prison callers i r cell cell2 :
      callers !! i = Some (D_free r cell cell2) ->
      prison_step (Prison_state prison callers)
                  (Prison_state (detain_free cell2 prison)
                     (<[i := D_return r cell]> callers))
  | step_release prison callers cell :
      cell ∈ linked_addrs prison ->
      prison_step (Prison_state prison callers)
                  (Prison_state (cell_release cell [] prison).2 callers).

(** The cell a caller has allocated and not linked or freed yet. *)
Definition spare_cell (d : detainer) : option cell_ptr :=
  match d with
  | D_recheck _ _ cell2 => Some cell2
  | D_free _ _ cell2 => cell2
  | _ => None
  end.

(** The cell of a key, searched in the whole table. *)
Definition find_cell (prison : bio_prison) (k : cell_key) : option cell :=
  __search_bucket (linked prison) k.

(** ** Well-formed prisons *)

(** What [prison_create] sets up and every operation keeps: the table
    has [nr_buckets = hash_mask + 1] chains, a cell is on the chain of
    its hash, no two linked cells have the same key (the same fields
    and the same padding) or the same address, and linked cells belong
    to the mempool. *)
Record prison_wf (prison : bio_prison) : Prop := Prison_wf {
  wf_mask : 0 <= hash_mask prison < 2 ^ 32;
  wf_buckets : nr_buckets prison = hash_mask prison + 1;
  wf_len : length (cells prison) = Z.to_nat (nr_buckets prison);
  wf_hash : forall i b c,
    cells prison !! i = Some b -> c ∈ b ->
    Z.to_nat (hash_key prison (key c)) = i;
  wf_keys : NoDup (key <$> linked prison);
  wf_addrs : NoDup (linked_addrs prison);
  wf_live : forall a, a ∈ linked_addrs prison -> a ∈ cell_pool prison;
}.

(** [count] is the number of bios of the cell, and fits an [int]. *)
Definition cells_counted (prison : bio_prison) : Prop :=
  forall c, c ∈ linked prison ->
    count c = Z.of_nat (length (bios c)) /\ 0 < count c < 2 ^ 31.

(** What a key says: the three fields, without the padding. *)
Definition key_fields (k : cell_key) : Z * Z * Z :=
  (virtual k, dev k, block k).

(** The bios held for a key: those of the cell that [__search_bucket]
    finds for it, which has the same fields and the same padding. *)
Definition inmates (prison : bio_prison) (k : cell_key) : list bio_ptr :=
  match find_cell prison k with
  | Some c => bios c
  | None => []
  end.

(** What a call of [bio_detain] for [k] and [inmate] has done when it
    returns [r] and the cell [cell]: [r] is the number of bios that were
    held for the key, the cell of the key is now [cell] and holds these
    bios followed by [inmate], it is the cell the key had if it had one
    and a cell that was not linked otherwise, the other keys are as
    they were, and [r] is 0 exactly when the key had no cell. *)
Definition detained (prison : bio_prison) (k : cell_key) (inmate : bio_ptr)
    (r : Z) (cell : cell_ptr) (prison' : bio_prison) : Prop :=
  r = Z.of_nat (length (inmates prison k)) /\
  find_cell prison' k
    = Some {| cell_addr := cell; key := k; count := r + 1;
              bios := inmates prison k ++ [inmate] |} /\
  (forall c, find_cell prison k = Some c -> cell = cell_addr c) /\
  (find_cell prison k = None -> cell ∉ linked_addrs prison) /\
  (forall k', k' ≠ k -> find_cell prison' k' = find_cell prison k') /\
  (r = 0 <-> find_cell prison k = None).

(** The cells that callers of [bio_detain] hold outside the table. *)
Definition spares (callers : list detainer) : list cell_ptr :=
  omap spare_cell callers.

(** What holds in every state of the prison and its callers: the
    prison is well formed, and the spare cells are distinct, allocated
    and not linked. *)
Definition prison_inv (s : prison_state) : Prop :=
  prison_wf (ps_prison s) /\
  NoDup (spares (ps_callers s)) /\
  forall a, a ∈ spares (ps_callers s) ->
    a ∈ cell_pool (ps_prison s) /\ a ∉ linked_addrs (ps_prison s).

(** ** Well-formed deferred sets *)

(** The counter and the work list of a slot. *)
Definition count_at (ds : deferred_set) (i : nat) : Z :=
  from_option de_count 0 (entries ds !! i).

Definition work_at (ds : deferred_set) (i : nat) : list mapping_ptr :=
  from_option work_items [] (entries ds !! i).

(** Positions on the ring: the number of steps of [ds_next] from [s]
    to [c], the slot [j] steps after [s], and the [n] slots from [s]. *)
Definition ring_dist (s c : nat) : nat :=
  ((c + DEFERRED_SET_SIZE - s) `mod` DEFERRED_SET_SIZE)%nat.

Definition ring_slot (s j : nat) : nat :=
  ((s + j) `mod` DEFERRED_SET_SIZE)%nat.

Definition ring_slots (s n : nat) : list nat := ring_slot s <$> seq 0 n.

(** The array has its [DEFERRED_SET_SIZE] entries, both indices are in
    it and the counters are values of an [unsigned]. *)
Record ds_wf (ds : deferred_set) : Prop := Ds_wf {
  ds_len : length (entries ds) = DEFERRED_SET_SIZE;
  ds_current : (current_entry ds < DEFERRED_SET_SIZE)%nat;
  ds_sweeper : (sweeper ds < DEFERRED_SET_SIZE)%nat;
  ds_counts : forall i, 0 <= count_at ds i < 2 ^ 32;
}.

(** The slots drained by a sweep that starts at [s] and passes [n]
    slots: these, and [current] when the sweeper [s'] has reached it
    and its counter [c] is zero. *)
Definition drained_slots (s n s' current : nat) (c : Z) : list nat :=
  ring_slots s n ++ (if decide (s' = current /\ c = 0) then [current] else []).

(** ** The bio after [remap] *)

Definition remapped {M K : Type} (p : pool M K) (tc : thin_c) (block : Z)
    (b : bio) : bio :=
  {| bi_rw := bi_rw b;
     bi_sector := u64 (Z.shiftl block (block_shift p)
                       + Z.land (bi_sector b) (offset_mask p));
     bi_size := bi_size b;
     bi_bdev := pool_dev tc;
     bi_end_io := bi_end_io b;
     bi_map_info := bi_map_info b |}.

(** The completions with [-EIO] of the bios of a list, in order. *)
Definition io_errors `{kernel} (bios : list bio_ptr) : list event :=
  (fun bio => Ev_bio_endio bio (- EIO)) <$> bios.

(** The cells left linked when the cell at address [a] is released. *)
Definition others_linked (a : cell_ptr) (prison : bio_prison) : list cell :=
  filter (fun c => cell_addr c ≠ a) (linked prison).

(** ** The pool as [pool_create] makes it *)

Section Pool_create.
Context `{kernel} {M K : Type} `{!thin_metadata M} `{!kcopyd K}.

Definition PRISON_CELLS : Z := 1024.

(** [ffs]: the position of the lowest bit set, counted from 1. *)
Definition ffs (z : Z) : Z :=
  if decide (z = 0) then 0 else Z.log2 (Z.land z (- z)) + 1.

(** [pool_create], when every allocation succeeds: [md] and [kc] are
    the metadata object and the kcopyd client that were opened, and
    [host_bios] the memory of the bios, which is the host's. *)
Definition pool_create (md : M) (kc : K) (block_size : Z)
    (host_bios : gmap bio_ptr bio) : option (pool M K) :=
  match prison_create PRISON_CELLS with
  | None => None
  | Some prison =>
      Some {| ti := None;
              pmd := md;
              sectors_per_block := block_size;
              block_shift := ffs block_size - 1;
              offset_mask := block_size - 1;
              low_water_mark := 0;
              zero_new_blocks := true;
              prison := prison;
              copier := kc;
              deferred_bios := [];
              prepared_mappings := [];
              low_water_triggered := 0;
              retry_list := [];
              ds := ds_init;
              next_mapping := None;
              mapping_pool := ∅;
              endio_hook_pool := ∅;
              bio_mem := host_bios;
              trace := [] |}
  end.

End Pool_create.

(** The mappings on the work lists of a deferred set. *)
Definition all_work (d : deferred_set) : list mapping_ptr :=
  mjoin (work_items <$> entries d).
(** ** A host to run the code on

    Values of the kernel's constants, a metadata object that keeps the
    mappings in a table and counts the free blocks, and a kcopyd
    client that takes every job. *)
Module Examples.

Definition example_uninit_mapping : new_mapping :=
  {| m_list := LIST_POISON; prepared := 7;
     m_tc := {| pool_dev := 0; dev_id := 0; td := 0 |};
     virt_block := 0; data_block := 0; m_cell := 0%nat; err := 0;
     m_bio := None; saved_bi_end_io := host_end_io |}.

Definition example_kernel : kernel :=
  {| REQ_FLUSH := 2 ^ 23;
     REQ_FUA := 2 ^ 12;
     WRITE := 1;
     bio_data_dir := fun rw => Z.land rw 1;
     SECTOR_SHIFT := 9;
     DM_MAPIO_SUBMITTED := 0;
     DM_MAPIO_REMAPPED := 1;
     EIO := 5;
     ENOMEM := 12;
     EINVAL := 22;
     ENOSPC := 28;
     ENODATA := 61;
     EWOULDBLOCK := 11;
     dm_sector_div_up := fun n sz => (n + sz - 1) / sz;
     uninit_mapping := example_uninit_mapping;
     mapping_alloc_ok := fun n => bool_decide (n < 1024)%nat |}.

(** The metadata: the table of the mappings of the thin devices, the
    free blocks of the data device, the next block to hand out, the
    size of the data device and the result of the next commit. *)
Record example_md := Example_md {
  md_blocks : gmap (Z * Z) dm_thin_lookup_result;
  md_free : Z;
  md_next : Z;
  md_data_size : Z;
  md_commit_result : Z;
}.

Definition example_find_block (md : example_md) (td block can_block : Z)
    : Z * dm_thin_lookup_result * example_md :=
  match md_blocks md !! (td, block) with
  | Some result => (0, result, md)
  | None => (- 61, {| lr_block := 0; shared := false |}, md)
  end.

Definition example_insert_block (md : example_md) (td block data : Z)
    : Z * example_md :=
  (0, {| md_blocks := <[(td, block) := {| lr_block := data; shared := false |}]>
                        (md_blocks md);
         md_free := md_free md; md_next := md_next md;
         md_data_size := md_data_size md;
         md_commit_result := md_commit_result md |}).

Definition example_alloc_data_block (md : example_md) : Z * Z * example_md :=
  if decide (md_free md <= 0) then (- 28, 0, md)
  else (0, md_next md,
        {| md_blocks := md_blocks md; md_free := md_free md - 1;
           md_next := md_next md + 1; md_data_size := md_data_size md;
           md_commit_result := md_commit_result md |}).

Definition example_resize_data_dev (md : example_md) (n : Z) : Z * example_md :=
  (0, {| md_blocks := md_blocks md;
         md_free := md_free md + (n - md_data_size md);
         md_next := md_next md; md_data_size := n;
         md_commit_result := md_commit_result md |}).

Definition example_metadata : thin_metadata example_md :=
  {| dm_thin_dev_id := fun td => td;
     dm_thin_find_block := example_find_block;
     dm_thin_insert_block := example_insert_block;
     dm_pool_get_free_block_count := fun md => (0, md_free md);
     dm_pool_alloc_data_block := example_alloc_data_block;
     dm_pool_commit_metadata := fun md => (md_commit_result md, md);
     dm_pool_get_data_dev_size := fun md => (0, md_data_size md);
     dm_pool_resize_data_dev := example_resize_data_dev;
     dm_pool_rebind_metadata_device := fun md dev => (0, md) |}.

(** The kcopyd client counts the jobs it was given. *)
Definition example_kcopyd : kcopyd nat :=
  {| dm_kcopyd_copy := fun kc from to m => (0, S kc);
     dm_kcopyd_zero := fun kc to m => (0, S kc) |}.

#[local] Existing Instance example_kernel.
#[local] Existing Instance example_metadata.
#[local] Existing Instance example_kcopyd.

Definition example_pool : Type := pool example_md nat.

(** *** A thin device and its bios *)

Definition tc0 : thin_c := {| pool_dev := 8; dev_id := 1; td := 1 |}.

(** A write of eight sectors into block 0, a read of block 1, a write
    into block 1, a write with FUA, and a read of block 2 and a write
    into it. *)
Definition write0 : bio :=
  {| bi_rw := 1; bi_sector := 8; bi_size := 4096; bi_bdev := 9;
     bi_end_io := host_end_io; bi_map_info := ptr_thin_c tc0 |}.

Definition read1 : bio :=
  {| bi_rw := 0; bi_sector := 130; bi_size := 4096; bi_bdev := 9;
     bi_end_io := host_end_io; bi_map_info := ptr_thin_c tc0 |}.

Definition write1 : bio :=
  {| bi_rw := 1; bi_sector := 136; bi_size := 4096; bi_bdev := 9;
     bi_end_io := host_end_io; bi_map_info := ptr_thin_c tc0 |}.

Definition fua1 : bio :=
  {| bi_rw := 1 + 2 ^ 12; bi_sector := 130; bi_size := 4096; bi_bdev := 9;
     bi_end_io := host_end_io; bi_map_info := ptr_thin_c tc0 |}.

Definition read2 : bio :=
  {| bi_rw := 0; bi_sector := 258; bi_size := 4096; bi_bdev := 9;
     bi_end_io := host_end_io; bi_map_info := ptr_thin_c tc0 |}.

Definition write2 : bio :=
  {| bi_rw := 1; bi_sector := 264; bi_size := 4096; bi_bdev := 9;
     bi_end_io := host_end_io; bi_map_info := ptr_thin_c tc0 |}.

(** Block 1 of the device is mapped to data block 5 and not shared,
    block 2 to data block 6 and shared. *)
Definition md0 : example_md :=
  {| md_blocks := {[ (1, 1) := {| lr_block := 5; shared := false |};
                     (1, 2) := {| lr_block := 6; shared := true |} ]};
     md_free := 10; md_next := 7; md_data_size := 17;
     md_commit_result := 0 |}.

(** The same with no free block, and with a commit that fails. *)
Definition md_full : example_md :=
  {| md_blocks := md_blocks md0; md_free := 0; md_next := 17;
     md_data_size := 17; md_commit_result := 0 |}.

Definition md_bad_commit : example_md :=
  {| md_blocks := md_blocks md0; md_free := 10; md_next := 7;
     md_data_size := 17; md_commit_result := - 5 |}.

(** *** Prisons *)

(** What [prison_create] returns for [PRISON_CELLS]. *)
Definition prison0 : bio_prison :=
  {| cell_pool := ∅; nr_buckets := 256; hash_mask := 255;
     cells := replicate 256 [] |}.

(** The virtual key of block 0 of the device, built where the stack
    held zeros; and the stack as it is then. *)
Definition key0 : cell_key :=
  {| virtual := 1; padding := 0; dev := 1; block := 0 |}.

Definition stack0 : cell_key :=
  {| virtual := 0; padding := 0; dev := 0; block := 0 |}.

(** The cell of [key0] at address 3, holding the bios 20 and 21. *)
Definition cell0 : cell :=
  {| cell_addr := 3%nat; key := key0; count := 2; bios := [20%nat; 21%nat] |}.

Definition prison1 : bio_prison :=
  set_cells (fun t => <[Z.to_nat (hash_key prison0 key0) :=
                          cell0 :: bucket prison0 (hash_key prison0 key0)]> t)
            (set_cell_pool (fun _ => {[3%nat]}) prison0).

(** *** Deferred sets *)

(** One read in flight in slot 0 and one waiter, 100, queued behind
    it: the current entry has moved on to slot 1. *)
Definition ds_one_read : deferred_set :=
  {| current_entry := 1; sweeper := 0;
     entries := {| de_count := 1; work_items := [100%nat] |}
                :: replicate 63 {| de_count := 0; work_items := [] |} |}.

(** The ring after one [ds_inc] and the waiters 1 to 64: the read in
    flight keeps slot 0, every slot has its waiter, and the current
    entry is at slot 63, which it cannot leave because the next slot,
    0, is not free. *)
Definition ds_ring : deferred_set :=
  {| current_entry := 63; sweeper := 0;
     entries := {| de_count := 1; work_items := [1%nat] |}
                :: ((fun i => {| de_count := 0; work_items := [S i] |})
                      <$> seq 1 63) |}.

Definition node (l : list_head) : new_mapping :=
  {| m_list := l; prepared := 0; m_tc := tc0; virt_block := 0;
     data_block := 0; m_cell := 0%nat; err := 0; m_bio := None;
     saved_bi_end_io := host_end_io |}.

(** The nodes of the waiters 1 to 65, none linked. *)
Definition mem_nodes : mapping_mem :=
  list_to_map ((fun i => (i, node LIST_INIT)) <$> seq 1 65).

(** [ds_add_work] for the waiters of a list, one after the other. *)
Fixpoint add_works (ws : list mapping_ptr) (d : deferred_set)
    (mem : mapping_mem) : option (deferred_set * mapping_mem) :=
  match ws with
  | [] => Some (d, mem)
  | w :: ws =>
      match ds_add_work d w mem with
      | Some (_, d', mem') => add_works ws d' mem'
      | None => None
      end
  end.

Definition mem_ring : mapping_mem :=
  match ds_inc ds_init with
  | Some (_, d) =>
      match add_works (seq 1 64) d mem_nodes with
      | Some (_, mem) => mem
      | None => mem_nodes
      end
  | None => mem_nodes
  end.

(** *** Pools *)

(** What [pool_create] returns on [md0] for blocks of 128 sectors. *)
Definition bios0 : gmap bio_ptr bio :=
  {[ 20%nat := write0; 21%nat := write0; 22%nat := read1; 23%nat := fua1;
     24%nat := read2; 25%nat := write2 ]}.

Definition pool0 : example_pool :=
  {| ti := None; pmd := md0; sectors_per_block := 128; block_shift := 7;
     offset_mask := 127; low_water_mark := 0; zero_new_blocks := true;
     prison := prison0; copier := 0%nat; deferred_bios := [];
     prepared_mappings := []; low_water_triggered := 0; retry_list := [];
     ds := ds_init; next_mapping := None; mapping_pool := ∅;
     endio_hook_pool := ∅; bio_mem := bios0; trace := [] |}.

(** The pool target, and one whose table is a block shorter than the
    data device. *)
Definition pt0 : pool_c :=
  {| data_dev := 9; metadata_dev := 10; pt_low_water_mark := 0;
     pt_zero_new_blocks := true |}.

Definition target0 : dm_target := {| len := 128 * 17; private := pt0 |}.
Definition target_small : dm_target := {| len := 128 * 16; private := pt0 |}.

(** A break of sharing behind a read.  A mapping is allocated ahead;
    the worker runs [process_bio] on the read of block 2, which is
    shared: the read is counted in the deferred set and issued.  It
    then runs [process_bio] on the write into block 2: a block is
    allocated, the new mapping is queued behind the read and kcopyd is
    asked to copy. *)
Definition pool_ahead : example_pool := (ensure_next_mapping pool0).2.

Definition pool_reading : example_pool :=
  default pool_ahead (process_bio tc0 24%nat stack0 stack0 pool_ahead).

Definition pool_copying : example_pool :=
  default pool_reading (process_bio tc0 25%nat stack0 stack0 pool_reading).

(** The pool with the cell of [key0] detained and a prepared mapping
    for it, with the write 20 as its bio. *)
Definition mapping0 : new_mapping :=
  {| m_list := LIST_LINKED; prepared := 1; m_tc := tc0; virt_block := 0;
     data_block := 7; m_cell := 3%nat; err := 0; m_bio := Some 20%nat;
     saved_bi_end_io := host_end_io |}.

Definition pool_prepared : example_pool :=
  set_prepared_mappings [0%nat]
    (set_mapping_pool {[ 0%nat := mapping0 ]} (set_prison prison1 pool0)).

(** The pool bound to its target, with the cell detained and no free
    block; after [alloc_data_block] has failed on it; and with the
    bios of the cell parked by [no_space]. *)
Definition pool_full : example_pool :=
  set_ti (Some target0) (set_pmd md_full (set_prison prison1 pool0)).

Definition pool_full_alloc : example_pool :=
  set_trace [Ev_dm_table_event] (set_low_water_triggered 1 pool_full).

Definition pool_parked : example_pool := no_space 3%nat pool_full_alloc.

(** The pool bound to its target with a low-water mark of 10 blocks,
    and after a block has been allocated. *)
Definition pool_low : example_pool :=
  set_ti (Some target0) (set_low_water_mark 10 pool0).

Definition md0_taken : example_md :=
  {| md_blocks := md_blocks md0; md_free := 9; md_next := 8;
     md_data_size := 17; md_commit_result := 0 |}.

Definition pool_low_alloc : example_pool :=
  set_pmd md0_taken
    (set_trace [Ev_dm_table_event] (set_low_water_triggered 1 pool_low)).

End Examples.
(** * The worker, the thin target and the messages *)

(** ** The deferred set over its life

    The states a deferred set goes through from [ds_init], by
    [ds_inc], [ds_dec] on an entry whose counter is not zero, and
    [ds_add_work]; a counter is not taken past the last value of an
    [unsigned]. *)
Inductive ds_reachable : deferred_set -> Prop :=
  | reach_init : ds_reachable ds_init
  | reach_inc d e d' :
      ds_reachable d -> count_at d (current_entry d) < 2 ^ 32 - 1 ->
      ds_inc d = Some (e, d') -> ds_reachable d'
  | reach_dec d entry head d' head' :
      ds_reachable d -> ds_dec entry head d = Some (d', head') ->
      ds_reachable d'
  | reach_add_work d work mem r d' mem' :
      ds_reachable d -> ds_add_work d work mem = Some (r, d', mem') ->
      ds_reachable d'.

(** What [__sweep] leaves behind: the sweeper has stopped at a slot
    that is counted or at the current entry; the slots that are not
    between the sweeper and the current entry have a zero counter and
    no work; and the current entry has no work when the sweeper has
    reached it and its counter is zero. *)
Record ds_swept (d : deferred_set) : Prop := Ds_swept {
  sw_wf : ds_wf d;
  sw_stop : sweeper d ≠ current_entry d -> count_at d (sweeper d) ≠ 0;
  sw_outside : forall i, (i < DEFERRED_SET_SIZE)%nat ->
    (ring_dist (sweeper d) (current_entry d) < ring_dist (sweeper d) i)%nat ->
    count_at d i = 0 /\ work_at d i = [];
  sw_idle : sweeper d = current_entry d ->
    count_at d (current_entry d) = 0 -> work_at d (current_entry d) = [];
}.

(** ** The worker *)

Section Worker.
Context `{kernel} {M K : Type} `{!thin_metadata M} `{!kcopyd K}.
Implicit Type p : pool M K.

(** The [while] loop of [process_deferred_bios] over the local list
    [bios].  When [ensure_next_mapping] fails, the bios that are still
    on the local list are put behind those of the deferred list and the
    function returns: the bio that was popped is on neither list.
    [stack i] is what the stack holds, where [process_bio] and
    [process_shared_bio] have their keys, at the [i]th call of
    [process_bio].  [None]: [process_bio] gave [None], or the map_info
    of the bio does not point to a thin_c. *)
Fixpoint process_deferred_loop (bios : list bio_ptr)
    (stack : nat -> cell_key * cell_key) p : option (pool M K) :=
  match bios with
  | [] => Some p
  | bio :: bios =>
      let '(r, p) := ensure_next_mapping p in
      if decide (r ≠ 0) then
        Some (set_deferred_bios (bio_list_merge (deferred_bios p) bios) p)
      else
        match bi_map_info <$> bio_mem p !! bio with
        | Some (ptr_thin_c tc) =>
            match process_bio tc bio (stack 0%nat).1 (stack 0%nat).2 p with
            | Some p => process_deferred_loop bios (fun i => stack (S i)) p
            | None => None
            end
        | _ => None
        end
  end.

Definition process_deferred_bios (stack : nat -> cell_key * cell_key) p
    : option (pool M K) :=
  let bios := bio_list_merge [] (deferred_bios p) in
  let p := set_deferred_bios [] p in
  process_deferred_loop bios stack p.

Definition do_worker (stack : nat -> cell_key * cell_key) p
    : option (pool M K) :=
  match process_prepared_mappings p with
  | Some p => process_deferred_bios stack p
  | None => None
  end.

End Worker.

(** ** The map function of the thin target *)

(** The part of the [struct dm_target] of a thin target that is read:
    its first sector in the table and its context. *)
Record thin_target := Thin_target {
  tt_begin : Z;
  tt_private : thin_c;
}.

Section Thin_target.
Context `{kernel} {M K : Type} `{!thin_metadata M} `{!kcopyd K}.
Implicit Type p : pool M K.

Definition set_bi_sector (v : Z) (b : bio) : bio :=
  {| bi_rw := bi_rw b; bi_sector := v; bi_size := bi_size b;
     bi_bdev := bi_bdev b; bi_end_io := bi_end_io b;
     bi_map_info := bi_map_info b |}.

Definition thin_map (t : thin_target) (bio : bio_ptr) p : Z * pool M K :=
  let p := set_bio_mem
             (alter (fun b => set_bi_sector (u64 (bi_sector b - tt_begin t)) b)
                    bio (bio_mem p)) p in
  thin_bio_map (tt_private t) bio p.

End Thin_target.

(** ** Messages to the pool target *)

(** [strcasecmp] and [kstrtoull] of the kernel library: [kstrtoull s 10]
    gives its [int] result and the number it has stored. *)
Class kernel_lib := {
  strcasecmp : string -> string -> Z;
  kstrtoull : string -> Z -> Z * Z;
}.

(** The functions of [dm-thin-metadata.h] that the messages call. *)
Class thin_metadata_admin (M : Type) := {
  dm_pool_create_thin : M -> Z -> Z * M;
  dm_pool_create_snap : M -> Z -> Z -> Z * M;
  dm_pool_delete_thin_device : M -> Z -> Z * M;
  dm_pool_trim_thin_device : M -> Z -> Z -> Z * M;
  dm_pool_set_metadata_transaction_id : M -> Z -> Z -> Z * M;
}.

Definition MAX_DEV_ID : Z := 2 ^ 24 - 1.

Section Messages.
Context `{kernel} `{kernel_lib} {M K : Type} `{!thin_metadata M}
  `{!thin_metadata_admin M} `{!kcopyd K}.
Implicit Type p : pool M K.

(** [argv[i]], for [i] below [argc]. *)
Definition arg (argv : list string) (i : nat) : string :=
  default String.EmptyString (argv !! i).

Definition check_arg_count (argc args_required : Z) : Z :=
  if decide (argc ≠ args_required) then - EINVAL else 0.

(** [read_dev_id]: the result and [*dev_id]. *)
Definition read_dev_id (a : string) : Z * Z :=
  let '(r, dev_id) := kstrtoull a 10 in
  if decide (r = 0 ∧ dev_id <= MAX_DEV_ID) then (0, dev_id)
  else (- EINVAL, dev_id).

Definition process_create_thin_mesg (argc : Z) (argv : list string) p
    : Z * pool M K :=
  let r := check_arg_count argc 2 in
  if decide (r ≠ 0) then (r, p) else
  let '(r, dev_id) := read_dev_id (arg argv 1) in
  if decide (r ≠ 0) then (r, p) else
  let '(r, pmd') := dm_pool_create_thin (pmd p) dev_id in
  let p := set_pmd pmd' p in
  if decide (r ≠ 0) then (r, p) else (0, p).

Definition process_create_snap_mesg (argc : Z) (argv : list string) p
    : Z * pool M K :=
  let r := check_arg_count argc 3 in
  if decide (r ≠ 0) then (r, p) else
  let '(r, dev_id) := read_dev_id (arg argv 1) in
  if decide (r ≠ 0) then (r, p) else
  let '(r, origin_dev_id) := read_dev_id (arg argv 2) in
  if decide (r ≠ 0) then (r, p) else
  let '(r, pmd') := dm_pool_create_snap (pmd p) dev_id origin_dev_id in
  let p := set_pmd pmd' p in
  if decide (r ≠ 0) then (r, p) else (0, p).

Definition process_delete_mesg (argc : Z) (argv : list string) p
    : Z * pool M K :=
  let r := check_arg_count argc 2 in
  if decide (r ≠ 0) then (r, p) else
  let '(r, dev_id) := read_dev_id (arg argv 1) in
  if decide (r ≠ 0) then (r, p) else
  let '(r, pmd') := dm_pool_delete_thin_device (pmd p) dev_id in
  (r, set_pmd pmd' p).

Definition process_trim_mesg (argc : Z) (argv : list string) p
    : Z * pool M K :=
  let r := check_arg_count argc 3 in
  if decide (r ≠ 0) then (r, p) else
  let '(r, dev_id) := read_dev_id (arg argv 1) in
  if decide (r ≠ 0) then (r, p) else
  let '(r, new_size) := kstrtoull (arg argv 2) 10 in
  if decide (r ≠ 0) then (- EINVAL, p) else
  let '(r, pmd') :=
    dm_pool_trim_thin_device (pmd p) dev_id
      (dm_sector_div_up new_size (sectors_per_block p)) in
  (r, set_pmd pmd' p).

Definition process_set_transaction_id_mesg (argc : Z) (argv : list string) p
    : Z * pool M K :=
  let r := check_arg_count argc 3 in
  if decide (r ≠ 0) then (r, p) else
  let '(r, old_id) := kstrtoull (arg argv 1) 10 in
  if decide (r ≠ 0) then (- EINVAL, p) else
  let '(r, new_id) := kstrtoull (arg argv 2) 10 in
  if decide (r ≠ 0) then (- EINVAL, p) else
  let '(r, pmd') :=
    dm_pool_set_metadata_transaction_id (pmd p) old_id new_id in
  let p := set_pmd pmd' p in
  if decide (r ≠ 0) then (r, p) else (0, p).

(** [pool_message], for a message of at least one word ([argv[0]] is
    read before anything is checked); [argc] is the number of words. *)
Definition pool_message (argv : list string) p : option (Z * pool M K) :=
  match argv with
  | [] => None
  | cmd :: _ =>
      let argc := Z.of_nat (length argv) in
      let '(r, p) :=
        if decide (strcasecmp cmd "create_thin" = 0) then
          process_create_thin_mesg argc argv p
        else if decide (strcasecmp cmd "create_snap" = 0) then
          process_create_snap_mesg argc argv p
        else if decide (strcasecmp cmd "delete" = 0) then
          process_delete_mesg argc argv p
        else if decide (strcasecmp cmd "trim" = 0) then
          process_trim_mesg argc argv p
        else if decide (strcasecmp cmd "set_transaction_id" = 0) then
          process_set_transaction_id_mesg argc argv p
        else (- EINVAL, p) in
      if decide (r = 0) then
        let '(r, pmd') := dm_pool_commit_metadata (pmd p) in
        Some (r, set_pmd pmd' p)
      else Some (r, p)
  end.

End Messages.

(** ** What an operation leaves alone *)

Section Frames.
Context {M K : Type}.
Implicit Type p : pool M K.

(** What [process_bio] and the functions under it leave alone: the
    deferred list. *)
Definition keeps_deferred p p' : Prop :=
  deferred_bios p' = deferred_bios p.

(** What a pool is after a message: the same, but for the metadata. *)
Definition only_pmd (x : Z * pool M K) p : Prop :=
  exists md, x.2 = set_pmd md p.

End Frames.
(** ** More of the host: failures, messages, and further states *)

Module More_examples.
Import Examples.

#[local] Existing Instance example_kernel.
#[local] Existing Instance example_metadata.
#[local] Existing Instance example_kcopyd.

(** A kernel whose mempool has no new_mapping to give. *)
Definition example_kernel_no_memory : kernel :=
  {| REQ_FLUSH := 2 ^ 23;
     REQ_FUA := 2 ^ 12;
     WRITE := 1;
     bio_data_dir := fun rw => Z.land rw 1;
     SECTOR_SHIFT := 9;
     DM_MAPIO_SUBMITTED := 0;
     DM_MAPIO_REMAPPED := 1;
     EIO := 5;
     ENOMEM := 12;
     EINVAL := 22;
     ENOSPC := 28;
     ENODATA := 61;
     EWOULDBLOCK := 11;
     dm_sector_div_up := fun n sz => (n + sz - 1) / sz;
     uninit_mapping := example_uninit_mapping;
     mapping_alloc_ok := fun _ => false |}.

(** A metadata object whose lookups fail with [-EIO]. *)
Definition example_metadata_failing : thin_metadata example_md :=
  {| dm_thin_dev_id := fun td => td;
     dm_thin_find_block := fun md td block can_block =>
       (- 5, {| lr_block := 0; shared := false |}, md);
     dm_thin_insert_block := example_insert_block;
     dm_pool_get_free_block_count := fun md => (0, md_free md);
     dm_pool_alloc_data_block := example_alloc_data_block;
     dm_pool_commit_metadata := fun md => (md_commit_result md, md);
     dm_pool_get_data_dev_size := fun md => (0, md_data_size md);
     dm_pool_resize_data_dev := example_resize_data_dev;
     dm_pool_rebind_metadata_device := fun md dev => (0, md) |}.

(** A kcopyd client that refuses every job with [-ENOMEM]. *)
Definition example_kcopyd_failing : kcopyd nat :=
  {| dm_kcopyd_copy := fun kc from to m => (- 12, kc);
     dm_kcopyd_zero := fun kc to m => (- 12, kc) |}.

(** A kcopyd client that refuses every copy with [-ENOMEM] and takes
    the jobs that zero a block. *)
Definition example_kcopyd_no_copy : kcopyd nat :=
  {| dm_kcopyd_copy := fun kc from to m => (- 12, kc);
     dm_kcopyd_zero := fun kc to m => (0, S kc) |}.

(** *** The kernel library *)

Definition to_lower (c : Ascii.ascii) : Ascii.ascii :=
  let n := Ascii.nat_of_ascii c in
  if bool_decide (65 <= n <= 90)%nat then Ascii.ascii_of_nat (n + 32) else c.

Fixpoint lower (s : string) : string :=
  match s with
  | String.EmptyString => String.EmptyString
  | String.String c s => String.String (to_lower c) (lower s)
  end.

(** 0 when the strings are equal up to the case of their letters. *)
Definition example_strcasecmp (a b : string) : Z :=
  if decide (lower a = lower b) then 0 else 1.

Fixpoint parse_digits (s : string) (acc : Z) : option Z :=
  match s with
  | String.EmptyString => Some acc
  | String.String c s =>
      let n := Z.of_nat (Ascii.nat_of_ascii c) in
      if decide (48 <= n <= 57) then parse_digits s (10 * acc + (n - 48))
      else None
  end.

(** Decimal numbers below [2 ^ 64]; [-EINVAL] for anything that is not
    a number and [-ERANGE] for a number that does not fit. *)
Definition example_kstrtoull (s : string) (base : Z) : Z * Z :=
  match s with
  | String.EmptyString => (- 22, 0)
  | _ =>
      match parse_digits s 0 with
      | Some n => if decide (n < 2 ^ 64) then (0, n) else (- 34, 0)
      | None => (- 22, 0)
      end
  end.

Definition example_kernel_lib : kernel_lib :=
  {| strcasecmp := example_strcasecmp; kstrtoull := example_kstrtoull |}.

(** The thin devices of the example metadata: device 1 exists. *)
Definition example_admin : thin_metadata_admin example_md :=
  {| dm_pool_create_thin := fun md id =>
       if decide (id = 1) then (- 17, md) else (0, md);
     dm_pool_create_snap := fun md id origin =>
       if decide (origin = 1 /\ id ≠ 1) then (0, md) else (- 22, md);
     dm_pool_delete_thin_device := fun md id =>
       if decide (id = 1) then (0, md) else (- 61, md);
     dm_pool_trim_thin_device := fun md id size => (0, md);
     dm_pool_set_metadata_transaction_id := fun md old new => (0, md) |}.

(** *** Prisons and deferred sets *)

(** The stack when it holds something else where the padding of the
    key will be, and the virtual key of block 0 that is built there. *)
Definition stack1 : cell_key :=
  {| virtual := 0; padding := 1; dev := 0; block := 0 |}.

Definition key0_padded : cell_key :=
  {| virtual := 1; padding := 1; dev := 1; block := 0 |}.

(** The cell of [key0] at address 3, holding the bio 20 only. *)
Definition cell_single : cell :=
  {| cell_addr := 3%nat; key := key0; count := 1; bios := [20%nat] |}.

Definition prison_single : bio_prison :=
  set_cells (fun t => <[Z.to_nat (hash_key prison0 key0) :=
                          cell_single
                          :: bucket prison0 (hash_key prison0 key0)]> t)
            (set_cell_pool (fun _ => {[3%nat]}) prison0).

(** [prison1] when a caller of [bio_detain] has allocated the cell at
    address 4 and not linked it yet. *)
Definition prison_spare : bio_prison :=
  set_cell_pool (fun _ => {[3%nat; 4%nat]}) prison1.

(** One read in flight in slot 0 and no waiter. *)
Definition ds_reading : deferred_set :=
  {| current_entry := 0; sweeper := 0;
     entries := {| de_count := 1; work_items := [] |}
                :: replicate 63 {| de_count := 0; work_items := [] |} |}.

(** *** The thin target *)

(** The thin device as a target that starts at sector 2 of its table. *)
Definition thin_target0 : thin_target :=
  {| tt_begin := 2; tt_private := tc0 |}.

(** *** Pools *)

(** The bio 26, a write into block 0, arrives while the cell of
    [key0] holds the bios 20 and 21. *)
Definition pool_held : example_pool :=
  set_bio_mem (<[26%nat := write0]> bios0) (set_prison prison1 pool0).

(** The same, with a mapping allocated ahead. *)
Definition pool_held_ahead : example_pool :=
  set_bio_mem (<[26%nat := write0]> bios0) (set_prison prison1 pool_ahead).

(** A mapping is allocated ahead in a pool that does not zero new
    blocks. *)
Definition pool_no_zero : example_pool :=
  set_zero_new_blocks false pool_ahead.

(** A mapping is allocated ahead while a shared read is in flight and
    the cell of [key0] holds the bios 20 and 21. *)
Definition pool_read_in_flight : example_pool :=
  set_ds ds_reading (set_prison prison1 pool_ahead).

(** The reads 22 and 24 are on the deferred list. *)
Definition pool_deferred : example_pool :=
  set_deferred_bios [22%nat; 24%nat] pool0.

(** The stack holds zeros whenever the worker calls [process_bio]. *)
Definition stack_zeros : nat -> cell_key * cell_key :=
  fun _ => (stack0, stack0).

(** The worker has run on the two reads of [pool_deferred]. *)
Definition pool_worked : example_pool :=
  default pool_deferred (do_worker stack_zeros pool_deferred).

(** The write 20 is on the deferred list; and the metadata once block
    0 of the device is mapped to the data block 7. *)
Definition pool_write_deferred : example_pool :=
  set_deferred_bios [20%nat] pool0.

Definition md0_written : example_md :=
  (example_insert_block md0_taken 1 0 7).2.

(** Eleven free blocks, before a low-water mark of ten. *)
Definition md_eleven : example_md :=
  {| md_blocks := md_blocks md0; md_free := 11; md_next := 7;
     md_data_size := 18; md_commit_result := 0 |}.

Definition pool_eleven : example_pool := set_pmd md_eleven pool_low.

(** A table three blocks longer than the data device. *)
Definition target_grown : dm_target := {| len := 128 * 20; private := pt0 |}.

(** *** A write with FUA that is hooked

    The bio 27 is a write with FUA that covers block 0, on a pool whose
    commits fail.  [process_bio] detains it, allocates the data block 7
    and runs [schedule_zero], which hooks the bio instead of zeroing
    the block: [pool_fua_hooked] is the pool when [remap_and_issue] is
    called. *)
Definition fua0 : bio :=
  {| bi_rw := 1 + 2 ^ 12; bi_sector := 0; bi_size := 65536; bi_bdev := 9;
     bi_end_io := host_end_io; bi_map_info := ptr_thin_c tc0 |}.

Definition pool_fua : example_pool :=
  set_bio_mem (<[27%nat := fua0]> bios0) (set_pmd md_bad_commit pool_ahead).

Definition fua0_hooked : bio :=
  set_bi_map_info (ptr_new_mapping 0%nat)
    (set_bi_end_io overwrite_endio_fn fua0).

Definition mapping_hooked : new_mapping :=
  {| m_list := LIST_INIT; prepared := 0; m_tc := tc0; virt_block := 0;
     data_block := 7; m_cell := 0%nat; err := 0; m_bio := Some 27%nat;
     saved_bi_end_io := host_end_io |}.

Definition cell_fua : cell :=
  {| cell_addr := 0%nat; key := key0; count := 1; bios := [27%nat] |}.

Definition prison_fua : bio_prison :=
  set_cells (fun t => <[Z.to_nat (hash_key prison0 key0) :=
                          cell_fua :: bucket prison0 (hash_key prison0 key0)]> t)
            (set_cell_pool (fun _ => {[0%nat]}) prison0).

Definition md_bad_commit_taken : example_md :=
  {| md_blocks := md_blocks md0; md_free := 9; md_next := 8;
     md_data_size := 17; md_commit_result := - 5 |}.

Definition pool_fua_hooked : example_pool :=
  set_bio_mem (<[27%nat := fua0_hooked]> bios0)
    (set_mapping_pool {[ 0%nat := mapping_hooked ]}
       (set_prison prison_fua (set_pmd md_bad_commit_taken pool0))).

(** *** A copy that kcopyd refuses

    The read 24 of the shared block 2 is in flight ([pool_reading]).
    The write 25 into block 2 needs a copy, which kcopyd refuses: the
    write is failed.  The next new_mapping is allocated, and the write
    20 into block 0, which is not provisioned, has its block zeroed;
    kcopyd reports the block zeroed. *)
Section Refused_copy.
#[local] Existing Instance example_kcopyd_no_copy.

Definition pool_copy_refused : example_pool :=
  default pool_reading (process_bio tc0 25%nat stack0 stack0 pool_reading).

Definition pool_ahead_again : example_pool :=
  (ensure_next_mapping pool_copy_refused).2.

Definition pool_zeroing : example_pool :=
  default pool_ahead_again
    (process_bio tc0 20%nat stack0 stack0 pool_ahead_again).

Definition pool_zeroed : example_pool := copy_complete 0 0 0%nat pool_zeroing.

End Refused_copy.

End More_examples.

(** * Properties *)

(** ** The bio prison *)

Section Prison.
Implicit Types (prison : bio_prison) (k : cell_key) (c : cell).

Lemma land_upper a b : 0 <= a -> 0 <= b -> 0 <= Z.land a b <= b.
Proof.
  intros Ha Hb. apply Z.ldiff_le; [done|].
  apply Z.bits_inj'. intros n Hn.
  rewrite Z.ldiff_spec, Z.land_spec, Z.bits_0.
  destruct (Z.testbit a n), (Z.testbit b n); reflexivity.
Qed.

Lemma hash_key_range prison k :
  0 <= hash_mask prison < 2 ^ 32 ->
  0 <= hash_key prison k <= hash_mask prison.
Proof.
  intros Hm. unfold hash_key, u32, u64.
  assert (0 <= (block k * BIG_PRIME) `mod` 2 ^ 64) by (apply Z.mod_pos_bound; lia).
  pose proof (land_upper ((block k * BIG_PRIME) `mod` 2 ^ 64) (hash_mask prison)).
  rewrite Z.mod_small; lia.
Qed.

Lemma search_Some_elem (l : list cell) k c :
  __search_bucket l k = Some c -> c ∈ l /\ key c = k.
Proof.
  induction l as [|x l IH]; simpl; [done|].
  case_decide as Hk.
  - intros [= ->]. split; [left | done].
  - intros Hs. destruct (IH Hs). split; [by right | done].
Qed.

Lemma search_None (l : list cell) k :
  __search_bucket l k = None <-> forall c, c ∈ l -> key c ≠ k.
Proof.
  induction l as [|x l IH]; simpl.
  - split; [intros _ c Hc; inversion Hc | done].
  - case_decide as Hk.
    + split; [done|]. intros Hall. destruct (Hall x); [left | done].
    + rewrite IH. split.
      * intros Hall c Hc. inversion Hc; subst; auto.
      * intros Hall c Hc. apply Hall. by right.
Qed.

Lemma search_Some (l : list cell) k c :
  NoDup (key <$> l) ->
  __search_bucket l k = Some c <-> c ∈ l /\ key c = k.
Proof.
  intros Hnd. split; [apply search_Some_elem|].
  intros [Hc Hk]. induction l as [|x l IH]; [inversion Hc|].
  simpl. apply NoDup_cons in Hnd as [Hx Hnd]. case_decide as Hxk.
  - inversion Hc; subst; [done|]. destruct Hx.
    rewrite Hxk. by apply list_elem_of_fmap_2.
  - inversion Hc; subst; [done|]. by apply IH.
Qed.

Lemma search_fmap (g : cell -> cell) (l : list cell) k :
  (forall c, key (g c) = key c) ->
  __search_bucket (g <$> l) k = g <$> __search_bucket l k.
Proof.
  intros Hg. induction l as [|x l IH]; simpl; [done|].
  rewrite Hg. by case_decide.
Qed.

Lemma linked_elem prison c :
  c ∈ linked prison <-> exists i b, cells prison !! i = Some b /\ c ∈ b.
Proof.
  unfold linked. rewrite list_elem_of_join. split.
  - intros (b & Hc & Hb). apply list_elem_of_lookup in Hb as [i Hi]. eauto.
  - intros (i & b & Hi & Hc). exists b. split; [done|].
    by eapply list_elem_of_lookup_2.
Qed.

Lemma bucket_lookup prison i b :
  cells prison !! i = Some b -> bucket prison (Z.of_nat i) = b.
Proof. unfold bucket. rewrite Nat2Z.id. by intros ->. Qed.

Lemma bucket_elem prison h c :
  c ∈ bucket prison h -> c ∈ linked prison.
Proof.
  unfold bucket. destruct (cells prison !! Z.to_nat h) as [b|] eqn:Hb; simpl.
  - intros Hc. apply linked_elem. eauto.
  - inversion 1.
Qed.

(** Searching the chain of the hash is searching the whole table. *)
Lemma bucket_search prison k :
  prison_wf prison ->
  __search_bucket (bucket prison (hash_key prison k)) k = find_cell prison k.
Proof.
  intros Hwf. unfold find_cell.
  destruct (__search_bucket (linked prison) k) as [c|] eqn:Hf.
  - apply search_Some_elem in Hf as [Hc Hk].
    apply linked_elem in Hc as (i & b & Hi & Hc).
    pose proof (wf_hash _ Hwf i b c Hi Hc) as Hh. rewrite Hk in Hh.
    destruct (__search_bucket (bucket prison (hash_key prison k)) k)
      as [c'|] eqn:Hs.
    + apply search_Some_elem in Hs as [Hc' Hk']. f_equal.
      apply bucket_elem in Hc'.
      assert (Hin : c ∈ linked prison) by (apply linked_elem; eauto).
      pose proof (wf_keys _ Hwf) as Hnd.
      apply list_elem_of_lookup in Hc' as [j Hj].
      apply list_elem_of_lookup in Hin as [j' Hj'].
      assert (j = j') as ->.
      { eapply (NoDup_lookup _ _ _ k Hnd); rewrite list_lookup_fmap.
        - by rewrite Hj; simpl; rewrite Hk'.
        - by rewrite Hj'; simpl; rewrite Hk. }
      congruence.
    + exfalso. rewrite search_None in Hs. apply (Hs c); [|done].
      unfold bucket. rewrite Hh, Hi. done.
  - apply search_None. intros c Hc. rewrite search_None in Hf.
    apply Hf. by eapply bucket_elem.
Qed.

Lemma find_cell_Some prison k c :
  prison_wf prison ->
  find_cell prison k = Some c <-> c ∈ linked prison /\ key c = k.
Proof. intros Hwf. apply search_Some, Hwf. Qed.

Lemma find_cell_None prison k :
  find_cell prison k = None <-> k ∉ key <$> linked prison.
Proof.
  unfold find_cell. rewrite search_None, list_elem_of_fmap. split.
  - intros Hall (c & -> & Hc). by apply (Hall c).
  - intros Hn c Hc Hk. apply Hn. eauto.
Qed.

(** The cells linked after each of the stores to the table. *)
Lemma linked_insert prison i b c :
  cells prison !! i = Some b ->
  linked (set_cells (fun t => <[i := c :: b]> t) prison)
    ≡ₚ c :: linked prison.
Proof.
  intros Hi. unfold linked; simpl.
  assert (i < length (cells prison))%nat by (eapply lookup_lt_Some; eauto).
  rewrite insert_take_drop by done.
  rewrite <- (take_drop_middle (cells prison) i b Hi) at 3.
  rewrite !join_app. simpl. symmetry. apply Permutation_middle.
Qed.

Lemma join_fmap_fmap (g : cell -> cell) (t : list (list cell)) :
  mjoin (map (map g) t) = g <$> mjoin t.
Proof.
  induction t as [|b t IH]; simpl; [done|]. by rewrite fmap_app, IH.
Qed.

Lemma linked_store prison a f :
  linked (set_cells (cell_store a f) prison)
    = (fun c => if decide (cell_addr c = a) then f c else c) <$> linked prison.
Proof. unfold linked, cell_store; simpl. apply join_fmap_fmap. Qed.

Lemma join_fmap_filter (P : cell -> Prop) `{!forall c, Decision (P c)}
    (t : list (list cell)) :
  mjoin (map (filter P) t) = filter P (mjoin t).
Proof.
  induction t as [|b t IH]; simpl; [done|]. by rewrite filter_app, IH.
Qed.

Lemma linked_release prison a inmates :
  linked (__cell_release a inmates prison).2
    = filter (fun c => cell_addr c ≠ a) (linked prison).
Proof. unfold linked, __cell_release; simpl. apply join_fmap_filter. Qed.

Lemma cell_load_Some prison c :
  prison_wf prison -> c ∈ linked prison ->
  cell_load (cell_addr c) (cells prison) = Some c.
Proof.
  intros Hwf Hc. unfold cell_load. fold (linked prison).
  apply list_elem_of_lookup in Hc as [i Hi].
  destruct (list_find (fun c0 => cell_addr c0 = cell_addr c) (linked prison))
    as [[j c']|] eqn:Hf; simpl.
  - apply list_find_Some in Hf as (Hj & Ha & _). f_equal.
    assert (j = i) as ->; [|congruence].
    eapply (NoDup_lookup _ _ _ (cell_addr c) (wf_addrs _ Hwf));
      unfold linked_addrs; rewrite list_lookup_fmap.
    + by rewrite Hj; simpl; rewrite Ha.
    + by rewrite Hi.
  - apply list_find_None in Hf. rewrite Forall_forall in Hf.
    destruct (Hf c); [by eapply list_elem_of_lookup_2 | done].
Qed.

Lemma same_addr prison c c' :
  prison_wf prison -> c ∈ linked prison -> c' ∈ linked prison ->
  cell_addr c = cell_addr c' -> c = c'.
Proof.
  intros Hwf Hc Hc' Ha.
  pose proof (cell_load_Some _ _ Hwf Hc) as H1.
  pose proof (cell_load_Some _ _ Hwf Hc') as H2. congruence.
Qed.

(** Well-formedness is kept by every store to the prison. *)
Lemma wf_store prison a f :
  prison_wf prison ->
  (forall c, key (f c) = key c) -> (forall c, cell_addr (f c) = cell_addr c) ->
  prison_wf (set_cells (cell_store a f) prison).
Proof.
  intros Hwf Hk Ha.
  assert (Hk' : forall c,
    key (if decide (cell_addr c = a) then f c else c) = key c)
    by (intros; by case_decide).
  assert (Ha' : forall c,
    cell_addr (if decide (cell_addr c = a) then f c else c) = cell_addr c)
    by (intros; by case_decide).
  destruct Hwf as [Hm Hb Hl Hh Hnk Hna Hlive].
  split; simpl; try done.
  - unfold cell_store. by rewrite length_map.
  - intros i b c Hi Hc. unfold cell_store in Hi.
    change (map ?g ?l) with (g <$> l) in Hi.
    rewrite list_lookup_fmap in Hi.
    destruct (cells prison !! i) as [b0|] eqn:Hb0; simplify_eq/=.
    change (map ?g ?l) with (g <$> l) in Hc.
    apply list_elem_of_fmap in Hc as (c0 & -> & Hc0).
    rewrite Hk'. by eapply Hh.
  - rewrite linked_store, <- list_fmap_compose.
    erewrite list_fmap_ext; [exact Hnk|]. intros; simpl. apply Hk'.
  - unfold linked_addrs. rewrite linked_store, <- list_fmap_compose.
    erewrite list_fmap_ext; [exact Hna|]. intros; simpl. apply Ha'.
  - intros x. unfold linked_addrs. rewrite linked_store, <- list_fmap_compose.
    erewrite list_fmap_ext; [apply Hlive|]. intros; simpl. apply Ha'.
Qed.

Lemma wf_set_cell_pool prison f :
  prison_wf prison ->
  (forall a, a ∈ linked_addrs prison -> a ∈ f (cell_pool prison)) ->
  prison_wf (set_cell_pool f prison).
Proof. intros [Hm Hb Hl Hh Hnk Hna Hlive] Hf. by split. Qed.

Lemma bucket_Some prison k :
  prison_wf prison ->
  cells prison !! Z.to_nat (hash_key prison k)
    = Some (bucket prison (hash_key prison k)).
Proof.
  intros Hwf. unfold bucket.
  destruct (cells prison !! Z.to_nat (hash_key prison k)) eqn:Hb; [done|].
  apply lookup_ge_None in Hb.
  pose proof (hash_key_range prison k (wf_mask _ Hwf)).
  pose proof (wf_len _ Hwf). pose proof (wf_buckets _ Hwf). lia.
Qed.

Lemma wf_insert prison k cell2 n bs :
  prison_wf prison -> find_cell prison k = None ->
  cell2 ∉ linked_addrs prison -> cell2 ∈ cell_pool prison ->
  prison_wf
    (set_cells
       (fun t => <[Z.to_nat (hash_key prison k) :=
                     {| cell_addr := cell2; key := k; count := n; bios := bs |}
                     :: bucket prison (hash_key prison k)]> t) prison).
Proof.
  intros Hwf Hnone Hfresh Hlive.
  pose proof (bucket_Some prison k Hwf) as Hb.
  pose proof (linked_insert prison _ _
    {| cell_addr := cell2; key := k; count := n; bios := bs |} Hb) as Hperm.
  destruct Hwf as [Hm Hbk Hl Hh Hnk Hna Hlv].
  split; simpl; try done.
  - by rewrite length_insert.
  - intros i b c Hi Hc.
    destruct (decide (i = Z.to_nat (hash_key prison k))) as [->|Hne].
    + rewrite list_lookup_insert_eq in Hi by (by eapply lookup_lt_Some).
      simplify_eq. apply elem_of_cons in Hc as [->|Hc]; [done|].
      by eapply Hh.
    + rewrite list_lookup_insert_ne in Hi by done. by eapply Hh.
  - rewrite Hperm. simpl. apply NoDup_cons. split; [|done].
    by apply find_cell_None.
  - unfold linked_addrs. rewrite Hperm. simpl. by apply NoDup_cons.
  - intros a. unfold linked_addrs. rewrite Hperm. simpl.
    intros [->|Ha]%elem_of_cons; [done|]. by apply Hlv.
Qed.

Lemma wf_release prison a inmates :
  prison_wf prison -> prison_wf (__cell_release a inmates prison).2.
Proof.
  intros Hwf. pose proof (linked_release prison a inmates) as Hlk.
  destruct Hwf as [Hm Hbk Hl Hh Hnk Hna Hlv].
  split; try done.
  - simpl. by rewrite length_map.
  - intros i b c Hi Hc. simpl in Hi.
    change (map ?g ?l) with (g <$> l) in Hi.
    rewrite list_lookup_fmap in Hi.
    destruct (cells prison !! i) as [b0|] eqn:Hb0; simplify_eq/=.
    apply list_elem_of_filter in Hc as [_ Hc]. by eapply (Hh i b0).
  - rewrite Hlk. eapply sublist_NoDup; [exact Hnk|].
    apply fmap_sublist, sublist_filter.
  - unfold linked_addrs. rewrite Hlk. eapply sublist_NoDup; [exact Hna|].
    apply fmap_sublist, sublist_filter.
  - intros x. unfold linked_addrs. rewrite Hlk.
    intros (c & -> & [Hne Hc]%list_elem_of_filter)%list_elem_of_fmap.
    simpl. apply elem_of_difference. split.
    + apply Hlv. by apply list_elem_of_fmap_2.
    + by apply not_elem_of_singleton.
Qed.

Lemma find_cell_store prison a f k :
  (forall c, key (f c) = key c) ->
  find_cell (set_cells (cell_store a f) prison) k
    = (fun c => if decide (cell_addr c = a) then f c else c)
        <$> find_cell prison k.
Proof.
  intros Hk. unfold find_cell. rewrite linked_store. apply search_fmap.
  intros c. by case_decide.
Qed.

Lemma u32_small z : 0 <= z < 2 ^ 32 -> u32 z = z.
Proof. intros. unfold u32. by rewrite Z.mod_small. Qed.

Lemma s32_small z : 0 <= z < 2 ^ 31 -> s32 z = z.
Proof.
  intros. unfold s32. rewrite u32_small by lia. case_decide; lia.
Qed.

(** Adding the inmate to the cell the key already has. *)
Lemma detain_inmate_found prison k c inmate r prison' :
  prison_wf prison -> cells_counted prison ->
  find_cell prison k = Some c ->
  detain_inmate prison (cell_addr c) inmate = (r, prison') ->
  detained prison k inmate r (cell_addr c) prison' /\ prison_wf prison'.
Proof.
  intros Hwf Hcnt Hf Hd. unfold detain_inmate in Hd.
  pose proof Hf as [Hc Hk]%find_cell_Some; [|done].
  rewrite (cell_load_Some _ _ Hwf Hc) in Hd.
  destruct (Hcnt c Hc) as [Hlen Hbound]. simplify_eq.
  split; [|by apply wf_store].
  unfold detained, inmates. rewrite Hf. split_and!.
  - rewrite s32_small by lia. done.
  - rewrite find_cell_store, Hf by done. simpl.
    rewrite decide_True by done. unfold add_inmate.
    rewrite s32_small, u32_small by lia. done.
  - by intros ? [= ->].
  - done.
  - intros k' Hne. rewrite find_cell_store by done.
    destruct (find_cell prison k') as [c'|] eqn:Hf'; [|done]. simpl.
    apply find_cell_Some in Hf' as [Hc' Hk']; [|done].
    rewrite decide_False; [done|]. intros Ha.
    apply Hne. rewrite <- Hk'. f_equal. by eapply same_addr.
  - rewrite s32_small by lia. split; [lia | done].
Qed.

(** The second critical section: the key is looked up again, a cell is
    linked for it if it has none, and the inmate is added. *)
Lemma detain_locked_spec prison k inmate cell2 :
  prison_wf prison -> cells_counted prison ->
  cell2 ∉ linked_addrs prison -> cell2 ∈ cell_pool prison ->
  exists r cell spare prison',
    detain_locked prison (hash_key prison k) k inmate cell2
      = (r, cell, spare, prison') /\
    detained prison k inmate r cell prison' /\
    prison_wf prison' /\
    spare = match find_cell prison k with
            | Some _ => Some cell2
            | None => None
            end /\
    cell_pool prison' = cell_pool prison.
Proof.
  intros Hwf Hcnt Hfresh Hlive. unfold detain_locked, detain_recheck.
  rewrite bucket_search by done.
  destruct (find_cell prison k) as [c|] eqn:Hf.
  - destruct (detain_inmate prison (cell_addr c) inmate) as [r p'] eqn:Hd.
    exists r, (cell_addr c), (Some cell2), p'.
    destruct (detain_inmate_found _ _ _ _ _ _ Hwf Hcnt Hf Hd) as [Hdet Hwf'].
    split_and!; try done. unfold detain_inmate in Hd. by simplify_eq.
  - set (new := {| cell_addr := cell2; key := k; count := 0; bios := [] |}).
    set (p1 := set_cells _ prison).
    assert (Hwf1 : prison_wf p1) by (by apply wf_insert).
    assert (Hperm : linked p1 ≡ₚ new :: linked prison)
      by (apply linked_insert, bucket_Some, Hwf).
    assert (Hnew : new ∈ linked p1) by (rewrite Hperm; left).
    assert (Hf1 : forall k' c, find_cell p1 k' = Some c <->
              c = new /\ k' = k \/ find_cell prison k' = Some c).
    { intros k' c. rewrite !find_cell_Some, Hperm, elem_of_cons by done.
      split; [intros [[->|Hc] Hk]; eauto | intros [[-> ->]|[Hc Hk]]; eauto]. }
    unfold detain_inmate.
    change cell2 with (cell_addr new) at 1 2.
    rewrite (cell_load_Some _ _ Hwf1 Hnew). simpl.
    eexists _, _, _, _. split; [reflexivity|]. split; [|split; [|done]].
    + unfold detained, inmates. rewrite Hf. simpl. split_and!; try done.
      * rewrite find_cell_store by done.
        assert (find_cell p1 k = Some new) as -> by (apply Hf1; eauto).
        simpl. rewrite decide_True by done. done.
      * intros k' Hne. rewrite find_cell_store by done.
        destruct (find_cell p1 k') as [c'|] eqn:Hf'.
        -- apply Hf1 in Hf' as [[-> ->]|Hf']; [done|]. rewrite Hf'. simpl.
           rewrite decide_False; [done|]. intros Ha. apply Hfresh.
           rewrite <- Ha. apply list_elem_of_fmap_2.
           by apply find_cell_Some in Hf' as [? ?].
        -- destruct (find_cell prison k') as [c'|] eqn:Hf''; [|done].
           assert (find_cell p1 k' = Some c') by (apply Hf1; eauto).
           congruence.
    + by apply wf_store.
Qed.

(** X28.  A key is compared as [memcmp] compares it, byte for byte:
    the cell of a key is the cell whose key has the same fields and
    the same padding.  [bio_detain] finds or creates the cell of the
    key, puts the request at the end of the cell's list and returns the
    number of requests the cell held before; it returns 0 exactly when
    the key had no cell, which makes the caller the owner of the cell
    it has just created.  The same holds for the critical section that
    does the insertion, whatever cell was allocated for it while the
    lock was dropped: finding or creating the cell and adding the
    request is one atomic step. *)
Theorem bio_detain_by_key_image prison k inmate :
  prison_wf prison -> cells_counted prison ->
  (exists r cell prison',
     bio_detain prison k inmate = Some (r, cell, prison') /\
     detained prison k inmate r cell prison' /\ prison_wf prison') /\
  (forall cell2,
     cell2 ∉ linked_addrs prison -> cell2 ∈ cell_pool prison ->
     exists r cell spare prison',
       detain_locked prison (hash_key prison k) k inmate cell2
         = (r, cell, spare, prison') /\
       detained prison k inmate r cell prison' /\ prison_wf prison').
Proof.
  intros Hwf Hcnt. split.
  - unfold bio_detain.
    pose proof (hash_key_range prison k (wf_mask _ Hwf)).
    pose proof (wf_buckets _ Hwf).
    rewrite decide_False by lia. rewrite bucket_search by done.
    destruct (find_cell prison k) as [c|] eqn:Hf.
    + destruct (detain_inmate prison (cell_addr c) inmate) as [r p'] eqn:Hd.
      exists r, (cell_addr c), p'. split; [done|].
      by eapply detain_inmate_found.
    + unfold mempool_alloc.
      set (cell2 := fresh (cell_pool prison)).
      set (p1 := set_cell_pool _ prison).
      assert (Hnotin : cell2 ∉ cell_pool prison) by apply is_fresh.
      assert (Hwf1 : prison_wf p1).
      { apply wf_set_cell_pool; [done|]. intros a Ha.
        apply elem_of_union_r. by apply (wf_live _ Hwf). }
      destruct (detain_locked_spec p1 k inmate cell2)
        as (r & cell & spare & p2 & Hl & Hdet & Hwf2 & Hsp & Hpool);
        try done.
      { intros Ha. apply Hnotin. by apply (wf_live _ Hwf). }
      { simpl. apply elem_of_union_l. by apply elem_of_singleton. }
      change (hash_key prison k) with (hash_key p1 k). rewrite Hl.
      exists r, cell, (detain_free spare p2). split; [done|].
      change (find_cell p1 k) with (find_cell prison k) in Hsp.
      rewrite Hf in Hsp. subst spare. simpl. done.
  - intros cell2 Hfresh Hlive.
    destruct (detain_locked_spec prison k inmate cell2 Hwf Hcnt Hfresh Hlive)
      as (r & cell & spare & p' & Hl & Hdet & Hwf' & _).
    eauto 10.
Qed.

(** *** The prison as [prison_create] makes it *)

Lemma calc_nr_buckets_total nr_cells :
  exists n, calc_nr_buckets nr_cells = Some n /\ 128 <= n <= 8192.
Proof.
  unfold calc_nr_buckets.
  assert (Hm : Z.min (nr_cells `div` 4) 8192 <= 8192) by lia.
  revert Hm. generalize (Z.min (nr_cells `div` 4) 8192). intros m Hm.
  do 7 (cbn [calc_nr_buckets_loop];
        destruct (decide (_ < m)); [|eexists; split; [reflexivity|lia]];
        match goal with
        | |- context [u32 (Z.shiftl ?n 1)] =>
            let v := eval vm_compute in (u32 (Z.shiftl n 1)) in
            change (u32 (Z.shiftl n 1)) with v
        end).
  lia.
Qed.

Lemma join_replicate_nil (n : nat) : mjoin (replicate n (@nil cell)) = [].
Proof. induction n; simpl; [done|]. done. Qed.

Lemma prison_create_wf nr_cells :
  exists prison, prison_create nr_cells = Some prison /\ prison_wf prison
                 /\ linked prison = [].
Proof.
  unfold prison_create.
  destruct (calc_nr_buckets_total nr_cells) as (n & -> & Hn).
  eexists. split; [reflexivity|].
  assert (Hl : linked {| cell_pool := ∅; nr_buckets := n;
                         hash_mask := u32 (n - 1);
                         cells := replicate (Z.to_nat n) [] |} = [])
    by apply join_replicate_nil.
  split; [|done].
  split; simpl.
  - rewrite u32_small by lia. lia.
  - rewrite u32_small by lia. lia.
  - by rewrite length_replicate.
  - intros i b c [-> _]%lookup_replicate Hc. inversion Hc.
  - rewrite Hl. constructor.
  - unfold linked_addrs. rewrite Hl. constructor.
  - intros a. unfold linked_addrs. rewrite Hl. inversion 1.
Qed.

(** *** Concurrent callers *)

Lemma spares_insert (callers : list detainer) i old new :
  callers !! i = Some old ->
  spares callers
    = spares (take i callers) ++ option_list (spare_cell old)
        ++ spares (drop (S i) callers) /\
  spares (<[i := new]> callers)
    = spares (take i callers) ++ option_list (spare_cell new)
        ++ spares (drop (S i) callers).
Proof.
  intros Hi. unfold spares.
  assert (i < length callers)%nat by (eapply lookup_lt_Some; eauto).
  split.
  - rewrite <- (take_drop_middle callers i old Hi) at 1.
    rewrite omap_app. simpl. by destruct (spare_cell old).
  - rewrite insert_take_drop by done.
    rewrite omap_app. simpl. by destruct (spare_cell new).
Qed.

Lemma spares_insert_same (callers : list detainer) i old new :
  callers !! i = Some old -> spare_cell new = spare_cell old ->
  spares (<[i := new]> callers) = spares callers.
Proof.
  intros Hi Hs. destruct (spares_insert callers i old new Hi) as [-> ->].
  by rewrite Hs.
Qed.

Lemma spares_insert_add (callers : list detainer) i old new a :
  callers !! i = Some old -> spare_cell old = None -> spare_cell new = Some a ->
  spares (<[i := new]> callers) ≡ₚ a :: spares callers.
Proof.
  intros Hi Ho Hn. destruct (spares_insert callers i old new Hi) as [-> ->].
  rewrite Ho, Hn. simpl. symmetry. apply Permutation_middle.
Qed.

Lemma spares_insert_del (callers : list detainer) i old new a :
  callers !! i = Some old -> spare_cell old = Some a -> spare_cell new = None ->
  spares callers ≡ₚ a :: spares (<[i := new]> callers).
Proof.
  intros Hi Ho Hn. destruct (spares_insert callers i old new Hi) as [-> ->].
  rewrite Ho, Hn. simpl. symmetry. apply Permutation_middle.
Qed.

Lemma spares_elem (callers : list detainer) i d a :
  callers !! i = Some d -> spare_cell d = Some a -> a ∈ spares callers.
Proof.
  intros Hi Hs. unfold spares. apply list_elem_of_omap. exists d.
  split; [by eapply list_elem_of_lookup_2 | done].
Qed.

Lemma linked_addrs_store prison a f :
  (forall c, cell_addr (f c) = cell_addr c) ->
  linked_addrs (set_cells (cell_store a f) prison) = linked_addrs prison.
Proof.
  intros Ha. unfold linked_addrs. rewrite linked_store, <- list_fmap_compose.
  apply list_fmap_ext. intros; simpl. by case_decide.
Qed.

Lemma detain_inmate_inv prison a inmate :
  prison_wf prison ->
  prison_wf (detain_inmate prison a inmate).2 /\
  linked_addrs (detain_inmate prison a inmate).2 = linked_addrs prison /\
  cell_pool (detain_inmate prison a inmate).2 = cell_pool prison.
Proof.
  intros Hwf. unfold detain_inmate; simpl. split_and!.
  - by apply wf_store.
  - by apply linked_addrs_store.
  - done.
Qed.

(** The re-check after the lock is taken again: a caller that finds
    the cell another caller has linked meanwhile keeps its own cell
    out of the table; otherwise its cell is the one linked for the key. *)
Lemma detain_locked_inv prison k inmate cell2 r cell spare prison' :
  prison_wf prison ->
  cell2 ∈ cell_pool prison -> cell2 ∉ linked_addrs prison ->
  detain_locked prison (hash_key prison k) k inmate cell2
    = (r, cell, spare, prison') ->
  prison_wf prison' /\ cell_pool prison' = cell_pool prison /\
  match find_cell prison k with
  | Some c =>
      spare = Some cell2 /\ cell = cell_addr c /\
      linked_addrs prison' = linked_addrs prison
  | None =>
      spare = None /\ cell = cell2 /\
      linked_addrs prison' ≡ₚ cell2 :: linked_addrs prison
  end.
Proof.
  intros Hwf Hlive Hfresh. unfold detain_locked, detain_recheck.
  rewrite bucket_search by done.
  destruct (find_cell prison k) as [c|] eqn:Hf.
  - destruct (detain_inmate_inv prison (cell_addr c) inmate Hwf)
      as (Hwf' & Hl & Hp).
    destruct (detain_inmate prison (cell_addr c) inmate) as [r0 p0].
    intros [= <- <- <- <-]. done.
  - set (p1 := set_cells _ prison).
    assert (Hwf1 : prison_wf p1) by (by apply wf_insert).
    destruct (detain_inmate_inv p1 cell2 inmate Hwf1) as (Hwf' & Hl & Hp).
    destruct (detain_inmate p1 cell2 inmate) as [r0 p0].
    intros [= <- <- <- <-]. split_and!; try done.
    simpl in Hl. rewrite Hl. unfold linked_addrs. subst p1.
    rewrite (linked_insert prison _ _ _ (bucket_Some prison k Hwf)). done.
Qed.

Lemma prison_step_inv s s' :
  prison_inv s -> prison_step s s' -> prison_inv s'.
Proof.
  intros (Hwf & Hnd & Hsp) Hstep. unfold prison_inv.
  destruct Hstep as
    [ prison callers k inmate
    | prison callers i k inmate cell r prison' Hi Hbug Hs Hd
    | prison callers i k inmate Hi Hbug Hs
    | prison callers i k inmate cell2 Hi Hfresh
    | prison callers i k inmate cell2 r cell cell2' prison' Hi Hl
    | prison callers i r cell cell2 Hi
    | prison callers cell Hc ]; simpl in *.
  - (* a new caller *)
    assert (spares (callers ++ [D_search k inmate]) = spares callers) as Heq.
    { unfold spares. rewrite omap_app. simpl. by rewrite app_nil_r. }
    split_and!; simpl; rewrite ?Heq; done.
  - (* the cell is found at the first search *)
    destruct (detain_inmate_inv prison (cell_addr cell) inmate Hwf)
      as (Hwf' & Hlk & Hp).
    rewrite Hd in Hwf', Hlk, Hp. simpl in *.
    rewrite (spares_insert_same callers i _ _ Hi) by done.
    split_and!; [done..|]. intros a Ha. rewrite Hlk, Hp. by apply Hsp.
  - (* no cell is found at the first search *)
    rewrite (spares_insert_same callers i _ _ Hi) by done. done.
  - (* a cell is allocated *)
    pose proof (spares_insert_add callers i _ (D_recheck k inmate cell2)
                  cell2 Hi eq_refl eq_refl) as Hperm.
    split_and!.
    + apply wf_set_cell_pool; [done|]. intros a Ha.
      apply elem_of_union_r. by apply (wf_live _ Hwf).
    + rewrite Hperm. apply NoDup_cons. split; [|done].
      intros Ha. apply Hfresh. by apply Hsp.
    + intros a. rewrite Hperm. simpl.
      intros [->|Ha]%elem_of_cons.
      * split; [apply elem_of_union_l; by apply elem_of_singleton|].
        intros Ha. apply Hfresh. by apply (wf_live _ Hwf).
      * destruct (Hsp a Ha). split; [by apply elem_of_union_r | done].
  - (* the second critical section *)
    assert (Hin : cell2 ∈ spares callers) by (by eapply spares_elem).
    destruct (Hsp cell2 Hin) as [Hlive Hfresh].
    destruct (detain_locked_inv _ _ _ _ _ _ _ _ Hwf Hlive Hfresh Hl)
      as (Hwf' & Hp & Hcase).
    destruct (find_cell prison k) as [c|].
    + destruct Hcase as (-> & -> & Hlk).
      rewrite (spares_insert_same callers i _ _ Hi) by done.
      split_and!; [done..|]. intros a Ha. rewrite Hlk, Hp. by apply Hsp.
    + destruct Hcase as (-> & -> & Hlk).
      pose proof (spares_insert_del callers i _ (D_free r cell2 None)
                    cell2 Hi eq_refl eq_refl) as Hperm.
      rewrite Hperm in Hnd. apply NoDup_cons in Hnd as [Hnotin Hnd].
      split_and!; [done..|]. intros a Ha. rewrite Hlk, Hp.
      assert (a ∈ spares callers) as Ha' by (rewrite Hperm; by right).
      destruct (Hsp a Ha'). split; [done|].
      intros [->|?]%elem_of_cons; done.
  - (* the spare cell is given back *)
    destruct cell2 as [cell2|]; simpl.
    + pose proof (spares_insert_del callers i _ (D_return r cell)
                    cell2 Hi eq_refl eq_refl) as Hperm.
      assert (Hin : cell2 ∈ spares callers) by (by eapply spares_elem).
      destruct (Hsp cell2 Hin) as [Hlive Hfresh].
      rewrite Hperm in Hnd. apply NoDup_cons in Hnd as [Hnotin Hnd].
      split_and!; [|done|].
      * apply wf_set_cell_pool; [done|]. intros a Ha.
        apply elem_of_difference. split; [by apply (wf_live _ Hwf)|].
        apply not_elem_of_singleton. by intros ->.
      * intros a Ha.
        assert (a ∈ spares callers) as Ha' by (rewrite Hperm; by right).
        destruct (Hsp a Ha'). split; [|done].
        apply elem_of_difference. split; [done|].
        apply not_elem_of_singleton. by intros ->.
    + rewrite (spares_insert_same callers i _ _ Hi) by done. done.
  - (* a cell is released *)
    change (prison_wf (__cell_release cell (Some []) prison).2 /\
            NoDup (spares callers) /\
            forall a, a ∈ spares callers ->
              a ∈ cell_pool (__cell_release cell (Some []) prison).2 /\
              a ∉ linked_addrs (__cell_release cell (Some []) prison).2).
    pose proof (wf_release prison cell (Some []) Hwf) as Hwf'.
    pose proof (linked_release prison cell (Some [])) as Hlk.
    assert (Hpool : cell_pool (__cell_release cell (Some []) prison).2
                    = cell_pool prison ∖ {[cell]}) by done.
    split_and!; [done..|].
    intros a Ha. destruct (Hsp a Ha) as [Hlive Hfresh].
    rewrite Hpool. split.
    + apply elem_of_difference. split; [done|].
      apply not_elem_of_singleton. by intros ->.
    + unfold linked_addrs. rewrite Hlk.
      intros (c & -> & [_ Hc']%list_elem_of_filter)%list_elem_of_fmap.
      apply Hfresh. by apply list_elem_of_fmap_2.
Qed.

Lemma prison_reachable_inv nr_cells prison0 s :
  prison_create nr_cells = Some prison0 ->
  rtc prison_step (Prison_state prison0 []) s -> prison_inv s.
Proof.
  intros Hc Hrtc.
  destruct (prison_create_wf nr_cells) as (p & Hp & Hwf & Hl).
  assert (p = prison0) as -> by congruence.
  revert s Hrtc. apply (rtc_ind_r prison_inv).
  - split_and!; simpl; [done|constructor|]. inversion 1.
  - eauto using prison_step_inv.
Qed.

(** X27.  In every state the prison can reach from [prison_create],
    with any number of callers of [bio_detain] at any point of the
    function and cells released at any time, no two linked cells have
    the same key, fields and padding taken together.  A caller whose
    second search finds the cell that another caller has linked
    meanwhile does not link its own: it is left with the cell it
    allocated, which is in no chain, and hands it back to the mempool
    before it returns. *)
Theorem one_cell_per_key_image nr_cells :
  exists prison0,
    prison_create nr_cells = Some prison0 /\
    forall s, rtc prison_step (Prison_state prison0 []) s ->
      let prison := ps_prison s in
      NoDup (key <$> linked prison) /\
      (forall i k inmate cell2 c r cell spare prison',
         ps_callers s !! i = Some (D_recheck k inmate cell2) ->
         find_cell prison k = Some c ->
         detain_locked prison (hash_key prison k) k inmate cell2
           = (r, cell, spare, prison') ->
         spare = Some cell2 /\ cell = cell_addr c /\
         linked_addrs prison' = linked_addrs prison) /\
      (forall i r cell cell2,
         ps_callers s !! i = Some (D_free r cell (Some cell2)) ->
         (cell2 ∈ cell_pool prison) /\ (cell2 ∉ linked_addrs prison) /\
         (cell2 ∉ cell_pool (detain_free (Some cell2) prison)) /\
         linked (detain_free (Some cell2) prison) = linked prison).
Proof.
  destruct (prison_create_wf nr_cells) as (prison0 & Hc & _).
  exists prison0. split; [done|]. intros s Hrtc prison.
  destruct (prison_reachable_inv _ _ _ Hc Hrtc) as (Hwf & Hnd & Hsp).
  fold prison in Hwf, Hsp. split_and!.
  - apply Hwf.
  - intros i k inmate cell2 c r cell spare prison' Hi Hf Hl.
    assert (Hin : cell2 ∈ spares (ps_callers s)) by (by eapply spares_elem).
    destruct (Hsp cell2 Hin) as [Hlive Hfresh].
    destruct (detain_locked_inv _ _ _ _ _ _ _ _ Hwf Hlive Hfresh Hl)
      as (_ & _ & Hcase).
    by rewrite Hf in Hcase.
  - intros i r cell cell2 Hi.
    assert (Hin : cell2 ∈ spares (ps_callers s)) by (by eapply spares_elem).
    destruct (Hsp cell2 Hin) as [Hlive Hfresh]. split_and!; try done.
    simpl. intros [_ Hn]%elem_of_difference. apply Hn.
    by apply elem_of_singleton.
Qed.

(** *** A caller that runs alone *)

Lemma insert_snoc {A} (l : list A) (x y : A) :
  <[length l := y]> (l ++ [x]) = l ++ [y].
Proof.
  rewrite insert_app_r_alt by lia. by rewrite Nat.sub_diag.
Qed.

Lemma lookup_snoc {A} (l : list A) (x : A) : (l ++ [x]) !! length l = Some x.
Proof. by apply list_lookup_middle. Qed.

(** A call of [bio_detain] that no other caller interferes with is a
    run of the steps it is made of. *)
Lemma bio_detain_run prison callers k inmate r cell prison' :
  bio_detain prison k inmate = Some (r, cell, prison') ->
  rtc prison_step (Prison_state prison callers)
                  (Prison_state prison' (callers ++ [D_return r cell])).
Proof.
  unfold bio_detain. case_decide as Hhash; [done|].
  destruct (__search_bucket _ k) as [c|] eqn:Hs.
  - destruct (detain_inmate prison (cell_addr c) inmate) as [r1 p1] eqn:Hd.
    intros [= <- <- <-].
    eapply rtc_l; [apply (step_call _ _ k inmate)|].
    eapply rtc_l.
    { eapply (step_found _ _ (length callers));
        [apply lookup_snoc|done|exact Hs|exact Hd]. }
    rewrite insert_snoc.
    eapply rtc_l.
    { eapply (step_free _ _ (length callers)). apply lookup_snoc. }
    rewrite insert_snoc. simpl. apply rtc_refl.
  - unfold mempool_alloc.
    set (cell2 := fresh (cell_pool prison)).
    set (p1 := set_cell_pool _ prison).
    destruct (detain_locked p1 (hash_key prison k) k inmate cell2)
      as [[[r1 c1] sp] p2] eqn:Hl.
    intros [= <- <- <-].
    eapply rtc_l; [apply (step_call _ _ k inmate)|].
    eapply rtc_l.
    { eapply (step_absent _ _ (length callers));
        [apply lookup_snoc|done|exact Hs]. }
    rewrite insert_snoc.
    eapply rtc_l.
    { eapply (step_alloc _ _ (length callers) k inmate cell2);
        [apply lookup_snoc|apply is_fresh]. }
    rewrite insert_snoc. fold p1.
    eapply rtc_l.
    { eapply (step_locked _ _ (length callers));
        [apply lookup_snoc|exact Hl]. }
    rewrite insert_snoc.
    eapply rtc_l.
    { eapply (step_free _ _ (length callers)). apply lookup_snoc. }
    rewrite insert_snoc. apply rtc_refl.
Qed.

End Prison.

(** ** The deferred set *)

Section Deferred_set.
Implicit Types (ds : deferred_set) (head : list mapping_ptr).

(** Goals on ring positions: the remainders are named and bounded,
    then [lia]. *)
Ltac mod_lia :=
  unfold ring_dist, ring_slot, ds_next, DEFERRED_SET_SIZE in *;
  repeat match goal with
  | |- context [(?a `mod` 64)%nat] =>
      let q := fresh "q" in
      let r := fresh "r" in
      pose proof (Nat.div_mod a 64 ltac:(lia));
      pose proof (Nat.mod_upper_bound a 64 ltac:(lia));
      generalize dependent (a `mod` 64)%nat;
      generalize (a `div` 64)%nat; intros q r; intros
  | H : context [(?a `mod` 64)%nat] |- _ =>
      let q := fresh "q" in
      let r := fresh "r" in
      pose proof (Nat.div_mod a 64 ltac:(lia));
      pose proof (Nat.mod_upper_bound a 64 ltac:(lia));
      generalize dependent (a `mod` 64)%nat;
      generalize (a `div` 64)%nat; intros q r; intros
  end; lia.

Lemma lookup_set_entry ds i f j :
  entries (set_entry i f ds) !! j
    = if decide (i = j) then f <$> entries ds !! j else entries ds !! j.
Proof.
  unfold set_entry; simpl. case_decide as Hij.
  - subst. apply list_lookup_alter_eq.
  - by apply list_lookup_alter_ne.
Qed.

Lemma count_at_set_count ds i v j :
  (i < length (entries ds))%nat ->
  count_at (set_entry i (set_count v) ds) j
    = if decide (i = j) then v else count_at ds j.
Proof.
  intros Hi. unfold count_at. rewrite lookup_set_entry. case_decide; [|done].
  subst. destruct (lookup_lt_is_Some_2 _ _ Hi) as [e ->]. done.
Qed.

Lemma work_at_set_count ds i v j :
  work_at (set_entry i (set_count v) ds) j = work_at ds j.
Proof.
  unfold work_at. rewrite lookup_set_entry. case_decide; [|done].
  by destruct (entries ds !! j).
Qed.

Lemma count_at_set_work ds i v j :
  count_at (set_entry i (set_work_items v) ds) j = count_at ds j.
Proof.
  unfold count_at. rewrite lookup_set_entry. case_decide; [|done].
  by destruct (entries ds !! j).
Qed.

Lemma work_at_set_work ds i v j :
  (i < length (entries ds))%nat ->
  work_at (set_entry i (set_work_items v) ds) j
    = if decide (i = j) then v else work_at ds j.
Proof.
  intros Hi. unfold work_at. rewrite lookup_set_entry. case_decide; [|done].
  subst. destruct (lookup_lt_is_Some_2 _ _ Hi) as [e ->]. done.
Qed.

Lemma ds_wf_lookup ds i :
  ds_wf ds -> (i < DEFERRED_SET_SIZE)%nat ->
  exists e, entries ds !! i = Some e /\ de_count e = count_at ds i
            /\ work_items e = work_at ds i.
Proof.
  intros Hwf Hi. rewrite <- (ds_len _ Hwf) in Hi.
  destruct (lookup_lt_is_Some_2 _ _ Hi) as [e He].
  exists e. unfold count_at, work_at. by rewrite He.
Qed.

Lemma ring_slots_S s n :
  ring_slots s (S n) = ring_slot s 0 :: ring_slots (ds_next s) n.
Proof.
  unfold ring_slots. simpl. f_equal.
  rewrite <- fmap_S_seq, <- list_fmap_compose.
  apply list_fmap_ext. intros _ j _. simpl. mod_lia.
Qed.

Lemma ring_slots_elem s n i :
  i ∈ ring_slots s n <-> exists j, (j < n)%nat /\ i = ring_slot s j.
Proof.
  unfold ring_slots. rewrite list_elem_of_fmap. split.
  - intros (j & -> & Hj). apply elem_of_seq in Hj. exists j. split; [lia|done].
  - intros (j & Hj & ->). exists j. split; [done|]. apply elem_of_seq. lia.
Qed.

(** The loop of [__sweep]: the sweeper passes the slots with a zero
    counter that come before [current_entry], and their work lists are
    moved in front of [head]. *)
Lemma sweep_loop_spec fuel : forall ds head,
  ds_wf ds ->
  (ring_dist (sweeper ds) (current_entry ds) <= fuel)%nat ->
  exists ds' head' n,
    __sweep_loop fuel ds head = Some (ds', head') /\
    ds_wf ds' /\
    (forall i, count_at ds' i = count_at ds i) /\
    current_entry ds' = current_entry ds /\
    (n <= ring_dist (sweeper ds) (current_entry ds))%nat /\
    sweeper ds' = ring_slot (sweeper ds) n /\
    (forall i, i ∈ ring_slots (sweeper ds) n -> count_at ds i = 0) /\
    (sweeper ds' ≠ current_entry ds -> count_at ds (sweeper ds') ≠ 0) /\
    head' = mjoin (reverse (work_at ds <$> ring_slots (sweeper ds) n)) ++ head /\
    (forall i, work_at ds' i
       = if decide (i ∈ ring_slots (sweeper ds) n) then [] else work_at ds i).
Proof.
  induction fuel as [|fuel IH]; intros ds head Hwf Hdist;
    destruct (ds_wf_lookup ds (sweeper ds) Hwf (ds_sweeper _ Hwf))
      as (e & He & Hcnt & Hwork);
    pose proof (ds_sweeper _ Hwf) as Hs; pose proof (ds_current _ Hwf) as Hc;
    simpl; rewrite He.
  - (* no fuel: the sweeper is at [current_entry] *)
    rewrite decide_False by (intros [Hne _]; mod_lia).
    exists ds, head, 0%nat. split_and!; try done.
    + lia.
    + mod_lia.
    + intros i Hi. inversion Hi.
    + intros Hne. exfalso. mod_lia.
  - case_decide as Hgo.
    + destruct Hgo as [Hne Hzero].
      set (ds1 := {| current_entry := _; sweeper := _; entries := _ |}).
      assert (Hwf1 : ds_wf ds1).
      { split; simpl.
        - rewrite length_alter. apply Hwf.
        - done.
        - unfold ds_next. apply Nat.mod_upper_bound. done.
        - intros i. unfold ds1.
          change (count_at _ i) with
            (count_at (set_entry (sweeper ds) (set_work_items []) ds) i).
          rewrite count_at_set_work. apply Hwf. }
      assert (Hcount1 : forall i, count_at ds1 i = count_at ds i).
      { intros i. change (count_at ds1 i) with
          (count_at (set_entry (sweeper ds) (set_work_items []) ds) i).
        apply count_at_set_work. }
      assert (Hwork1 : forall i, work_at ds1 i
                = if decide (sweeper ds = i) then [] else work_at ds i).
      { intros i. change (work_at ds1 i) with
          (work_at (set_entry (sweeper ds) (set_work_items []) ds) i).
        apply work_at_set_work. rewrite (ds_len _ Hwf). done. }
      destruct (IH ds1 (work_items e ++ head) Hwf1)
        as (ds' & head' & n & Hrun & Hwf' & Hcnt' & Hcur & Hn & Hsw & Hz
            & Hstop & Hhead & Hwk).
      { simpl. mod_lia. }
      simpl in Hcur, Hn, Hsw, Hz, Hstop, Hhead, Hwk.
      exists ds', head', (S n). rewrite ring_slots_S.
      assert (Hslot0 : ring_slot (sweeper ds) 0 = sweeper ds) by mod_lia.
      rewrite Hslot0.
      assert (Hfar : forall i, i ∈ ring_slots (ds_next (sweeper ds)) n ->
                i ≠ sweeper ds).
      { intros i (j & Hj & ->)%ring_slots_elem. mod_lia. }
      split_and!; try done.
      * intros i. by rewrite Hcnt'.
      * mod_lia.
      * rewrite Hsw. mod_lia.
      * intros i [->|Hi]%elem_of_cons.
        -- by rewrite <- Hcnt.
        -- rewrite <- Hcount1. by apply Hz.
      * intros Hne'. rewrite <- Hcount1. by apply Hstop.
      * rewrite Hhead. simpl. rewrite reverse_cons, join_app. simpl.
        rewrite app_nil_r, <- app_assoc, Hwork. do 2 f_equal. f_equal.
        apply list_fmap_ext. intros _ i Hi%list_elem_of_lookup_2.
        rewrite Hwork1. rewrite decide_False; [done|].
        intros <-. by apply (Hfar (sweeper ds)).
      * intros i. rewrite Hwk, Hwork1.
        destruct (decide (i = sweeper ds)) as [->|Hi].
        -- rewrite (decide_True (P := sweeper ds ∈ sweeper ds :: _))
             by (by left).
           case_decide; [done|]. by rewrite decide_True.
        -- rewrite (decide_False (P := sweeper ds = i)) by done.
           repeat case_decide; try done.
           ++ exfalso. match goal with H : _ ∉ _ :: _ |- _ => apply H end.
              by right.
           ++ exfalso.
              match goal with H : i ∈ _ :: _ |- _ =>
                apply elem_of_cons in H as [?|?] end; done.
    + exists ds, head, 0%nat. split_and!; try done.
      * lia.
      * mod_lia.
      * intros i Hi. inversion Hi.
      * assert (Hslot0 : ring_slot (sweeper ds) 0 = sweeper ds) by mod_lia.
        intros Hne Hz. apply Hgo. split; [done|]. by rewrite Hcnt.
Qed.

Lemma sweep_spec ds head :
  ds_wf ds ->
  exists ds' head' n,
    __sweep ds head = Some (ds', head') /\
    ds_wf ds' /\
    (forall i, count_at ds' i = count_at ds i) /\
    current_entry ds' = current_entry ds /\
    (n <= ring_dist (sweeper ds) (current_entry ds))%nat /\
    sweeper ds' = ring_slot (sweeper ds) n /\
    (forall i, i ∈ ring_slots (sweeper ds) n -> count_at ds i = 0) /\
    (sweeper ds' ≠ current_entry ds -> count_at ds (sweeper ds') ≠ 0) /\
    let drained :=
      drained_slots (sweeper ds) n (sweeper ds') (current_entry ds)
                    (count_at ds (current_entry ds)) in
    head' = mjoin (reverse (work_at ds <$> drained)) ++ head /\
    (forall i, work_at ds' i = if decide (i ∈ drained) then [] else work_at ds i).
Proof.
  intros Hwf. unfold __sweep.
  destruct (sweep_loop_spec DEFERRED_SET_SIZE ds head Hwf)
    as (ds1 & head1 & n & -> & Hwf1 & Hcnt & Hcur & Hn & Hsw & Hz & Hstop
        & Hhead & Hwk).
  { pose proof (ds_sweeper _ Hwf). pose proof (ds_current _ Hwf). mod_lia. }
  destruct (ds_wf_lookup ds1 (sweeper ds1) Hwf1 (ds_sweeper _ Hwf1))
    as (e & -> & Hcnte & Hworke).
  unfold drained_slots.
  assert (Hnotin : current_entry ds ∉ ring_slots (sweeper ds) n).
  { intros (j & Hj & Hc)%ring_slots_elem.
    pose proof (ds_sweeper _ Hwf). pose proof (ds_current _ Hwf). mod_lia. }
  case_decide as Hlast.
  - destruct Hlast as [Heq Hzero]. rewrite Hcur in Heq.
    rewrite Hcnte, Hcnt, Heq in Hzero. simpl.
    exists (set_entry (sweeper ds1) (set_work_items []) ds1),
      (work_items e ++ head1), n.
    rewrite (decide_True (P := _ /\ _)) by done.
    split_and!; try done.
    + split; simpl.
      * rewrite length_alter. apply Hwf1.
      * apply Hwf1.
      * apply Hwf1.
      * intros i. rewrite count_at_set_work. apply Hwf1.
    + intros i. by rewrite count_at_set_work.
    + rewrite fmap_app, reverse_app, join_app. simpl.
      rewrite app_nil_r, <- app_assoc, Hhead. f_equal.
      rewrite Hworke, Hwk, Heq. by rewrite decide_False.
    + intros i. rewrite work_at_set_work
        by (rewrite (ds_len _ Hwf1); apply Hwf1).
      rewrite Hwk, Heq.
      destruct (decide (current_entry ds = i)) as [<-|Hi].
      * rewrite decide_True; [done|]. apply elem_of_app. right. by left.
      * repeat case_decide; try done.
        -- exfalso. match goal with H : _ ∉ _ ++ _ |- _ => apply H end.
           apply elem_of_app. by left.
        -- exfalso.
           match goal with H : i ∈ _ ++ _ |- _ =>
             apply elem_of_app in H as [?|[?|Hnil]%elem_of_cons] end;
             [done| by subst | inversion Hnil].
  - exists ds1, head1, n.
    rewrite decide_False.
    2:{ intros [Heq Hzero]. apply Hlast. rewrite Hcur, Hcnte, Hcnt, Heq.
        done. }
    rewrite app_nil_r. split_and!; done.
Qed.

(** [ds_dec], in full. *)
Lemma ds_dec_spec ds entry head :
  ds_wf ds -> (entry < DEFERRED_SET_SIZE)%nat -> 0 < count_at ds entry ->
  exists ds' head' n,
    ds_dec entry head ds = Some (ds', head') /\
    (forall i, count_at ds' i
       = if decide (i = entry) then count_at ds entry - 1 else count_at ds i) /\
    current_entry ds' = current_entry ds /\
    (n <= ring_dist (sweeper ds) (current_entry ds))%nat /\
    sweeper ds' = ring_slot (sweeper ds) n /\
    (forall i, i ∈ ring_slots (sweeper ds) n -> count_at ds' i = 0) /\
    (sweeper ds' ≠ current_entry ds -> count_at ds' (sweeper ds') ≠ 0) /\
    let drained :=
      drained_slots (sweeper ds) n (sweeper ds') (current_entry ds)
                    (count_at ds' (current_entry ds)) in
    head' = mjoin (reverse (work_at ds <$> drained)) ++ head /\
    (forall i, work_at ds' i = if decide (i ∈ drained) then [] else work_at ds i)
    /\ ds_wf ds'.
Proof.
  intros Hwf Hentry Hpos. unfold ds_dec.
  destruct (ds_wf_lookup ds entry Hwf Hentry) as (e & -> & Hcnt & _).
  rewrite decide_False by lia. rewrite Hcnt.
  pose proof (ds_counts _ Hwf entry) as Hb.
  rewrite u32_small by lia.
  set (d := set_entry entry (set_count (count_at ds entry - 1)) ds).
  assert (Hlen : (entry < length (entries ds))%nat)
    by (rewrite (ds_len _ Hwf); done).
  assert (Hdc : forall i, count_at d i
            = if decide (i = entry) then count_at ds entry - 1
              else count_at ds i).
  { intros i. unfold d. rewrite count_at_set_count by done.
    repeat case_decide; congruence. }
  assert (Hdw : forall i, work_at d i = work_at ds i)
    by (intros i; apply work_at_set_count).
  assert (Hwfd : ds_wf d).
  { split; simpl; [rewrite length_alter|..]; try apply Hwf.
    intros i. rewrite Hdc. case_decide; [lia|apply Hwf]. }
  destruct (sweep_spec d head Hwfd)
    as (ds' & head' & n & -> & Hwf' & Hc' & Hcur & Hn & Hsw & Hz & Hstop
        & Hhead & Hwk).
  exists ds', head', n. simpl in *.
  split_and!; try done.
  - intros i. by rewrite Hc', Hdc.
  - intros i Hi. rewrite Hc'. by apply Hz.
  - intros Hne. rewrite Hc'. by apply Hstop.
  - rewrite Hhead, Hc'. do 3 f_equal. apply list_fmap_ext. intros; apply Hdw.
  - intros i. rewrite Hwk, Hc', Hdw. done.
Qed.

(** C6.  With a positive counter in the entry, [ds_dec] lowers that
    counter by one and sweeps: the sweeper passes the slots with a zero
    counter one after the other, [n] of them, and stops at the first
    slot that has a nonzero counter or is the current entry, which it
    never passes; the work lists of the slots passed are moved to the
    returned list, and when the sweeper has reached the current entry
    and its counter is zero, the work list of that slot as well.  No
    other work list changes and no other counter. *)
Theorem ds_dec_sweeps ds entry head :
  ds_wf ds -> (entry < DEFERRED_SET_SIZE)%nat -> 0 < count_at ds entry ->
  exists ds' head' n,
    ds_dec entry head ds = Some (ds', head') /\
    (forall i, count_at ds' i
       = if decide (i = entry) then count_at ds entry - 1 else count_at ds i) /\
    current_entry ds' = current_entry ds /\
    (n <= ring_dist (sweeper ds) (current_entry ds))%nat /\
    sweeper ds' = ring_slot (sweeper ds) n /\
    (forall i, i ∈ ring_slots (sweeper ds) n -> count_at ds' i = 0) /\
    (sweeper ds' ≠ current_entry ds -> count_at ds' (sweeper ds') ≠ 0) /\
    let drained :=
      drained_slots (sweeper ds) n (sweeper ds') (current_entry ds)
                    (count_at ds' (current_entry ds)) in
    head' = mjoin (reverse (work_at ds <$> drained)) ++ head /\
    (forall i, work_at ds' i = if decide (i ∈ drained) then [] else work_at ds i)
    /\ ds_wf ds'.
Proof. apply ds_dec_spec. Qed.

Lemma work_at_entries ds ds' i :
  entries ds = entries ds' -> work_at ds i = work_at ds' i.
Proof. unfold work_at. by intros ->. Qed.

Lemma count_at_entries ds ds' i :
  entries ds = entries ds' -> count_at ds i = count_at ds' i.
Proof. unfold count_at. by intros ->. Qed.

Lemma ds_next_lt i : (ds_next i < DEFERRED_SET_SIZE)%nat.
Proof. unfold ds_next. by apply Nat.mod_upper_bound. Qed.

Lemma ds_next_ne i : (i < DEFERRED_SET_SIZE)%nat -> ds_next i ≠ i.
Proof. intros. mod_lia. Qed.

(** [ds_inc] counts one more read in the current entry. *)
Lemma ds_inc_spec ds :
  ds_wf ds -> count_at ds (current_entry ds) < 2 ^ 32 - 1 ->
  exists ds',
    ds_inc ds = Some (current_entry ds, ds') /\ ds_wf ds' /\
    current_entry ds' = current_entry ds /\ sweeper ds' = sweeper ds /\
    (forall i, work_at ds' i = work_at ds i) /\
    (forall i, count_at ds' i
       = if decide (i = current_entry ds) then count_at ds i + 1
         else count_at ds i).
Proof.
  intros Hwf Hlt. unfold ds_inc.
  destruct (ds_wf_lookup ds _ Hwf (ds_current _ Hwf)) as (e & -> & Hcnt & _).
  pose proof (ds_counts _ Hwf (current_entry ds)) as Hb.
  rewrite Hcnt, u32_small by lia.
  assert (Hlen : (current_entry ds < length (entries ds))%nat)
    by (rewrite (ds_len _ Hwf); apply Hwf).
  assert (Hc : forall i,
    count_at (set_entry (current_entry ds)
                (set_count (count_at ds (current_entry ds) + 1)) ds) i
    = if decide (i = current_entry ds) then count_at ds i + 1
      else count_at ds i).
  { intros i. rewrite count_at_set_count by done.
    repeat case_decide; congruence. }
  eexists. split; [reflexivity|]. split_and!; try done.
  - split; simpl; [rewrite length_alter|..]; try apply Hwf.
    intros i. rewrite Hc. pose proof (ds_counts _ Hwf i).
    case_decide; [subst|]; lia.
  - intros i. apply work_at_set_count.
Qed.

(** [ds_add_work], in full. *)
Lemma ds_add_work_spec ds work mem :
  ds_wf ds ->
  exists r ds' mem',
    ds_add_work ds work mem = Some (r, ds', mem') /\
    let cur := current_entry ds in
    let next := ds_next cur in
    (r = 0 <-> sweeper ds = cur /\ count_at ds cur = 0) /\
    (r = 0 -> ds' = ds /\ mem' = mem) /\
    (r ≠ 0 ->
       r = 1 /\
       work_at ds' cur = work :: work_at ds cur /\
       (forall i, i ≠ cur -> work_at ds' i = work_at ds i) /\
       (forall i, count_at ds' i = count_at ds i) /\
       sweeper ds' = sweeper ds /\
       (count_at ds next = 0 -> current_entry ds' = next) /\
       (count_at ds next ≠ 0 -> current_entry ds' = cur) /\
       mem' = alter (set_m_list LIST_LINKED) work mem) /\
    ds_wf ds'.
Proof.
  intros Hwf. unfold ds_add_work.
  pose proof (ds_current _ Hwf) as Hcur.
  destruct (ds_wf_lookup ds _ Hwf Hcur) as (e & -> & Hcnt & Hwork).
  rewrite Hcnt. case_decide as Hidle.
  - exists 0, ds, mem. split; [done|]. simpl. split_and!; try done.
  - unfold list_add. cbv beta iota zeta.
    set (ds1 := set_entry (current_entry ds)
                  (set_work_items (work :: work_items e)) ds).
    change (current_entry ds1) with (current_entry ds).
    change (sweeper ds1) with (sweeper ds).
    assert (Hlen : (current_entry ds < length (entries ds))%nat)
      by (rewrite (ds_len _ Hwf); done).
    assert (Hwf1 : ds_wf ds1).
    { split; simpl; [rewrite length_alter|..]; try apply Hwf.
      intros i. unfold ds1. rewrite count_at_set_work. apply Hwf. }
    destruct (ds_wf_lookup ds1 (ds_next (current_entry ds)) Hwf1
                (ds_next_lt _)) as (n & -> & Hcntn & _).
    unfold ds1 in Hcntn. rewrite count_at_set_work in Hcntn.
    assert (Hw1 : forall i, work_at ds1 i
              = if decide (current_entry ds = i) then work :: work_items e
                else work_at ds i)
      by (intros i; by apply work_at_set_work).
    assert (Hc1 : forall i, count_at ds1 i = count_at ds i)
      by (intros i; apply count_at_set_work).
    eexists 1, _, _. split; [reflexivity|]. rewrite <- Hcntn.
    split_and!.
    + split; [done|]. intros. done.
    + done.
    + intros _. split_and!; try done.
      * transitivity (work_at ds1 (current_entry ds));
          [apply work_at_entries; by case_decide|].
        rewrite Hw1, decide_True by done. by rewrite Hwork.
      * intros i Hi. transitivity (work_at ds1 i);
          [apply work_at_entries; by case_decide|].
        rewrite Hw1, decide_False by done. done.
      * intros i. transitivity (count_at ds1 i);
          [apply count_at_entries; by case_decide | apply Hc1].
      * by case_decide.
      * intros Hz. by rewrite decide_True.
      * intros Hz. by rewrite decide_False.
    + case_decide; [|done]. split; simpl; try apply Hwf1. apply ds_next_lt.
Qed.

(** C5, as the code has it.  [ds_add_work] returns 0, and leaves the
    deferred set and the node as they are, exactly when the sweeper is
    at the current entry and the counter of the current entry is zero.
    Otherwise it returns 1, links the waiter at the head of the work
    list of the current entry and leaves the other work lists, the
    counters and the sweeper as they are; the current entry becomes the
    next slot when the counter of the next slot is zero and stays where
    it is when it is not. *)
Theorem ds_add_work_links_at_head ds work mem :
  ds_wf ds ->
  exists r ds' mem',
    ds_add_work ds work mem = Some (r, ds', mem') /\
    let cur := current_entry ds in
    let next := ds_next cur in
    (r = 0 <-> sweeper ds = cur /\ count_at ds cur = 0) /\
    (r = 0 -> ds' = ds /\ mem' = mem) /\
    (r ≠ 0 ->
       r = 1 /\
       work_at ds' cur = work :: work_at ds cur /\
       (forall i, i ≠ cur -> work_at ds' i = work_at ds i) /\
       (forall i, count_at ds' i = count_at ds i) /\
       sweeper ds' = sweeper ds /\
       (count_at ds next = 0 -> current_entry ds' = next) /\
       (count_at ds next ≠ 0 -> current_entry ds' = cur) /\
       mem' = alter (set_m_list LIST_LINKED) work mem) /\
    ds_wf ds'.
Proof. apply ds_add_work_spec. Qed.

End Deferred_set.

(** ** The mapping functions *)

Section Mapping.
Context `{kernel} {M K : Type} `{!thin_metadata M} `{!kcopyd K}.
Implicit Types (p : pool M K) (tc : thin_c) (bio : bio_ptr) (b : bio).

(** Splits the cases of a statement and closes those that are
    immediate or whose premise contradicts the case at hand. *)
Ltac cases :=
  repeat (split_and!; try done; try (intros; exfalso; lia);
          try match goal with |- _ -> _ => intros _ end).

Lemma flush_or_fua_eq bio p b :
  bio_mem p !! bio = Some b ->
  flush_or_fua bio p
    = bool_decide (Z.land (bi_rw b) (Z.lor REQ_FLUSH REQ_FUA) ≠ 0).
Proof. unfold flush_or_fua. by intros ->. Qed.

Lemma remap_bio_mem tc bio block p b :
  bio_mem p !! bio = Some b ->
  bio_mem (remap tc bio block p) !! bio = Some (remapped p tc block b) /\
  (forall bio', bio' ≠ bio ->
     bio_mem (remap tc bio block p) !! bio' = bio_mem p !! bio').
Proof.
  intros Hb. unfold remap; simpl. split.
  - by rewrite lookup_alter_eq, Hb.
  - intros bio' Hne. by rewrite lookup_alter_ne.
Qed.

(** C7.  A request without FLUSH and FUA: [thin_bio_map] looks the
    block up without blocking (the last argument of
    [dm_thin_find_block] is 0).  Found and not shared: the bio is
    remapped in place, nothing is queued and DM_MAPIO_REMAPPED is
    returned.  Found and shared, [-ENODATA] or [-EWOULDBLOCK]: the bio
    is put at the end of the deferred list, the worker is woken, the
    bio is not remapped and DM_MAPIO_SUBMITTED is returned. *)
Theorem thin_bio_map_fast_path tc bio p b r result pmd' :
  bio_mem p !! bio = Some b ->
  Z.land (bi_rw b) (Z.lor REQ_FLUSH REQ_FUA) = 0 ->
  ENODATA ≠ 0 -> EWOULDBLOCK ≠ 0 ->
  dm_thin_find_block (pmd p) (td tc)
    (Z.shiftr (bi_sector b) (block_shift p)) 0 = (r, result, pmd') ->
  let ret := (thin_bio_map tc bio p).1 in
  let p' := (thin_bio_map tc bio p).2 in
  let b' := set_bi_map_info (ptr_thin_c tc) b in
  pmd p' = pmd' /\
  (r = 0 /\ shared result = false ->
     ret = DM_MAPIO_REMAPPED /\
     bio_mem p' !! bio = Some (remapped p tc (lr_block result) b') /\
     deferred_bios p' = deferred_bios p /\ trace p' = trace p) /\
  (r = 0 /\ shared result = true \/ r = - ENODATA \/ r = - EWOULDBLOCK ->
     ret = DM_MAPIO_SUBMITTED /\
     bio_mem p' !! bio = Some b' /\
     deferred_bios p' = deferred_bios p ++ [bio] /\
     trace p' = trace p ++ [Ev_queue_work]).
Proof.
  intros Hb Hrw Hnodata Hwould Hfind. unfold thin_bio_map.
  set (p0 := set_bio_mem _ p).
  assert (Hb0 : bio_mem p0 !! bio = Some (set_bi_map_info (ptr_thin_c tc) b))
    by (unfold p0; simpl; by rewrite lookup_alter_eq, Hb).
  rewrite (flush_or_fua_eq bio p0 _ Hb0). simpl bi_rw.
  rewrite bool_decide_eq_false_2 by (intros Hne; by apply Hne).
  unfold get_bio_block. rewrite Hb.
  change (pmd p0) with (pmd p). rewrite Hfind.
  destruct (decide (r = 0)) as [->|Hr].
  - destruct (shared result) eqn:Hsh; simpl; split_and!; try done.
    + by intros [_ ?].
    + intros _. split_and!; try done.
      by rewrite !lookup_alter_eq, Hb.
    + intros [[_ ?]|[?|?]]; [done|lia|lia].
  - destruct (decide (r = - ENODATA \/ r = - EWOULDBLOCK)) as [Hd|Hd];
      simpl; split_and!; try done.
    + by intros [? _].
    + by intros [? _].
    + intros [[? _]|[?|?]]; [done|..]; destruct Hd; auto.
Qed.

(** *** Releasing a cell *)

Lemma cell_release_spec (prison : bio_prison) c (l : list bio_ptr) :
  prison_wf prison -> c ∈ linked prison ->
  (cell_release (cell_addr c) l prison).1 = l ++ bios c /\
  linked (cell_release (cell_addr c) l prison).2
    = others_linked (cell_addr c) prison /\
  prison_wf (cell_release (cell_addr c) l prison).2.
Proof.
  intros Hwf Hc. unfold cell_release, __cell_release.
  rewrite (cell_load_Some _ _ Hwf Hc). simpl. split_and!; [done| |].
  - apply (linked_release prison (cell_addr c) None).
  - apply (wf_release prison (cell_addr c) None Hwf).
Qed.

Lemma cell_error_loop_eq (l : list bio_ptr) p :
  cell_error_loop l p = set_trace (trace p ++ io_errors l) p.
Proof.
  revert p. induction l as [|bio l IH]; intros p; simpl.
  - destruct p; unfold set_trace; simpl. by rewrite app_nil_r.
  - rewrite IH. unfold bio_io_error, bio_endio, emit, set_trace; simpl.
    by rewrite <- app_assoc.
Qed.

Lemma no_space_loop_eq (l : list bio_ptr) p :
  no_space_loop l p = set_retry_list (retry_list p ++ l) p.
Proof.
  revert p. induction l as [|bio l IH]; intros p; simpl.
  - destruct p; unfold set_retry_list; simpl. by rewrite app_nil_r.
  - rewrite IH. unfold retry_later, bio_list_add, set_retry_list; simpl.
    by rewrite <- app_assoc.
Qed.

Lemma cell_defer_except_loop_eq (l : list bio_ptr) (exception : bio_ptr) p :
  cell_defer_except_loop l exception p
    = set_deferred_bios
        (deferred_bios p ++ filter (fun bio => bio ≠ exception) l) p.
Proof.
  revert p. induction l as [|bio l IH]; intros p; simpl.
  - destruct p; unfold set_deferred_bios; simpl. by rewrite app_nil_r.
  - rewrite IH. rewrite filter_cons. case_decide; [|done].
    unfold bio_list_add, set_deferred_bios; simpl. by rewrite <- app_assoc.
Qed.

Lemma cell_error_spec c p :
  prison_wf (prison p) -> c ∈ linked (prison p) ->
  let p' := cell_error (cell_addr c) p in
  linked (prison p') = others_linked (cell_addr c) (prison p) /\
  prison_wf (prison p') /\
  trace p' = trace p ++ io_errors (bios c) /\
  pmd p' = pmd p /\ deferred_bios p' = deferred_bios p /\
  retry_list p' = retry_list p /\ bio_mem p' = bio_mem p /\
  mapping_pool p' = mapping_pool p.
Proof.
  intros Hwf Hc. unfold cell_error.
  destruct (cell_release_spec (prison p) c [] Hwf Hc) as (Hb & Hlk & Hwf').
  destruct (cell_release (cell_addr c) [] (prison p)) as [l pr].
  simpl in Hb, Hlk, Hwf'. subst l. rewrite cell_error_loop_eq. done.
Qed.

Lemma cell_defer_spec tc c data p :
  prison_wf (prison p) -> c ∈ linked (prison p) ->
  let p' := cell_defer tc (cell_addr c) data p in
  linked (prison p') = others_linked (cell_addr c) (prison p) /\
  prison_wf (prison p') /\
  trace p' = trace p ++ [Ev_queue_work] /\
  pmd p' = pmd p /\ deferred_bios p' = deferred_bios p ++ bios c /\
  retry_list p' = retry_list p /\ bio_mem p' = bio_mem p /\
  mapping_pool p' = mapping_pool p.
Proof.
  intros Hwf Hc. unfold cell_defer.
  destruct (cell_release_spec (prison p) c (deferred_bios p) Hwf Hc)
    as (Hb & Hlk & Hwf').
  destruct (cell_release (cell_addr c) (deferred_bios p) (prison p))
    as [l pr].
  simpl in Hb, Hlk, Hwf'. subst l. done.
Qed.

Lemma cell_defer_except_spec tc c exception p :
  prison_wf (prison p) -> c ∈ linked (prison p) ->
  let p' := cell_defer_except tc (cell_addr c) exception p in
  linked (prison p') = others_linked (cell_addr c) (prison p) /\
  prison_wf (prison p') /\
  trace p' = trace p ++ [Ev_queue_work] /\
  pmd p' = pmd p /\
  deferred_bios p'
    = deferred_bios p ++ filter (fun x => x ≠ exception) (bios c) /\
  retry_list p' = retry_list p /\ bio_mem p' = bio_mem p /\
  mapping_pool p' = mapping_pool p.
Proof.
  intros Hwf Hc. unfold cell_defer_except.
  destruct (cell_release_spec (prison p) c [] Hwf Hc) as (Hb & Hlk & Hwf').
  destruct (cell_release (cell_addr c) [] (prison p)) as [l pr].
  simpl in Hb, Hlk, Hwf'. subst l. rewrite cell_defer_except_loop_eq. done.
Qed.

Lemma no_space_spec c p :
  prison_wf (prison p) -> c ∈ linked (prison p) ->
  let p' := no_space (cell_addr c) p in
  linked (prison p') = others_linked (cell_addr c) (prison p) /\
  prison_wf (prison p') /\
  trace p' = trace p /\
  pmd p' = pmd p /\ deferred_bios p' = deferred_bios p /\
  retry_list p' = retry_list p ++ bios c /\ bio_mem p' = bio_mem p /\
  mapping_pool p' = mapping_pool p.
Proof.
  intros Hwf Hc. unfold no_space.
  destruct (cell_release_spec (prison p) c [] Hwf Hc) as (Hb & Hlk & Hwf').
  destruct (cell_release (cell_addr c) [] (prison p)) as [l pr].
  simpl in Hb, Hlk, Hwf'. subst l. rewrite no_space_loop_eq. done.
Qed.

(** C4.  [process_prepared_mapping] on a mapping whose cell is linked.
    With a nonzero [err], every bio of the cell is ended with [-EIO]
    and the metadata is left as it is: nothing is inserted.  Otherwise
    [virt_block -> data_block] is inserted; if that fails, every bio of
    the cell is ended with [-EIO] in the same way.  If it succeeds and
    the mapping has a bio (the write that covered the block), the other
    bios of the cell go to the end of the deferred list, the worker is
    woken and that bio is ended with 0; if it has no bio, all the bios
    of the cell go to the end of the deferred list and the worker is
    woken.  In every case the cell is released. *)
Theorem process_prepared_mapping_spec m p mp c r pmd' :
  mapping_pool p !! m = Some mp ->
  prison_wf (prison p) -> c ∈ linked (prison p) -> cell_addr c = m_cell mp ->
  dm_thin_insert_block (pmd p) (td (m_tc mp)) (virt_block mp) (data_block mp)
    = (r, pmd') ->
  let p' := process_prepared_mapping m p in
  linked (prison p') = others_linked (m_cell mp) (prison p) /\
  (err mp ≠ 0 ->
     trace p' = trace p ++ io_errors (bios c) /\
     pmd p' = pmd p /\ deferred_bios p' = deferred_bios p) /\
  (err mp = 0 ->
     pmd p' = pmd' /\
     (r ≠ 0 ->
        trace p' = trace p ++ io_errors (bios c) /\
        deferred_bios p' = deferred_bios p) /\
     (r = 0 ->
        match m_bio mp with
        | Some bio =>
            deferred_bios p'
              = deferred_bios p ++ filter (fun x => x ≠ bio) (bios c) /\
            trace p' = trace p ++ [Ev_queue_work; Ev_bio_endio bio 0]
        | None =>
            deferred_bios p' = deferred_bios p ++ bios c /\
            trace p' = trace p ++ [Ev_queue_work]
        end)).
Proof.
  intros Hm Hwf Hc Haddr Hins. unfold process_prepared_mapping.
  rewrite Hm, <- Haddr.
  set (p0 := match m_bio mp with Some _ => _ | None => p end).
  assert (Hp0 : prison p0 = prison p /\ trace p0 = trace p /\ pmd p0 = pmd p
                /\ deferred_bios p0 = deferred_bios p)
    by (unfold p0; by destruct (m_bio mp)).
  destruct Hp0 as (Hpr & Htr & Hpmd & Hdef).
  assert (Hwf0 : prison_wf (prison p0)) by (by rewrite Hpr).
  assert (Hc0 : c ∈ linked (prison p0)) by (by rewrite Hpr).
  destruct (decide (err mp ≠ 0)) as [He|He].
  - destruct (cell_error_spec c p0 Hwf0 Hc0)
      as (Hlk & _ & Ht & Hm' & Hd & _).
    cbv zeta. rewrite Hlk, Ht, Hm', Hd, Hpr, Htr, Hpmd, Hdef. cases.
  - rewrite Hpmd, Hins.
    set (p1 := set_pmd pmd' p0).
    assert (Hwf1 : prison_wf (prison p1)) by done.
    assert (Hc1 : c ∈ linked (prison p1)) by done.
    destruct (decide (r ≠ 0)) as [Hr|Hr].
    + destruct (cell_error_spec c p1 Hwf1 Hc1)
        as (Hlk & _ & Ht & Hm' & Hd & _).
      cbv zeta. rewrite Hlk, Ht, Hm', Hd.
      change (prison p1) with (prison p0). change (trace p1) with (trace p0).
      change (deferred_bios p1) with (deferred_bios p0).
      rewrite Hpr, Htr, Hdef. cases.
    + assert (r = 0) as -> by lia.
      destruct (m_bio mp) as [bio|] eqn:Hbio.
      * destruct (cell_defer_except_spec (m_tc mp) c bio p1 Hwf1 Hc1)
          as (Hlk & _ & Ht & Hm' & Hd & _).
        cbv zeta. unfold bio_endio, emit.
        cbn [prison trace pmd deferred_bios set_mapping_pool set_trace].
        rewrite Hlk, Ht, Hm', Hd.
        change (prison p1) with (prison p0). change (trace p1) with (trace p0).
        change (deferred_bios p1) with (deferred_bios p0).
        rewrite Hpr, Htr, Hdef. cases. by rewrite <- app_assoc.
      * destruct (cell_defer_spec (m_tc mp) c (data_block mp) p1 Hwf1 Hc1)
          as (Hlk & _ & Ht & Hm' & Hd & _).
        cbv zeta.
        cbn [prison trace pmd deferred_bios set_mapping_pool].
        rewrite Hlk, Ht, Hm', Hd.
        change (prison p1) with (prison p0). change (trace p1) with (trace p0).
        change (deferred_bios p1) with (deferred_bios p0).
        rewrite Hpr, Htr, Hdef. cases.
Qed.

(** *** Ending a bio that is hooked *)

(** [overwrite_endio] on the bio of a new_mapping: the error is
    recorded, the mapping is marked prepared, and it is put at the head
    of the prepared list, and the worker woken, if its node is on no
    list. *)
Lemma overwrite_endio_spec bio e p b m mp :
  bio_mem p !! bio = Some b -> bi_map_info b = ptr_new_mapping m ->
  mapping_pool p !! m = Some mp ->
  let p' := overwrite_endio bio e p in
  let mp' := set_prepared 1 (set_err e mp) in
  pmd p' = pmd p /\ bio_mem p' = bio_mem p /\ prison p' = prison p /\
  deferred_bios p' = deferred_bios p /\
  (m_list mp = LIST_INIT ->
     mapping_pool p' = <[m := set_m_list LIST_LINKED mp']> (mapping_pool p) /\
     prepared_mappings p' = m :: prepared_mappings p /\
     trace p' = trace p ++ [Ev_queue_work]) /\
  (m_list mp ≠ LIST_INIT ->
     mapping_pool p' = <[m := mp']> (mapping_pool p) /\
     prepared_mappings p' = prepared_mappings p /\
     trace p' = trace p).
Proof.
  intros Hb Hmi Hm. unfold overwrite_endio. rewrite Hb. simpl. rewrite Hmi.
  unfold __maybe_add_mapping, list_empty.
  cbn [mapping_pool set_mapping_pool].
  rewrite !lookup_alter_eq, Hm. cbn [fmap option_fmap option_map].
  cbn [m_list prepared set_prepared set_err].
  rewrite (bool_decide_eq_true_2 (1 ≠ 0)) by done. rewrite andb_true_r.
  assert (Halt : alter (set_prepared 1) m (alter (set_err e) m (mapping_pool p))
                 = <[m := set_prepared 1 (set_err e mp)]> (mapping_pool p)).
  { apply map_eq. intros i. destruct (decide (i = m)) as [->|Hne].
    - by rewrite !lookup_alter_eq, lookup_insert_eq, Hm.
    - by rewrite !lookup_alter_ne, lookup_insert_ne. }
  destruct (decide (m_list mp = LIST_INIT)) as [Hl|Hl].
  - rewrite bool_decide_eq_true_2 by done.
    unfold list_add, wake_worker, emit.
    cbn [pmd bio_mem prison deferred_bios mapping_pool prepared_mappings trace
         set_trace set_mapping_pool set_prepared_mappings].
    split_and!; try done.
    intros _. split_and!; try done. rewrite Halt.
    apply map_eq. intros i. destruct (decide (i = m)) as [->|Hne].
    + by rewrite lookup_alter_eq, !lookup_insert_eq.
    + by rewrite lookup_alter_ne, !lookup_insert_ne.
  - rewrite bool_decide_eq_false_2 by done.
    cbn [pmd bio_mem prison deferred_bios mapping_pool prepared_mappings trace
         set_mapping_pool].
    split_and!; done.
Qed.

(** The loop of [shared_read_endio] wakes the worker a number of
    times and leaves the bios and the metadata alone. *)
Lemma shared_read_endio_loop_trace mappings : forall p,
  exists n,
    trace (shared_read_endio_loop mappings p)
      = trace p ++ replicate n Ev_queue_work /\
    pmd (shared_read_endio_loop mappings p) = pmd p /\
    bio_mem (shared_read_endio_loop mappings p) = bio_mem p.
Proof.
  induction mappings as [|m l IH]; intros p; simpl.
  - exists 0%nat. by rewrite app_nil_r.
  - set (q := set_mapping_pool _ p).
    destruct (IH (__maybe_add_mapping m q)) as (n & Ht & Hp & Hb).
    rewrite Ht, Hp, Hb. unfold __maybe_add_mapping.
    destruct (mapping_pool q !! m) as [mp|]; [|by exists n].
    destruct (list_empty m (mapping_pool q) && bool_decide (prepared mp ≠ 0)).
    + exists (S n). unfold list_add, wake_worker, emit.
      cbn [trace pmd bio_mem set_trace set_mapping_pool set_prepared_mappings].
      by rewrite <- app_assoc.
    + by exists n.
Qed.

(** C10.  A request with FLUSH or FUA.  [thin_bio_map] puts it at the
    end of the deferred list and wakes the worker, whatever the
    metadata holds for its block: no lookup is made and the bio is not
    remapped.  When [remap_and_issue] is later run on it, in a state
    [q] of the pool, the metadata is committed first.  If the commit
    succeeds the bio is remapped and passed to [generic_make_request].
    If it fails the bio is neither remapped nor passed on, and
    [bio_io_error] ends it with [-EIO]:
    - a bio that carries the completion function of the host is
      completed with [-EIO];
    - for a read that [process_shared_bio] has hooked,
      [shared_read_endio] runs: the bio gets its function back and is
      completed with [-EIO];
    - for a write that [schedule_zero] or [schedule_copy] has hooked,
      [overwrite_endio] runs: the new mapping is marked prepared with
      the error [-EIO], and goes on the prepared list if it is on no
      list; when [process_prepared_mapping] comes to it, the bios of
      its cell, where the write still is, are completed with [-EIO]
      and nothing is inserted in the metadata. *)
Theorem flush_fua_deferred_then_committed
    tc bio p b (q : pool M K) b' block r pmd' :
  bio_mem p !! bio = Some b ->
  Z.land (bi_rw b) (Z.lor REQ_FLUSH REQ_FUA) ≠ 0 ->
  bio_mem q !! bio = Some b' ->
  Z.land (bi_rw b') (Z.lor REQ_FLUSH REQ_FUA) ≠ 0 ->
  dm_pool_commit_metadata (pmd q) = (r, pmd') ->
  (let ret := (thin_bio_map tc bio p).1 in
   let p' := (thin_bio_map tc bio p).2 in
   ret = DM_MAPIO_SUBMITTED /\
   deferred_bios p' = deferred_bios p ++ [bio] /\
   trace p' = trace p ++ [Ev_queue_work] /\
   pmd p' = pmd p /\
   bio_mem p' !! bio = Some (set_bi_map_info (ptr_thin_c tc) b)) /\
  (r = 0 ->
     exists q',
       remap_and_issue tc bio block q = Some q' /\ pmd q' = pmd' /\
       bio_mem q' !! bio = Some (remapped q tc block b') /\
       trace q' = trace q ++
         [Ev_generic_make_request bio (pool_dev tc)
            (bi_sector (remapped q tc block b'))]) /\
  (r ≠ 0 ->
     match bi_end_io b' with
     | host_end_io =>
         exists q',
           remap_and_issue tc bio block q = Some q' /\ pmd q' = pmd' /\
           trace q' = trace q ++ [Ev_bio_endio bio (- EIO)] /\
           bio_mem q' = bio_mem q
     | shared_read_endio_fn =>
         forall h hk,
           bi_map_info b' = ptr_endio_hook h ->
           endio_hook_pool q !! h = Some hk ->
           ds_wf (ds q) -> (entry hk < DEFERRED_SET_SIZE)%nat ->
           0 < count_at (ds q) (entry hk) ->
           exists q' n,
             remap_and_issue tc bio block q = Some q' /\ pmd q' = pmd' /\
             trace q' = trace q ++
               Ev_bio_endio bio (- EIO) :: replicate n Ev_queue_work /\
             bio_mem q' = <[bio := set_bi_end_io (h_saved_bi_end_io hk) b']>
                            (bio_mem q)
     | overwrite_endio_fn =>
         forall m mp,
           bi_map_info b' = ptr_new_mapping m ->
           mapping_pool q !! m = Some mp ->
           exists q',
             remap_and_issue tc bio block q = Some q' /\ pmd q' = pmd' /\
             bio_mem q' = bio_mem q /\
             (exists mp',
                mapping_pool q' !! m = Some mp' /\
                err mp' = - EIO /\ prepared mp' = 1 /\
                m_cell mp' = m_cell mp /\ m_bio mp' = m_bio mp) /\
             (m_list mp = LIST_INIT ->
                prepared_mappings q' = m :: prepared_mappings q /\
                trace q' = trace q ++ [Ev_queue_work]) /\
             (m_list mp ≠ LIST_INIT ->
                prepared_mappings q' = prepared_mappings q /\
                trace q' = trace q) /\
             (forall c,
                EIO ≠ 0 -> prison_wf (prison q) ->
                c ∈ linked (prison q) -> cell_addr c = m_cell mp ->
                let q'' := process_prepared_mapping m q' in
                trace q'' = trace q' ++ io_errors (bios c) /\
                pmd q'' = pmd' /\
                linked (prison q'') = others_linked (m_cell mp) (prison q))
     end).
Proof.
  intros Hbp Hrwp Hb Hrw Hcommit. split_and!.
  - unfold thin_bio_map.
    set (p0 := set_bio_mem _ p).
    assert (Hb0 : bio_mem p0 !! bio = Some (set_bi_map_info (ptr_thin_c tc) b))
      by (unfold p0; simpl; by rewrite lookup_alter_eq, Hbp).
    rewrite (flush_or_fua_eq bio p0 _ Hb0). simpl bi_rw.
    rewrite bool_decide_eq_true_2 by done. simpl. done.
  - intros ->. unfold remap_and_issue.
    rewrite (flush_or_fua_eq bio q _ Hb), bool_decide_eq_true_2 by done.
    rewrite Hcommit. rewrite decide_False by (intros Hne; by apply Hne).
    destruct (remap_bio_mem tc bio block (set_pmd pmd' q) _ Hb) as [Hb' _].
    eexists. split; [reflexivity|].
    unfold generic_make_request. rewrite Hb'. simpl. done.
  - intros Hr. unfold remap_and_issue.
    rewrite (flush_or_fua_eq bio q _ Hb), bool_decide_eq_true_2 by done.
    rewrite Hcommit. rewrite decide_True by done.
    set (p1 := set_pmd pmd' q).
    unfold bio_io_error_hooked. change (bio_mem p1) with (bio_mem q).
    rewrite Hb. cbn [fmap option_fmap option_map].
    destruct (bi_end_io b') eqn:Hend.
    + eexists. split; [reflexivity|]. done.
    + intros m mp Hmi Hm.
      assert (Hm1 : mapping_pool p1 !! m = Some mp) by done.
      assert (Hb1 : bio_mem p1 !! bio = Some b') by done.
      destruct (overwrite_endio_spec bio (- EIO) p1 b' m mp Hb1 Hmi Hm1)
        as (Hpmd & Hbm & Hpr & _ & Hinit & Hno).
      cbv zeta in Hpmd, Hbm, Hpr, Hinit, Hno.
      set (p' := overwrite_endio bio (- EIO) p1) in *.
      assert (Hmp' : exists mp',
                mapping_pool p' !! m = Some mp' /\
                err mp' = - EIO /\ prepared mp' = 1 /\
                m_cell mp' = m_cell mp /\ m_bio mp' = m_bio mp).
      { destruct (decide (m_list mp = LIST_INIT)) as [Hl|Hl].
        - destruct (Hinit Hl) as (-> & _). rewrite lookup_insert_eq.
          eexists. split; [reflexivity|]. done.
        - destruct (Hno Hl) as (-> & _). rewrite lookup_insert_eq.
          eexists. split; [reflexivity|]. done. }
      exists p'. split_and!; try done.
      * intros Hl. by destruct (Hinit Hl) as (_ & ? & ?).
      * intros Hl. by destruct (Hno Hl) as (_ & ? & ?).
      * intros c Heio Hwf Hc Haddr.
        destruct Hmp' as (mp' & Hm' & He & _ & Hcell & _).
        unfold process_prepared_mapping. rewrite Hm', Hcell, <- Haddr, He.
        rewrite decide_True by lia.
        set (q0 := match m_bio mp' with Some _ => _ | None => p' end).
        assert (Hq : prison q0 = prison q /\ trace q0 = trace p' /\
                     pmd q0 = pmd')
          by (unfold q0; destruct (m_bio mp'); by rewrite ?Hpr, ?Hpmd).
        destruct Hq as (Hq1 & Hq2 & Hq3).
        assert (Hwfq : prison_wf (prison q0)) by (by rewrite Hq1).
        assert (Hcq : c ∈ linked (prison q0)) by (by rewrite Hq1).
        destruct (cell_error_spec c q0 Hwfq Hcq) as (Hlk & _ & Ht & Hmd & _).
        cbv zeta in Hlk, Ht, Hmd. by rewrite Hlk, Ht, Hmd, Hq1, Hq2, Hq3.
    + intros h hk Hmi Hh Hwf Hentry Hcount.
      unfold shared_read_endio, shared_read_endio_dec.
      change (bio_mem p1) with (bio_mem q). rewrite Hb.
      cbn [fmap option_fmap option_map]. rewrite Hmi.
      change (endio_hook_pool p1) with (endio_hook_pool q). rewrite Hh.
      destruct (ds_dec_spec (ds q) (entry hk) [] Hwf Hentry Hcount)
        as (ds' & head' & ? & Hdec & _).
      cbn [ds set_bio_mem bio_endio emit set_trace]. fold (ds q).
      change (ds p1) with (ds q). rewrite Hdec.
      unfold shared_read_endio_add.
      set (q0 := set_ds ds' _).
      destruct (shared_read_endio_loop_trace head' q0) as (n & Ht & Hp & Hbm).
      exists (set_endio_hook_pool
                (delete h (endio_hook_pool (shared_read_endio_loop head' q0)))
                (shared_read_endio_loop head' q0)), n.
      split; [done|].
      cbn [pmd trace bio_mem set_endio_hook_pool]. rewrite Ht, Hp, Hbm.
      unfold q0, bio_endio, emit.
      cbn [pmd trace bio_mem set_ds set_trace set_bio_mem].
      split_and!; try done.
      * by rewrite <- app_assoc.
      * apply map_eq. intros i. destruct (decide (i = bio)) as [->|Hne].
        -- by rewrite lookup_alter_eq, lookup_insert_eq, Hb.
        -- by rewrite lookup_alter_ne, lookup_insert_ne.
Qed.

(** *** Allocation of data blocks *)

(** [alloc_data_block] touches the low-water flag, the trace and the
    metadata only; the event is raised before the block is allocated. *)
Lemma alloc_data_block_spec tc p r1 free r data p1 :
  dm_pool_get_free_block_count (pmd p) = (r1, free) ->
  alloc_data_block tc p = Some (r, data, p1) ->
  prison p1 = prison p /\ retry_list p1 = retry_list p /\
  deferred_bios p1 = deferred_bios p /\
  (r1 ≠ 0 -> r = r1 /\ p1 = p) /\
  (r1 = 0 ->
     (r, data, pmd p1) = dm_pool_alloc_data_block (pmd p) /\
     if decide (free <= low_water_mark p /\ low_water_triggered p = 0)
     then trace p1 = trace p ++ [Ev_dm_table_event] /\
          low_water_triggered p1 = 1
     else trace p1 = trace p /\
          low_water_triggered p1 = low_water_triggered p).
Proof.
  intros Hfree. unfold alloc_data_block. rewrite Hfree.
  destruct (decide (r1 ≠ 0)) as [Hr1|Hr1].
  - intros [= <- <- <-]. cases.
  - assert (r1 = 0) as -> by lia.
    destruct (decide (free <= low_water_mark p /\ low_water_triggered p = 0))
      as [Hlow|Hlow].
    + unfold dm_table_event. simpl.
      destruct (ti p); [|done]. simpl.
      destruct (dm_pool_alloc_data_block (pmd p)) as [[r2 d2] md2].
      intros [= <- <- <-]. cases.
    + destruct (dm_pool_alloc_data_block (pmd p)) as [[r2 d2] md2].
      intros [= <- <- <-]. cases.
Qed.

(** What a [pool_preresume] that returns 0 has done at its end. *)
Lemma pool_preresume_ok t p p' :
  EINVAL ≠ 0 ->
  pool_preresume t p = (0, p') ->
  deferred_bios p' = deferred_bios p ++ retry_list p /\
  retry_list p' = [] /\
  low_water_triggered p' = 0 /\
  trace p' = trace p ++ [Ev_queue_work].
Proof.
  intros Heinval. unfold pool_preresume, bind_control_target.
  destruct (dm_pool_rebind_metadata_device _ _) as [r0 md0].
  rewrite decide_False by (intros Hne; by apply Hne). cbv zeta.
  set (p0 := set_pmd md0 _).
  assert (Hp0 : deferred_bios p0 = deferred_bios p /\
                retry_list p0 = retry_list p /\ trace p0 = trace p) by done.
  destruct Hp0 as (Hd & Hr & Ht).
  destruct (dm_pool_get_data_dev_size (pmd p0)) as [r1 sb].
  destruct (decide (r1 ≠ 0)); [by intros [= ? _]|].
  destruct (decide (_ < sb)); [intros [= ? _]; lia|].
  destruct (decide (_ > sb)).
  - destruct (dm_pool_resize_data_dev _ _) as [r2 md2].
    destruct (decide (r2 ≠ 0)); [by intros [= ? _]|].
    cbn [pmd set_pmd].
    destruct (dm_pool_commit_metadata md2) as [r3 md3].
    destruct (decide (r3 ≠ 0)); [by intros [= ? _]|].
    intros [= <-]. done.
  - intros [= <-]. done.
Qed.

(** A [pool_preresume] that returns an error has requeued nothing. *)
Lemma pool_preresume_err t p r p' :
  pool_preresume t p = (r, p') -> r ≠ 0 ->
  deferred_bios p' = deferred_bios p /\
  retry_list p' = retry_list p /\
  low_water_triggered p' = low_water_triggered p /\
  trace p' = trace p.
Proof.
  unfold pool_preresume, bind_control_target.
  destruct (dm_pool_rebind_metadata_device _ _) as [r0 md0].
  rewrite decide_False by (intros Hne; by apply Hne). cbv zeta.
  set (p0 := set_pmd md0 _).
  assert (Hp0 : deferred_bios p0 = deferred_bios p /\
                retry_list p0 = retry_list p /\
                low_water_triggered p0 = low_water_triggered p /\
                trace p0 = trace p) by done.
  destruct (dm_pool_get_data_dev_size (pmd p0)) as [r1 sb].
  destruct (decide (r1 ≠ 0)); [by intros [= <- <-]|].
  destruct (decide (_ < sb)); [by intros [= <- <-]|].
  destruct (decide (_ > sb)).
  - destruct (dm_pool_resize_data_dev _ _) as [r2 md2].
    destruct (decide (r2 ≠ 0)); [by intros [= <- <-]|].
    cbn [pmd set_pmd].
    destruct (dm_pool_commit_metadata md2) as [r3 md3].
    destruct (decide (r3 ≠ 0)); [by intros [= <- <-]|].
    by intros [= <- _] Hr.
  - by intros [= <- _] Hr.
Qed.

(** A [pool_preresume] whose checks pass: the size of the data device
    is read, the table is not shorter than the device, and when it is
    longer the resize and the commit succeed.  It returns 0, and has
    bound the target, cleared [low_water_triggered], put the bios of
    the retry list at the end of the deferred list and woken the
    worker. *)
Lemma pool_preresume_passes t p r0 md1 sb :
  dm_pool_rebind_metadata_device (pmd p) (metadata_dev (private t))
    = (r0, md1) ->
  dm_pool_get_data_dev_size md1 = (0, sb) ->
  sb <= Z.shiftr (len t) (block_shift p) ->
  (sb < Z.shiftr (len t) (block_shift p) ->
     exists md2 md3,
       dm_pool_resize_data_dev md1 (Z.shiftr (len t) (block_shift p))
         = (0, md2) /\
       dm_pool_commit_metadata md2 = (0, md3)) ->
  exists p',
    pool_preresume t p = (0, p') /\
    deferred_bios p' = deferred_bios p ++ retry_list p /\
    retry_list p' = [] /\
    low_water_triggered p' = 0 /\
    trace p' = trace p ++ [Ev_queue_work] /\
    ti p' = Some t.
Proof.
  intros Hbind Hsize Hle Hgrow. unfold pool_preresume, bind_control_target.
  cbn [pmd set_zero_new_blocks set_low_water_mark set_ti].
  rewrite Hbind. rewrite decide_False by (intros Hne; by apply Hne).
  cbv zeta. cbn [pmd block_shift set_pmd set_zero_new_blocks
                 set_low_water_mark set_ti].
  rewrite Hsize. rewrite decide_False by (intros Hne; by apply Hne).
  rewrite decide_False by lia.
  destruct (decide (_ > sb)) as [Hgt|Hgt].
  - destruct Hgrow as (md2 & md3 & Hresize & Hcommit); [lia|].
    rewrite Hresize. rewrite decide_False by (intros Hne; by apply Hne).
    cbn [pmd set_pmd]. rewrite Hcommit.
    rewrite decide_False by (intros Hne; by apply Hne).
    eexists. split; [reflexivity|]. done.
  - eexists. split; [reflexivity|]. done.
Qed.

(** C8.  When the allocation of a data block returns [-ENOSPC],
    [provision_block] and [break_sharing] both run [no_space]: the
    cell is released and its bios are put, in order, at the end of the
    retry list; no bio is completed (the only event that may have been
    raised is the low-water event of the allocation).  A later
    [pool_preresume], on any state [q] of the pool and for a table [t]
    that passes its checks, returns 0: it has put the bios of the
    retry list at the end of the deferred list, emptied the retry
    list, cleared [low_water_triggered] and woken the worker. *)
Theorem no_space_parks_until_preresume
    tc bio block k lookup_result c p data p1 t (q : pool M K) r0 md1 sb :
  ENOSPC ≠ 0 ->
  prison_wf (prison p) -> c ∈ linked (prison p) ->
  alloc_data_block tc p = Some (- ENOSPC, data, p1) ->
  dm_pool_rebind_metadata_device (pmd q) (metadata_dev (private t))
    = (r0, md1) ->
  dm_pool_get_data_dev_size md1 = (0, sb) ->
  sb <= Z.shiftr (len t) (block_shift q) ->
  (sb < Z.shiftr (len t) (block_shift q) ->
     exists md2 md3,
       dm_pool_resize_data_dev md1 (Z.shiftr (len t) (block_shift q))
         = (0, md2) /\
       dm_pool_commit_metadata md2 = (0, md3)) ->
  (let p' := no_space (cell_addr c) p1 in
   provision_block tc bio block (cell_addr c) p = Some p' /\
   break_sharing tc bio block k lookup_result (cell_addr c) p = Some p' /\
   retry_list p' = retry_list p ++ bios c /\
   deferred_bios p' = deferred_bios p /\
   linked (prison p') = others_linked (cell_addr c) (prison p) /\
   (trace p' = trace p \/ trace p' = trace p ++ [Ev_dm_table_event])) /\
  (exists q',
     pool_preresume t q = (0, q') /\
     deferred_bios q' = deferred_bios q ++ retry_list q /\
     retry_list q' = [] /\
     low_water_triggered q' = 0 /\
     trace q' = trace q ++ [Ev_queue_work]).
Proof.
  intros Henospc Hwf Hc Halloc Hbind Hsize Hle Hgrow. split.
  - destruct (dm_pool_get_free_block_count (pmd p)) as [r1 free] eqn:Hfree.
    destruct (alloc_data_block_spec _ _ _ _ _ _ _ Hfree Halloc)
      as (Hpr & Hrl & Hdf & Herr & Hok).
    assert (Hwf1 : prison_wf (prison p1)) by (by rewrite Hpr).
    assert (Hc1 : c ∈ linked (prison p1)) by (by rewrite Hpr).
    destruct (no_space_spec c p1 Hwf1 Hc1)
      as (Hlk & _ & Ht & _ & Hd & Hr & _).
    cbv zeta. unfold provision_block, break_sharing. rewrite Halloc.
    rewrite !(decide_False (P := - ENOSPC = 0)) by lia.
    rewrite !decide_True by done.
    rewrite Hlk, Ht, Hd, Hr, Hpr, Hrl, Hdf. split_and!; try done.
    destruct (decide (r1 = 0)) as [Hz|Hnz].
    + destruct (Hok Hz) as [_ Hev]. case_decide.
      * right. apply Hev.
      * left. apply Hev.
    + destruct (Herr Hnz) as [_ ->]. by left.
  - destruct (pool_preresume_passes t q r0 md1 sb Hbind Hsize Hle Hgrow)
      as (q' & Hq & Hd & Hr & Hl & Ht & _).
    by exists q'.
Qed.

(** C9, as the code has it.  A successful [alloc_data_block], with
    [free] the number of free blocks read before the block is taken.
    If [free] is at most the low-water mark and [low_water_triggered]
    is not set, one [dm_table_event] is raised and
    [low_water_triggered] is set to 1; if the flag is already set, or
    [free] is above the mark, no event is raised and the flag is left
    as it is.  A [pool_preresume], on any state [q] of the pool and for
    a table [t] that passes its checks, returns 0 and has cleared the
    flag. *)
Theorem low_water_event_once
    tc p r1 free data p' t (q : pool M K) r0 md1 sb :
  dm_pool_get_free_block_count (pmd p) = (r1, free) ->
  alloc_data_block tc p = Some (0, data, p') ->
  dm_pool_rebind_metadata_device (pmd q) (metadata_dev (private t))
    = (r0, md1) ->
  dm_pool_get_data_dev_size md1 = (0, sb) ->
  sb <= Z.shiftr (len t) (block_shift q) ->
  (sb < Z.shiftr (len t) (block_shift q) ->
     exists md2 md3,
       dm_pool_resize_data_dev md1 (Z.shiftr (len t) (block_shift q))
         = (0, md2) /\
       dm_pool_commit_metadata md2 = (0, md3)) ->
  (free <= low_water_mark p /\ low_water_triggered p = 0 ->
     trace p' = trace p ++ [Ev_dm_table_event] /\
     low_water_triggered p' = 1) /\
  (low_water_triggered p ≠ 0 \/ low_water_mark p < free ->
     trace p' = trace p /\
     low_water_triggered p' = low_water_triggered p) /\
  (exists q', pool_preresume t q = (0, q') /\ low_water_triggered q' = 0).
Proof.
  intros Hfree Halloc Hbind Hsize Hle Hgrow.
  destruct (alloc_data_block_spec _ _ _ _ _ _ _ Hfree Halloc)
    as (_ & _ & _ & Herr & Hok).
  assert (r1 = 0) as Hr1.
  { destruct (decide (r1 = 0)); [done|]. destruct (Herr n) as [? _]. lia. }
  destruct (Hok Hr1) as [_ Hev]. split_and!.
  - intros Hlow. by rewrite decide_True in Hev.
  - intros Hhigh. rewrite decide_False in Hev; [done|]. lia.
  - destruct (pool_preresume_passes t q r0 md1 sb Hbind Hsize Hle Hgrow)
      as (q' & Hq & _ & _ & Hl & _).
    by exists q'.
Qed.

End Mapping.
(** ** The work lists of the deferred set *)

Section Work_lists.
Implicit Types (m : mapping_ptr) (d : deferred_set).

Lemma all_work_alter (es : list deferred_entry) i e f :
  es !! i = Some e ->
  exists pre post,
    mjoin (work_items <$> es) = pre ++ work_items e ++ post /\
    mjoin (work_items <$> alter f i es) = pre ++ work_items (f e) ++ post.
Proof.
  revert i. induction es as [|x es IH]; intros [|i] Hi; simplify_eq/=.
  - exists [], (mjoin (work_items <$> es)). done.
  - destruct (IH i Hi) as (pre & post & -> & Hr).
    exists (work_items x ++ pre), post. split; [by rewrite <- app_assoc|].
    change (mjoin (work_items <$> alter f i es)
            = pre ++ work_items (f e) ++ post) in Hr.
    rewrite Hr. by rewrite <- app_assoc.
Qed.

Lemma all_work_set_count d i v :
  all_work (set_entry i (set_count v) d) = all_work d.
Proof.
  unfold all_work, set_entry; simpl. generalize (entries d). intros es.
  revert i. induction es as [|x es IH]; intros [|i]; simpl; try done.
  f_equal. apply IH.
Qed.

Lemma all_work_set_work d i e v :
  entries d !! i = Some e ->
  exists pre post,
    all_work d = pre ++ work_items e ++ post /\
    all_work (set_entry i (set_work_items v) d) = pre ++ v ++ post.
Proof.
  intros He. unfold all_work, set_entry; simpl.
  by destruct (all_work_alter _ i e (set_work_items v) He)
    as (pre & post & -> & ->); eauto.
Qed.

Lemma all_work_elem d m : m ∈ all_work d <-> exists k, m ∈ work_at d k.
Proof.
  unfold all_work, work_at. rewrite list_elem_of_join. split.
  - intros (l & Hm & (e & -> & He)%list_elem_of_fmap).
    apply list_elem_of_lookup in He as [k Hk]. exists k. by rewrite Hk.
  - intros (k & Hk). destruct (entries d !! k) as [e|] eqn:He; simpl in Hk.
    + exists (work_items e). split; [done|].
      apply list_elem_of_fmap_2. by eapply list_elem_of_lookup_2.
    + inversion Hk.
Qed.

Lemma sweep_loop_perm fuel : forall d head d' head',
  __sweep_loop fuel d head = Some (d', head') ->
  all_work d' ++ head' ≡ₚ all_work d ++ head.
Proof.
  induction fuel as [|fuel IH]; intros d head d' head'; simpl;
    destruct (entries d !! sweeper d) as [e|] eqn:He; try done;
    case_decide; try done; try (by intros [= <- <-]).
  intros Hrun. apply IH in Hrun. rewrite Hrun.
  destruct (all_work_set_work d (sweeper d) e [] He)
    as (pre & post & -> & Hr).
  change (all_work {| current_entry := _; sweeper := _; entries := ?es |})
    with (all_work (set_entry (sweeper d) (set_work_items []) d)).
  rewrite Hr. simpl. solve_Permutation.
Qed.

Lemma sweep_perm d head d' head' :
  __sweep d head = Some (d', head') ->
  all_work d' ++ head' ≡ₚ all_work d ++ head.
Proof.
  unfold __sweep.
  destruct (__sweep_loop _ d head) as [[d1 head1]|] eqn:Hl; [|done].
  apply sweep_loop_perm in Hl.
  destruct (entries d1 !! sweeper d1) as [e|] eqn:He; [|done].
  case_decide; [|by intros [= <- <-]].
  intros [= <- <-]. rewrite <- Hl.
  destruct (all_work_set_work d1 (sweeper d1) e [] He)
    as (pre & post & -> & ->). simpl. solve_Permutation.
Qed.

Lemma ds_dec_perm e head d d' head' :
  ds_dec e head d = Some (d', head') ->
  all_work d' ++ head' ≡ₚ all_work d ++ head.
Proof.
  unfold ds_dec. destruct (entries d !! e) as [x|]; [|done].
  case_decide; [done|]. intros Hs%sweep_perm.
  by rewrite all_work_set_count in Hs.
Qed.

Lemma ds_add_work_perm d work mem r d' mem' :
  ds_add_work d work mem = Some (r, d', mem') ->
  r = 0 /\ d' = d /\ mem' = mem \/
  r = 1 /\ all_work d' ≡ₚ work :: all_work d /\
    mem' = alter (set_m_list LIST_LINKED) work mem.
Proof.
  unfold ds_add_work.
  destruct (entries d !! current_entry d) as [e|] eqn:He; [|done].
  case_decide; [intros [= <- <- <-]; by left|].
  unfold list_add. cbv beta iota zeta.
  set (d1 := set_entry (current_entry d) (set_work_items (work :: _)) d).
  destruct (entries d1 !! _) as [n|]; [|done].
  intros [= <- <- <-]. right. split_and!; [done| |done].
  destruct (all_work_set_work d (current_entry d) e (work :: work_items e) He)
    as (pre & post & Ha & Hr). fold d1 in Hr.
  assert (all_work d1 ≡ₚ work :: all_work d) as Hp.
  { rewrite Hr, Ha. simpl. symmetry. apply Permutation_middle. }
  by case_decide.
Qed.

Lemma ds_init_entry i :
  count_at ds_init i = 0 /\ work_at ds_init i = [].
Proof.
  unfold count_at, work_at, ds_init. cbn [entries].
  destruct (replicate DEFERRED_SET_SIZE (Deferred_entry 0 []) !! i)
    as [e|] eqn:He; [|done].
  apply lookup_replicate in He as [-> _]. done.
Qed.

Lemma ds_init_wf : ds_wf ds_init.
Proof.
  split.
  - apply length_replicate.
  - unfold DEFERRED_SET_SIZE; simpl; lia.
  - unfold DEFERRED_SET_SIZE; simpl; lia.
  - intros i. destruct (ds_init_entry i) as [-> _]. lia.
Qed.

Lemma all_work_nil d : (forall k, work_at d k = []) -> all_work d = [].
Proof.
  intros Hnil. destruct (all_work d) as [|m l] eqn:Hl; [done|].
  assert (m ∈ all_work d) as Hm by (rewrite Hl; by left).
  apply all_work_elem in Hm as (k & Hk). rewrite Hnil in Hk. inversion Hk.
Qed.

End Work_lists.
(** * The theorems at work on the example host *)

#[local] Existing Instance Examples.example_kernel.
#[local] Existing Instance Examples.example_metadata.
#[local] Existing Instance Examples.example_kcopyd.

Section Example_facts.
Import Examples More_examples.

Lemma prison0_wf : prison_wf prison0.
Proof.
  destruct (prison_create_wf PRISON_CELLS) as (p & Hp & Hwf & _).
  assert (p = prison0) as <-; [|done].
  change (prison_create PRISON_CELLS) with (Some prison0) in Hp. congruence.
Qed.

Lemma prison1_linked : linked prison1 = [cell0].
Proof. reflexivity. Qed.

Lemma prison1_linked_addrs : linked_addrs prison1 = [3%nat].
Proof. reflexivity. Qed.

Lemma prison1_wf : prison_wf prison1.
Proof.
  apply (wf_insert (set_cell_pool (fun _ => {[3%nat]}) prison0) key0 3%nat 2
                   [20%nat; 21%nat]).
  - apply wf_set_cell_pool; [apply prison0_wf|]. intros a Ha. inversion Ha.
  - reflexivity.
  - intros Ha. inversion Ha.
  - change (3%nat ∈ ({[3%nat]} : gset cell_ptr)). by apply elem_of_singleton.
Qed.

Lemma prison1_counted : cells_counted prison1.
Proof.
  intros c Hc. rewrite prison1_linked in Hc.
  apply list_elem_of_singleton in Hc as ->. simpl. lia.
Qed.

(** A deferred set is well formed when its array passes these checks. *)
Lemma ds_wf_checked d :
  length (entries d) = DEFERRED_SET_SIZE ->
  (current_entry d < DEFERRED_SET_SIZE)%nat ->
  (sweeper d < DEFERRED_SET_SIZE)%nat ->
  Forall (fun e => 0 <= de_count e < 2 ^ 32) (entries d) -> ds_wf d.
Proof.
  intros Hlen Hcur Hsw Hall. split; try done.
  intros i. unfold count_at. destruct (entries d !! i) as [e|] eqn:He.
  - simpl. by apply (Forall_lookup_1 _ _ _ _ Hall He).
  - simpl. lia.
Qed.

Lemma ds_one_read_wf : ds_wf ds_one_read.
Proof.
  apply ds_wf_checked; [reflexivity|vm_compute; lia|vm_compute; lia|].
  apply (bool_decide_unpack _). vm_compute. exact I.
Qed.

Lemma ds_ring_wf : ds_wf ds_ring.
Proof.
  apply ds_wf_checked; [reflexivity|vm_compute; lia|vm_compute; lia|].
  apply (bool_decide_unpack _). vm_compute. exact I.
Qed.

Lemma ds_ring_reachable :
  exists d, ds_inc ds_init = Some (0%nat, d) /\
            add_works (seq 1 64) d mem_nodes = Some (ds_ring, mem_ring).
Proof. eexists. split; [reflexivity|]. vm_compute. reflexivity. Qed.

(** C2.  Two calls of [bio_detain] on the prison that [prison_create]
    makes, one after the other, for the same virtual block of the same
    device: the two keys are built by [build_virtual_key] from the
    same arguments and have the same fields, but the stack held
    different bytes where their padding lies.  [memcmp] tells them
    apart, so the second call finds no cell and links its own: the
    prison then has two cells for the one key, and both callers have
    been returned 0. *)
Theorem two_cells_for_one_key :
  build_virtual_key (td tc0) 0 stack0 = key0 /\
  build_virtual_key (td tc0) 0 stack1 = key0_padded /\
  key_fields key0_padded = key_fields key0 /\
  exists prison s,
    prison_create PRISON_CELLS = Some prison /\
    rtc prison_step (Prison_state prison []) s /\
    ps_callers s = [D_return 0 0%nat; D_return 0 1%nat] /\
    key <$> linked (ps_prison s) = [key0_padded; key0] /\
    bios <$> linked (ps_prison s) = [[21%nat]; [20%nat]].
Proof.
  split; [reflexivity|]. split; [reflexivity|]. split; [reflexivity|].
  set (pa := (default (0, 0%nat, prison0)
                (bio_detain prison0 key0 20%nat)).2).
  set (pb := (default (0, 0%nat, pa) (bio_detain pa key0_padded 21%nat)).2).
  assert (H1 : bio_detain prison0 key0 20%nat = Some (0, 0%nat, pa))
    by (vm_compute; reflexivity).
  assert (H2 : bio_detain pa key0_padded 21%nat = Some (0, 1%nat, pb))
    by (vm_compute; reflexivity).
  exists prison0, (Prison_state pb [D_return 0 0%nat; D_return 0 1%nat]).
  split_and!; try (vm_compute; reflexivity).
  transitivity (Prison_state pa [D_return 0 0%nat]).
  - exact (bio_detain_run prison0 [] key0 20%nat _ _ _ H1).
  - exact (bio_detain_run pa [D_return 0 0%nat] key0_padded 21%nat _ _ _ H2).
Qed.

(** C3.  The cell of the virtual key of block 0 holds the bios 20 and
    21.  [bio_detain] is called for that block again, with a key that
    has the same fields and other bytes in its padding: it does not
    find the cell, creates a second one, puts the request there and
    returns 0, not 2.  So [process_bio], entered for the write 26 into
    block 0 with those bytes on its stack, does not leave the bio with
    the two that wait: it goes on as the owner of the block, allocates
    a data block and has it zeroed. *)
Theorem bio_detain_misses_padded_key :
  build_virtual_key (td tc0) 0 stack1 = key0_padded /\
  key_fields key0_padded = key_fields key0 /\
  inmates prison1 key0 = [20%nat; 21%nat] /\
  (exists cell prison',
     bio_detain prison1 key0_padded 26%nat = Some (0, cell, prison') /\
     cell ≠ cell_addr cell0 /\
     key <$> linked prison' = [key0_padded; key0] /\
     bios <$> linked prison' = [[26%nat]; [20%nat; 21%nat]]) /\
  (exists p',
     process_bio tc0 26%nat stack1 stack0 pool_held_ahead = Some p' /\
     bios <$> linked (prison p') = [[26%nat]; [20%nat; 21%nat]] /\
     trace p' = [Ev_dm_kcopyd_zero (block_region tc0 7 pool_held_ahead)
                   0%nat 0]).
Proof.
  split; [reflexivity|]. split; [reflexivity|]. split; [reflexivity|]. split.
  - destruct (bio_detain prison1 key0_padded 26%nat) as [[[r c] pr]|] eqn:Hd;
      vm_compute in Hd; [|discriminate].
    injection Hd as <- <- <-. eexists _, _. split; [reflexivity|].
    split; [discriminate|]. split; reflexivity.
  - destruct (process_bio tc0 26%nat stack1 stack0 pool_held_ahead)
      as [p'|] eqn:Hp; vm_compute in Hp; [|discriminate].
    injection Hp as <-. eexists. split; [reflexivity|].
    split; vm_compute; reflexivity.
Qed.

(** A bio for a key that has no cell, in a prison where a caller
    holds the spare cell 4: [bio_detain] creates the cell, and so does
    the critical section of that caller, with its spare cell. *)
Lemma bio_detain_by_key_image_witness :
  find_cell prison_spare key0_padded = None /\
  (exists r cell prison',
     bio_detain prison_spare key0_padded 22%nat = Some (r, cell, prison') /\
     detained prison_spare key0_padded 22%nat r cell prison' /\
     prison_wf prison') /\
  (exists r cell spare prison',
     detain_locked prison_spare (hash_key prison_spare key0_padded)
       key0_padded 22%nat 4%nat = (r, cell, spare, prison') /\
     detained prison_spare key0_padded 22%nat r cell prison' /\
     prison_wf prison').
Proof.
  assert (Hwf : prison_wf prison_spare).
  { apply wf_set_cell_pool; [exact prison1_wf|].
    intros a Ha. rewrite (prison1_linked_addrs) in Ha.
    apply list_elem_of_singleton in Ha as ->. vm_compute. set_solver. }
  assert (Hcnt : cells_counted prison_spare) by exact prison1_counted.
  split; [by vm_compute|].
  destruct (bio_detain_by_key_image prison_spare key0_padded 22%nat Hwf Hcnt)
    as [H1 H2].
  split; [exact H1|]. apply (H2 4%nat).
  - change (linked_addrs prison_spare) with (linked_addrs prison1).
    rewrite prison1_linked_addrs. intros Ha.
    apply list_elem_of_singleton in Ha. discriminate.
  - vm_compute. set_solver.
Defined.

(** The prepared mapping of the write 20: the insertion succeeds, the
    other bio of the cell is deferred and the write is ended with 0. *)
Lemma process_prepared_mapping_spec_witness :
  let p' := process_prepared_mapping 0%nat pool_prepared in
  linked (prison p') = others_linked 3%nat (prison pool_prepared) /\
  (err mapping0 ≠ 0 ->
     trace p' = trace pool_prepared ++ io_errors (bios cell0) /\
     pmd p' = pmd pool_prepared /\
     deferred_bios p' = deferred_bios pool_prepared) /\
  (err mapping0 = 0 ->
     pmd p' = (example_insert_block md0 1 0 7).2 /\
     (0 ≠ 0 ->
        trace p' = trace pool_prepared ++ io_errors (bios cell0) /\
        deferred_bios p' = deferred_bios pool_prepared) /\
     (0 = 0 ->
        deferred_bios p'
          = deferred_bios pool_prepared
              ++ filter (fun x => x ≠ 20%nat) (bios cell0) /\
        trace p' = trace pool_prepared ++ [Ev_queue_work; Ev_bio_endio 20%nat 0])).
Proof.
  apply (process_prepared_mapping_spec 0%nat pool_prepared mapping0 cell0 0
           (example_insert_block md0 1 0 7).2).
  - vm_compute. reflexivity.
  - exact prison1_wf.
  - change (cell0 ∈ linked prison1). rewrite prison1_linked. by left.
  - reflexivity.
  - reflexivity.
Defined.

(** The waiter 65 on the full ring. *)
Lemma ds_add_work_links_at_head_witness :
  ds_wf ds_ring /\
  exists r ds' mem',
    ds_add_work ds_ring 65%nat mem_ring = Some (r, ds', mem') /\
    let cur := current_entry ds_ring in
    let next := ds_next cur in
    (r = 0 <-> sweeper ds_ring = cur /\ count_at ds_ring cur = 0) /\
    (r = 0 -> ds' = ds_ring /\ mem' = mem_ring) /\
    (r ≠ 0 ->
       r = 1 /\
       work_at ds' cur = 65%nat :: work_at ds_ring cur /\
       (forall i, i ≠ cur -> work_at ds' i = work_at ds_ring i) /\
       (forall i, count_at ds' i = count_at ds_ring i) /\
       sweeper ds' = sweeper ds_ring /\
       (count_at ds_ring next = 0 -> current_entry ds' = next) /\
       (count_at ds_ring next ≠ 0 -> current_entry ds' = cur) /\
       mem' = alter (set_m_list LIST_LINKED) 65%nat mem_ring) /\
    ds_wf ds'.
Proof.
  split; [exact ds_ring_wf|].
  exact (ds_add_work_links_at_head ds_ring 65%nat mem_ring ds_ring_wf).
Defined.

(** The read of slot 0 ends: the sweeper passes slot 0 and the waiter
    100 is handed back. *)
Lemma ds_dec_sweeps_witness :
  ds_wf ds_one_read /\ 0 < count_at ds_one_read 0 /\
  exists ds' head' n,
    ds_dec 0 [] ds_one_read = Some (ds', head') /\
    (forall i, count_at ds' i
       = if decide (i = 0%nat) then count_at ds_one_read 0 - 1
         else count_at ds_one_read i) /\
    current_entry ds' = current_entry ds_one_read /\
    (n <= ring_dist (sweeper ds_one_read) (current_entry ds_one_read))%nat /\
    sweeper ds' = ring_slot (sweeper ds_one_read) n /\
    (forall i, i ∈ ring_slots (sweeper ds_one_read) n -> count_at ds' i = 0) /\
    (sweeper ds' ≠ current_entry ds_one_read ->
       count_at ds' (sweeper ds') ≠ 0) /\
    let drained :=
      drained_slots (sweeper ds_one_read) n (sweeper ds')
                    (current_entry ds_one_read)
                    (count_at ds' (current_entry ds_one_read)) in
    head' = mjoin (reverse (work_at ds_one_read <$> drained)) ++ [] /\
    (forall i, work_at ds' i
       = if decide (i ∈ drained) then [] else work_at ds_one_read i)
    /\ ds_wf ds'.
Proof.
  assert (Hpos : 0 < count_at ds_one_read 0) by (vm_compute; reflexivity).
  assert (Hlt : (0 < DEFERRED_SET_SIZE)%nat) by (vm_compute; lia).
  split; [exact ds_one_read_wf|]. split; [exact Hpos|].
  exact (ds_dec_sweeps ds_one_read 0%nat [] ds_one_read_wf Hlt Hpos).
Defined.

(** The read of block 1, which is mapped and not shared. *)
Lemma thin_bio_map_fast_path_witness :
  let ret := (thin_bio_map tc0 22%nat pool0).1 in
  let p' := (thin_bio_map tc0 22%nat pool0).2 in
  let b' := set_bi_map_info (ptr_thin_c tc0) read1 in
  let result := {| lr_block := 5; shared := false |} in
  pmd p' = md0 /\
  (0 = 0 /\ shared result = false ->
     ret = DM_MAPIO_REMAPPED /\
     bio_mem p' !! 22%nat = Some (remapped pool0 tc0 (lr_block result) b') /\
     deferred_bios p' = deferred_bios pool0 /\ trace p' = trace pool0) /\
  (0 = 0 /\ shared result = true \/ 0 = - ENODATA \/ 0 = - EWOULDBLOCK ->
     ret = DM_MAPIO_SUBMITTED /\
     bio_mem p' !! 22%nat = Some b' /\
     deferred_bios p' = deferred_bios pool0 ++ [22%nat] /\
     trace p' = trace pool0 ++ [Ev_queue_work]).
Proof.
  apply (thin_bio_map_fast_path tc0 22%nat pool0 read1 0
           {| lr_block := 5; shared := false |} md0).
  - vm_compute. reflexivity.
  - vm_compute. reflexivity.
  - vm_compute. discriminate.
  - vm_compute. discriminate.
  - vm_compute. reflexivity.
Defined.

(** The write 27 with FUA, which covers block 0.  It is deferred when
    it is mapped.  [process_bio] then hooks it and calls
    [remap_and_issue] in the pool [pool_fua_hooked], where the commit
    fails: [overwrite_endio] runs, the mapping goes on the prepared
    list with the error and nothing is issued or completed; the worker
    then fails the cell, and the write is completed with [-EIO]. *)
Lemma flush_fua_deferred_then_committed_witness :
  process_bio tc0 27%nat stack0 stack0 pool_fua
    = remap_and_issue tc0 27%nat 7 pool_fua_hooked /\
  (let ret := (thin_bio_map tc0 27%nat pool_fua).1 in
   let p' := (thin_bio_map tc0 27%nat pool_fua).2 in
   ret = DM_MAPIO_SUBMITTED /\
   deferred_bios p' = deferred_bios pool_fua ++ [27%nat] /\
   trace p' = trace pool_fua ++ [Ev_queue_work] /\
   pmd p' = pmd pool_fua /\
   bio_mem p' !! 27%nat = Some (set_bi_map_info (ptr_thin_c tc0) fua0)) /\
  exists q',
    remap_and_issue tc0 27%nat 7 pool_fua_hooked = Some q' /\
    pmd q' = md_bad_commit_taken /\
    bio_mem q' = bio_mem pool_fua_hooked /\
    (exists mp',
       mapping_pool q' !! 0%nat = Some mp' /\
       err mp' = - EIO /\ prepared mp' = 1 /\
       m_cell mp' = 0%nat /\ m_bio mp' = Some 27%nat) /\
    prepared_mappings q' = [0%nat] /\
    trace q' = trace pool_fua_hooked ++ [Ev_queue_work] /\
    let q'' := process_prepared_mapping 0%nat q' in
    trace q'' = trace q' ++ [Ev_bio_endio 27%nat (- EIO)] /\
    pmd q'' = md_bad_commit_taken /\
    linked (prison q'') = [].
Proof.
  split; [vm_compute; reflexivity|].
  destruct (flush_fua_deferred_then_committed tc0 27%nat pool_fua fua0
              pool_fua_hooked fua0_hooked 7 (- 5) md_bad_commit_taken)
    as (Hmap & _ & Hfail).
  - vm_compute. reflexivity.
  - vm_compute. discriminate.
  - vm_compute. reflexivity.
  - vm_compute. discriminate.
  - vm_compute. reflexivity.
  - split; [exact Hmap|].
    destruct (Hfail ltac:(discriminate) 0%nat mapping_hooked
                eq_refl ltac:(vm_compute; reflexivity))
      as (q' & Hq & Hpmd & Hbm & Hmp & Hinit & _ & Hworker).
    destruct (Hinit eq_refl) as (Hprep & Htr).
    destruct (Hworker cell_fua) as (Ht & Hp & Hl).
    + vm_compute. discriminate.
    + apply (wf_insert (set_cell_pool (fun _ => {[0%nat]}) prison0) key0
               0%nat 1 [27%nat]).
      * apply wf_set_cell_pool; [apply prison0_wf|]. intros a Ha.
        inversion Ha.
      * reflexivity.
      * intros Ha. inversion Ha.
      * change (0%nat ∈ ({[0%nat]} : gset cell_ptr)).
        by apply elem_of_singleton.
    + change (cell_fua ∈ [cell_fua]). by left.
    + reflexivity.
    + exists q'. split_and!; try done.
Defined.

(** No free block for the cell of [key0]: its two bios are parked.
    The pool is then resumed with a table that is three blocks longer
    than the data device: the device is resized, the metadata
    committed, and the bios are requeued. *)
Lemma no_space_parks_until_preresume_witness :
  alloc_data_block tc0 pool_full = Some (- ENOSPC, 0, pool_full_alloc) /\
  pool_parked = no_space (cell_addr cell0) pool_full_alloc /\
  retry_list pool_parked = [20%nat; 21%nat] /\
  (let p' := no_space (cell_addr cell0) pool_full_alloc in
   provision_block tc0 20%nat 0 (cell_addr cell0) pool_full = Some p' /\
   break_sharing tc0 20%nat 0 key0 {| lr_block := 5; shared := true |}
     (cell_addr cell0) pool_full = Some p' /\
   retry_list p' = retry_list pool_full ++ bios cell0 /\
   deferred_bios p' = deferred_bios pool_full /\
   linked (prison p') = others_linked (cell_addr cell0) (prison pool_full) /\
   (trace p' = trace pool_full \/
    trace p' = trace pool_full ++ [Ev_dm_table_event])) /\
  (exists q',
     pool_preresume target_grown pool_parked = (0, q') /\
     deferred_bios q' = deferred_bios pool_parked ++ retry_list pool_parked /\
     retry_list q' = [] /\
     low_water_triggered q' = 0 /\
     trace q' = trace pool_parked ++ [Ev_queue_work]).
Proof.
  assert (Ha : alloc_data_block tc0 pool_full
               = Some (- ENOSPC, 0, pool_full_alloc))
    by (vm_compute; reflexivity).
  split; [exact Ha|]. split; [reflexivity|].
  split; [vm_compute; reflexivity|].
  apply (no_space_parks_until_preresume tc0 20%nat 0 key0
           {| lr_block := 5; shared := true |} cell0 pool_full 0
           pool_full_alloc target_grown pool_parked 0 md_full 17).
  - vm_compute. discriminate.
  - exact prison1_wf.
  - change (cell0 ∈ linked prison1). rewrite prison1_linked. by left.
  - exact Ha.
  - vm_compute. reflexivity.
  - vm_compute. reflexivity.
  - vm_compute. discriminate.
  - intros _. eexists _, _. split; vm_compute; reflexivity.
Defined.

(** Ten free blocks and a low-water mark of ten: the event is raised.
    The pool is then resumed with a table of the size of the data
    device, and the flag is cleared. *)
Lemma low_water_event_once_witness :
  alloc_data_block tc0 pool_low = Some (0, 7, pool_low_alloc) /\
  low_water_triggered pool_low_alloc = 1 /\
  (10 <= low_water_mark pool_low /\ low_water_triggered pool_low = 0 ->
     trace pool_low_alloc = trace pool_low ++ [Ev_dm_table_event] /\
     low_water_triggered pool_low_alloc = 1) /\
  (low_water_triggered pool_low ≠ 0 \/ low_water_mark pool_low < 10 ->
     trace pool_low_alloc = trace pool_low /\
     low_water_triggered pool_low_alloc = low_water_triggered pool_low) /\
  (exists q',
     pool_preresume target0 pool_low_alloc = (0, q') /\
     low_water_triggered q' = 0).
Proof.
  assert (Ha : alloc_data_block tc0 pool_low = Some (0, 7, pool_low_alloc))
    by (vm_compute; reflexivity).
  split; [exact Ha|]. split; [reflexivity|].
  apply (low_water_event_once tc0 pool_low 0 10 7 pool_low_alloc
           target0 pool_low_alloc 0 md0_taken 17).
  - vm_compute. reflexivity.
  - exact Ha.
  - vm_compute. reflexivity.
  - vm_compute. reflexivity.
  - vm_compute. discriminate.
  - intros Hlt. vm_compute in Hlt. discriminate.
Defined.

(** Eleven free blocks and a low-water mark of ten.  A block is
    allocated: ten free blocks remain, which is not above the mark,
    the flag was not set, and no event has been raised. *)
Lemma low_water_remaining_not_checked :
  exists data p',
    alloc_data_block tc0 pool_eleven = Some (0, data, p') /\
    dm_pool_get_free_block_count (pmd p') = (0, 10) /\
    10 <= low_water_mark pool_eleven /\
    low_water_triggered pool_eleven = 0 /\
    trace p' = trace pool_eleven /\
    low_water_triggered p' = 0.
Proof.
  destruct (alloc_data_block tc0 pool_eleven) as [[[r d] p']|] eqn:Ha;
    vm_compute in Ha; [|discriminate].
  injection Ha as <- <- <-. eexists _, _. split; [reflexivity|].
  split_and!; vm_compute; first [reflexivity | discriminate].
Qed.

(** The waiter 65 arrives on the full ring, where the waiter 64 is on
    the work list of the current entry: it is linked in front of 64,
    not behind it. *)
Lemma ds_add_work_not_appended :
  (exists d, ds_inc ds_init = Some (0%nat, d) /\
             add_works (seq 1 64) d mem_nodes = Some (ds_ring, mem_ring)) /\
  work_at ds_ring 63 = [64%nat] /\
  exists ds' mem',
    ds_add_work ds_ring 65%nat mem_ring = Some (1, ds', mem') /\
    work_at ds' 63 = [65%nat; 64%nat] /\
    work_at ds' 63 ≠ work_at ds_ring 63 ++ [65%nat].
Proof.
  split; [exact ds_ring_reachable|]. split; [reflexivity|].
  destruct (ds_add_work ds_ring 65%nat mem_ring) as [[[r d] mem]|] eqn:Hadd;
    vm_compute in Hadd; [|discriminate].
  injection Hadd as <- <- <-. eexists _, _. split; [reflexivity|].
  split; [reflexivity|]. vm_compute. discriminate.
Qed.

End Example_facts.

Section Refused_copy_facts.
Import Examples More_examples.
#[local] Existing Instance example_kcopyd_no_copy.

(** C1.  The read 24 of the shared block 2 is in flight, counted in
    slot 0 of the deferred set.  The write 25 into block 2 breaks the
    sharing: [schedule_copy] puts its new_mapping, at address 0, on
    the work list of slot 0, kcopyd refuses the copy, and the
    new_mapping is freed without being taken off that list.  The
    mempool hands the same object out again, for the write 20 into
    block 0, which is not provisioned; when kcopyd has zeroed the
    block [copy_complete] puts the new_mapping on the prepared list.
    It is then on the prepared list and on the work list of slot 0,
    whose read is still in flight; when the read ends,
    [shared_read_endio] puts it on the prepared list once more. *)
Theorem freed_mapping_prepared_behind_read :
  process_bio tc0 24%nat stack0 stack0 pool_ahead = Some pool_reading /\
  process_bio tc0 25%nat stack0 stack0 pool_reading = Some pool_copy_refused /\
  mapping_pool pool_copy_refused !! 0%nat = None /\
  work_at (ds pool_copy_refused) 0 = [0%nat] /\
  process_bio tc0 20%nat stack0 stack0 pool_ahead_again = Some pool_zeroing /\
  prepared_mappings pool_zeroed = [0%nat] /\
  work_at (ds pool_zeroed) 0 = [0%nat] /\
  count_at (ds pool_zeroed) 0 = 1 /\
  bi_end_io <$> bio_mem pool_zeroed !! 24%nat = Some shared_read_endio_fn /\
  prepared_mappings <$> shared_read_endio 24%nat 0 pool_zeroed
    = Some [0%nat; 0%nat].
Proof. split_and!; vm_compute; reflexivity. Qed.

End Refused_copy_facts.
(** * The prison: allocation and round trips *)

Section Prison_more.

Lemma calc_nr_buckets_spec nr_cells :
  exists k,
    calc_nr_buckets nr_cells = Some (2 ^ k) /\ 7 <= k <= 13 /\
    Z.min (nr_cells / 4) 8192 <= 2 ^ k /\
    (7 < k -> 2 ^ (k - 1) < Z.min (nr_cells / 4) 8192).
Proof.
  unfold calc_nr_buckets. cbv zeta.
  generalize (Z.le_min_r (nr_cells / 4) 8192).
  generalize (Z.min (nr_cells / 4) 8192). intros t Ht.
  unfold calc_nr_buckets_loop.
  destruct (decide (128 < t)); [|exists 7; split_and!; [done|lia..]].
  change (u32 (Z.shiftl 128 1)) with 256.
  destruct (decide (256 < t)); [|exists 8; split_and!; [done|lia..]].
  change (u32 (Z.shiftl 256 1)) with 512.
  destruct (decide (512 < t)); [|exists 9; split_and!; [done|lia..]].
  change (u32 (Z.shiftl 512 1)) with 1024.
  destruct (decide (1024 < t)); [|exists 10; split_and!; [done|lia..]].
  change (u32 (Z.shiftl 1024 1)) with 2048.
  destruct (decide (2048 < t)); [|exists 11; split_and!; [done|lia..]].
  change (u32 (Z.shiftl 2048 1)) with 4096.
  destruct (decide (4096 < t)); [|exists 12; split_and!; [done|lia..]].
  change (u32 (Z.shiftl 4096 1)) with 8192.
  destruct (decide (8192 < t)); [lia|exists 13; split_and!; [done|lia..]].
Qed.

(** X1. [calc_nr_buckets] returns a power of two between 128 and 8192:
    the first one, from 128 up, that is not below a quarter of
    [nr_cells] capped at 8192. *)
Theorem calc_nr_buckets_power_of_two nr_cells :
  exists k,
    calc_nr_buckets nr_cells = Some (2 ^ k) /\ 7 <= k <= 13 /\
    Z.min (nr_cells / 4) 8192 <= 2 ^ k /\
    (7 < k -> 2 ^ (k - 1) < Z.min (nr_cells / 4) 8192).
Proof. apply calc_nr_buckets_spec. Qed.

Lemma pow2_bounds k : 7 <= k <= 13 -> 128 <= 2 ^ k <= 8192.
Proof.
  intros Hk. split.
  - change 128 with (2 ^ 7). apply Z.pow_le_mono_r; lia.
  - change 8192 with (2 ^ 13). apply Z.pow_le_mono_r; lia.
Qed.

(** X2. [prison_create] never fails for want of buckets: it returns an
    empty table of [2 ^ k] chains, [7 <= k <= 13], with the mask
    [2 ^ k - 1]; and [hash_key] sends a key to the chain
    [(block * BIG_PRIME) mod 2 ^ k], whatever its device and its
    [virtual] flag: always an index of the table. *)
Theorem prison_create_buckets nr_cells :
  exists prison k,
    prison_create nr_cells = Some prison /\ 7 <= k <= 13 /\
    nr_buckets prison = 2 ^ k /\ hash_mask prison = 2 ^ k - 1 /\
    length (cells prison) = Z.to_nat (2 ^ k) /\
    linked prison = [] /\ cell_pool prison = ∅ /\
    forall key,
      hash_key prison key = (block key * BIG_PRIME) mod 2 ^ k /\
      0 <= hash_key prison key < nr_buckets prison.
Proof.
  destruct (calc_nr_buckets_spec nr_cells) as (k & Hn & Hk & _).
  pose proof (pow2_bounds k Hk) as Hb.
  unfold prison_create. rewrite Hn. eexists _, k. split; [done|]. simpl.
  assert (Hmask : u32 (2 ^ k - 1) = 2 ^ k - 1) by (apply u32_small; lia).
  rewrite Hmask. split; [exact Hk|]. split_and!; try done.
  - apply length_replicate.
  - apply join_replicate_nil.
  - intros key. unfold hash_key; simpl.
    replace (2 ^ k - 1) with (Z.ones k) by (rewrite Z.ones_equiv; lia).
    rewrite Z.land_ones by lia. unfold u64.
    assert (Hdiv : (block key * BIG_PRIME) mod 2 ^ 64 mod 2 ^ k
                   = (block key * BIG_PRIME) mod 2 ^ k).
    { apply Z.mod_mod_divide.
      exists (2 ^ (64 - k)). rewrite <- Z.pow_add_r by lia. f_equal. lia. }
    rewrite Hdiv.
    pose proof (Z.mod_pos_bound (block key * BIG_PRIME) (2 ^ k)) as Hr.
    rewrite u32_small by lia. lia.
Qed.

Lemma filter_addr_all (l : list cell) a :
  (forall c, c ∈ l -> cell_addr c ≠ a) ->
  filter (fun c => cell_addr c ≠ a) l = l.
Proof.
  induction l as [|c l IH]; intros Hall; [done|].
  rewrite filter_cons_True by (apply Hall; by left).
  f_equal. apply IH. intros c' Hc'. apply Hall. by right.
Qed.

Lemma map_filter_addr_all (t : list (list cell)) a :
  (forall c, c ∈ mjoin t -> cell_addr c ≠ a) ->
  map (filter (fun c => cell_addr c ≠ a)) t = t.
Proof.
  induction t as [|b t IH]; intros Hall; [done|]. simpl in *. f_equal.
  - apply filter_addr_all. intros c Hc. apply Hall, elem_of_app. by left.
  - apply IH. intros c Hc. apply Hall, elem_of_app. by right.
Qed.

Lemma map_store_other (g : cell -> cell) (l : list cell) a :
  (forall c, c ∈ l -> cell_addr c ≠ a) ->
  map (fun c => if decide (cell_addr c = a) then g c else c) l = l.
Proof.
  induction l as [|c l IH]; intros Hall; [done|]. simpl.
  rewrite decide_False by (apply Hall; by left).
  f_equal. apply IH. intros c' Hc'. apply Hall. by right.
Qed.

Lemma cell_store_other (g : cell -> cell) (t : list (list cell)) a :
  (forall c, c ∈ mjoin t -> cell_addr c ≠ a) -> cell_store a g t = t.
Proof.
  unfold cell_store.
  induction t as [|b t IH]; intros Hall; [done|]. simpl in *. f_equal.
  - apply map_store_other. intros c Hc. apply Hall, elem_of_app. by left.
  - apply IH. intros c Hc. apply Hall, elem_of_app. by right.
Qed.

Lemma linked_not_fresh prison c :
  prison_wf prison -> c ∈ linked prison ->
  cell_addr c ≠ fresh (cell_pool prison).
Proof.
  intros Hwf Hc Heq.
  apply (is_fresh (cell_pool prison)). rewrite <- Heq.
  apply (wf_live _ Hwf). by apply list_elem_of_fmap_2.
Qed.

(** What [bio_detain] does for a key that has no cell: it links a new
    cell, at an address the mempool had not handed out, with the bio
    as its only inmate. *)
Lemma bio_detain_absent prison k inmate :
  prison_wf prison -> find_cell prison k = None ->
  let a := fresh (cell_pool prison) in
  let h := Z.to_nat (hash_key prison k) in
  bio_detain prison k inmate
    = Some (0, a,
            {| cell_pool := {[a]} ∪ cell_pool prison;
               nr_buckets := nr_buckets prison;
               hash_mask := hash_mask prison;
               cells := <[h := {| cell_addr := a; key := k; count := 1;
                                  bios := [inmate] |}
                               :: bucket prison (hash_key prison k)]>
                          (cells prison) |}).
Proof.
  intros Hwf Hnone. cbv zeta. unfold bio_detain.
  pose proof (hash_key_range prison k (wf_mask _ Hwf)) as Hh.
  rewrite decide_False by (rewrite (wf_buckets _ Hwf); lia).
  rewrite (bucket_search _ _ Hwf), Hnone.
  unfold mempool_alloc, detain_locked, detain_recheck.
  set (a := fresh (cell_pool prison)).
  set (p1 := set_cell_pool _ prison).
  assert (Hwf1 : prison_wf p1).
  { apply wf_set_cell_pool; [done|]. intros x Hx.
    apply elem_of_union_r. by apply (wf_live _ Hwf). }
  change (bucket p1 (hash_key prison k)) with (bucket prison (hash_key prison k)).
  rewrite (bucket_search _ _ Hwf), Hnone.
  unfold detain_inmate.
  set (c0 := {| cell_addr := a; key := k; count := 0; bios := [] |}).
  set (p2 := set_cells _ p1).
  assert (Hfresh : a ∉ cell_pool prison) by apply is_fresh.
  assert (Hnl : a ∉ linked_addrs prison)
    by (intros Hin; by apply Hfresh, (wf_live _ Hwf)).
  assert (Hwf2 : prison_wf p2).
  { apply (wf_insert p1 k a 0 []); try done.
    apply elem_of_union_l. by apply elem_of_singleton. }
  assert (Hc0 : c0 ∈ linked p2).
  { apply linked_elem.
    exists (Z.to_nat (hash_key prison k)),
           (c0 :: bucket prison (hash_key prison k)).
    split; [|by left]. unfold p2; simpl.
    apply list_lookup_insert_eq.
    rewrite (wf_len _ Hwf), (wf_buckets _ Hwf). lia. }
  change (cell_load a (cells p2)) with (cell_load (cell_addr c0) (cells p2)).
  rewrite (cell_load_Some p2 c0 Hwf2 Hc0). simpl.
  do 3 f_equal.
  unfold set_cells, cell_store; simpl. f_equal.
  rewrite (list_fmap_insert (map _)). simpl.
  rewrite decide_True by done. f_equal.
  - f_equal. apply map_store_other. intros c Hc.
    apply (linked_not_fresh prison c Hwf). by eapply bucket_elem.
  - apply (cell_store_other (add_inmate inmate)). intros c Hc.
    by apply (linked_not_fresh prison c Hwf).
Qed.

(** Detaining under a key without a cell, then releasing the cell. *)
Lemma detain_release_absent prison k inmate inmates :
  prison_wf prison -> find_cell prison k = None ->
  exists cell prison1,
    bio_detain prison k inmate = Some (0, cell, prison1) /\
    cell_release cell inmates prison1 = (inmates ++ [inmate], prison) /\
    cell_release_singleton cell inmate prison1 = Some prison.
Proof.
  intros Hwf Hnone.
  pose proof (bio_detain_absent prison k inmate Hwf Hnone) as Hd.
  cbv zeta in Hd. eexists _, _. split; [exact Hd|].
  set (a := fresh (cell_pool prison)) in *.
  set (c1 := {| cell_addr := a; key := k; count := 1; bios := [inmate] |}).
  set (p1 := {| cell_pool := _ |}).
  pose proof (hash_key_range prison k (wf_mask _ Hwf)) as Hh.
  assert (Hlen : (Z.to_nat (hash_key prison k) < length (cells prison))%nat)
    by (rewrite (wf_len _ Hwf), (wf_buckets _ Hwf); lia).
  assert (Hfresh : a ∉ cell_pool prison) by apply is_fresh.
  assert (Hrel : forall l, cell_release a l p1 = (l ++ [inmate], prison)).
  { intros l. unfold cell_release, __cell_release.
    assert (Hload : cell_load a (cells p1) = Some c1).
    { unfold cell_load, p1; simpl.
      destruct (list_find _ _) as [[i c]|] eqn:Hfind; simpl.
      - apply list_find_Some in Hfind as (Hi & Ha & _).
        apply list_elem_of_lookup_2 in Hi.
        apply list_elem_of_join in Hi as (b & Hc & Hb).
        apply list_elem_of_lookup in Hb as (j & Hj).
        destruct (decide (j = Z.to_nat (hash_key prison k))) as [->|Hne].
        + rewrite list_lookup_insert_eq in Hj by done. simplify_eq.
          apply elem_of_cons in Hc as [->|Hc]; [done|].
          exfalso. apply (linked_not_fresh prison c Hwf); [|done].
          by eapply bucket_elem.
        + rewrite list_lookup_insert_ne in Hj by done.
          exfalso. apply (linked_not_fresh prison c Hwf); [|done].
          apply linked_elem. eauto.
      - exfalso. eapply list_find_None in Hfind.
        rewrite Forall_forall in Hfind. apply (Hfind c1); [|done].
        apply list_elem_of_join. exists (c1 :: bucket prison (hash_key prison k)).
        split; [by left|]. apply list_elem_of_lookup.
        exists (Z.to_nat (hash_key prison k)). by apply list_lookup_insert_eq. }
    rewrite Hload. simpl. f_equal.
    unfold mempool_free, set_cell_pool, set_cells, p1; simpl.
    destruct prison as [pool nb hm cs]; simpl in *. f_equal.
    - apply set_eq. intros x. rewrite elem_of_difference, elem_of_union,
        elem_of_singleton. split; [tauto|]. intros Hx. split; [tauto|].
      by intros ->.
    - rewrite (list_fmap_insert (filter (fun c : cell => cell_addr c ≠ a))).
      rewrite filter_cons_False by (simpl; tauto).
      assert (Hall : filter (fun c : cell => cell_addr c ≠ a) <$> cs = cs).
      { apply (map_filter_addr_all cs a). intros c Hc.
        by apply (linked_not_fresh (Bio_prison pool nb hm cs) c Hwf). }
      rewrite Hall. apply list_insert_id.
      etrans; [apply (bucket_Some (Bio_prison pool nb hm cs) k Hwf)|].
      f_equal. symmetry. apply filter_addr_all. intros c Hc.
      apply (linked_not_fresh (Bio_prison pool nb hm cs) c Hwf).
      by eapply bucket_elem. }
  split; [apply Hrel|].
  unfold cell_release_singleton. rewrite Hrel. simpl.
  by rewrite decide_True.
Qed.

(** X3. A bio is detained under a key that has no cell and the cell is
    released at once: [bio_detain] returns 0, [cell_release] hands the
    bio back behind the bios already on the list, and the prison is
    again exactly as it was, its mempool included.
    [cell_release_singleton] does the same. *)
Theorem detain_release_round_trip prison k inmate held :
  prison_wf prison -> find_cell prison k = None ->
  exists cell prison1,
    bio_detain prison k inmate = Some (0, cell, prison1) /\
    cell_release cell held prison1 = (held ++ [inmate], prison) /\
    cell_release_singleton cell inmate prison1 = Some prison.
Proof. apply detain_release_absent. Qed.

(** X4. [cell_release_singleton] on a linked cell: it returns, with
    the cell released, exactly when the cell holds the given bio and
    nothing else; with any other content one of its two [BUG_ON]s
    fires. *)
Theorem cell_release_singleton_sole_inmate prison c bio :
  prison_wf prison -> c ∈ linked prison ->
  (bios c = [bio] ->
     exists prison',
       cell_release_singleton (cell_addr c) bio prison = Some prison' /\
       linked prison' = others_linked (cell_addr c) prison /\
       prison_wf prison') /\
  (bios c ≠ [bio] ->
     cell_release_singleton (cell_addr c) bio prison = None).
Proof.
  intros Hwf Hc. unfold cell_release_singleton.
  destruct (cell_release_spec prison c [] Hwf Hc) as (Hb & Hlk & Hwf').
  destruct (cell_release (cell_addr c) [] prison) as [l pr].
  simpl in Hb, Hlk, Hwf'. subst l. split.
  - intros ->. rewrite decide_True by done. eauto.
  - intros Hne. destruct (bios c) as [|b [|b' l]]; try done.
    rewrite decide_False; [done|]. by intros ->.
Qed.

Lemma filter_store_same (g : cell -> cell) (l : list cell) a :
  (forall c, cell_addr (g c) = cell_addr c) ->
  filter (fun c => cell_addr c ≠ a)
    ((fun c => if decide (cell_addr c = a) then g c else c) <$> l)
  = filter (fun c => cell_addr c ≠ a) l.
Proof.
  intros Hg. induction l as [|c l IH]; [done|]. rewrite fmap_cons.
  destruct (decide (cell_addr c = a)) as [Ha|Ha].
  - rewrite !filter_cons_False; [done|tauto|rewrite Hg; tauto].
  - rewrite !filter_cons_True by done. by rewrite IH.
Qed.

(** Detaining under the key of a linked cell. *)
Lemma bio_detain_present prison c inmate :
  prison_wf prison -> cells_counted prison -> c ∈ linked prison ->
  let c1 := {| cell_addr := cell_addr c; key := key c;
               count := Z.of_nat (length (bios c)) + 1;
               bios := bios c ++ [inmate] |} in
  exists prison1,
    bio_detain prison (key c) inmate
      = Some (Z.of_nat (length (bios c)), cell_addr c, prison1) /\
    prison_wf prison1 /\ find_cell prison1 (key c) = Some c1 /\
    (forall k', k' ≠ key c -> find_cell prison1 k' = find_cell prison k') /\
    linked prison1
      = (fun c' => if decide (cell_addr c' = cell_addr c)
                   then add_inmate inmate c' else c') <$> linked prison.
Proof.
  intros Hwf Hcnt Hc.
  assert (Hfind : find_cell prison (key c) = Some c)
    by (by apply find_cell_Some).
  unfold bio_detain.
  pose proof (hash_key_range prison (key c) (wf_mask _ Hwf)) as Hh.
  rewrite decide_False by (rewrite (wf_buckets _ Hwf); lia).
  rewrite (bucket_search _ _ Hwf), Hfind.
  destruct (detain_inmate prison (cell_addr c) inmate) as [r p1] eqn:Hd.
  destruct (detain_inmate_found prison (key c) c inmate r p1 Hwf Hcnt Hfind Hd)
    as ((Hr & Hf1 & _ & _ & Hothers & _) & Hwf1).
  unfold inmates in Hr, Hf1. rewrite Hfind in Hr, Hf1.
  exists p1. rewrite Hr in *. split_and!; try done.
  unfold detain_inmate in Hd. injection Hd as _ <-.
  by rewrite linked_store.
Qed.

(** X5. A bio is detained under a key that is, byte for byte and so
    with its padding, the key of a linked cell, and the cell is
    released: [bio_detain] returns the number of bios the cell held,
    and [cell_release] hands back the bios of the cell in the order
    they came, the new one last, behind the bios already on the list;
    the other cells stay linked. *)
Theorem detain_then_release_in_order prison c inmate held :
  prison_wf prison -> cells_counted prison -> c ∈ linked prison ->
  exists prison1,
    bio_detain prison (key c) inmate
      = Some (Z.of_nat (length (bios c)), cell_addr c, prison1) /\
    (cell_release (cell_addr c) held prison1).1
      = held ++ bios c ++ [inmate] /\
    linked (cell_release (cell_addr c) held prison1).2
      = others_linked (cell_addr c) prison.
Proof.
  intros Hwf Hcnt Hc.
  destruct (bio_detain_present prison c inmate Hwf Hcnt Hc)
    as (p1 & Hd & Hwf1 & Hf1 & _ & Hlk1).
  set (c1 := {| cell_addr := cell_addr c |}) in Hf1.
  assert (Hc1 : c1 ∈ linked p1) by (by apply (find_cell_Some p1 (key c) c1)).
  exists p1. split; [done|].
  destruct (cell_release_spec p1 c1 held Hwf1 Hc1) as (Hb & Hlk & _).
  change (cell_addr c1) with (cell_addr c) in Hb, Hlk.
  split; [exact Hb|]. rewrite Hlk. unfold others_linked. rewrite Hlk1.
  apply filter_store_same. done.
Qed.

End Prison_more.
(** * The deferred set over its life *)

Section Deferred_set_more.
Implicit Types (d : deferred_set) (head : list mapping_ptr).

(** Arithmetic on the ring of the 64 slots. *)
Lemma ring_dist_small (s x : nat) :
  (s < 64)%nat -> (x < 64)%nat ->
  ring_dist s x = if decide (s <= x)%nat then (x - s)%nat
                  else (x + 64 - s)%nat.
Proof.
  intros Hs Hx. unfold ring_dist, DEFERRED_SET_SIZE. case_decide.
  - replace (x + 64 - s)%nat with (x - s + 1 * 64)%nat by lia.
    rewrite Nat.Div0.mod_add. apply Nat.mod_small. lia.
  - apply Nat.mod_small. lia.
Qed.

Lemma ring_slot_small (s j : nat) :
  (s < 64)%nat -> (j < 64)%nat ->
  ring_slot s j = if decide (s + j < 64)%nat then (s + j)%nat
                  else (s + j - 64)%nat.
Proof.
  intros Hs Hj. unfold ring_slot, DEFERRED_SET_SIZE. case_decide.
  - apply Nat.mod_small. lia.
  - replace (s + j)%nat with (s + j - 64 + 1 * 64)%nat at 1 by lia.
    rewrite Nat.Div0.mod_add. apply Nat.mod_small. lia.
Qed.

Lemma ds_next_small (c : nat) :
  (c < 64)%nat -> ds_next c = if decide (c = 63)%nat then 0%nat else S c.
Proof.
  intros Hc. unfold ds_next, DEFERRED_SET_SIZE. case_decide.
  - subst c. reflexivity.
  - rewrite Nat.mod_small by lia. lia.
Qed.

Lemma ring_dist_lt (s x : nat) : (s < 64)%nat -> (x < 64)%nat ->
  (ring_dist s x < 64)%nat.
Proof. intros Hs Hx. rewrite ring_dist_small by done. case_decide; lia. Qed.

(** The slot before one that is further than [i] is further than [i],
    unless the step passes the start. *)
Lemma ring_dist_before_next (s c i : nat) :
  (s < 64)%nat -> (c < 64)%nat -> (i < 64)%nat -> ds_next c ≠ s ->
  (ring_dist s (ds_next c) < ring_dist s i)%nat ->
  (ring_dist s c < ring_dist s i)%nat.
Proof.
  intros Hs Hc Hi. rewrite (ds_next_small c Hc).
  destruct (decide (c = 63)%nat) as [->|Hne]; intros Hnext;
    rewrite !ring_dist_small by lia; repeat case_decide; lia.
Qed.

Lemma ring_slot_dist (s i : nat) :
  (s < 64)%nat -> (i < 64)%nat -> ring_slot s (ring_dist s i) = i.
Proof.
  intros Hs Hi. pose proof (ring_dist_lt s i Hs Hi) as Hd.
  rewrite ring_slot_small by done. revert Hd.
  rewrite ring_dist_small by done. repeat case_decide; lia.
Qed.

(** A slot that a sweep of [n] steps from [s] has not passed, seen
    from the slot the sweep has reached. *)
Lemma ring_dist_after_sweep (s n cur i : nat) :
  (s < 64)%nat -> (cur < 64)%nat -> (i < 64)%nat ->
  (n <= ring_dist s cur)%nat -> ~ (ring_dist s i < n)%nat ->
  (ring_dist (ring_slot s n) cur < ring_dist (ring_slot s n) i)%nat ->
  (ring_dist s cur < ring_dist s i)%nat.
Proof.
  intros Hs Hc Hi. pose proof (ring_dist_lt s cur Hs Hc) as Hd.
  revert Hd. rewrite !(ring_dist_small s) by done. intros Hd Hn Hin.
  assert (Hn64 : (n < 64)%nat) by lia.
  rewrite (ring_slot_small s n Hs Hn64).
  destruct (decide (s + n < 64)%nat).
  - rewrite !ring_dist_small by lia. repeat case_decide; lia.
  - rewrite !ring_dist_small by lia. repeat case_decide; lia.
Qed.

Lemma ring_dist_past (s n cur i : nat) :
  (s < 64)%nat -> (cur < 64)%nat -> (i < 64)%nat ->
  (n <= ring_dist s cur)%nat -> ring_slot s n = cur -> i ≠ cur ->
  ~ (ring_dist s i < n)%nat ->
  (ring_dist s cur < ring_dist s i)%nat.
Proof.
  intros Hs Hc Hi. pose proof (ring_dist_lt s cur Hs Hc) as Hd.
  revert Hd. rewrite !(ring_dist_small s) by done. intros Hd Hn.
  assert (Hn64 : (n < 64)%nat) by lia.
  rewrite (ring_slot_small s n Hs Hn64). repeat case_decide; lia.
Qed.

Lemma ring_dist_self (c i : nat) :
  (c < 64)%nat -> (i < 64)%nat -> i ≠ c ->
  (ring_dist c c < ring_dist c i)%nat.
Proof.
  intros Hc Hi Hne. rewrite !ring_dist_small by done.
  repeat case_decide; lia.
Qed.

Lemma ds_init_swept : ds_swept ds_init.
Proof.
  split.
  - apply ds_init_wf.
  - done.
  - intros i _ _. apply ds_init_entry.
  - intros _ _. apply ds_init_entry.
Qed.

Lemma ds_inc_swept d e d' :
  ds_swept d -> count_at d (current_entry d) < 2 ^ 32 - 1 ->
  ds_inc d = Some (e, d') -> ds_swept d'.
Proof.
  intros [Hwf Hstop Hout Hidle] Hroom Hinc.
  destruct (ds_inc_spec d Hwf Hroom) as (d1 & Hinc1 & Hwf1 & Hc & Hs & Hw & Hcnt).
  rewrite Hinc in Hinc1. injection Hinc1 as _ <-.
  pose proof (ds_counts _ Hwf (current_entry d)) as Hb.
  split.
  - done.
  - rewrite Hc, Hs. intros Hne. rewrite Hcnt, decide_False by done. auto.
  - rewrite Hc, Hs. intros i Hi Hd. rewrite Hcnt, Hw.
    rewrite decide_False; [by apply Hout|]. intros ->. lia.
  - rewrite Hc, Hcnt, decide_True by done. lia.
Qed.

Lemma ds_add_work_swept d work mem r d' mem' :
  ds_swept d -> ds_add_work d work mem = Some (r, d', mem') -> ds_swept d'.
Proof.
  intros [Hwf Hstop Hout Hidle] Hadd.
  destruct (ds_add_work_spec d work mem Hwf)
    as (r1 & d1 & mem1 & Hadd1 & Hspec).
  rewrite Hadd in Hadd1. injection Hadd1 as <- <- <-.
  cbv zeta in Hspec. destruct Hspec as (Hz & Hsame & Hlink & Hwf').
  destruct (decide (r = 0)) as [Hr|Hr].
  { destruct (Hsame Hr) as [-> _]. by split. }
  destruct (Hlink Hr) as (_ & Hwc & Hwo & Hcnt & Hs & Hnext & Hstay & _).
  assert (Hbusy : ~ (sweeper d = current_entry d /\
                     count_at d (current_entry d) = 0)) by tauto.
  pose proof (ds_current _ Hwf) as Hcur. pose proof (ds_sweeper _ Hwf) as Hsw.
  assert (Hns : count_at d (ds_next (current_entry d)) = 0 ->
                ds_next (current_entry d) ≠ sweeper d).
  { intros Hzero Heq. rewrite Heq in Hzero.
    apply Hstop; [|done]. intros Hsc. rewrite Hsc in Heq.
    by apply (ds_next_ne (current_entry d)). }
  destruct (decide (count_at d (ds_next (current_entry d)) = 0)) as [Hn|Hn].
  - pose proof (Hnext Hn) as Hc'. pose proof (Hns Hn) as Hne.
    split.
    + done.
    + rewrite Hs, Hcnt. intros _.
      destruct (decide (sweeper d = current_entry d)) as [Heq|Hneq];
        [|by apply Hstop].
      rewrite Heq. intros Hzero. apply Hbusy. done.
    + rewrite Hs, Hc'. intros i Hi Hd. rewrite Hcnt.
      assert (Hd' : (ring_dist (sweeper d) (current_entry d)
                     < ring_dist (sweeper d) i)%nat)
        by (by apply ring_dist_before_next).
      rewrite Hwo; [by apply Hout|]. intros ->. lia.
    + rewrite Hs, Hc'. intros Heq. by destruct Hne.
  - pose proof (Hstay Hn) as Hc'. split.
    + done.
    + rewrite Hs, Hc', Hcnt. done.
    + rewrite Hs, Hc'. intros i Hi Hd. rewrite Hcnt.
      rewrite Hwo; [by apply Hout|]. intros ->. lia.
    + rewrite Hs, Hc', Hcnt. intros Heq Hzero. by destruct Hbusy.
Qed.

Lemma ds_dec_some d entry head d' head' :
  ds_wf d -> ds_dec entry head d = Some (d', head') ->
  (entry < DEFERRED_SET_SIZE)%nat /\ 0 < count_at d entry.
Proof.
  intros Hwf. unfold ds_dec.
  destruct (entries d !! entry) as [e|] eqn:He; [|done].
  case_decide as Hz; [done|]. intros _.
  pose proof (lookup_lt_Some _ _ _ He) as Hlt. rewrite (ds_len _ Hwf) in Hlt.
  pose proof (ds_counts _ Hwf entry) as Hb. unfold count_at in *.
  rewrite He in *. simpl in *. split; [done|lia].
Qed.

Lemma ds_dec_swept d entry head d' head' :
  ds_swept d -> ds_dec entry head d = Some (d', head') -> ds_swept d'.
Proof.
  intros [Hwf Hstop Hout Hidle] Hdec.
  destruct (ds_dec_some _ _ _ _ _ Hwf Hdec) as [Hlt Hpos].
  destruct (ds_dec_spec d entry head Hwf Hlt Hpos)
    as (d1 & h1 & n & Hdec1 & Hcnt & Hcur & Hn & Hsw & Hz & Hst & Hrest).
  cbv zeta in Hrest. destruct Hrest as (_ & Hwk & Hwf').
  rewrite Hdec in Hdec1. injection Hdec1 as <- <-.
  pose proof (ds_current _ Hwf) as Hc. pose proof (ds_sweeper _ Hwf) as Hs.
  split.
  - done.
  - rewrite Hcur. done.
  - rewrite Hcur. intros i Hi Hd.
    destruct (decide (ring_dist (sweeper d) i < n)%nat) as [Hin|Hin].
    + assert (Hmem : i ∈ ring_slots (sweeper d) n).
      { apply ring_slots_elem. exists (ring_dist (sweeper d) i).
        split; [done|]. symmetry. by apply ring_slot_dist. }
      split; [by apply Hz|]. rewrite Hwk, decide_True; [done|].
      unfold drained_slots. apply elem_of_app. by left.
    + assert (Hd' : (ring_dist (sweeper d) (current_entry d)
                     < ring_dist (sweeper d) i)%nat)
        by (rewrite Hsw in Hd; by apply (ring_dist_after_sweep _ n)).
      destruct (Hout i Hi Hd') as [Hci Hwi].
      assert (i ≠ entry) by (intros ->; lia).
      rewrite Hcnt, decide_False by done. split; [done|].
      rewrite Hwk. by case_decide.
  - rewrite Hcur. intros Heq Hzero. rewrite Hwk, decide_True; [done|].
    unfold drained_slots. apply elem_of_app. right.
    rewrite decide_True by done. by left.
Qed.

Lemma ds_reachable_swept d : ds_reachable d -> ds_swept d.
Proof.
  induction 1 as [|d e d' _ IH Hroom Hinc|d entry head d' head' _ IH Hdec
                  |d work mem r d' mem' _ IH Hadd].
  - apply ds_init_swept.
  - by eapply ds_inc_swept.
  - by eapply ds_dec_swept.
  - by eapply ds_add_work_swept.
Qed.

Lemma set_entry_id d i f e :
  entries d !! i = Some e -> f e = e -> set_entry i f d = d.
Proof.
  intros He Hf. destruct d as [c s es]. unfold set_entry; simpl in *. f_equal.
  apply list_eq. intros j. destruct (decide (i = j)) as [->|Hne].
  - by rewrite list_lookup_alter_eq, He; simpl; rewrite Hf.
  - by rewrite list_lookup_alter_ne.
Qed.

Lemma set_entry_twice d i f g :
  set_entry i f (set_entry i g d) = set_entry i (f ∘ g) d.
Proof.
  unfold set_entry; simpl. f_equal. apply list_eq. intros j.
  destruct (decide (i = j)) as [->|Hne].
  - rewrite !list_lookup_alter_eq. by destruct (entries d !! j).
  - by rewrite !list_lookup_alter_ne.
Qed.

(** On a swept set, [__sweep] has nothing to do. *)
Lemma sweep_swept d head :
  ds_swept d -> __sweep d head = Some (d, head).
Proof.
  intros [Hwf Hstop Hout Hidle].
  destruct (ds_wf_lookup d (sweeper d) Hwf (ds_sweeper _ Hwf))
    as (e & He & Hcnt & Hwork).
  assert (Hloop : forall fuel, __sweep_loop fuel d head = Some (d, head)).
  { intros fuel. destruct fuel; simpl; rewrite He; rewrite decide_False;
      try done; intros [Hne Hz]; apply (Hstop Hne); by rewrite <- Hcnt. }
  unfold __sweep. rewrite Hloop, He. case_decide as Hcase; [|done].
  destruct Hcase as [Heq Hz]. unfold list_splice_init.
  assert (Hnil : work_items e = []).
  { rewrite Hwork, Heq. apply Hidle; [done|]. by rewrite <- Heq, <- Hcnt. }
  rewrite Hnil. simpl. do 2 f_equal.
  apply (set_entry_id d (sweeper d) _ e He).
  destruct e as [c w]; simpl in *. unfold set_work_items; simpl. by rewrite Hnil.
Qed.

(** [ds_inc], then [ds_dec] on the entry it returned. *)
Lemma ds_inc_dec_id d head :
  ds_reachable d -> count_at d (current_entry d) < 2 ^ 32 - 1 ->
  exists d1,
    ds_inc d = Some (current_entry d, d1) /\
    ds_dec (current_entry d) head d1 = Some (d, head).
Proof.
  intros Hreach Hroom. pose proof (ds_reachable_swept d Hreach) as Hsw.
  pose proof (sw_wf _ Hsw) as Hwf.
  destruct (ds_wf_lookup d _ Hwf (ds_current _ Hwf)) as (e & He & Hcnt & _).
  pose proof (ds_counts _ Hwf (current_entry d)) as Hb.
  unfold ds_inc. rewrite He. eexists. split; [done|].
  unfold ds_dec. rewrite lookup_set_entry, decide_True, He by done. simpl.
  rewrite Hcnt, !u32_small by lia.
  rewrite decide_False by lia. rewrite set_entry_twice.
  rewrite (set_entry_id d (current_entry d) _ e He).
  - by apply sweep_swept.
  - destruct e; simpl in *. unfold set_count; simpl. f_equal. lia.
Qed.

(** X6. [ds_inc] and then [ds_dec] on the entry it returned undo each
    other: in every state the deferred set can be in, the set is again
    exactly as it was and no work is handed out. *)
Theorem ds_inc_dec_round_trip d head :
  ds_reachable d -> count_at d (current_entry d) < 2 ^ 32 - 1 ->
  exists d1,
    ds_inc d = Some (current_entry d, d1) /\
    ds_dec (current_entry d) head d1 = Some (d, head).
Proof. apply ds_inc_dec_id. Qed.

(** X7. [ds_dec] on the last entry that is counted hands out all the
    work there is: when one entry has the counter 1 and every other
    counter is zero, every work list is empty afterwards, every
    counter is zero, the sweeper has reached the current entry, and
    the returned list holds the work of all the slots and what it held
    before. *)
Theorem ds_last_reference_drains_all d entry head :
  ds_reachable d -> (entry < DEFERRED_SET_SIZE)%nat ->
  count_at d entry = 1 -> (forall i, i ≠ entry -> count_at d i = 0) ->
  exists d' head',
    ds_dec entry head d = Some (d', head') /\
    (forall i, count_at d' i = 0 /\ work_at d' i = []) /\
    sweeper d' = current_entry d' /\ current_entry d' = current_entry d /\
    head' ≡ₚ all_work d ++ head.
Proof.
  intros Hreach Hlt Hone Hothers.
  pose proof (ds_reachable_swept d Hreach) as [Hwf Hstop Hout Hidle].
  destruct (ds_dec_spec d entry head Hwf Hlt ltac:(lia))
    as (d' & head' & n & Hdec & Hcnt & Hcur & Hn & Hsw & Hz & Hst & Hrest).
  cbv zeta in Hrest. destruct Hrest as (_ & Hwk & Hwf').
  assert (Hzero : forall i, count_at d' i = 0).
  { intros i. rewrite Hcnt. case_decide; [lia|by apply Hothers]. }
  assert (Hreached : sweeper d' = current_entry d).
  { destruct (decide (sweeper d' = current_entry d)) as [|Hne]; [done|].
    by destruct (Hst Hne). }
  pose proof (ds_current _ Hwf) as Hc. pose proof (ds_sweeper _ Hwf) as Hs.
  assert (Hwork : forall i, work_at d' i = []).
  { intros i. rewrite Hwk. case_decide as Hdr; [done|].
    destruct (decide (i < DEFERRED_SET_SIZE)%nat) as [Hi|Hi].
    - apply (Hout i Hi).
      unfold drained_slots in Hdr. rewrite Hreached, Hzero in Hdr.
      rewrite decide_True in Hdr by done.
      apply not_elem_of_app in Hdr as [Hpassed Hcurrent].
      apply not_elem_of_cons in Hcurrent as [Hic _].
      destruct (decide (ring_dist (sweeper d) i < n)%nat) as [Hin|Hin].
      + destruct Hpassed. apply ring_slots_elem.
        exists (ring_dist (sweeper d) i). split; [done|].
        symmetry. by apply ring_slot_dist.
      + rewrite Hsw in Hreached. by apply (ring_dist_past _ n).
    - unfold work_at. rewrite lookup_ge_None_2; [done|].
      rewrite (ds_len _ Hwf). lia. }
  exists d', head'. split_and!; try done.
  - by rewrite Hcur.
  - apply ds_dec_perm in Hdec.
    rewrite (all_work_nil d' Hwork) in Hdec. done.
Qed.

(** X8. [ds_add_work] returns 0, and queues nothing, exactly when no
    entry is counted at all: in every state the deferred set can be
    in, a waiter is let through only when every counter is zero. *)
Theorem ds_add_work_defers_iff_counted d work mem :
  ds_reachable d ->
  exists r d' mem',
    ds_add_work d work mem = Some (r, d', mem') /\
    (r = 0 \/ r = 1) /\
    (r = 0 <-> forall i, count_at d i = 0) /\
    (r = 0 -> d' = d /\ mem' = mem).
Proof.
  intros Hreach.
  pose proof (ds_reachable_swept d Hreach) as [Hwf Hstop Hout Hidle].
  destruct (ds_add_work_spec d work mem Hwf)
    as (r & d' & mem' & Hadd & Hspec).
  cbv zeta in Hspec. destruct Hspec as (Hz & Hsame & Hlink & _).
  exists r, d', mem'. split_and!; try done.
  - destruct (decide (r = 0)) as [|Hr]; [by left|].
    right. by destruct (Hlink Hr).
  - rewrite Hz. split.
    + intros [Heq Hzero] i.
      destruct (decide (i = current_entry d)) as [->|Hne]; [done|].
      destruct (decide (i < DEFERRED_SET_SIZE)%nat) as [Hi|Hi].
      * apply (Hout i Hi). pose proof (ds_current _ Hwf).
        rewrite Heq. by apply ring_dist_self.
      * unfold count_at. rewrite lookup_ge_None_2; [done|].
        rewrite (ds_len _ Hwf). lia.
    + intros Hall. split; [|done].
      destruct (decide (sweeper d = current_entry d)) as [|Hne]; [done|].
      by destruct (Hstop Hne).
Qed.

(** X9. The deferred set neither loses a waiter nor hands one out
    twice.  After [ds_dec], the work lists and the returned list hold
    together what the work lists and the list passed in held, up to
    order; [ds_add_work] adds its waiter once when it returns 1, and
    leaves the work lists as they are when it returns 0. *)
Theorem ds_conserves_work d :
  ds_wf d ->
  (forall entry head,
     (entry < DEFERRED_SET_SIZE)%nat -> 0 < count_at d entry ->
     exists d' head',
       ds_dec entry head d = Some (d', head') /\
       all_work d' ++ head' ≡ₚ all_work d ++ head) /\
  (forall work mem,
     exists r d' mem',
       ds_add_work d work mem = Some (r, d', mem') /\
       (r = 0 -> all_work d' = all_work d) /\
       (r ≠ 0 -> all_work d' ≡ₚ work :: all_work d)).
Proof.
  intros Hwf. split.
  - intros entry head Hlt Hpos.
    destruct (ds_dec_spec d entry head Hwf Hlt Hpos)
      as (d' & head' & n & Hdec & _).
    exists d', head'. split; [done|]. by eapply ds_dec_perm.
  - intros work mem.
    destruct (ds_add_work_spec d work mem Hwf)
      as (r & d' & mem' & Hadd & _).
    exists r, d', mem'. split; [done|].
    destruct (ds_add_work_perm _ _ _ _ _ _ Hadd)
      as [(-> & -> & _)|(-> & Hperm & _)]; split; try done.
Qed.

End Deferred_set_more.
(** * The pool: geometry and mapping *)

Section Pool_more.
Context `{kernel} {M K : Type} `{!thin_metadata M} `{!kcopyd K}.
Implicit Type p : pool M K.

Lemma land_pow2_neg k : 0 <= k -> Z.land (2 ^ k) (- 2 ^ k) = 2 ^ k.
Proof.
  intros Hk.
  replace (- 2 ^ k) with (Z.lnot (Z.ones k))
    by (rewrite Z.ones_equiv; unfold Z.lnot; lia).
  apply Z.bits_inj'. intros n Hn.
  rewrite Z.land_spec, Z.lnot_spec, Z.pow2_bits_eqb, Z.testbit_ones by lia.
  destruct (Z.eqb_spec k n) as [->|Hne]; [|done].
  simpl. apply negb_true_iff, andb_false_iff. right. lia.
Qed.

Lemma ffs_pow2 k : 0 <= k -> ffs (2 ^ k) = k + 1.
Proof.
  intros Hk. unfold ffs.
  rewrite decide_False by (pose proof (Z.pow_pos_nonneg 2 k); lia).
  by rewrite land_pow2_neg, Z.log2_pow2.
Qed.

Lemma pool_create_geometry md kc k host_bios :
  0 <= k ->
  exists p, pool_create md kc (2 ^ k) host_bios = Some p /\
    sectors_per_block p = 2 ^ k /\ block_shift p = k /\
    offset_mask p = 2 ^ k - 1 /\ bio_mem p = host_bios.
Proof.
  intros Hk. unfold pool_create.
  destruct (prison_create_wf PRISON_CELLS) as (pr & -> & _).
  eexists. split; [done|]. simpl. rewrite ffs_pow2 by done.
  split_and!; try done. lia.
Qed.

(** The sector of a bio after [remap], where the geometry is that of
    a block of [2 ^ k] sectors. *)
Lemma remap_sector k p block sector :
  0 <= k -> block_shift p = k -> offset_mask p = 2 ^ k - 1 ->
  0 <= sector -> 0 <= block -> (block + 1) * 2 ^ k <= 2 ^ 64 ->
  u64 (Z.shiftl block (block_shift p) + Z.land sector (offset_mask p))
    = block * 2 ^ k + sector mod 2 ^ k.
Proof.
  intros Hk -> -> Hs Hb Hfit.
  replace (2 ^ k - 1) with (Z.ones k) by (rewrite Z.ones_equiv; lia).
  rewrite Z.land_ones, Z.shiftl_mul_pow2 by done.
  pose proof (Z.pow_pos_nonneg 2 k).
  pose proof (Z.mod_pos_bound sector (2 ^ k)).
  unfold u64. apply Z.mod_small. nia.
Qed.

Lemma block_of_sector k block off :
  0 <= k -> 0 <= off < 2 ^ k ->
  Z.shiftr (block * 2 ^ k + off) k = block.
Proof.
  intros Hk Hoff. rewrite Z.shiftr_div_pow2 by done.
  rewrite Z.add_comm, Z.div_add by lia. rewrite Z.div_small by done. lia.
Qed.

(** X10. A pool created for blocks of [2 ^ k] sectors, and every pool
    with its shift and mask: the block of a bio is its sector divided
    by [2 ^ k]; [remap] sends the bio to the device of the pool, at
    the sector [block * 2 ^ k] plus the offset the bio had in its
    block, and changes nothing else in it; the block of the remapped
    bio is [block] again. *)
Theorem remap_keeps_offset md kc k host_bios :
  0 <= k ->
  exists p0, pool_create md kc (2 ^ k) host_bios = Some p0 /\
    sectors_per_block p0 = 2 ^ k /\
    forall p tc bio b block,
      block_shift p = block_shift p0 -> offset_mask p = offset_mask p0 ->
      bio_mem p !! bio = Some b ->
      0 <= bi_sector b -> 0 <= block -> (block + 1) * 2 ^ k <= 2 ^ 64 ->
      get_bio_block p bio = bi_sector b / 2 ^ k /\
      exists b',
        bio_mem (remap tc bio block p) !! bio = Some b' /\
        bi_sector b' = block * 2 ^ k + bi_sector b mod 2 ^ k /\
        bi_bdev b' = pool_dev tc /\
        bi_rw b' = bi_rw b /\ bi_size b' = bi_size b /\
        bi_end_io b' = bi_end_io b /\ bi_map_info b' = bi_map_info b /\
        get_bio_block (remap tc bio block p) bio = block.
Proof.
  intros Hk.
  destruct (pool_create_geometry md kc k host_bios Hk)
    as (p0 & Hc & Hspb & Hsh & Hmask & _).
  exists p0. split; [done|]. split; [done|].
  intros p tc bio b block Hshift Hoff Hb Hs Hblock Hfit.
  rewrite Hsh in Hshift. rewrite Hmask in Hoff.
  split.
  - unfold get_bio_block. rewrite Hb, Hshift. by apply Z.shiftr_div_pow2.
  - destruct (remap_bio_mem tc bio block p b Hb) as [Hb' _].
    eexists. split; [exact Hb'|].
    assert (Hsec : bi_sector (remapped p tc block b)
                   = block * 2 ^ k + bi_sector b mod 2 ^ k)
      by (by apply remap_sector).
    split_and!; try done.
    unfold get_bio_block. rewrite Hb'.
    change (block_shift (remap tc bio block p)) with (block_shift p).
    rewrite Hsec, Hshift. apply block_of_sector; [done|].
    apply Z.mod_pos_bound. by apply Z.pow_pos_nonneg.
Qed.

End Pool_more.
(** * The map function *)

Section Map_more.
Context `{kernel} {M K : Type} `{!thin_metadata M} `{!kcopyd K}.
Implicit Type p : pool M K.

(** X11. [thin_map] on a bio without FLUSH and FUA whose block is
    mapped and not shared: the sector is taken relative to the start
    of the target, its block [(sector - begin) / 2 ^ k] is looked up
    without blocking, and the bio is sent to the device of the pool at
    the start of the data block plus the offset in the block, with
    DM_MAPIO_REMAPPED; no other bio is touched, nothing is deferred
    and no call is made to the host. *)
Theorem thin_map_translates_sector t bio p b k result pmd' :
  let tc := tt_private t in
  let sector := bi_sector b - tt_begin t in
  0 <= k -> block_shift p = k -> offset_mask p = 2 ^ k - 1 ->
  bio_mem p !! bio = Some b ->
  0 <= tt_begin t <= bi_sector b /\ bi_sector b < 2 ^ 64 ->
  Z.land (bi_rw b) (Z.lor REQ_FLUSH REQ_FUA) = 0 ->
  dm_thin_find_block (pmd p) (td tc) (sector / 2 ^ k) 0 = (0, result, pmd') ->
  shared result = false ->
  0 <= lr_block result -> (lr_block result + 1) * 2 ^ k <= 2 ^ 64 ->
  let ret := (thin_map t bio p).1 in
  let p' := (thin_map t bio p).2 in
  ret = DM_MAPIO_REMAPPED /\
  bio_mem p' !! bio
    = Some {| bi_rw := bi_rw b;
              bi_sector := lr_block result * 2 ^ k + sector mod 2 ^ k;
              bi_size := bi_size b;
              bi_bdev := pool_dev tc;
              bi_end_io := bi_end_io b;
              bi_map_info := ptr_thin_c tc |} /\
  (forall bio', bio' ≠ bio -> bio_mem p' !! bio' = bio_mem p !! bio') /\
  deferred_bios p' = deferred_bios p /\ trace p' = trace p /\ pmd p' = pmd'.
Proof.
  intros tc sector Hk Hshift Hmask Hb Hsec Hrw Hfind Hsh Hblk Hfit.
  unfold thin_map. cbv zeta. set (p1 := set_bio_mem _ p).
  unfold thin_bio_map. cbv zeta.
  set (b1 := set_bi_sector (u64 sector) b).
  assert (Hu : u64 sector = sector)
    by (unfold u64, sector; apply Z.mod_small; lia).
  assert (Hb1 : bio_mem p1 !! bio = Some b1)
    by (unfold p1; simpl; by rewrite lookup_alter_eq, Hb).
  set (p2 := set_bio_mem _ p1).
  assert (Hb2 : bio_mem p2 !! bio = Some (set_bi_map_info (ptr_thin_c tc) b1))
    by (unfold p2; cbn [bio_mem set_bio_mem]; by rewrite lookup_alter_eq, Hb1).
  rewrite (flush_or_fua_eq bio p2 _ Hb2). simpl bi_rw.
  rewrite bool_decide_eq_false_2 by (intros Hne; by apply Hne).
  unfold get_bio_block. rewrite Hb1.
  change (block_shift p1) with (block_shift p). rewrite Hshift.
  change (bi_sector b1) with (u64 sector). rewrite Hu.
  rewrite Z.shiftr_div_pow2 by done.
  change (pmd p2) with (pmd p). fold tc. rewrite Hfind.
  rewrite decide_True by done. rewrite Hsh. simpl.
  split; [done|]. split; [|split; [|done]].
  - rewrite lookup_alter_eq, lookup_alter_eq, lookup_alter_eq, Hb. simpl.
    unfold sector in *. rewrite Hu. do 2 f_equal.
    apply (remap_sector k p); try done; lia.
  - intros bio' Hne. by rewrite !lookup_alter_ne.
Qed.

(** X12. [thin_bio_map] hands the other errors of the lookup back: on
    a result that is not 0, [-ENODATA] or [-EWOULDBLOCK] it returns it
    as it is, and the bio is neither deferred nor remapped nor ended;
    only its map context has been set. *)
Theorem thin_bio_map_passes_errors tc bio p b r result pmd' :
  bio_mem p !! bio = Some b ->
  Z.land (bi_rw b) (Z.lor REQ_FLUSH REQ_FUA) = 0 ->
  dm_thin_find_block (pmd p) (td tc)
    (Z.shiftr (bi_sector b) (block_shift p)) 0 = (r, result, pmd') ->
  r ≠ 0 -> r ≠ - ENODATA -> r ≠ - EWOULDBLOCK ->
  thin_bio_map tc bio p
    = (r, set_pmd pmd'
            (set_bio_mem
               (<[bio := set_bi_map_info (ptr_thin_c tc) b]> (bio_mem p)) p)).
Proof.
  intros Hb Hrw Hfind Hr Hnodata Hwould. unfold thin_bio_map.
  set (p0 := set_bio_mem _ p).
  assert (Hb0 : bio_mem p0 !! bio = Some (set_bi_map_info (ptr_thin_c tc) b))
    by (unfold p0; simpl; by rewrite lookup_alter_eq, Hb).
  rewrite (flush_or_fua_eq bio p0 _ Hb0). simpl bi_rw.
  rewrite bool_decide_eq_false_2 by (intros Hne; by apply Hne).
  unfold get_bio_block. rewrite Hb.
  change (pmd p0) with (pmd p). rewrite Hfind.
  rewrite decide_False by done.
  rewrite decide_False by (intros [?|?]; done).
  do 2 f_equal. unfold p0. f_equal.
  apply map_eq. intros i. destruct (decide (i = bio)) as [->|Hne].
  - by rewrite lookup_alter_eq, lookup_insert_eq, Hb.
  - by rewrite lookup_alter_ne, lookup_insert_ne.
Qed.

End Map_more.
(** * The worker on one bio *)

Section Process_bio_more.
Context `{kernel} {M K : Type} `{!thin_metadata M} `{!kcopyd K}.
Implicit Type p : pool M K.

(** [bio_detain] on a well-formed prison. *)
Lemma bio_detain_spec prison k inmate :
  prison_wf prison -> cells_counted prison ->
  exists r cell prison',
    bio_detain prison k inmate = Some (r, cell, prison') /\
    detained prison k inmate r cell prison' /\ prison_wf prison'.
Proof.
  intros Hwf Hcnt. unfold bio_detain.
  pose proof (hash_key_range prison k (wf_mask _ Hwf)).
  pose proof (wf_buckets _ Hwf).
  rewrite decide_False by lia. rewrite bucket_search by done.
  destruct (find_cell prison k) as [c|] eqn:Hf.
  - destruct (detain_inmate prison (cell_addr c) inmate) as [r p'] eqn:Hd.
    exists r, (cell_addr c), p'. split; [done|].
    by eapply detain_inmate_found.
  - unfold mempool_alloc.
    set (cell2 := fresh (cell_pool prison)).
    set (p1 := set_cell_pool _ prison).
    assert (Hnotin : cell2 ∉ cell_pool prison) by apply is_fresh.
    assert (Hwf1 : prison_wf p1).
    { apply wf_set_cell_pool; [done|]. intros a Ha.
      apply elem_of_union_r. by apply (wf_live _ Hwf). }
    destruct (detain_locked_spec p1 k inmate cell2)
      as (r & cell & spare & p2 & Hl & Hdet & Hwf2 & Hsp & Hpool);
      try done.
    { intros Ha. apply Hnotin. by apply (wf_live _ Hwf). }
    { simpl. apply elem_of_union_l. by apply elem_of_singleton. }
    change (hash_key prison k) with (hash_key p1 k). rewrite Hl.
    exists r, cell, (detain_free spare p2). split; [done|].
    change (find_cell p1 k) with (find_cell prison k) in Hsp.
    rewrite Hf in Hsp. subst spare. simpl. done.
Qed.

(** X13. [process_bio] on a bio whose block is being worked on: when
    the key that [process_bio] builds, with the padding that its stack
    gives it, is the key of a cell that holds bios already, the bio is
    put behind them and nothing else happens; no lookup is made,
    nothing is issued, and the other cells are as they were. *)
Theorem process_bio_waits_in_held_cell tc bio key key2 p :
  let k := build_virtual_key (td tc) (get_bio_block p bio) key in
  prison_wf (prison p) -> cells_counted (prison p) ->
  inmates (prison p) k ≠ [] ->
  exists prison1,
    process_bio tc bio key key2 p = Some (set_prison prison1 p) /\
    prison_wf prison1 /\
    inmates prison1 k = inmates (prison p) k ++ [bio] /\
    (forall k', k' ≠ k -> inmates prison1 k' = inmates (prison p) k').
Proof.
  intros k Hwf Hcnt Hheld.
  destruct (bio_detain_spec (prison p) k bio Hwf Hcnt)
    as (r & cell & prison1 & Hd & Hdet & Hwf1).
  destruct Hdet as (Hr & Hf & _ & _ & Hothers & _).
  exists prison1. unfold process_bio, pool_bio_detain. fold k. rewrite Hd.
  rewrite decide_True.
  - split_and!; try done.
    + unfold inmates at 1. by rewrite Hf.
    + intros k' Hne. unfold inmates. by rewrite Hothers.
  - rewrite Hr. destruct (inmates (prison p) k); [done|]. simpl. lia.
Qed.

(** X14. [process_bio] when the lookup fails with an error other than
    [-ENODATA]: the bio is ended with [-EIO], and the cell that was
    created for it is not released: the bio stays detained under its
    virtual key. *)
Theorem process_bio_lookup_error_keeps_cell tc bio key key2 p r lr pmd' :
  let block := get_bio_block p bio in
  let k := build_virtual_key (td tc) block key in
  prison_wf (prison p) -> cells_counted (prison p) ->
  find_cell (prison p) k = None ->
  dm_thin_find_block (pmd p) (td tc) block 1 = (r, lr, pmd') ->
  r ≠ 0 -> r ≠ - ENODATA ->
  exists prison1,
    process_bio tc bio key key2 p
      = Some (bio_io_error bio (set_pmd pmd' (set_prison prison1 p))) /\
    inmates prison1 k = [bio] /\
    (forall k', k' ≠ k -> inmates prison1 k' = inmates (prison p) k').
Proof.
  intros block k Hwf Hcnt Hnone Hfind Hr Hnodata.
  destruct (bio_detain_spec (prison p) k bio Hwf Hcnt)
    as (r1 & cell & prison1 & Hd & Hdet & Hwf1).
  destruct Hdet as (Hr1 & Hf & _ & _ & Hothers & _).
  unfold inmates in Hr1, Hf. rewrite Hnone in Hr1, Hf. simpl in Hr1, Hf.
  subst r1.
  exists prison1. unfold process_bio, pool_bio_detain. fold block k.
  rewrite Hd. rewrite decide_False by lia.
  change (pmd (set_prison prison1 p)) with (pmd p). rewrite Hfind.
  rewrite !decide_False by done. split_and!; try done.
  - unfold inmates. by rewrite Hf.
  - intros k' Hne. unfold inmates. by rewrite Hothers.
Qed.

(** [process_bio] on a mapped block that is not shared. *)
Lemma process_bio_mapped tc bio key key2 p lr pmd' :
  let block := get_bio_block p bio in
  prison_wf (prison p) ->
  find_cell (prison p) (build_virtual_key (td tc) block key) = None ->
  dm_thin_find_block (pmd p) (td tc) block 1 = (0, lr, pmd') ->
  shared lr = false ->
  process_bio tc bio key key2 p
    = remap_and_issue tc bio (lr_block lr) (set_pmd pmd' p).
Proof.
  intros block Hwf Hnone Hfind Hsh.
  destruct (detain_release_absent (prison p) _ bio [] Hwf Hnone)
    as (cell & prison1 & Hd & _ & Hrel).
  unfold process_bio, pool_bio_detain. fold block. rewrite Hd.
  rewrite decide_False by lia.
  change (pmd (set_prison prison1 p)) with (pmd p). rewrite Hfind.
  rewrite decide_True by done.
  change (prison (set_pmd pmd' (set_prison prison1 p))) with prison1.
  by rewrite Hrel, Hsh.
Qed.

(** X15. [process_bio] on a bio whose block is mapped and not shared
    and has no cell: the cell created for the bio is released again,
    so that the prison is exactly as it was, and the bio is passed to
    [remap_and_issue] for the data block that was found. *)
Theorem process_bio_remaps_mapped_block tc bio key key2 p lr pmd' :
  let block := get_bio_block p bio in
  prison_wf (prison p) ->
  find_cell (prison p) (build_virtual_key (td tc) block key) = None ->
  dm_thin_find_block (pmd p) (td tc) block 1 = (0, lr, pmd') ->
  shared lr = false ->
  process_bio tc bio key key2 p
    = remap_and_issue tc bio (lr_block lr) (set_pmd pmd' p).
Proof. apply process_bio_mapped. Qed.

End Process_bio_more.
(** * Reads of shared blocks *)

Section Shared_read_more.
Context `{kernel} {M K : Type} `{!thin_metadata M} `{!kcopyd K}.
Implicit Type p : pool M K.

(** [shared_read] on a bio without FLUSH and FUA that is alone in its
    cell, and then [shared_read_endio] on the bio. *)
Lemma shared_read_then_endio tc bio lr cell p b e prison0 :
  bio_mem p !! bio = Some b ->
  Z.land (bi_rw b) (Z.lor REQ_FLUSH REQ_FUA) = 0 ->
  cell_release_singleton cell bio (prison p) = Some prison0 ->
  ds_reachable (ds p) ->
  count_at (ds p) (current_entry (ds p)) < 2 ^ 32 - 1 ->
  let h := fresh (dom (endio_hook_pool p)) in
  let b1 := {| bi_rw := bi_rw b;
               bi_sector := u64 (Z.shiftl (lr_block lr) (block_shift p)
                                 + Z.land (bi_sector b) (offset_mask p));
               bi_size := bi_size b;
               bi_bdev := pool_dev tc;
               bi_end_io := shared_read_endio_fn;
               bi_map_info := ptr_endio_hook h |} in
  exists p1 p2,
    shared_read tc bio lr cell p = Some p1 /\
    shared_read_endio bio e p1 = Some p2 /\
    bio_mem p1 = <[bio := b1]> (bio_mem p) /\
    endio_hook_pool p1 !! h
      = Some {| h_tc := tc; h_saved_bi_end_io := bi_end_io b;
                entry := current_entry (ds p) |} /\
    count_at (ds p1) (current_entry (ds p))
      = count_at (ds p) (current_entry (ds p)) + 1 /\
    trace p1 = trace p ++
      [Ev_generic_make_request bio (pool_dev tc) (bi_sector b1)] /\
    prison p1 = prison0 /\ pmd p1 = pmd p /\
    bio_mem p2 = <[bio := set_bi_end_io (bi_end_io b) b1]> (bio_mem p) /\
    trace p2 = trace p1 ++ [Ev_bio_endio bio e] /\
    ds p2 = ds p /\ endio_hook_pool p2 = endio_hook_pool p /\
    prison p2 = prison0 /\ pmd p2 = pmd p /\
    mapping_pool p2 = mapping_pool p /\
    prepared_mappings p2 = prepared_mappings p /\
    deferred_bios p2 = deferred_bios p /\ retry_list p2 = retry_list p.
Proof.
  intros Hb Hrw Hrel Hreach Hroom h b1.
  destruct (ds_inc_dec_id (ds p) [] Hreach Hroom) as (d1 & Hinc & Hdec).
  assert (Hh : endio_hook_pool p !! h = None)
    by (apply not_elem_of_dom, is_fresh).
  unfold shared_read. fold h. rewrite Hinc, Hb.
  cbn [prison set_bio_mem set_endio_hook_pool set_ds]. rewrite Hrel.
  set (b0 := set_bi_map_info (ptr_endio_hook h)
               (set_bi_end_io shared_read_endio_fn b)).
  set (q := set_prison prison0 _).
  assert (Hq : bio_mem q !! bio = Some b0)
    by (unfold q; simpl; by rewrite lookup_alter_eq, Hb).
  unfold remap_and_issue.
  rewrite (flush_or_fua_eq bio q b0 Hq). change (bi_rw b0) with (bi_rw b).
  rewrite bool_decide_eq_false_2 by (intros Hne; by apply Hne).
  destruct (remap_bio_mem tc bio (lr_block lr) q b0 Hq) as [Hb1 Hoth].
  change (remapped q tc (lr_block lr) b0) with b1 in Hb1.
  unfold generic_make_request. rewrite Hb1.
  set (p1 := emit _ _).
  assert (Hmem1 : bio_mem p1 = <[bio := b1]> (bio_mem p)).
  { apply map_eq. intros i. destruct (decide (i = bio)) as [->|Hne].
    - rewrite lookup_insert_eq. exact Hb1.
    - rewrite lookup_insert_ne by done.
      etrans; [apply (Hoth i Hne)|]. unfold q; simpl.
      by rewrite lookup_alter_ne. }
  assert (Hhook : endio_hook_pool p1 !! h
            = Some {| h_tc := tc; h_saved_bi_end_io := bi_end_io b;
                      entry := current_entry (ds p) |})
    by (unfold p1, q; simpl; by rewrite lookup_insert_eq).
  assert (Hds1 : ds p1 = d1) by done.
  assert (Hend : shared_read_endio bio e p1
            = Some (shared_read_endio_add h []
                      (set_ds (ds p)
                         (bio_endio bio e
                            (set_bio_mem
                               (alter (set_bi_end_io (bi_end_io b)) bio
                                      (bio_mem p1)) p1))))).
  { unfold shared_read_endio, shared_read_endio_dec.
    rewrite Hmem1 at 1. rewrite lookup_insert_eq.
    cbn [fmap option_fmap option_map bi_map_info b1].
    rewrite Hhook. cbn [entry h_saved_bi_end_io].
    change (ds (bio_endio _ _ _)) with (ds p1). by rewrite Hds1, Hdec. }
  exists p1. eexists. split; [reflexivity|]. split; [exact Hend|].
  split; [exact Hmem1|]. split; [exact Hhook|].
  split.
  { rewrite Hds1. unfold ds_inc in Hinc.
    destruct (entries (ds p) !! current_entry (ds p)) as [e0|] eqn:He;
      [|done].
    injection Hinc as <-. unfold count_at.
    rewrite lookup_set_entry, decide_True, He by done. simpl.
    pose proof (ds_counts _ (sw_wf _ (ds_reachable_swept _ Hreach))
                  (current_entry (ds p))) as Hc.
    unfold count_at in Hc, Hroom. rewrite He in Hc, Hroom. simpl in *.
    apply u32_small. lia. }
  split; [done|]. split; [done|]. split; [done|].
  unfold shared_read_endio_add. simpl.
  split_and!; try done.
  - apply map_eq. intros i.
    destruct (decide (i = bio)) as [->|Hne].
    + by rewrite !lookup_alter_eq, Hb, lookup_insert_eq.
    + by rewrite !lookup_alter_ne, lookup_insert_ne.
  - by apply delete_insert_id.
Qed.

(** X16. A read of a shared block, from [process_bio] to its
    completion.  [process_bio] counts the read in the current entry of
    the deferred set, hooks [shared_read_endio] on the bio and issues
    it to the data block; both cells that were taken are released.
    When the bio completes, [shared_read_endio] ends it with the error
    it was given and gives it its completion function back; the
    deferred set, the mempool of the hooks and the prison are again as
    they were before the read, and no list of the pool has changed. *)
Theorem shared_read_round_trip tc bio key key2 p b lr pmd' e :
  let block := get_bio_block p bio in
  prison_wf (prison p) ->
  find_cell (prison p) (build_virtual_key (td tc) block key) = None ->
  find_cell (prison p) (build_data_key (td tc) (lr_block lr) key2) = None ->
  bio_mem p !! bio = Some b ->
  bio_data_dir (bi_rw b) ≠ WRITE ->
  Z.land (bi_rw b) (Z.lor REQ_FLUSH REQ_FUA) = 0 ->
  dm_thin_find_block (pmd p) (td tc) block 1 = (0, lr, pmd') ->
  shared lr = true ->
  ds_reachable (ds p) ->
  count_at (ds p) (current_entry (ds p)) < 2 ^ 32 - 1 ->
  exists p1 p2,
    process_bio tc bio key key2 p = Some p1 /\
    shared_read_endio bio e p1 = Some p2 /\
    count_at (ds p1) (current_entry (ds p))
      = count_at (ds p) (current_entry (ds p)) + 1 /\
    bi_end_io <$> bio_mem p1 !! bio = Some shared_read_endio_fn /\
    trace p1 = trace p ++
      [Ev_generic_make_request bio (pool_dev tc)
         (u64 (Z.shiftl (lr_block lr) (block_shift p)
               + Z.land (bi_sector b) (offset_mask p)))] /\
    trace p2 = trace p1 ++ [Ev_bio_endio bio e] /\
    bi_end_io <$> bio_mem p2 !! bio = Some (bi_end_io b) /\
    ds p2 = ds p /\ endio_hook_pool p2 = endio_hook_pool p /\
    prison p2 = prison p /\ pmd p2 = pmd' /\
    mapping_pool p2 = mapping_pool p /\
    prepared_mappings p2 = prepared_mappings p /\
    deferred_bios p2 = deferred_bios p /\ retry_list p2 = retry_list p.
Proof.
  intros block Hwf Hvirt Hdata Hb Hdir Hrw Hfind Hsh Hreach Hroom.
  destruct (detain_release_absent (prison p) _ bio [] Hwf Hvirt)
    as (cell & prison1 & Hd & _ & Hrel).
  destruct (detain_release_absent (prison p) _ bio [] Hwf Hdata)
    as (cell2 & prison2 & Hd2 & _ & Hrel2).
  set (q := set_prison prison2 (set_pmd pmd' p)).
  destruct (shared_read_then_endio tc bio lr cell2 q b e (prison p))
    as (p1 & p2 & Hread & Hend & Hmem1 & _ & Hcnt & Htr1 & _ & _ & Hmem2
        & Htr2 & Hds & Hhook & Hpr & Hpmd & Hmp & Hprep & Hdef & Hretry);
    try done.
  exists p1, p2. split.
  { unfold process_bio, pool_bio_detain. fold block. rewrite Hd.
    rewrite decide_False by lia.
    change (pmd (set_prison prison1 p)) with (pmd p). rewrite Hfind.
    rewrite decide_True by done.
    change (prison (set_pmd pmd' (set_prison prison1 p))) with prison1.
    rewrite Hrel, Hsh.
    unfold process_shared_bio, pool_bio_detain.
    change (prison (set_prison _ _)) with (prison p). rewrite Hd2.
    rewrite decide_False by lia.
    change (bio_mem (set_prison _ _)) with (bio_mem p). rewrite Hb.
    rewrite decide_False by done. exact Hread. }
  split; [exact Hend|]. split; [exact Hcnt|].
  split; [by rewrite Hmem1, lookup_insert_eq|].
  split; [exact Htr1|]. split; [exact Htr2|].
  split; [by rewrite Hmem2, lookup_insert_eq|].
  split_and!; done.
Qed.

End Shared_read_more.
(** * Writes that cover a block *)

Section Overwrite_more.
Context `{kernel} {M K : Type} `{!thin_metadata M} `{!kcopyd K}.
Implicit Type p : pool M K.

Lemma bio_mem_cell_error cell p : bio_mem (cell_error cell p) = bio_mem p.
Proof.
  unfold cell_error. destruct (cell_release _ _ _) as [l pr].
  by rewrite cell_error_loop_eq.
Qed.

Lemma bio_mem_cell_defer tc cell d p :
  bio_mem (cell_defer tc cell d p) = bio_mem p.
Proof. unfold cell_defer. by destruct (cell_release _ _ _) as [l pr]. Qed.

Lemma bio_mem_cell_defer_except tc cell x p :
  bio_mem (cell_defer_except tc cell x p) = bio_mem p.
Proof.
  unfold cell_defer_except. destruct (cell_release _ _ _) as [l pr].
  by rewrite cell_defer_except_loop_eq.
Qed.

(** [process_prepared_mapping] gives the bio of the mapping its saved
    completion function back and leaves the bios alone otherwise. *)
Lemma bio_mem_process_prepared_mapping m p mp :
  mapping_pool p !! m = Some mp ->
  bio_mem (process_prepared_mapping m p)
    = match m_bio mp with
      | Some bio => alter (set_bi_end_io (saved_bi_end_io mp)) bio (bio_mem p)
      | None => bio_mem p
      end.
Proof.
  intros Hm. unfold process_prepared_mapping. rewrite Hm.
  set (p0 := match m_bio mp with Some _ => _ | None => p end).
  assert (Hp0 : bio_mem p0
            = match m_bio mp with
              | Some bio =>
                  alter (set_bi_end_io (saved_bi_end_io mp)) bio (bio_mem p)
              | None => bio_mem p
              end)
    by (unfold p0; by destruct (m_bio mp)).
  rewrite <- Hp0. clearbody p0.
  case_decide; [by rewrite bio_mem_cell_error|].
  destruct (dm_thin_insert_block _ _ _ _) as [r md].
  case_decide; [by rewrite bio_mem_cell_error|].
  destruct (m_bio mp); unfold bio_endio, emit;
    cbn [bio_mem set_mapping_pool set_trace].
  - by rewrite bio_mem_cell_defer_except.
  - by rewrite bio_mem_cell_defer.
Qed.

(** X17. A write without FLUSH and FUA that needs no zeroing (the
    pool does not zero new blocks, or the bio covers the block), so
    that [remap_and_issue] issues it without a commit.
    [schedule_zero] takes the
    mapping that was allocated ahead, hooks [overwrite_endio] on the
    bio and issues the bio to the new block: kcopyd is not called.
    When the bio completes with [e], [overwrite_endio] records [e] in
    the mapping, marks it prepared, puts it at the head of the
    prepared list and wakes the worker.  [process_prepared_mapping]
    then gives the bio the completion function it had at first. *)
Theorem overwrite_round_trip tc virt data cell bio p m mp b e :
  next_mapping p = Some m -> mapping_pool p !! m = Some mp ->
  bio_mem p !! bio = Some b ->
  Z.land (bi_rw b) (Z.lor REQ_FLUSH REQ_FUA) = 0 ->
  zero_new_blocks p = false \/ io_covers_block p bio = true ->
  exists p1,
    schedule_zero tc virt data cell bio p = Some p1 /\
    trace p1 = trace p ++
      [Ev_generic_make_request bio (pool_dev tc)
         (u64 (Z.shiftl data (block_shift p)
               + Z.land (bi_sector b) (offset_mask p)))] /\
    bi_end_io <$> bio_mem p1 !! bio = Some overwrite_endio_fn /\
    prepared_mappings p1 = prepared_mappings p /\
    next_mapping p1 = None /\
    let p2 := overwrite_endio bio e p1 in
    prepared_mappings p2 = m :: prepared_mappings p /\
    trace p2 = trace p1 ++ [Ev_queue_work] /\
    mapping_pool p2 !! m
      = Some {| m_list := LIST_LINKED; prepared := 1; m_tc := tc;
                virt_block := virt; data_block := data; m_cell := cell;
                err := e; m_bio := Some bio;
                saved_bi_end_io := bi_end_io b |} /\
    bi_end_io <$> bio_mem (process_prepared_mapping m p2) !! bio
      = Some (bi_end_io b).
Proof.
  intros Hnext Hm Hb Hrw Hcover.
  unfold schedule_zero, get_next_mapping. rewrite Hnext.
  set (q := set_mapping_pool _ (set_next_mapping None p)).
  assert (Hc : negb (zero_new_blocks q) || io_covers_block q bio = true).
  { change (zero_new_blocks q) with (zero_new_blocks p).
    change (io_covers_block q bio) with (io_covers_block p bio).
    destruct Hcover as [->| ->]; [done|]. apply orb_true_r. }
  rewrite Hc.
  set (mq := init_mapping tc virt data cell mp).
  assert (Hmq : mapping_pool q !! m = Some mq)
    by (unfold q; simpl; by rewrite lookup_alter_eq, Hm).
  unfold hook_overwrite. change (bio_mem q) with (bio_mem p). rewrite Hb.
  set (q1 := set_bio_mem _ _).
  set (b0 := set_bi_map_info (ptr_new_mapping m)
               (set_bi_end_io overwrite_endio_fn b)).
  assert (Hq1 : bio_mem q1 !! bio = Some b0)
    by (unfold q1; simpl; by rewrite lookup_alter_eq, Hb).
  set (m1 := set_saved_bi_end_io (bi_end_io b) (set_m_bio (Some bio) mq)).
  assert (Hm1 : mapping_pool q1 !! m = Some m1).
  { unfold q1. cbn [mapping_pool set_bio_mem set_mapping_pool].
    by rewrite lookup_alter_eq, Hmq. }
  unfold remap_and_issue.
  rewrite (flush_or_fua_eq bio q1 b0 Hq1). change (bi_rw b0) with (bi_rw b).
  rewrite bool_decide_eq_false_2 by (intros Hne; by apply Hne).
  destruct (remap_bio_mem tc bio data q1 b0 Hq1) as [Hb1 _].
  unfold generic_make_request. rewrite Hb1.
  set (p1 := emit _ _).
  assert (Hp1b : bio_mem p1 !! bio = Some (remapped q1 tc data b0)) by done.
  assert (Hp1m : mapping_pool p1 !! m = Some m1) by done.
  exists p1. split; [done|]. split; [done|].
  split; [by rewrite Hp1b|]. split; [done|]. split; [done|].
  cbv zeta. unfold overwrite_endio. rewrite Hp1b.
  cbn [fmap option_fmap option_map bi_map_info remapped b0 set_bi_map_info].
  set (p2 := set_mapping_pool _ (set_mapping_pool _ p1)).
  set (m2 := set_prepared 1 (set_err e m1)).
  assert (Hp2m : mapping_pool p2 !! m = Some m2)
    by (unfold p2; cbn [mapping_pool set_mapping_pool];
        by rewrite !lookup_alter_eq, Hp1m).
  unfold __maybe_add_mapping, list_empty. rewrite Hp2m.
  change (m_list m2) with LIST_INIT. change (prepared m2) with 1.
  rewrite bool_decide_eq_true_2 by done.
  rewrite bool_decide_eq_true_2 by done.
  cbn [andb list_add].
  set (p3 := wake_worker _).
  assert (Hp3m : mapping_pool p3 !! m = Some (set_m_list LIST_LINKED m2))
    by (unfold p3, wake_worker, emit;
        cbn [mapping_pool set_mapping_pool set_trace];
        by rewrite lookup_alter_eq, Hp2m).
  split; [done|]. split; [done|]. split; [exact Hp3m|].
  rewrite (bio_mem_process_prepared_mapping m p3 _ Hp3m).
  change (m_bio (set_m_list LIST_LINKED m2)) with (Some bio).
  change (saved_bi_end_io (set_m_list LIST_LINKED m2)) with (bi_end_io b).
  cbv beta iota. rewrite lookup_alter_eq.
  change (bio_mem p3) with (bio_mem p1). by rewrite Hp1b.
Qed.

End Overwrite_more.
(** * The worker *)

Section Worker_more.
Context `{kernel} {M K : Type} `{!thin_metadata M} `{!kcopyd K}.
Implicit Type p : pool M K.

(** X18. [schedule_copy] when kcopyd refuses the job while shared
    reads are in flight: every bio of the cell is ended with [-EIO],
    the cell is released and the new_mapping is freed, but it is not
    taken off the deferred set: its node is still at the head of the
    work list [ds_add_work] had put it on. *)
Theorem schedule_copy_failure_leaves_work
    tc virt origin dest c bio p m r kc' :
  next_mapping p = Some m -> ds_wf (ds p) ->
  sweeper (ds p) ≠ current_entry (ds p)
    \/ count_at (ds p) (current_entry (ds p)) ≠ 0 ->
  io_covers_block p bio = false ->
  dm_kcopyd_copy (copier p) (block_region tc origin p)
    (block_region tc dest p) m = (r, kc') ->
  r < 0 ->
  prison_wf (prison p) -> c ∈ linked (prison p) ->
  exists p',
    schedule_copy tc virt origin dest (cell_addr c) bio p = Some p' /\
    mapping_pool p' !! m = None /\
    work_at (ds p') (current_entry (ds p))
      = m :: work_at (ds p) (current_entry (ds p)) /\
    trace p' = trace p ++
      Ev_dm_kcopyd_copy (block_region tc origin p) (block_region tc dest p)
        m r :: io_errors (bios c) /\
    linked (prison p') = others_linked (cell_addr c) (prison p) /\
    prepared_mappings p' = prepared_mappings p /\ next_mapping p' = None.
Proof.
  intros Hnext Hwf Hbusy Hcover Hcopy Hr Hpwf Hc.
  unfold schedule_copy, get_next_mapping. rewrite Hnext.
  cbn [ds set_mapping_pool set_next_mapping mapping_pool].
  destruct (ds_add_work_spec (ds p) m
              (alter (init_mapping tc virt dest (cell_addr c)) m
                     (mapping_pool p)) Hwf)
    as (r1 & d' & mem' & Hadd & Hzero & _ & Hqueued & _).
  rewrite Hadd.
  assert (Hr1 : r1 ≠ 0) by (intros Hz; apply Hzero in Hz; tauto).
  destruct (Hqueued Hr1) as (_ & Hwork & _).
  set (q := set_mapping_pool mem' _).
  change (io_covers_block q bio) with (io_covers_block p bio).
  rewrite Hcover.
  change (copier q) with (copier p).
  change (block_region tc origin q) with (block_region tc origin p).
  change (block_region tc dest q) with (block_region tc dest p).
  rewrite Hcopy. rewrite decide_True by done.
  set (q1 := set_mapping_pool _ _).
  assert (Hq1 : prison_wf (prison q1)) by done.
  assert (Hc1 : c ∈ linked (prison q1)) by done.
  destruct (cell_error_spec c q1 Hq1 Hc1)
    as (Hlk & _ & Htr & _ & _ & _ & _ & Hmp).
  cbv zeta in Hlk, Htr, Hmp.
  eexists. split; [reflexivity|].
  rewrite Hmp, Hlk, Htr. split_and!.
  - unfold q1. cbn [mapping_pool set_mapping_pool]. apply lookup_delete_eq.
  - unfold cell_error. destruct (cell_release _ _ _) as [l pr].
    rewrite cell_error_loop_eq. exact Hwork.
  - unfold q1, q, emit. cbn [trace set_mapping_pool set_trace set_copier].
    by rewrite <- app_assoc.
  - done.
  - unfold cell_error. destruct (cell_release _ _ _) as [l pr].
    by rewrite cell_error_loop_eq.
  - unfold cell_error. destruct (cell_release _ _ _) as [l pr].
    by rewrite cell_error_loop_eq.
Qed.

Lemma keeps_deferred_trans p p1 p2 :
  keeps_deferred p p1 -> keeps_deferred p1 p2 -> keeps_deferred p p2.
Proof. unfold keeps_deferred. congruence. Qed.

Lemma keeps_cell_error cell p : keeps_deferred p (cell_error cell p).
Proof.
  unfold cell_error. destruct (cell_release _ _ _) as [l pr].
  by rewrite cell_error_loop_eq.
Qed.

Lemma keeps_no_space cell p : keeps_deferred p (no_space cell p).
Proof.
  unfold no_space. destruct (cell_release _ _ _) as [l pr].
  by rewrite no_space_loop_eq.
Qed.

Lemma keeps_generic_make_request bio p :
  keeps_deferred p (generic_make_request bio p).
Proof. unfold generic_make_request. by destruct (bio_mem p !! bio). Qed.

Lemma keeps_maybe_add_mapping m p : keeps_deferred p (__maybe_add_mapping m p).
Proof.
  unfold __maybe_add_mapping. destruct (mapping_pool p !! m); [|done].
  by destruct (list_empty m (mapping_pool p) && _).
Qed.

Lemma keeps_overwrite_endio bio e p : keeps_deferred p (overwrite_endio bio e p).
Proof.
  unfold overwrite_endio.
  destruct (bi_map_info <$> bio_mem p !! bio) as [[| |]|]; try done.
  eapply keeps_deferred_trans; [|apply keeps_maybe_add_mapping]. done.
Qed.

Lemma keeps_shared_read_endio_loop l : forall p,
  keeps_deferred p (shared_read_endio_loop l p).
Proof.
  induction l as [|m l IH]; intros p; simpl; [done|].
  eapply keeps_deferred_trans; [|apply IH].
  eapply keeps_deferred_trans; [|apply keeps_maybe_add_mapping]. done.
Qed.

Lemma keeps_shared_read_endio bio e p p' :
  shared_read_endio bio e p = Some p' -> keeps_deferred p p'.
Proof.
  unfold shared_read_endio, shared_read_endio_dec.
  destruct (bi_map_info <$> bio_mem p !! bio) as [[| |h]|]; try done.
  destruct (endio_hook_pool p !! h) as [hk|]; [|done].
  destruct (ds_dec _ _ _) as [[d' ms]|]; [|done].
  intros [= <-]. unfold shared_read_endio_add.
  eapply keeps_deferred_trans;
    [|exact (keeps_shared_read_endio_loop ms _)]. done.
Qed.

Lemma keeps_remap_and_issue tc bio block p p' :
  remap_and_issue tc bio block p = Some p' -> keeps_deferred p p'.
Proof.
  unfold remap_and_issue.
  destruct (flush_or_fua bio p).
  - destruct (dm_pool_commit_metadata (pmd p)) as [r md].
    case_decide.
    + unfold bio_io_error_hooked.
      destruct (bi_end_io <$> bio_mem _ !! bio) as [[| |]|].
      * by intros [= <-].
      * intros [= <-].
        eapply keeps_deferred_trans; [|apply keeps_overwrite_endio]. done.
      * intros Hs. eapply keeps_deferred_trans;
          [|exact (keeps_shared_read_endio _ _ _ _ Hs)]. done.
      * by intros [= <-].
    + intros [= <-].
      eapply keeps_deferred_trans; [|apply keeps_generic_make_request]. done.
  - intros [= <-].
    eapply keeps_deferred_trans; [|apply keeps_generic_make_request]. done.
Qed.

Lemma keeps_hook_overwrite m bio p : keeps_deferred p (hook_overwrite m bio p).
Proof. unfold hook_overwrite. by destruct (bio_mem p !! bio). Qed.

Lemma keeps_alloc_data_block tc p r d p' :
  alloc_data_block tc p = Some (r, d, p') -> keeps_deferred p p'.
Proof.
  unfold alloc_data_block.
  destruct (dm_pool_get_free_block_count (pmd p)) as [r1 free].
  case_decide; [by intros [= <- <- <-]|].
  case_decide.
  - unfold dm_table_event. simpl. destruct (ti p); [|done]. simpl.
    destruct (dm_pool_alloc_data_block (pmd p)) as [[r2 d2] md2].
    by intros [= <- <- <-].
  - destruct (dm_pool_alloc_data_block (pmd p)) as [[r2 d2] md2].
    by intros [= <- <- <-].
Qed.

Lemma keeps_schedule_copy tc v o d cell bio p p' :
  schedule_copy tc v o d cell bio p = Some p' -> keeps_deferred p p'.
Proof.
  unfold schedule_copy, get_next_mapping.
  destruct (next_mapping p) as [m|]; [|done]. simpl.
  destruct (ds_add_work _ _ _) as [[[r ds'] mem]|]; [|done].
  set (q := set_mapping_pool mem _).
  assert (Hq : keeps_deferred p q) by done.
  destruct (io_covers_block q bio).
  - intros Hs. eapply keeps_deferred_trans; [exact Hq|].
    eapply keeps_deferred_trans;
      [apply keeps_hook_overwrite|exact (keeps_remap_and_issue _ _ _ _ _ Hs)].
  - destruct (dm_kcopyd_copy _ _ _ _) as [rc kc].
    case_decide; intros [= <-]; [|done].
    eapply keeps_deferred_trans; [|apply keeps_cell_error]. done.
Qed.

Lemma keeps_schedule_zero tc v d cell bio p p' :
  schedule_zero tc v d cell bio p = Some p' -> keeps_deferred p p'.
Proof.
  unfold schedule_zero, get_next_mapping.
  destruct (next_mapping p) as [m|]; [|done]. simpl.
  set (q := set_mapping_pool _ _).
  assert (Hq : keeps_deferred p q) by done.
  destruct (negb (zero_new_blocks p) || io_covers_block q bio).
  - intros Hs. eapply keeps_deferred_trans; [exact Hq|].
    eapply keeps_deferred_trans;
      [apply keeps_hook_overwrite|exact (keeps_remap_and_issue _ _ _ _ _ Hs)].
  - destruct (dm_kcopyd_zero _ _ _) as [rc kc].
    case_decide; intros [= <-]; [|done].
    eapply keeps_deferred_trans; [|apply keeps_cell_error]. done.
Qed.

Lemma keeps_shared_read tc bio lr cell p p' :
  shared_read tc bio lr cell p = Some p' -> keeps_deferred p p'.
Proof.
  unfold shared_read.
  destruct (ds_inc (ds p)) as [[e d']|]; [|done].
  destruct (bio_mem p !! bio) as [b|]; [|done]. simpl.
  destruct (cell_release_singleton _ _ _) as [pr|]; [|done].
  intros Hs.
  eapply keeps_deferred_trans; [|exact (keeps_remap_and_issue _ _ _ _ _ Hs)].
  done.
Qed.

Lemma keeps_pool_bio_detain k bio p r cell p' :
  pool_bio_detain k bio p = Some (r, cell, p') -> keeps_deferred p p'.
Proof.
  unfold pool_bio_detain.
  destruct (bio_detain _ _ _) as [[[r1 c1] pr]|]; [|done].
  by intros [= <- <- <-].
Qed.

Lemma keeps_process_bio tc bio key key2 p p' :
  process_bio tc bio key key2 p = Some p' -> keeps_deferred p p'.
Proof.
  unfold process_bio.
  destruct (pool_bio_detain _ _ _) as [[[r cell] p1]|] eqn:Hd; [|done].
  pose proof (keeps_pool_bio_detain _ _ _ _ _ _ Hd) as Hk1.
  case_decide; [by intros [= <-]|].
  destruct (dm_thin_find_block _ _ _ _) as [[r2 lr] md].
  set (p2 := set_pmd md p1).
  assert (Hk2 : keeps_deferred p p2) by exact Hk1.
  case_decide.
  - destruct (cell_release_singleton _ _ _) as [pr|]; [|done].
    set (p3 := set_prison pr p2).
    assert (Hk3 : keeps_deferred p p3) by exact Hk1.
    destruct (shared lr).
    + unfold process_shared_bio.
      destruct (pool_bio_detain _ _ p3) as [[[r4 cell4] p4]|] eqn:Hd4;
        [|done].
      pose proof (keeps_pool_bio_detain _ _ _ _ _ _ Hd4) as Hk4.
      assert (Hk4' : keeps_deferred p p4)
        by (by eapply keeps_deferred_trans).
      case_decide; [by intros [= <-]|].
      destruct (bio_mem p4 !! bio); [|done].
      case_decide.
      * unfold break_sharing.
        destruct (alloc_data_block tc p4) as [[[r5 d5] p5]|] eqn:Ha; [|done].
        pose proof (keeps_alloc_data_block _ _ _ _ _ Ha) as Hk5.
        assert (Hk5' : keeps_deferred p p5)
          by (by eapply keeps_deferred_trans).
        repeat case_decide.
        -- intros Hs. eapply keeps_deferred_trans; [exact Hk5'|].
           by eapply keeps_schedule_copy.
        -- intros [= <-].
           eapply keeps_deferred_trans; [exact Hk5'|apply keeps_no_space].
        -- intros [= <-].
           eapply keeps_deferred_trans; [exact Hk5'|apply keeps_cell_error].
      * intros Hs. eapply keeps_deferred_trans; [exact Hk4'|].
        by eapply keeps_shared_read.
    + intros Hs.
      eapply keeps_deferred_trans;
        [exact Hk3|exact (keeps_remap_and_issue _ _ _ _ _ Hs)].
  - case_decide.
    + unfold provision_block.
      destruct (alloc_data_block tc p2) as [[[r5 d5] p5]|] eqn:Ha; [|done].
      pose proof (keeps_alloc_data_block _ _ _ _ _ Ha) as Hk5.
      assert (Hk5' : keeps_deferred p p5)
        by (by eapply keeps_deferred_trans).
      repeat case_decide.
      * intros Hs. eapply keeps_deferred_trans; [exact Hk5'|].
        by eapply keeps_schedule_zero.
      * intros [= <-].
        eapply keeps_deferred_trans; [exact Hk5'|apply keeps_no_space].
      * intros [= <-].
        eapply keeps_deferred_trans; [exact Hk5'|apply keeps_cell_error].
    + intros [= <-]. exact Hk2.
Qed.

(** The loop of [process_deferred_bios]: what is on the deferred list
    afterwards is what was there, followed by the bios of the local
    list that were not popped; there are such bios only if
    [ensure_next_mapping] failed. *)
Lemma process_deferred_loop_spec bios : forall stack p p',
  process_deferred_loop bios stack p = Some p' ->
  exists rest,
    deferred_bios p' = deferred_bios p ++ rest /\
    rest `suffix_of` bios /\
    (rest ≠ [] ->
       next_mapping p' = None /\
       mapping_alloc_ok (size (mapping_pool p')) = false).
Proof.
  induction bios as [|bio bios IH]; intros stack p p'; simpl.
  - intros [= <-]. exists []. by rewrite app_nil_r.
  - unfold ensure_next_mapping.
    destruct (next_mapping p) as [m|] eqn:Hnext.
    + rewrite decide_False by (intros Hne; by apply Hne).
      destruct (bi_map_info <$> bio_mem p !! bio) as [[tc| |]|]; try done.
      destruct (process_bio tc bio _ _ p) as [p1|] eqn:Hp; [|done].
      intros Hl. pose proof (keeps_process_bio _ _ _ _ _ _ Hp) as Hd1.
      destruct (IH _ _ _ Hl) as (rest & Hdef & Hsuf & Hfail).
      exists rest. rewrite Hdef, Hd1.
      split; [done|]. split; [by apply suffix_cons_r|done].
    + destruct (mapping_alloc_ok (size (mapping_pool p))) eqn:Hok.
      * rewrite decide_False by (intros Hne; by apply Hne).
        set (q := set_next_mapping _ _).
        destruct (bi_map_info <$> bio_mem q !! bio) as [[tc| |]|]; try done.
        destruct (process_bio tc bio _ _ q) as [p1|] eqn:Hp; [|done].
        intros Hl. pose proof (keeps_process_bio _ _ _ _ _ _ Hp) as Hd1.
        destruct (IH _ _ _ Hl) as (rest & Hdef & Hsuf & Hfail).
        exists rest. rewrite Hdef, Hd1.
        split; [done|]. split; [by apply suffix_cons_r|done].
      * case_decide.
        -- intros [= <-]. exists bios.
           split; [done|]. split; [by apply suffix_cons_r|done].
        -- destruct (bi_map_info <$> bio_mem p !! bio) as [[tc| |]|];
             try done.
           destruct (process_bio tc bio _ _ p) as [p1|] eqn:Hp; [|done].
           intros Hl. pose proof (keeps_process_bio _ _ _ _ _ _ Hp) as Hd1.
           destruct (IH _ _ _ Hl) as (rest & Hdef & Hsuf & Hfail).
           exists rest. rewrite Hdef, Hd1.
           split; [done|]. split; [by apply suffix_cons_r|done].
Qed.

(** X19. [process_deferred_bios] when no new_mapping can be had for
    the first bio of the deferred list: the bios behind it are put
    back on the deferred list and nothing else is done; the bio
    that was popped is on no list and has not been ended. *)
Theorem process_deferred_bios_drops_popped_bio stack p bio rest :
  deferred_bios p = bio :: rest ->
  next_mapping p = None ->
  mapping_alloc_ok (size (mapping_pool p)) = false ->
  ENOMEM ≠ 0 ->
  process_deferred_bios stack p = Some (set_deferred_bios rest p).
Proof.
  intros Hdef Hnext Hok Henomem.
  unfold process_deferred_bios, bio_list_merge. rewrite Hdef. simpl.
  unfold ensure_next_mapping.
  cbn [next_mapping mapping_pool set_deferred_bios]. rewrite Hnext, Hok.
  rewrite decide_True by lia. done.
Qed.

(** X30. [process_prepared_mappings] on a list whose first mapping
    is [m].  When [process_prepared_mapping] installs [m] (no error is
    recorded in it and the insertion succeeds) it frees [m]; the walk,
    which is [list_for_each_entry], then reads [m->list.next] in the
    freed object: neither [process_prepared_mappings] nor [do_worker]
    has a defined result.  When the mapping has failed, or the
    insertion fails, [m] is not freed (nor is it ever after) and the
    walk goes on with the rest of the list. *)
Theorem process_prepared_mappings_reads_freed stack m rest p mp r pmd' :
  prepared_mappings p = m :: rest ->
  mapping_pool p !! m = Some mp ->
  dm_thin_insert_block (pmd p) (td (m_tc mp)) (virt_block mp) (data_block mp)
    = (r, pmd') ->
  let q := process_prepared_mapping m (set_prepared_mappings [] p) in
  (err mp = 0 /\ r = 0 ->
     mapping_pool q !! m = None /\
     process_prepared_mappings p = None /\
     do_worker stack p = None) /\
  (err mp ≠ 0 \/ r ≠ 0 ->
     mapping_pool q !! m = Some mp /\
     process_prepared_mappings p = process_prepared_loop rest q).
Proof.
  intros Hprep Hm Hins q.
  assert (Hwalk : process_prepared_mappings p
            = if decide (m ∈ dom (mapping_pool q))
              then process_prepared_loop rest q else None).
  { unfold process_prepared_mappings, list_splice_init. rewrite Hprep.
    rewrite app_nil_r. done. }
  assert (Hkeep : forall cell (p0 : pool M K),
            mapping_pool (cell_error cell p0) = mapping_pool p0).
  { intros cell p0. unfold cell_error.
    destruct (cell_release _ _ _) as [l pr]. by rewrite cell_error_loop_eq. }
  set (p0 := match m_bio mp with
             | Some bio =>
                 set_bio_mem (alter (set_bi_end_io (saved_bi_end_io mp)) bio
                                (bio_mem (set_prepared_mappings [] p)))
                   (set_prepared_mappings [] p)
             | None => set_prepared_mappings [] p
             end).
  assert (Hp0 : mapping_pool p0 = mapping_pool p /\ pmd p0 = pmd p)
    by (unfold p0; by destruct (m_bio mp)).
  destruct Hp0 as [Hmp0 Hpmd0].
  assert (Hq : q = if decide (err mp ≠ 0) then cell_error (m_cell mp) p0
                   else if decide (r ≠ 0)
                        then cell_error (m_cell mp) (set_pmd pmd' p0)
                        else
                          let p1 := set_pmd pmd' p0 in
                          let p2 := match m_bio mp with
                                    | Some bio =>
                                        bio_endio bio 0
                                          (cell_defer_except (m_tc mp)
                                             (m_cell mp) bio p1)
                                    | None =>
                                        cell_defer (m_tc mp) (m_cell mp)
                                          (data_block mp) p1
                                    end in
                          set_mapping_pool (delete m (mapping_pool p2)) p2).
  { unfold q, process_prepared_mapping.
    change (mapping_pool (set_prepared_mappings [] p)) with (mapping_pool p).
    rewrite Hm. fold p0. destruct (decide (err mp ≠ 0)); [done|].
    rewrite Hpmd0, Hins. done. }
  split.
  - intros [He ->]. rewrite decide_False in Hq by lia.
    rewrite decide_False in Hq by (intros Hne; by apply Hne).
    assert (Hnone : mapping_pool q !! m = None).
    { rewrite Hq. cbv zeta. cbn [mapping_pool set_mapping_pool].
      apply lookup_delete_eq. }
    split; [exact Hnone|].
    assert (process_prepared_mappings p = None) as Hw.
    { rewrite Hwalk. rewrite decide_False; [done|]. by apply not_elem_of_dom. }
    split; [exact Hw|]. unfold do_worker. by rewrite Hw.
  - intros Hfail.
    assert (Hsome : mapping_pool q !! m = Some mp).
    { rewrite Hq. destruct (decide (err mp ≠ 0)).
      - by rewrite Hkeep, Hmp0.
      - rewrite decide_True by (destruct Hfail; [done|lia]).
        rewrite Hkeep. cbn [mapping_pool set_pmd]. by rewrite Hmp0. }
    split; [exact Hsome|].
    rewrite Hwalk. rewrite decide_True; [done|].
    apply elem_of_dom. by eexists.
Qed.

(** X20. A run of [do_worker] that comes to its end: what is on the
    deferred list afterwards is the tail of the list the worker
    started from (after [process_prepared_mappings] had added to it)
    that it did not come to; there is such a tail only if the mempool
    had no new_mapping left. *)
Theorem do_worker_defers_tail stack p p' :
  do_worker stack p = Some p' ->
  exists q,
    process_prepared_mappings p = Some q /\
    deferred_bios p' `suffix_of` deferred_bios q /\
    (deferred_bios p' ≠ [] ->
       next_mapping p' = None /\
       mapping_alloc_ok (size (mapping_pool p')) = false).
Proof.
  unfold do_worker.
  destruct (process_prepared_mappings p) as [q|]; [|done].
  unfold process_deferred_bios, bio_list_merge. simpl. intros Hl.
  destruct (process_deferred_loop_spec _ _ _ _ Hl)
    as (rest & Hdef & Hsuf & Hfail).
  simpl in Hdef. exists q. split; [done|]. by rewrite Hdef.
Qed.

End Worker_more.
(** * Resuming the pool *)

Section Resume_more.
Context `{kernel} {M K : Type} `{!thin_metadata M} `{!kcopyd K}.
Implicit Type p : pool M K.

(** X29. [pool_preresume] does all of its work or none of it.  When
    it returns 0 it has cleared [low_water_triggered], put the bios of
    the retry list at the end of the deferred list and woken the
    worker.  When it returns an error (the size of the data device
    cannot be read, the table is shorter than the device, or the
    resize or the commit fails) the lists and the flag are as they
    were and the worker has not been woken: the bios that were parked
    stay on the retry list. *)
Theorem pool_preresume_all_or_nothing t p r p' :
  EINVAL ≠ 0 ->
  pool_preresume t p = (r, p') ->
  (r = 0 ->
     deferred_bios p' = deferred_bios p ++ retry_list p /\
     retry_list p' = [] /\
     low_water_triggered p' = 0 /\
     trace p' = trace p ++ [Ev_queue_work]) /\
  (r ≠ 0 ->
     deferred_bios p' = deferred_bios p /\
     retry_list p' = retry_list p /\
     low_water_triggered p' = low_water_triggered p /\
     trace p' = trace p).
Proof.
  intros Heinval Hpre. split.
  - intros ->. by apply (pool_preresume_ok t).
  - intros Hr. by apply (pool_preresume_err t p r).
Qed.

End Resume_more.

(** * Messages *)

Section Messages_more.
Context `{kernel} `{kernel_lib} {M K : Type} `{!thin_metadata M}
  `{!thin_metadata_admin M} `{!kcopyd K}.
Implicit Type p : pool M K.

Lemma only_pmd_refl r p : only_pmd (r, p) p.
Proof. exists (pmd p). by destruct p. Qed.

Lemma only_pmd_set r md p : only_pmd (r, set_pmd md p) p.
Proof. by exists md. Qed.

Hint Resolve only_pmd_refl only_pmd_set : core.

Lemma only_pmd_create_thin argc argv p :
  only_pmd (process_create_thin_mesg argc argv p) p.
Proof.
  unfold process_create_thin_mesg.
  case_decide; [done|]. destruct (read_dev_id _) as [r id].
  case_decide; [done|]. destruct (dm_pool_create_thin _ _) as [r1 md].
  case_decide; done.
Qed.

Lemma only_pmd_create_snap argc argv p :
  only_pmd (process_create_snap_mesg argc argv p) p.
Proof.
  unfold process_create_snap_mesg.
  case_decide; [done|]. destruct (read_dev_id _) as [r id].
  case_decide; [done|]. destruct (read_dev_id _) as [r' id'].
  case_decide; [done|]. destruct (dm_pool_create_snap _ _ _) as [r1 md].
  case_decide; done.
Qed.

Lemma only_pmd_delete argc argv p :
  only_pmd (process_delete_mesg argc argv p) p.
Proof.
  unfold process_delete_mesg.
  case_decide; [done|]. destruct (read_dev_id _) as [r id].
  case_decide; [done|]. destruct (dm_pool_delete_thin_device _ _) as [r1 md].
  done.
Qed.

Lemma only_pmd_trim argc argv p :
  only_pmd (process_trim_mesg argc argv p) p.
Proof.
  unfold process_trim_mesg.
  case_decide; [done|]. destruct (read_dev_id _) as [r id].
  case_decide; [done|]. destruct (kstrtoull _ _) as [r' sz].
  case_decide; [done|]. destruct (dm_pool_trim_thin_device _ _ _) as [r1 md].
  done.
Qed.

Lemma only_pmd_set_transaction_id argc argv p :
  only_pmd (process_set_transaction_id_mesg argc argv p) p.
Proof.
  unfold process_set_transaction_id_mesg.
  case_decide; [done|]. destruct (kstrtoull _ _) as [r id].
  case_decide; [done|]. destruct (kstrtoull _ _) as [r' id'].
  case_decide; [done|].
  destruct (dm_pool_set_metadata_transaction_id _ _ _) as [r1 md].
  case_decide; done.
Qed.

(** X21. A message changes nothing in the pool but the metadata:
    whatever the words of the message, [pool_message] returns, and the
    pool it leaves differs from the one it was given in [pmd] only. *)
Theorem pool_message_touches_metadata_only cmd args p :
  exists r md, pool_message (cmd :: args) p = Some (r, set_pmd md p).
Proof.
  unfold pool_message.
  set (x := if decide (strcasecmp cmd "create_thin" = 0) then _ else _).
  assert (Hx : only_pmd x p).
  { unfold x. repeat case_decide;
      auto using only_pmd_create_thin, only_pmd_create_snap, only_pmd_delete,
        only_pmd_trim, only_pmd_set_transaction_id. }
  destruct x as [r q]. destruct Hx as [md Hq]. simpl in Hq. subst q.
  case_decide.
  - destruct (dm_pool_commit_metadata _) as [r2 md2]. by exists r2, md2.
  - by exists r, md.
Qed.

(** X22. Messages that are refused with [-EINVAL] before anything is
    done, the pool and its metadata left as they are and nothing
    committed: a first word that is none of the five commands;
    [create_thin] with a number of arguments other than one, or with a
    device id that is not a number or is above [MAX_DEV_ID];
    [create_snap] with two arguments of which one is not a number or
    is above [MAX_DEV_ID]. *)
Theorem pool_message_rejects_invalid cmd args p :
  EINVAL ≠ 0 ->
  (strcasecmp cmd "create_thin" ≠ 0 -> strcasecmp cmd "create_snap" ≠ 0 ->
   strcasecmp cmd "delete" ≠ 0 -> strcasecmp cmd "trim" ≠ 0 ->
   strcasecmp cmd "set_transaction_id" ≠ 0 ->
   pool_message (cmd :: args) p = Some (- EINVAL, p)) /\
  (strcasecmp cmd "create_thin" = 0 -> length args ≠ 1%nat ->
   pool_message (cmd :: args) p = Some (- EINVAL, p)) /\
  (forall a r dev_id,
     strcasecmp cmd "create_thin" = 0 -> args = [a] ->
     kstrtoull a 10 = (r, dev_id) -> r ≠ 0 \/ MAX_DEV_ID < dev_id ->
     pool_message (cmd :: args) p = Some (- EINVAL, p)) /\
  (forall a o r dev_id r' origin,
     strcasecmp cmd "create_thin" ≠ 0 -> strcasecmp cmd "create_snap" = 0 ->
     args = [a; o] ->
     kstrtoull a 10 = (r, dev_id) -> kstrtoull o 10 = (r', origin) ->
     r ≠ 0 \/ MAX_DEV_ID < dev_id \/ r' ≠ 0 \/ MAX_DEV_ID < origin ->
     pool_message (cmd :: args) p = Some (- EINVAL, p)).
Proof.
  intros Heinval. split_and!.
  - intros H1 H2 H3 H4 H5. unfold pool_message.
    rewrite !decide_False by done. by rewrite decide_False by lia.
  - intros Hcmd Hlen. unfold pool_message.
    rewrite decide_True by done.
    unfold process_create_thin_mesg, check_arg_count.
    rewrite (decide_True (P := Z.of_nat (length (cmd :: args)) ≠ 2))
      by (simpl; lia).
    rewrite decide_True by lia. by rewrite decide_False by lia.
  - intros a r dev_id Hcmd -> Hparse Hbad. unfold pool_message.
    rewrite decide_True by done.
    unfold process_create_thin_mesg, check_arg_count.
    rewrite (decide_False (P := Z.of_nat (length [cmd; a]) ≠ 2))
      by (simpl; lia).
    rewrite decide_False by lia.
    unfold read_dev_id, arg. simpl. rewrite Hparse.
    rewrite (decide_False (P := r = 0 /\ dev_id <= MAX_DEV_ID)) by lia.
    rewrite decide_True by lia. by rewrite decide_False by lia.
  - intros a o r dev_id r' origin Hthin Hcmd -> Hparse Hparse' Hbad.
    unfold pool_message.
    rewrite decide_False by done. rewrite decide_True by done.
    unfold process_create_snap_mesg, check_arg_count.
    rewrite (decide_False (P := Z.of_nat (length [cmd; a; o]) ≠ 3))
      by (simpl; lia).
    rewrite decide_False by lia.
    unfold read_dev_id, arg. simpl. rewrite Hparse, Hparse'.
    destruct (decide (r = 0 /\ dev_id <= MAX_DEV_ID)) as [Hok|Hno].
    + rewrite decide_False by lia.
      rewrite (decide_False (P := r' = 0 /\ origin <= MAX_DEV_ID)) by lia.
      rewrite decide_True by lia. by rewrite decide_False by lia.
    + rewrite decide_True by lia. by rewrite decide_False by lia.
Qed.

(** X23. [create_thin] with a valid device id: the device is created
    in the metadata; if that fails its error is returned and nothing
    is committed; if it succeeds the metadata is committed and the
    result of the commit is the result of the message. *)
Theorem pool_message_create_thin_commits cmd a p dev_id r md1 :
  strcasecmp cmd "create_thin" = 0 ->
  kstrtoull a 10 = (0, dev_id) -> dev_id <= MAX_DEV_ID ->
  dm_pool_create_thin (pmd p) dev_id = (r, md1) ->
  (r ≠ 0 -> pool_message [cmd; a] p = Some (r, set_pmd md1 p)) /\
  (r = 0 ->
   pool_message [cmd; a] p
     = Some ((dm_pool_commit_metadata md1).1,
             set_pmd (dm_pool_commit_metadata md1).2 p)).
Proof.
  intros Hcmd Hparse Hid Hcreate. unfold pool_message.
  rewrite decide_True by done.
  unfold process_create_thin_mesg, check_arg_count.
  rewrite (decide_False (P := Z.of_nat (length [cmd; a]) ≠ 2))
    by (simpl; lia).
  rewrite decide_False by lia.
  unfold read_dev_id, arg. simpl. rewrite Hparse.
  rewrite decide_True by done. rewrite decide_False by lia.
  rewrite Hcreate. split; intros Hr.
  - rewrite decide_True by done. by rewrite decide_False by done.
  - rewrite decide_False by lia. rewrite decide_True by done.
    cbn [pmd set_pmd]. by destruct (dm_pool_commit_metadata md1).
Qed.

End Messages_more.
(** * Provisioning and breaking sharing *)

Section Provision_more.
Context `{kernel} {M K : Type} `{!thin_metadata M} `{!kcopyd K}.
Implicit Type p : pool M K.

(** [bio_detain] under a key that has no cell. *)
Lemma bio_detain_fresh prison k inmate :
  prison_wf prison -> cells_counted prison -> find_cell prison k = None ->
  exists cell prison1,
    bio_detain prison k inmate = Some (0, cell, prison1) /\
    prison_wf prison1 /\
    find_cell prison1 k
      = Some {| cell_addr := cell; key := k; count := 1; bios := [inmate] |} /\
    (forall k', k' ≠ k -> find_cell prison1 k' = find_cell prison k').
Proof.
  intros Hwf Hcnt Hnone.
  destruct (bio_detain_spec prison k inmate Hwf Hcnt)
    as (r & cell & prison1 & Hd & Hdet & Hwf1).
  destruct Hdet as (Hr & Hf & _ & _ & Hothers & _).
  unfold inmates in Hr, Hf. rewrite Hnone in Hr, Hf. simpl in Hr, Hf.
  subst r. by exists cell, prison1.
Qed.

(** X24. [process_bio] on a bio for a block that is not provisioned,
    above the low-water mark, when the new block has to be zeroed: a
    data block is allocated, the new_mapping allocated ahead is set up
    for it, and kcopyd is asked to zero the sectors of that block,
    and nothing else is asked of the host; the bio waits in its cell,
    and nothing is inserted in the metadata yet.  When kcopyd reports
    success through [copy_complete], the mapping is marked prepared,
    put at the head of the prepared list, and the worker is woken. *)
Theorem provision_zeroes_new_block
    tc bio key key2 p lr pmd1 free data pmd2 m mp r kc' :
  let block := get_bio_block p bio in
  let k := build_virtual_key (td tc) block key in
  prison_wf (prison p) -> cells_counted (prison p) ->
  find_cell (prison p) k = None ->
  ENODATA ≠ 0 ->
  dm_thin_find_block (pmd p) (td tc) block 1 = (- ENODATA, lr, pmd1) ->
  dm_pool_get_free_block_count pmd1 = (0, free) ->
  low_water_mark p < free ->
  dm_pool_alloc_data_block pmd1 = (0, data, pmd2) ->
  next_mapping p = Some m -> mapping_pool p !! m = Some mp ->
  zero_new_blocks p = true -> io_covers_block p bio = false ->
  dm_kcopyd_zero (copier p) (block_region tc data p) m = (r, kc') ->
  0 <= r ->
  exists p' cell,
    process_bio tc bio key key2 p = Some p' /\
    trace p' = trace p ++ [Ev_dm_kcopyd_zero (block_region tc data p) m r] /\
    pmd p' = pmd2 /\ bio_mem p' = bio_mem p /\
    inmates (prison p') k = [bio] /\
    (forall k', k' ≠ k -> inmates (prison p') k' = inmates (prison p) k') /\
    mapping_pool p' !! m = Some (init_mapping tc block data cell mp) /\
    next_mapping p' = None /\
    prepared_mappings p' = prepared_mappings p /\
    deferred_bios p' = deferred_bios p /\
    let p2 := copy_complete 0 0 m p' in
    prepared_mappings p2 = m :: prepared_mappings p /\
    trace p2 = trace p' ++ [Ev_queue_work] /\
    mapping_pool p2 !! m
      = Some {| m_list := LIST_LINKED; prepared := 1; m_tc := tc;
                virt_block := block; data_block := data; m_cell := cell;
                err := 0; m_bio := None;
                saved_bi_end_io := saved_bi_end_io mp |}.
Proof.
  intros block k Hwf Hcnt Hnone Hnodata Hfind Hfree Hlow Halloc Hnext Hm
    Hzero Hcover Hkz Hr.
  destruct (bio_detain_fresh (prison p) k bio Hwf Hcnt Hnone)
    as (cell & prison1 & Hd & Hwf1 & Hf & Hothers).
  unfold process_bio, pool_bio_detain. fold block k. rewrite Hd.
  rewrite decide_False by lia.
  change (pmd (set_prison prison1 p)) with (pmd p). rewrite Hfind.
  rewrite decide_False by lia. rewrite decide_True by done.
  unfold provision_block, alloc_data_block.
  cbn [pmd set_pmd]. rewrite Hfree.
  rewrite decide_False by lia.
  rewrite decide_False
    by (cbn [low_water_mark set_pmd set_prison]; lia).
  cbn [pmd set_pmd]. rewrite Halloc.
  rewrite decide_True by done.
  unfold schedule_zero, get_next_mapping.
  cbn [next_mapping set_pmd set_prison]. rewrite Hnext.
  set (q := set_mapping_pool _ _).
  change (zero_new_blocks q) with (zero_new_blocks p).
  change (io_covers_block q bio) with (io_covers_block p bio).
  rewrite Hzero, Hcover. cbn [negb orb].
  change (copier q) with (copier p).
  change (block_region tc data q) with (block_region tc data p).
  rewrite Hkz. rewrite decide_False by lia.
  set (p' := emit _ _).
  assert (Hm' : mapping_pool p' !! m
            = Some (init_mapping tc block data cell mp))
    by (unfold p', q, emit;
        cbn [mapping_pool set_mapping_pool set_trace set_copier
             set_next_mapping set_pmd set_prison];
        by rewrite lookup_alter_eq, Hm).
  exists p', cell. split; [done|]. split; [done|]. split; [done|].
  split; [done|]. split.
  { change (prison p') with prison1. unfold inmates. by rewrite Hf. }
  split.
  { intros k' Hne. change (prison p') with prison1. unfold inmates.
    by rewrite Hothers. }
  split; [exact Hm'|]. split; [done|]. split; [done|]. split; [done|].
  cbv zeta. unfold copy_complete.
  rewrite decide_False by (intros [?|?]; done).
  set (p2 := set_mapping_pool _ (set_mapping_pool _ p')).
  set (m2 := set_prepared 1 (set_err 0 (init_mapping tc block data cell mp))).
  assert (Hp2m : mapping_pool p2 !! m = Some m2)
    by (unfold p2; cbn [mapping_pool set_mapping_pool];
        by rewrite !lookup_alter_eq, Hm').
  unfold __maybe_add_mapping, list_empty. rewrite Hp2m.
  change (m_list m2) with LIST_INIT. change (prepared m2) with 1.
  rewrite bool_decide_eq_true_2 by done.
  rewrite bool_decide_eq_true_2 by done.
  cbn [andb list_add].
  split; [done|]. split; [done|].
  unfold wake_worker, emit. cbn [mapping_pool set_mapping_pool set_trace].
  by rewrite lookup_alter_eq, Hp2m.
Qed.

(** X25. [process_bio] on a write to a shared block, above the
    low-water mark, when the write does not cover the block: the cell
    of the virtual key is released again, the bio is detained under
    the key of the shared data block, a data block is allocated, and
    kcopyd is asked to copy the sectors of the shared block to those
    of the new one, and nothing else is asked of the host.  The
    new_mapping is put on the work list of the current entry of the
    deferred set exactly when a shared read is in flight; it is not on
    the prepared list. *)
Theorem break_sharing_copies_block
    tc bio key key2 p b lr pmd1 free data pmd2 m mp r kc' :
  let block := get_bio_block p bio in
  let k := build_virtual_key (td tc) block key in
  let k2 := build_data_key (td tc) (lr_block lr) key2 in
  let cur := current_entry (ds p) in
  let idle := sweeper (ds p) = cur /\ count_at (ds p) cur = 0 in
  prison_wf (prison p) -> cells_counted (prison p) ->
  find_cell (prison p) k = None -> find_cell (prison p) k2 = None ->
  bio_mem p !! bio = Some b -> bio_data_dir (bi_rw b) = WRITE ->
  dm_thin_find_block (pmd p) (td tc) block 1 = (0, lr, pmd1) ->
  shared lr = true ->
  dm_pool_get_free_block_count pmd1 = (0, free) ->
  low_water_mark p < free ->
  dm_pool_alloc_data_block pmd1 = (0, data, pmd2) ->
  next_mapping p = Some m -> mapping_pool p !! m = Some mp ->
  ds_wf (ds p) -> io_covers_block p bio = false ->
  dm_kcopyd_copy (copier p) (block_region tc (lr_block lr) p)
    (block_region tc data p) m = (r, kc') ->
  0 <= r ->
  exists p' cell,
    process_bio tc bio key key2 p = Some p' /\
    trace p' = trace p ++
      [Ev_dm_kcopyd_copy (block_region tc (lr_block lr) p)
         (block_region tc data p) m r] /\
    pmd p' = pmd2 /\ bio_mem p' = bio_mem p /\
    inmates (prison p') k2 = [bio] /\
    (forall k', k' ≠ k2 -> inmates (prison p') k' = inmates (prison p) k') /\
    next_mapping p' = None /\
    prepared_mappings p' = prepared_mappings p /\
    deferred_bios p' = deferred_bios p /\
    (idle ->
       ds p' = ds p /\
       mapping_pool p' !! m = Some (init_mapping tc block data cell mp)) /\
    (~ idle ->
       work_at (ds p') cur = m :: work_at (ds p) cur /\
       (forall i, count_at (ds p') i = count_at (ds p) i) /\
       mapping_pool p' !! m
         = Some (set_m_list LIST_LINKED
                   (init_mapping tc block data cell mp))).
Proof.
  intros block k k2 cur idle Hwf Hcnt Hnone Hnone2 Hb Hdir Hfind Hsh Hfree
    Hlow Halloc Hnext Hm Hds Hcover Hcopy Hr.
  destruct (detain_release_absent (prison p) k bio [] Hwf Hnone)
    as (cell1 & prison1 & Hd & _ & Hrel).
  destruct (bio_detain_fresh (prison p) k2 bio Hwf Hcnt Hnone2)
    as (cell & prison2 & Hd2 & Hwf2 & Hf2 & Hothers).
  unfold process_bio, pool_bio_detain. fold block k. rewrite Hd.
  rewrite decide_False by lia.
  change (pmd (set_prison prison1 p)) with (pmd p). rewrite Hfind.
  rewrite decide_True by done.
  change (prison (set_pmd pmd1 (set_prison prison1 p))) with prison1.
  rewrite Hrel, Hsh.
  unfold process_shared_bio, pool_bio_detain. fold k2.
  change (prison (set_prison _ _)) with (prison p). rewrite Hd2.
  rewrite decide_False by lia.
  change (bio_mem (set_prison _ _)) with (bio_mem p). rewrite Hb.
  rewrite decide_True by done.
  unfold break_sharing, alloc_data_block.
  cbn [pmd set_pmd set_prison]. rewrite Hfree.
  rewrite decide_False by lia.
  rewrite decide_False
    by (cbn [low_water_mark set_pmd set_prison]; lia).
  cbn [pmd set_pmd set_prison]. rewrite Halloc.
  rewrite decide_True by done.
  unfold schedule_copy, get_next_mapping.
  cbn [next_mapping set_pmd set_prison]. rewrite Hnext.
  cbn [ds mapping_pool set_mapping_pool set_next_mapping set_pmd set_prison].
  destruct (ds_add_work_spec (ds p) m
              (alter (init_mapping tc block data cell) m (mapping_pool p)) Hds)
    as (r1 & d' & mem' & Hadd & Hzero & Hsame & Hqueued & _).
  cbv zeta in Hzero, Hqueued. fold cur in Hzero, Hqueued. rewrite Hadd.
  set (q := set_mapping_pool mem' _).
  change (io_covers_block q bio) with (io_covers_block p bio).
  rewrite Hcover.
  change (copier q) with (copier p).
  change (block_region tc (lr_block lr) q)
    with (block_region tc (lr_block lr) p).
  change (block_region tc data q) with (block_region tc data p).
  rewrite Hcopy. rewrite decide_False by lia.
  set (p' := emit _ _).
  exists p', cell. split; [done|]. split; [done|]. split; [done|].
  split; [done|]. split.
  { change (prison p') with prison2. unfold inmates. by rewrite Hf2. }
  split.
  { intros k' Hne. change (prison p') with prison2. unfold inmates.
    by rewrite Hothers. }
  split; [done|]. split; [done|]. split; [done|].
  change (ds p') with d'. change (mapping_pool p') with mem'. split.
  - intros Hidle. apply Hzero in Hidle.
    destruct (Hsame Hidle) as [-> ->]. split; [done|].
    by rewrite lookup_alter_eq, Hm.
  - intros Hbusy.
    assert (Hr1 : r1 ≠ 0) by (intros Hz; apply Hbusy; by apply Hzero).
    destruct (Hqueued Hr1) as (_ & Hwork & _ & Hcounts & _ & _ & _ & ->).
    split; [done|]. split; [done|].
    by rewrite !lookup_alter_eq, Hm.
Qed.

End Provision_more.
(** * A write to a new block, from the deferred list to the disk *)

Section Provision_end_to_end.
Context `{kernel} {M K : Type} `{!thin_metadata M} `{!kcopyd K}.
Implicit Type p : pool M K.

(** [process_bio] on a bio for a block that is not provisioned, when
    the new block is zeroed by kcopyd: the pool afterwards. *)
Lemma provision_step tc bio key key2 p lr pmd1 free data pmd2 m r kc' :
  let block := get_bio_block p bio in
  let k := build_virtual_key (td tc) block key in
  prison_wf (prison p) -> find_cell (prison p) k = None ->
  ENODATA ≠ 0 ->
  dm_thin_find_block (pmd p) (td tc) block 1 = (- ENODATA, lr, pmd1) ->
  dm_pool_get_free_block_count pmd1 = (0, free) ->
  low_water_mark p < free ->
  dm_pool_alloc_data_block pmd1 = (0, data, pmd2) ->
  next_mapping p = Some m ->
  zero_new_blocks p = true -> io_covers_block p bio = false ->
  dm_kcopyd_zero (copier p) (block_region tc data p) m = (r, kc') ->
  0 <= r ->
  exists cell prison1,
    cell_release cell [] prison1 = ([bio], prison p) /\
    process_bio tc bio key key2 p
      = Some (emit (Ev_dm_kcopyd_zero (block_region tc data p) m r)
                (set_copier kc'
                   (set_mapping_pool
                      (alter (init_mapping tc block data cell) m
                             (mapping_pool p))
                      (set_next_mapping None
                         (set_pmd pmd2 (set_prison prison1 p)))))).
Proof.
  intros block k Hwf Hnone Hnodata Hfind Hfree Hlow Halloc Hnext
    Hzero Hcover Hkz Hr.
  destruct (detain_release_absent (prison p) k bio [] Hwf Hnone)
    as (cell & prison1 & Hd & Hrel & _).
  exists cell, prison1. split; [exact Hrel|].
  unfold process_bio, pool_bio_detain. fold block k. rewrite Hd.
  rewrite decide_False by lia.
  change (pmd (set_prison prison1 p)) with (pmd p). rewrite Hfind.
  rewrite decide_False by lia. rewrite decide_True by done.
  unfold provision_block, alloc_data_block.
  cbn [pmd set_pmd]. rewrite Hfree.
  rewrite decide_False by lia.
  rewrite decide_False
    by (cbn [low_water_mark set_pmd set_prison]; lia).
  cbn [pmd set_pmd]. rewrite Halloc.
  rewrite decide_True by done.
  unfold schedule_zero, get_next_mapping.
  cbn [next_mapping set_pmd set_prison]. rewrite Hnext.
  set (q := set_mapping_pool _ _).
  change (zero_new_blocks q) with (zero_new_blocks p).
  change (io_covers_block q bio) with (io_covers_block p bio).
  rewrite Hzero, Hcover. cbn [negb orb].
  change (copier q) with (copier p).
  change (block_region tc data q) with (block_region tc data p).
  rewrite Hkz. rewrite decide_False by lia. done.
Qed.

Lemma delete_alter_same {A} (f : A -> A) (m : gmap nat A) (i : nat) :
  delete i (alter f i m) = delete i m.
Proof.
  apply map_eq. intros j. destruct (decide (j = i)) as [->|Hne].
  - by rewrite !lookup_delete_eq.
  - by rewrite !lookup_delete_ne, lookup_alter_ne.
Qed.

(** X26. A write to a block that is not provisioned, from the
    deferred list to the disk.  A first run of the worker allocates a
    new_mapping and a data block and asks kcopyd to zero the block;
    the bio waits in its cell.  kcopyd reports success through
    [copy_complete], which puts the mapping on the prepared list.  In
    its second run the worker calls [process_prepared_mapping], which
    inserts the mapping in the metadata, puts the bio back on the
    deferred list and frees the mapping; the walk of
    [process_prepared_mappings] then reads the mapping that was freed,
    so that run of [do_worker] as a whole has no defined result.
    [process_deferred_bios], run on the pool that
    [process_prepared_mapping] has left, finds the bio mapped and
    issues it to the device of the pool, at the block the metadata
    gives and at the offset it had in its block; the lists are empty
    afterwards and the prison is as it was. *)
Theorem provisioned_write_is_issued
    tc bio stack stack2 p b lr pmd1 free data pmd2 r kc' pmd3 lr' pmd4 :
  let block := get_bio_block p bio in
  let m := fresh (dom (mapping_pool p)) in
  deferred_bios p = [bio] -> prepared_mappings p = [] ->
  next_mapping p = None ->
  mapping_alloc_ok (size (mapping_pool p)) = true ->
  prison_wf (prison p) ->
  find_cell (prison p) (build_virtual_key (td tc) block (stack 0%nat).1)
    = None ->
  find_cell (prison p) (build_virtual_key (td tc) block (stack2 0%nat).1)
    = None ->
  zero_new_blocks p = true -> io_covers_block p bio = false ->
  bio_mem p !! bio = Some b -> bi_map_info b = ptr_thin_c tc ->
  Z.land (bi_rw b) (Z.lor REQ_FLUSH REQ_FUA) = 0 ->
  ENODATA ≠ 0 ->
  dm_thin_find_block (pmd p) (td tc) block 1 = (- ENODATA, lr, pmd1) ->
  dm_pool_get_free_block_count pmd1 = (0, free) ->
  low_water_mark p < free ->
  dm_pool_alloc_data_block pmd1 = (0, data, pmd2) ->
  dm_kcopyd_zero (copier p) (block_region tc data p) m = (r, kc') ->
  0 <= r ->
  dm_thin_insert_block pmd2 (td tc) block data = (0, pmd3) ->
  dm_thin_find_block pmd3 (td tc) block 1 = (0, lr', pmd4) ->
  shared lr' = false ->
  exists w1 w2,
    do_worker stack p = Some w1 /\
    trace w1 = trace p ++ [Ev_dm_kcopyd_zero (block_region tc data p) m r] /\
    pmd w1 = pmd2 /\ deferred_bios w1 = [] /\
    let c := copy_complete 0 0 m w1 in
    let d := process_prepared_mapping m (set_prepared_mappings [] c) in
    prepared_mappings c = [m] /\
    process_prepared_mappings c = None /\
    do_worker stack2 c = None /\
    pmd d = pmd3 /\ deferred_bios d = [bio] /\ mapping_pool d !! m = None /\
    process_deferred_bios stack2 d = Some w2 /\
    trace w2 = trace p ++
      [Ev_dm_kcopyd_zero (block_region tc data p) m r;
       Ev_queue_work; Ev_queue_work;
       Ev_generic_make_request bio (pool_dev tc)
         (u64 (Z.shiftl (lr_block lr') (block_shift p)
               + Z.land (bi_sector b) (offset_mask p)))] /\
    pmd w2 = pmd4 /\ prison w2 = prison p /\
    deferred_bios w2 = [] /\ prepared_mappings w2 = [] /\
    retry_list w2 = retry_list p /\
    bi_bdev <$> bio_mem w2 !! bio = Some (pool_dev tc).
Proof.
  intros block m Hdef Hprep Hnext Hok Hwf Hnone Hnone2 Hzero Hcover Hb Hmi
    Hrw Hnodata Hfind Hfree Hlow Halloc Hkz Hr Hins Hfind' Hsh.
  assert (Hm : mapping_pool p !! m = None)
    by (apply not_elem_of_dom, is_fresh).
  (* the first run of the worker *)
  set (pc := set_next_mapping (Some m)
               (set_mapping_pool (<[m := uninit_mapping]> (mapping_pool p))
                  (set_deferred_bios [] (set_prepared_mappings [] p)))).
  destruct (provision_step tc bio (stack 0%nat).1 (stack 0%nat).2 pc
              lr pmd1 free data pmd2 m r kc')
    as (cell & prison1 & Hrel & Hpb); try done.
  change (get_bio_block pc bio) with block in Hpb.
  change (block_region tc data pc) with (block_region tc data p) in Hpb.
  change (prison pc) with (prison p) in Hrel.
  set (w1 := emit _ _) in Hpb.
  assert (Hw1 : do_worker stack p = Some w1).
  { unfold do_worker, process_prepared_mappings, list_splice_init.
    rewrite Hprep. cbn [app process_prepared_loop].
    unfold process_deferred_bios, bio_list_merge.
    cbn [deferred_bios set_prepared_mappings]. rewrite Hdef.
    cbn [app process_deferred_loop]. unfold ensure_next_mapping.
    cbn [next_mapping mapping_pool set_deferred_bios set_prepared_mappings].
    rewrite Hnext, Hok. fold m. fold pc.
    rewrite decide_False by (intros Hne; by apply Hne).
    change (bio_mem pc) with (bio_mem p). rewrite Hb.
    cbn [fmap option_fmap option_map].
    rewrite Hmi, Hpb. done. }
  (* kcopyd reports the block zeroed *)
  set (mp2 := {| m_list := LIST_LINKED; prepared := 1; m_tc := tc;
                 virt_block := block; data_block := data; m_cell := cell;
                 err := 0; m_bio := None;
                 saved_bi_end_io := saved_bi_end_io uninit_mapping |}).
  set (c1 := wake_worker
               (set_mapping_pool (<[m := mp2]> (mapping_pool p))
                  (set_prepared_mappings [m] w1))).
  assert (Hc1 : copy_complete 0 0 m w1 = c1).
  { unfold c1, copy_complete.
    rewrite decide_False by (intros [?|?]; done).
    set (q2 := set_mapping_pool _ (set_mapping_pool _ w1)).
    assert (Hq2 : mapping_pool q2
              = <[m := set_prepared 1
                         (set_err 0 (init_mapping tc block data cell
                                       uninit_mapping))]> (mapping_pool p)).
    { unfold q2, w1, pc, emit.
      cbn [mapping_pool set_mapping_pool set_trace set_copier
           set_next_mapping set_pmd set_prison set_deferred_bios
           set_prepared_mappings].
      apply map_eq. intros i. destruct (decide (i = m)) as [->|Hne].
      - by rewrite !lookup_alter_eq, !lookup_insert_eq.
      - by rewrite !lookup_alter_ne, !lookup_insert_ne. }
    unfold __maybe_add_mapping, list_empty.
    rewrite Hq2, lookup_insert_eq.
    cbn [m_list prepared set_prepared set_err init_mapping].
    rewrite bool_decide_eq_true_2 by done.
    rewrite bool_decide_eq_true_2 by done.
    cbn [andb list_add]. f_equal.
    change (prepared_mappings q2) with (@nil mapping_ptr).
    assert (Hpool : alter (set_m_list LIST_LINKED) m
              (<[m := set_prepared 1
                        (set_err 0 (init_mapping tc block data cell
                                      uninit_mapping))]> (mapping_pool p))
              = <[m := mp2]> (mapping_pool p)).
    { apply map_eq. intros i. destruct (decide (i = m)) as [->|Hne].
      - by rewrite lookup_alter_eq, !lookup_insert_eq.
      - by rewrite lookup_alter_ne, !lookup_insert_ne. }
    rewrite Hpool. done. }
  (* the prepared mapping is processed *)
  set (d1 := set_mapping_pool (mapping_pool p)
               (wake_worker
                  (set_deferred_bios [bio]
                     (set_prison (prison p)
                        (set_pmd pmd3 (set_prepared_mappings [] c1)))))).
  assert (Hd1 : process_prepared_mapping m (set_prepared_mappings [] c1) = d1).
  { unfold process_prepared_mapping.
    assert (Hmp1 : mapping_pool (set_prepared_mappings [] c1) !! m
              = Some mp2)
      by (unfold c1, wake_worker, emit;
          cbn [mapping_pool set_prepared_mappings set_trace set_mapping_pool];
          by rewrite lookup_insert_eq).
    rewrite Hmp1. cbn [m_bio m_tc mp2 err virt_block data_block m_cell].
    rewrite decide_False by (intros Hne; by apply Hne).
    change (pmd (set_prepared_mappings [] c1)) with pmd2. rewrite Hins.
    rewrite decide_False by (intros Hne; by apply Hne).
    unfold cell_defer.
    change (prison (set_pmd pmd3 (set_prepared_mappings [] c1)))
      with prison1.
    change (deferred_bios (set_pmd pmd3 (set_prepared_mappings [] c1)))
      with (@nil bio_ptr).
    rewrite Hrel.
    assert (Hdel : delete m
              (mapping_pool
                 (wake_worker
                    (set_deferred_bios [bio]
                       (set_prison (prison p)
                          (set_pmd pmd3 (set_prepared_mappings [] c1))))))
              = mapping_pool p).
    { unfold c1, wake_worker, emit.
      cbn [mapping_pool set_prepared_mappings set_trace
           set_mapping_pool set_deferred_bios set_prison set_pmd].
      by apply delete_insert_id. }
    rewrite Hdel. done. }
  assert (Hfreed : mapping_pool d1 !! m = None) by exact Hm.
  assert (Hwalk : process_prepared_mappings c1 = None).
  { unfold process_prepared_mappings, list_splice_init.
    change (prepared_mappings c1) with [m].
    cbn [app process_prepared_loop]. rewrite Hd1.
    rewrite decide_False; [done|]. by apply not_elem_of_dom. }
  (* the deferred bio is processed *)
  set (pd := set_next_mapping (Some m)
               (set_mapping_pool (<[m := uninit_mapping]> (mapping_pool p))
                  (set_deferred_bios [] d1))).
  set (w2 := generic_make_request bio
               (remap tc bio (lr_block lr') (set_pmd pmd4 pd))).
  assert (Hbm : bio_mem (set_pmd pmd4 pd) !! bio = Some b) by exact Hb.
  assert (Hpd : process_bio tc bio (stack2 0%nat).1 (stack2 0%nat).2 pd
            = Some w2).
  { rewrite (process_bio_mapped tc bio _ _ pd lr' pmd4) by done.
    unfold remap_and_issue. rewrite (flush_or_fua_eq bio _ b Hbm).
    by rewrite bool_decide_eq_false_2 by (intros Hne; by apply Hne). }
  assert (Hw2 : process_deferred_bios stack2 d1 = Some w2).
  { unfold process_deferred_bios, bio_list_merge.
    change (deferred_bios d1) with [bio].
    cbn [app process_deferred_loop]. unfold ensure_next_mapping.
    assert (Hnx : next_mapping (set_deferred_bios [] d1) = None) by done.
    rewrite Hnx.
    change (mapping_pool (set_deferred_bios [] d1)) with (mapping_pool p).
    rewrite Hok. fold m. fold pd.
    rewrite decide_False by (intros Hne; by apply Hne).
    change (bio_mem pd) with (bio_mem p). rewrite Hb.
    cbn [fmap option_fmap option_map].
    rewrite Hmi, Hpd. done. }
  destruct (remap_bio_mem tc bio (lr_block lr') (set_pmd pmd4 pd) b Hbm)
    as [Hb2 _].
  exists w1, w2. split; [exact Hw1|]. split; [done|]. split; [done|].
  split; [done|]. cbv zeta. rewrite Hc1, Hd1.
  split; [done|]. split; [exact Hwalk|].
  split; [unfold do_worker; by rewrite Hwalk|].
  split; [done|]. split; [done|]. split; [exact Hfreed|].
  split; [exact Hw2|].
  unfold w2, generic_make_request. rewrite Hb2.
  split_and!.
  - unfold pd, d1, c1, wake_worker, emit.
    cbn [trace set_trace remap set_bio_mem set_pmd set_next_mapping
         set_mapping_pool set_deferred_bios wake_worker emit set_prison
         set_prepared_mappings w1 set_copier bi_bdev bi_sector remapped
         block_shift offset_mask].
    rewrite <- !app_assoc. done.
  - done.
  - done.
  - done.
  - done.
  - done.
  - cbn [bio_mem emit set_trace]. by rewrite Hb2.
Qed.

End Provision_end_to_end.
(** * The further theorems at work on the example host *)

#[local] Existing Instance More_examples.example_kernel_lib.
#[local] Existing Instance More_examples.example_admin.

Section More_example_facts.
Import Examples More_examples.

Lemma prison0_counted : cells_counted prison0.
Proof. intros c Hc. inversion Hc. Qed.

Lemma cell0_linked : cell0 ∈ linked prison1.
Proof. rewrite prison1_linked. by left. Qed.

Lemma prison_single_linked : linked prison_single = [cell_single].
Proof. reflexivity. Qed.

Lemma prison_single_wf : prison_wf prison_single.
Proof.
  apply (wf_insert (set_cell_pool (fun _ => {[3%nat]}) prison0) key0 3%nat 1
                   [20%nat]).
  - apply wf_set_cell_pool; [apply prison0_wf|]. intros a Ha. inversion Ha.
  - reflexivity.
  - intros Ha. inversion Ha.
  - change (3%nat ∈ ({[3%nat]} : gset cell_ptr)). by apply elem_of_singleton.
Qed.

Lemma cell_single_linked : cell_single ∈ linked prison_single.
Proof. rewrite prison_single_linked. by left. Qed.

(** [ds_one_read] is reached from [ds_init] by a [ds_inc] and a
    [ds_add_work]. *)
Lemma ds_reading_reachable : ds_reachable ds_reading.
Proof.
  apply (reach_inc ds_init 0%nat ds_reading reach_init); by vm_compute.
Qed.

Lemma ds_reading_wf : ds_wf ds_reading.
Proof.
  apply ds_wf_checked; [reflexivity|vm_compute; lia|vm_compute; lia|].
  apply (bool_decide_unpack _). vm_compute. exact I.
Qed.

Lemma ds_one_read_reachable : ds_reachable ds_one_read.
Proof.
  apply (reach_add_work ds_reading 100%nat ∅ 1 ds_one_read ∅
           ds_reading_reachable).
  by vm_compute.
Qed.

Lemma ds_one_read_others i : i ≠ 0%nat -> count_at ds_one_read i = 0.
Proof.
  intros Hi. destruct i as [|i]; [done|]. unfold count_at, ds_one_read.
  cbn [entries lookup list_lookup].
  destruct (replicate 63 _ !! i) as [e|] eqn:He; [|done].
  by apply lookup_replicate in He as [-> _].
Qed.

(** The read 22 is detained under [key0] in the empty prison, and
    released. *)
Lemma detain_release_round_trip_witness :
  exists cell prison1,
    bio_detain prison0 key0 22%nat = Some (0, cell, prison1) /\
    cell_release cell [] prison1 = ([] ++ [22%nat], prison0) /\
    cell_release_singleton cell 22%nat prison1 = Some prison0.
Proof.
  apply (detain_release_round_trip prison0 key0 22%nat []).
  - exact prison0_wf.
  - by vm_compute.
Defined.

(** The cell that holds the write 20 only. *)
Lemma cell_release_singleton_sole_inmate_witness :
  (bios cell_single = [20%nat] ->
     exists prison',
       cell_release_singleton
           (cell_addr cell_single) 20%nat prison_single = Some prison' /\
       linked prison' = others_linked (cell_addr cell_single) prison_single /\
       prison_wf prison') /\
  (bios cell_single ≠ [20%nat] ->
     cell_release_singleton (cell_addr cell_single) 20%nat prison_single
         = None).
Proof.
  apply (cell_release_singleton_sole_inmate prison_single cell_single 20%nat).
  - exact prison_single_wf.
  - exact cell_single_linked.
Defined.

(** A third bio for the cell that holds the bios 20 and 21. *)
Lemma detain_then_release_in_order_witness :
  exists prison2,
    bio_detain prison1 (key cell0) 22%nat
      = Some (Z.of_nat (length (bios cell0)), cell_addr cell0, prison2) /\
    (cell_release (cell_addr cell0) [] prison2).1
      = [] ++ bios cell0 ++ [22%nat] /\
    linked (cell_release (cell_addr cell0) [] prison2).2
      = others_linked (cell_addr cell0) prison1.
Proof.
  apply (detain_then_release_in_order prison1 cell0 22%nat []).
  - exact prison1_wf.
  - exact prison1_counted.
  - exact cell0_linked.
Defined.

(** A second read while the first is in flight and a waiter is queued.
    *)
Lemma ds_inc_dec_round_trip_witness :
  exists d1,
    ds_inc ds_one_read = Some (current_entry ds_one_read, d1) /\
    ds_dec (current_entry ds_one_read) [] d1 = Some (ds_one_read, []).
Proof.
  apply (ds_inc_dec_round_trip ds_one_read []).
  - exact ds_one_read_reachable.
  - by vm_compute.
Defined.

(** The only read in flight ends. *)
Lemma ds_last_reference_drains_all_witness :
  exists d' head',
    ds_dec 0%nat [] ds_one_read = Some (d', head') /\
    (forall i, count_at d' i = 0 /\ work_at d' i = []) /\
    sweeper d' = current_entry d' /\ current_entry d'
        = current_entry ds_one_read /\
    head' ≡ₚ all_work ds_one_read ++ [].
Proof.
  apply (ds_last_reference_drains_all ds_one_read 0%nat []).
  - exact ds_one_read_reachable.
  - vm_compute. lia.
  - by vm_compute.
  - exact ds_one_read_others.
Defined.

(** A second waiter behind the read in flight. *)
Lemma ds_add_work_defers_iff_counted_witness :
  exists r d' mem',
    ds_add_work ds_one_read 101%nat (∅ : mapping_mem) = Some (r, d', mem') /\
    (r = 0 \/ r = 1) /\
    (r = 0 <-> forall i, count_at ds_one_read i = 0) /\
    (r = 0 -> d' = ds_one_read /\ mem' = (∅ : mapping_mem)).
Proof.
  apply (ds_add_work_defers_iff_counted ds_one_read 101%nat
      (∅ : mapping_mem)).
  - exact ds_one_read_reachable.
Defined.

(** The deferred set with one read and one waiter. *)
Lemma ds_conserves_work_witness :
  (forall entry head,
     (entry < DEFERRED_SET_SIZE)%nat -> 0 < count_at ds_one_read entry ->
     exists d' head',
       ds_dec entry head ds_one_read = Some (d', head') /\
       all_work d' ++ head' ≡ₚ all_work ds_one_read ++ head) /\
  (forall work mem,
     exists r d' mem',
       ds_add_work ds_one_read work mem = Some (r, d', mem') /\
       (r = 0 -> all_work d' = all_work ds_one_read) /\
       (r ≠ 0 -> all_work d' ≡ₚ work :: all_work ds_one_read)).
Proof.
  apply (ds_conserves_work ds_one_read).
  - exact ds_one_read_wf.
Defined.

(** Blocks of 128 sectors. *)
Lemma remap_keeps_offset_witness :
  exists p0, pool_create md0 0%nat (2 ^ 7) bios0 = Some p0 /\
    sectors_per_block p0 = 2 ^ 7 /\
    forall (p : example_pool) tc bio b block,
      block_shift p = block_shift p0 -> offset_mask p = offset_mask p0 ->
      bio_mem p !! bio = Some b ->
      0 <= bi_sector b -> 0 <= block -> (block + 1) * 2 ^ 7 <= 2 ^ 64 ->
      get_bio_block p bio = bi_sector b / 2 ^ 7 /\
      exists b',
        bio_mem (remap tc bio block p) !! bio = Some b' /\
        bi_sector b' = block * 2 ^ 7 + bi_sector b mod 2 ^ 7 /\
        bi_bdev b' = pool_dev tc /\
        bi_rw b' = bi_rw b /\ bi_size b' = bi_size b /\
        bi_end_io b' = bi_end_io b /\ bi_map_info b' = bi_map_info b /\
        get_bio_block (remap tc bio block p) bio = block.
Proof.
  apply (remap_keeps_offset md0 0%nat 7 bios0).
  - by vm_compute.
Defined.

(** The read at sector 130 of a target that starts at sector 2: block 1,
    which is mapped to the data block 5. *)
Lemma thin_map_translates_sector_witness :
  let tc := tt_private thin_target0 in
  let sector := bi_sector read1 - tt_begin thin_target0 in
  let ret := (thin_map thin_target0 22%nat pool0).1 in
  let p' := (thin_map thin_target0 22%nat pool0).2 in
  ret = DM_MAPIO_REMAPPED /\
  bio_mem p' !! 22%nat
    = Some {| bi_rw := bi_rw read1;
              bi_sector := lr_block (Lookup_result 5 false) * 2 ^ 7 +
                  sector mod 2 ^ 7;
              bi_size := bi_size read1;
              bi_bdev := pool_dev tc;
              bi_end_io := bi_end_io read1;
              bi_map_info := ptr_thin_c tc |} /\
  (forall bio', bio' ≠ 22%nat -> bio_mem p' !! bio'
      = bio_mem pool0 !! bio') /\
  deferred_bios p' = deferred_bios pool0 /\ trace p' = trace pool0 /\
      pmd p' = md0.
Proof.
  apply (thin_map_translates_sector thin_target0 22%nat pool0 read1 7
      (Lookup_result 5 false) md0).
  - by vm_compute.
  - by vm_compute.
  - by vm_compute.
  - by vm_compute.
  - by vm_compute.
  - by vm_compute.
  - by vm_compute.
  - by vm_compute.
  - by vm_compute.
  - by vm_compute.
Defined.

(** A third write into block 0 while its cell holds two. *)
Lemma process_bio_waits_in_held_cell_witness :
  let k := build_virtual_key (td tc0) (get_bio_block pool_held 26%nat) stack0 in
  exists prison1,
    process_bio tc0 26%nat stack0 stack0 pool_held = Some (set_prison prison1 pool_held) /\
    prison_wf prison1 /\
    inmates prison1 k = inmates (prison pool_held) k ++ [26%nat] /\
    (forall k', k' ≠ k -> inmates prison1 k' = inmates (prison pool_held) k').
Proof.
  apply (process_bio_waits_in_held_cell tc0 26%nat stack0 stack0 pool_held).
  - exact prison1_wf.
  - exact prison1_counted.
  - by vm_compute.
Defined.

(** The read of block 1, which is mapped and not shared. *)
Lemma process_bio_remaps_mapped_block_witness :
  process_bio tc0 22%nat stack0 stack0 pool0
    = remap_and_issue tc0 22%nat (lr_block (Lookup_result 5 false))
        (set_pmd md0 pool0).
Proof.
  apply (process_bio_remaps_mapped_block tc0 22%nat stack0 stack0 pool0
      (Lookup_result 5 false) md0).
  - exact prison0_wf.
  - by vm_compute.
  - by vm_compute.
  - by vm_compute.
Defined.

(** The read of block 2, which is shared. *)
Lemma shared_read_round_trip_witness :
  exists p1 p2,
    process_bio tc0 24%nat stack0 stack0 pool0 = Some p1 /\
    shared_read_endio 24%nat 0 p1 = Some p2 /\
    count_at (ds p1) (current_entry (ds pool0))
      = count_at (ds pool0) (current_entry (ds pool0)) + 1 /\
    bi_end_io <$> bio_mem p1 !! 24%nat = Some shared_read_endio_fn /\
    trace p1 = trace pool0 ++
      [Ev_generic_make_request 24%nat (pool_dev tc0)
         (u64 (Z.shiftl (lr_block (Lookup_result 6 true)) (block_shift pool0)
               + Z.land (bi_sector read2) (offset_mask pool0)))] /\
    trace p2 = trace p1 ++ [Ev_bio_endio 24%nat 0] /\
    bi_end_io <$> bio_mem p2 !! 24%nat = Some (bi_end_io read2) /\
    ds p2 = ds pool0 /\ endio_hook_pool p2 = endio_hook_pool pool0 /\
    prison p2 = prison pool0 /\ pmd p2 = md0 /\
    mapping_pool p2 = mapping_pool pool0 /\
    prepared_mappings p2 = prepared_mappings pool0 /\
    deferred_bios p2 = deferred_bios pool0 /\ retry_list p2
        = retry_list pool0.
Proof.
  apply (shared_read_round_trip tc0 24%nat stack0 stack0 pool0 read2
      (Lookup_result 6 true) md0 0).
  - exact prison0_wf.
  - by vm_compute.
  - by vm_compute.
  - by vm_compute.
  - by vm_compute.
  - by vm_compute.
  - by vm_compute.
  - by vm_compute.
  - exact reach_init.
  - by vm_compute.
Defined.

(** The write 20 into a new block of a pool that does not zero. *)
Lemma overwrite_round_trip_witness :
  exists p1,
    schedule_zero tc0 0 7 3%nat 20%nat pool_no_zero = Some p1 /\
    trace p1 = trace pool_no_zero ++
      [Ev_generic_make_request 20%nat (pool_dev tc0)
         (u64 (Z.shiftl 7 (block_shift pool_no_zero)
               + Z.land (bi_sector write0) (offset_mask pool_no_zero)))] /\
    bi_end_io <$> bio_mem p1 !! 20%nat = Some overwrite_endio_fn /\
    prepared_mappings p1 = prepared_mappings pool_no_zero /\
    next_mapping p1 = None /\
    let p2 := overwrite_endio 20%nat 0 p1 in
    prepared_mappings p2 = 0%nat :: prepared_mappings pool_no_zero /\
    trace p2 = trace p1 ++ [Ev_queue_work] /\
    mapping_pool p2 !! 0%nat
      = Some {| m_list := LIST_LINKED; prepared := 1; m_tc := tc0;
                virt_block := 0; data_block := 7; m_cell := 3%nat;
                err := 0; m_bio := Some 20%nat;
                saved_bi_end_io := bi_end_io write0 |} /\
    bi_end_io <$> bio_mem (process_prepared_mapping 0%nat p2) !! 20%nat
      = Some (bi_end_io write0).
Proof.
  apply (overwrite_round_trip tc0 0 7 3%nat 20%nat pool_no_zero 0%nat example_uninit_mapping write0 0).
  - by vm_compute.
  - by vm_compute.
  - by vm_compute.
  - by vm_compute.
  - left. by vm_compute.
Defined.

(** The worker runs on two deferred reads, with nothing prepared. *)
Lemma do_worker_defers_tail_witness :
  do_worker stack_zeros pool_deferred = Some pool_worked /\
  deferred_bios pool_worked = [] /\
  exists q,
    process_prepared_mappings pool_deferred = Some q /\
    deferred_bios pool_worked `suffix_of` deferred_bios q /\
    (deferred_bios pool_worked ≠ [] ->
       next_mapping pool_worked = None /\
       mapping_alloc_ok (size (mapping_pool pool_worked)) = false).
Proof.
  split; [by vm_compute|]. split; [by vm_compute|].
  apply (do_worker_defers_tail stack_zeros pool_deferred pool_worked).
  by vm_compute.
Defined.

(** The prepared mapping of the write 20 is installed and freed, and
    the walk reads it. *)
Lemma process_prepared_mappings_reads_freed_witness :
  let q := process_prepared_mapping 0%nat
             (set_prepared_mappings [] pool_prepared) in
  (err mapping0 = 0 /\ 0 = 0 ->
     mapping_pool q !! 0%nat = None /\
     process_prepared_mappings pool_prepared = None /\
     do_worker stack_zeros pool_prepared = None) /\
  (err mapping0 ≠ 0 \/ 0 ≠ 0 ->
     mapping_pool q !! 0%nat = Some mapping0 /\
     process_prepared_mappings pool_prepared = process_prepared_loop [] q).
Proof.
  apply (process_prepared_mappings_reads_freed stack_zeros 0%nat []
           pool_prepared mapping0 0 (example_insert_block md0 1 0 7).2).
  - by vm_compute.
  - by vm_compute.
  - by vm_compute.
Defined.

(** The bios 20 and 21 are parked, and the pool is resumed with a
    table one block shorter than the data device: [pool_preresume]
    returns [-EINVAL], the bios stay on the retry list, the flag stays
    set and the worker is not woken. *)
Lemma pool_preresume_all_or_nothing_witness :
  let p' := (pool_preresume target_small pool_parked).2 in
  retry_list pool_parked = [20%nat; 21%nat] /\
  (pool_preresume target_small pool_parked).1 = - EINVAL /\
  (- EINVAL = 0 ->
     deferred_bios p' = deferred_bios pool_parked ++ retry_list pool_parked /\
     retry_list p' = [] /\
     low_water_triggered p' = 0 /\
     trace p' = trace pool_parked ++ [Ev_queue_work]) /\
  (- EINVAL ≠ 0 ->
     deferred_bios p' = deferred_bios pool_parked /\
     retry_list p' = retry_list pool_parked /\
     low_water_triggered p' = low_water_triggered pool_parked /\
     trace p' = trace pool_parked).
Proof.
  split; [by vm_compute|]. split; [by vm_compute|].
  apply (pool_preresume_all_or_nothing target_small pool_parked).
  - by vm_compute.
  - by vm_compute.
Defined.

(** A device id one above [MAX_DEV_ID]. *)
Lemma pool_message_rejects_invalid_witness :
  (strcasecmp "create_thin" "create_thin" ≠ 0 ->
      strcasecmp "create_thin" "create_snap" ≠ 0 ->
   strcasecmp "create_thin" "delete" ≠ 0 ->
       strcasecmp "create_thin" "trim" ≠ 0 ->
   strcasecmp "create_thin" "set_transaction_id" ≠ 0 ->
   pool_message ("create_thin" :: ["16777216"]) pool0 = Some
       (- EINVAL, pool0)) /\
  (strcasecmp "create_thin" "create_thin" = 0 ->
      length ["16777216"] ≠ 1%nat ->
   pool_message ("create_thin" :: ["16777216"]) pool0 = Some
       (- EINVAL, pool0)) /\
  (forall a r dev_id,
     strcasecmp "create_thin" "create_thin" = 0 -> ["16777216"] = [a] ->
     kstrtoull a 10 = (r, dev_id) -> r ≠ 0 \/ MAX_DEV_ID < dev_id ->
     pool_message ("create_thin" :: ["16777216"]) pool0 = Some
         (- EINVAL, pool0)) /\
  (forall a o r dev_id r' origin,
     strcasecmp "create_thin" "create_thin" ≠ 0 ->
         strcasecmp "create_thin" "create_snap" = 0 ->
     ["16777216"] = [a; o] ->
     kstrtoull a 10 = (r, dev_id) -> kstrtoull o 10 = (r', origin) ->
     r ≠ 0 \/ MAX_DEV_ID < dev_id \/ r' ≠ 0 \/ MAX_DEV_ID < origin ->
     pool_message ("create_thin" :: ["16777216"]) pool0 = Some
         (- EINVAL, pool0)).
Proof.
  apply (pool_message_rejects_invalid "create_thin" ["16777216"] pool0).
  - by vm_compute.
Defined.

(** The thin device 7 is created. *)
Lemma pool_message_create_thin_commits_witness :
  (0 ≠ 0 -> pool_message ["CREATE_THIN"; "7"] pool0 = Some
      (0, set_pmd md0 pool0)) /\
  (0 = 0 ->
   pool_message ["CREATE_THIN"; "7"] pool0
     = Some ((dm_pool_commit_metadata md0).1,
             set_pmd (dm_pool_commit_metadata md0).2 pool0)).
Proof.
  apply (pool_message_create_thin_commits "CREATE_THIN" "7" pool0 7 0 md0).
  - by vm_compute.
  - by vm_compute.
  - by vm_compute.
  - by vm_compute.
Defined.

(** The write 20 into block 0, which is not provisioned. *)
Lemma provision_zeroes_new_block_witness :
  let block := get_bio_block pool_ahead 20%nat in
  let k := build_virtual_key (td tc0) block stack0 in
  exists p' cell,
    process_bio tc0 20%nat stack0 stack0 pool_ahead = Some p' /\
    trace p' = trace pool_ahead ++ [Ev_dm_kcopyd_zero
        (block_region tc0 7 pool_ahead) 0%nat 0] /\
    pmd p' = md0_taken /\ bio_mem p' = bio_mem pool_ahead /\
    inmates (prison p') k = [20%nat] /\
    (forall k', k' ≠ k -> inmates (prison p') k' = inmates
        (prison pool_ahead) k') /\
    mapping_pool p' !! 0%nat = Some
        (init_mapping tc0 block 7 cell example_uninit_mapping) /\
    next_mapping p' = None /\
    prepared_mappings p' = prepared_mappings pool_ahead /\
    deferred_bios p' = deferred_bios pool_ahead /\
    let p2 := copy_complete 0 0 0%nat p' in
    prepared_mappings p2 = 0%nat :: prepared_mappings pool_ahead /\
    trace p2 = trace p' ++ [Ev_queue_work] /\
    mapping_pool p2 !! 0%nat
      = Some {| m_list := LIST_LINKED; prepared := 1; m_tc := tc0;
                virt_block := block; data_block := 7; m_cell := cell;
                err := 0; m_bio := None;
                saved_bi_end_io := saved_bi_end_io example_uninit_mapping |}.
Proof.
  apply (provision_zeroes_new_block tc0 20%nat stack0 stack0 pool_ahead
      (Lookup_result 0 false) md0 10 7 md0_taken 0%nat example_uninit_mapping 0 1%nat).
  - exact prison0_wf.
  - exact prison0_counted.
  - by vm_compute.
  - by vm_compute.
  - by vm_compute.
  - by vm_compute.
  - by vm_compute.
  - by vm_compute.
  - by vm_compute.
  - by vm_compute.
  - by vm_compute.
  - by vm_compute.
  - by vm_compute.
  - by vm_compute.
Defined.

(** The write 25 into block 2, which is shared, with no read in flight.
    *)
Lemma break_sharing_copies_block_witness :
  let block := get_bio_block pool_ahead 25%nat in
  let k := build_virtual_key (td tc0) block stack0 in
  let k2 := build_data_key (td tc0) (lr_block (Lookup_result 6 true)) stack0 in
  let cur := current_entry (ds pool_ahead) in
  let idle := sweeper (ds pool_ahead) = cur /\ count_at
      (ds pool_ahead) cur = 0 in
  exists p' cell,
    process_bio tc0 25%nat stack0 stack0 pool_ahead = Some p' /\
    trace p' = trace pool_ahead ++
      [Ev_dm_kcopyd_copy (block_region tc0 (lr_block
          (Lookup_result 6 true)) pool_ahead)
         (block_region tc0 7 pool_ahead) 0%nat 0] /\
    pmd p' = md0_taken /\ bio_mem p' = bio_mem pool_ahead /\
    inmates (prison p') k2 = [25%nat] /\
    (forall k', k' ≠ k2 -> inmates (prison p') k' = inmates
        (prison pool_ahead) k') /\
    next_mapping p' = None /\
    prepared_mappings p' = prepared_mappings pool_ahead /\
    deferred_bios p' = deferred_bios pool_ahead /\
    (idle ->
       ds p' = ds pool_ahead /\
       mapping_pool p' !! 0%nat = Some
           (init_mapping tc0 block 7 cell example_uninit_mapping)) /\
    (~ idle ->
       work_at (ds p') cur = 0%nat :: work_at (ds pool_ahead) cur /\
       (forall i, count_at (ds p') i = count_at (ds pool_ahead) i) /\
       mapping_pool p' !! 0%nat
         = Some (set_m_list LIST_LINKED
                   (init_mapping tc0 block 7 cell example_uninit_mapping))).
Proof.
  apply (break_sharing_copies_block tc0 25%nat stack0 stack0 pool_ahead write2
      (Lookup_result 6 true) md0 10 7 md0_taken 0%nat example_uninit_mapping 0 1%nat).
  - exact prison0_wf.
  - exact prison0_counted.
  - by vm_compute.
  - by vm_compute.
  - by vm_compute.
  - by vm_compute.
  - by vm_compute.
  - by vm_compute.
  - by vm_compute.
  - by vm_compute.
  - by vm_compute.
  - by vm_compute.
  - by vm_compute.
  - exact ds_init_wf.
  - by vm_compute.
  - by vm_compute.
  - by vm_compute.
Defined.

(** The write 20 into block 0, which is not provisioned, is on the
    deferred list. *)
Lemma provisioned_write_is_issued_witness :
  let block := get_bio_block pool_write_deferred 20%nat in
  let m := fresh (dom (mapping_pool pool_write_deferred)) in
  exists w1 w2,
    do_worker stack_zeros pool_write_deferred = Some w1 /\
    trace w1 = trace pool_write_deferred ++ [Ev_dm_kcopyd_zero
        (block_region tc0 7 pool_write_deferred) m 0] /\
    pmd w1 = md0_taken /\ deferred_bios w1 = [] /\
    let c := copy_complete 0 0 m w1 in
    let d := process_prepared_mapping m (set_prepared_mappings [] c) in
    prepared_mappings c = [m] /\
    process_prepared_mappings c = None /\
    do_worker stack_zeros c = None /\
    pmd d = md0_written /\ deferred_bios d = [20%nat] /\
    mapping_pool d !! m = None /\
    process_deferred_bios stack_zeros d = Some w2 /\
    trace w2 = trace pool_write_deferred ++
      [Ev_dm_kcopyd_zero (block_region tc0 7 pool_write_deferred) m 0;
       Ev_queue_work; Ev_queue_work;
       Ev_generic_make_request 20%nat (pool_dev tc0)
         (u64 (Z.shiftl (lr_block (Lookup_result 7 false))
             (block_shift pool_write_deferred)
               + Z.land (bi_sector write0)
                   (offset_mask pool_write_deferred)))] /\
    pmd w2 = md0_written /\ prison w2 = prison pool_write_deferred /\
    deferred_bios w2 = [] /\ prepared_mappings w2 = [] /\
    retry_list w2 = retry_list pool_write_deferred /\
    bi_bdev <$> bio_mem w2 !! 20%nat = Some (pool_dev tc0).
Proof.
  apply (provisioned_write_is_issued tc0 20%nat stack_zeros stack_zeros
      pool_write_deferred write0
      (Lookup_result 0 false) md0 10 7 md0_taken 0 1%nat md0_written
          (Lookup_result 7 false) md0_written).
  - by vm_compute.
  - by vm_compute.
  - by vm_compute.
  - by vm_compute.
  - exact prison0_wf.
  - by vm_compute.
  - by vm_compute.
  - by vm_compute.
  - by vm_compute.
  - by vm_compute.
  - by vm_compute.
  - by vm_compute.
  - by vm_compute.
  - by vm_compute.
  - by vm_compute.
  - by vm_compute.
  - by vm_compute.
  - by vm_compute.
  - by vm_compute.
  - by vm_compute.
  - by vm_compute.
  - by vm_compute.
Defined.

End More_example_facts.

(** ** A metadata object whose lookups fail *)

Section Failing_lookups.
Import Examples More_examples.
#[local] Existing Instance example_metadata_failing.

(** The read 22 when the lookup fails with [-EIO]. *)
Lemma thin_bio_map_passes_errors_witness :
  thin_bio_map tc0 22%nat pool0
    = ((- 5), set_pmd md0
            (set_bio_mem
               (<[22%nat := set_bi_map_info (ptr_thin_c tc0) read1]>
                   (bio_mem pool0)) pool0)).
Proof.
  apply (thin_bio_map_passes_errors tc0 22%nat pool0 read1 (- 5)
      (Lookup_result 0 false) md0).
  - by vm_compute.
  - by vm_compute.
  - by vm_compute.
  - by vm_compute.
  - by vm_compute.
  - by vm_compute.
Defined.

(** The read 22 when the lookup fails with [-EIO]. *)
Lemma process_bio_lookup_error_keeps_cell_witness :
  let block := get_bio_block pool0 22%nat in
  let k := build_virtual_key (td tc0) block stack0 in
  exists prison1,
    process_bio tc0 22%nat stack0 stack0 pool0
      = Some (bio_io_error 22%nat (set_pmd md0 (set_prison prison1 pool0))) /\
    inmates prison1 k = [22%nat] /\
    (forall k', k' ≠ k -> inmates prison1 k' = inmates (prison pool0) k').
Proof.
  apply (process_bio_lookup_error_keeps_cell tc0 22%nat stack0 stack0 pool0 (- 5)
      (Lookup_result 0 false) md0).
  - exact prison0_wf.
  - exact prison0_counted.
  - by vm_compute.
  - by vm_compute.
  - by vm_compute.
  - by vm_compute.
Defined.

End Failing_lookups.

(** ** A kcopyd client that refuses its jobs *)

Section Failing_copies.
Import Examples More_examples.
#[local] Existing Instance example_kcopyd_failing.

(** A copy for the cell of [key0] while a read is in flight. *)
Lemma schedule_copy_failure_leaves_work_witness :
  exists p',
    schedule_copy tc0 0 6 7 (cell_addr cell0) 20%nat pool_read_in_flight
        = Some p' /\
    mapping_pool p' !! 0%nat = None /\
    work_at (ds p') (current_entry (ds pool_read_in_flight))
      = 0%nat :: work_at (ds pool_read_in_flight) (current_entry
          (ds pool_read_in_flight)) /\
    trace p' = trace pool_read_in_flight ++
      Ev_dm_kcopyd_copy (block_region tc0 6 pool_read_in_flight)
          (block_region tc0 7 pool_read_in_flight)
        0%nat (- 12) :: io_errors (bios cell0) /\
    linked (prison p') = others_linked (cell_addr cell0)
        (prison pool_read_in_flight) /\
    prepared_mappings p' = prepared_mappings pool_read_in_flight /\
        next_mapping p' = None.
Proof.
  apply (schedule_copy_failure_leaves_work tc0 0 6 7 cell0 20%nat pool_read_in_flight 0%nat (- 12) 0%nat).
  - by vm_compute.
  - exact ds_reading_wf.
  - right. by vm_compute.
  - by vm_compute.
  - by vm_compute.
  - by vm_compute.
  - exact prison1_wf.
  - exact cell0_linked.
Defined.

End Failing_copies.

(** ** A kernel without memory for new_mappings *)

Section No_memory.
Import Examples More_examples.
#[local] Existing Instance example_kernel_no_memory.

(** Two reads on the deferred list and no new_mapping to be had. *)
Lemma process_deferred_bios_drops_popped_bio_witness :
  process_deferred_bios stack_zeros pool_deferred = Some
      (set_deferred_bios [24%nat] pool_deferred).
Proof.
  apply (process_deferred_bios_drops_popped_bio stack_zeros pool_deferred
           22%nat [24%nat]).
  - by vm_compute.
  - by vm_compute.
  - by vm_compute.
  - by vm_compute.
Defined.

End No_memory.
